(* ===== verification/_CoqProject ===== *)
-Q . S2P
Prelude.v
GoStr.v
Bytes.v
Base64.v
JsonText.v
Toy.v
NetUrl.v
SequenceId.v
WalPage.v
Wal.v
WalNames.v
WalLog.v
WalOpen.v
WalReplay.v
WalTerm.v
WalDurable.v
Storage.v
KvStore.v
KvSession.v
MemStore.v
MemSync.v
Ha.v
HttpEndpoint.v
NetIP.v
Dns.v
JsonPayload.v
Cluster.v
DnsDyn.v
HttpDns.v
KvService.v
Replication.v
Spskv.v
Main.v
Process.v
