(* ===== verification/Prelude.v ===== *)
(** * NekoQ-Bootstrap: a verification development

    The program (Go, src/) is the node every other service of a data centre
    needs first: it answers DNS questions, keeps a registry of services shared
    by a few peer nodes, and offers a small durable key-value store.  The
    development models its core as executable definitions in a
    state-and-outcome monad (this file) and proves what each part promises.

    ** Parts of the program and files of the development

    - internal/wal/wal.go, internal/iface/wal.go - the write-ahead log.
      [SequenceId]: positions.  [WalPage]: the page of one record,
      [prepareDataBufByPage] and [pageRecordsInfo].  [Wal]: [DiskWal] and all
      its operations over a folder ([World]: the state of the object, the files
      with what is synced, and a schedule of operating-system faults).
      [WalNames]: file names and their order.  [WalLog]: the abstract log, the
      invariant [wal_inv] and the refinement of [WriteEntry].  [WalOpen]:
      [Initialize], and the life of a log.  [WalReplay]: [ReplayIncomplete].
      [WalTerm]: every loop of the log ends, on any schedule of faults.
      [WalDurable]: what a power loss keeps - of each file a prefix that
      contains what was synced.
    - internal/storage, internal/iface/storage.go - [Storage]: the interface
      (class [KVStorageAdv], its contract [KVLaws]) and [DiskvStorage], which
      meets the contract over the diskv library.
    - internal/service/solestorage.go - [KvStore]: [KVStorageAdvImpl], log plus
      storage, proved against [KVLaws] and the theorems of the log; crashes are
      prefixes of [Put], followed by [restart] and [Initialize].
      [KvSession]: the life of a store from [NewKVStorageAdv] on - any sequence
      of puts, restarts and processes stopped inside a put.
    - storage.mem.go, storage.shared.go - [MemStore]: every method of the
      in-memory registry and its static domains.  [MemSync]: two stores, a
      source and a peer, as a step relation in which answers travel and can be
      lost.
    - core.ha.go, core.ha.peertalk.go - [Ha]: the cluster endpoints, the health
      check, the sync worker, the address a peer is called at
      ([innerUrlResolve]), the client calls and the peer loop (a state machine,
      one transition per iteration).
    - endpoint.http.go - [HttpEndpoint]: publish, query and cleanup, with the
      module's own step relation, in which a publish is two steps.
    - the JSON of all of these - [JsonPayload]: the encoder and the decoder of
      every type the source marshals, over [JsonText] (encoding/json) and
      [Base64] (encoding/base64).
    - a node as a whole - [Cluster]: the cluster module and the registry over
      one store ([Server]) with the publishes under way, everything that can
      happen to them ([server_step]), and a round of the peer worker between
      two nodes ([peer_round]).
    - internal/dnscore - [NetIP]: addresses and reverse names.  [Dns]: record
      handlers, upstream and enclosed domains, cache, endpoint.
      [HttpDns]: the same pipeline over HTTPS.
    - internal/dnsdyn - [DnsDyn]: the tables of the configuration service, its
      start and its changes.
    - internal/service/respservice*.go, httpservice.go, internal/httpserver,
      client/http.go - [KvService]: the RESP commands, the HTTP resource and its
      client over a storage.
    - internal/replication, internal/iface/cluster.go - [Replication]: the
      replicator, its commands, its client, and a step relation of the node.
      internal/service/spskv.go - [Spskv]: the replicated store over it.
    - cmd/nekoq-bootstrap/main.go - [Main]: loading the static rules and making
      the DNS endpoint.  [Process]: [main] from the decoded file to the running
      parts and their goroutines, and the steps of the running process.
    - [Prelude], [GoStr], [Bytes], [Base64], [JsonText], [NetUrl] hold what the
      program uses of Go itself: outcomes (value, error, panic), runes, UTF-8,
      lower-casing, Sprintf and Sscanf of hexadecimal numbers, big-endian
      integers, CRC-32, paged reads, base64, JSON texts, URLs.
      [Toy] serves the concrete encoders of the witnesses.

    They interact as in the code: [KvStore] calls the log and the storage
    ([KVStorageAdv]); the services and the replicated store call [KvStore]; the
    registry endpoint and the HA module call [MemStore];
    the DNS endpoint asks a storage ([DnsStorage]), which is [MemStore] with
    [DnsDyn] nested in it.  [Server] and [Process] share the one store between
    the parts, so that a step of one is seen by the others.

    ** What the theorems show

    - Log: pages round-trip and a bad checksum is refused; [WriteEntry] appends
      exactly the records of an entry; through any life of writes and restarts
      without failures no file exceeds its bound; opening a folder finds the
      position the writer had returned; replay from a position delivers what was
      written since, in order, and its complete outcome for every position, on
      an empty log too; name order is position order; what is repaired, refused
      or panics on a damaged folder.
      All its operations end, whatever the operating system answers.  After a
      tick of the sync goroutine the current file survives a power loss; a file
      closed by a rotation need not, and then records are lost in the middle
      (an example).
    - Store: [Put], [Get], the position and the snapshot refine the list of
      puts; a process that stops inside a [Put] after its log write, and any
      number of restarts and such stops in the life of a store, lose nothing -
      with the exceptions the code has, each a theorem over any number of
      further restarts: the first entry of a log, an invalid key, an entry
      longer than a page; and the version key.
    - Registry: after a merge the served list is the union of the node and its
      peers; in every reachable state a full fetch makes the peer hold exactly
      the services of the source, and so does an incremental one unless an
      answer was lost since a full request - then the peer stays behind; at the
      level of the stores and over the HTTP endpoints; nothing leaves without
      the cluster secret; silent peers and silent clients are collected, with
      publishes in any interleaving; the peer loop's counters are bounded.
      Between two whole nodes: a service published at one is found at the other
      after a round of its worker, and gone when its client falls silent.
    - Encodings: what the nodes exchange survives JSON and base64; whatever
      bytes arrive, decoding returns an error or a well-typed value.
    - DNS: a stored record is answered as stored and cached for its TTL; the
      cache serves until the shortest TTL; exactly the enclosed names are
      answered locally; reverse names of IPv4 addresses; a changed configuration
      is served as a whole or not at all; a query over HTTPS is a query of the
      pipeline.
    - Process: it starts exactly when the configuration and the listeners allow
      it, with exactly the goroutines configured; afterwards, in every reachable
      state, a static rule is answered on the wire whatever the dynamic records
      say, a dynamic record otherwise; a peer is called at its stored address.
    - Services: a RESP session and the HTTP client both refine the map the
      storage keeps.
    - Replication: as the code stands it is inert - the peer maps are never
      made, the log functions it needs panic, and its client cannot read the
      replies - so writes are local whatever the role.

    ** Parameters

    Code outside src/ is a class: [Diskv] (diskv), [Cbor] and [SpsCbor] (the cbor
    encoder), [DnsNames], [DnsLib] and [DnsWire] (github.com/miekg/dns), [HttpDo]
    and [KvTransport] (the HTTP transport), [UnicodeData] (the Unicode lower-case
    table); what the configuration client, the TOML decoder and the profiling
    agent return are arguments ([ClientRun], [Outside]).  Their laws are classes
    of their own ([DiskvLaws], [CborLaws], [DnsLibLaws], [KvTransport],
    [UnicodeLaws]) that state the documented behaviour; concrete instances show
    that they can hold.  The stores, the endpoints and the handlers are proved
    against interfaces for their JSON ([Json], [HaJson], [ItemsJson], [SrvJson],
    with [JsonLaws] and [HaJsonLaws]); [JsonPayload] implements them as
    encoding/json does and discharges the laws, and [Cluster] and [Process] use
    these instances.  [MapRange] is the order in which Go visits a map: theorems
    hold for any.

    ** Bounds and fuel

    Go's int and int64 are [Z]; where a sum or a conversion is at a smaller
    width ([uint16] page lengths, [uint32] checksums and TTLs) it is written out
    modulo that width.  Theorems about positions assume the collection number
    stays 2^16 files below 2^63.  Five loops take fuel: the page loop
    ([file_fuel]), the write loop (one more than the bytes of the entry), the
    IPv6 parser (its eight groups), the trimming of spaces (the length of the
    string) and the JSON parser (twice the length of the text and two); the
    theorems about them have no outcome [NoFuel], and [WalTerm] shows that page
    sizes above the eight bytes of a page header are needed for that.  JSON
    texts nest at most 10000 deep, as in encoding/json.

    ** Not modelled

    Locks: a method that holds its lock is one step; [publishService], which
    takes two, is two.  The handlers of the cluster endpoints also take two locks
    and are one step in [ha_step]: [watch_outlives_client] shows what a long stop
    between them does.  Listeners ([Outside] has the error each ends with),
    routers, request parsing and logging are libraries; the request tracing is
    diagnostics nothing reads.
    SHA-256, which only names directories of the diskv library, and filepath.Abs
    are arguments of [NewDiskvStroage].  The decoding of the configuration file
    is the TOML library; the wait for a signal only ends the process.  What the
    goroutines do before the start is over sees fewer static rules, and is not a
    step of the process.  The outer loops of the workers are rounds of the step
    relations.

    ** Plan

    Next: the cluster handlers as two steps, two whole nodes whose rounds
    interleave over lost answers (done between stores), the routes of the HTTP
    servers, and the replicated store's commands over RESP. *)

From stdpp Require Import base list gmap strings.
From Stdlib Require Import ZArith Lia.

(** ** Outcomes of Go code

    A Go call returns a value, returns a non-nil [error], or panics.
    [NoFuel] only marks a loop that was given too few iterations; the
    theorems about loops show that it never occurs. *)

Inductive error :=
| ErrStorageNotFound            (* internal/shared/storage.go *)
| ErrKeyFormatInvalid           (* internal/storage/validation.go *)
| ErrNotPrimaryNode             (* internal/replication/simpleps.go *)
| ErrDoNotRespondResult         (* internal/dnscore/consts.go *)
| EOF                           (* io.EOF *)
| ErrUnexpectedEOF              (* io.ErrUnexpectedEOF *)
| NewError (msg : string)       (* errors.New(msg) in the source *)
| ExtError (msg : string).      (* an error of the OS or of a library *)

(** [err.Error()]. *)
Definition error_text (e : error) : string :=
  match e with
  | ErrStorageNotFound => "storage not found"
  | ErrKeyFormatInvalid => "key format invalid"
  | ErrNotPrimaryNode => "not primary node"
  | ErrDoNotRespondResult => "do not respond result"
  | EOF => "EOF"
  | ErrUnexpectedEOF => "unexpected EOF"
  | NewError msg | ExtError msg => msg
  end.

#[export] Instance error_eq_dec : EqDecision error.
Proof. solve_decision. Defined.

Inductive exec (A : Type) :=
| Ok (a : A)
| Fail (e : error)
| Panic (msg : string)
| NoFuel.
Arguments Ok {A} a.
Arguments Fail {A} e.
Arguments Panic {A} msg.
Arguments NoFuel {A}.

(** ** The state-and-outcome monad

    The state survives errors and panics, as mutated Go objects do. *)

Definition M (S A : Type) : Type := S -> exec A * S.

Definition ret {S A} (a : A) : M S A := fun s => (Ok a, s).
Definition fail {S A} (e : error) : M S A := fun s => (Fail e, s).
Definition panic {S A} (msg : string) : M S A := fun s => (Panic msg, s).
Definition nofuel {S A} : M S A := fun s => (NoFuel, s).

Definition bind {S A B} (m : M S A) (k : A -> M S B) : M S B :=
  fun s =>
    match m s with
    | (Ok a, s') => k a s'
    | (Fail e, s') => (Fail e, s')
    | (Panic msg, s') => (Panic msg, s')
    | (NoFuel, s') => (NoFuel, s')
    end.

Definition get {S} : M S S := fun s => (Ok s, s).
Definition gets {S A} (f : S -> A) : M S A := fun s => (Ok (f s), s).
Definition modify {S} (f : S -> S) : M S unit := fun s => (Ok tt, f s).

(** [catch m] is a call whose error the caller inspects instead of returning. *)
Definition catch {S A} (m : M S A) : M S (A + error) :=
  fun s =>
    match m s with
    | (Ok a, s') => (Ok (inl a), s')
    | (Fail e, s') => (Ok (inr e), s')
    | (Panic msg, s') => (Panic msg, s')
    | (NoFuel, s') => (NoFuel, s')
    end.

(** [on_fst m] and [on_snd m] run [m] on one component of a paired state. *)
Definition on_fst {S T A} (m : M S A) : M (S * T) A :=
  fun st => let '(r, s') := m st.1 in (r, (s', st.2)).
Definition on_snd {S T A} (m : M T A) : M (S * T) A :=
  fun st => let '(r, t') := m st.2 in (r, (st.1, t')).

(** A pure fallible computation, run in any state. *)
Definition lift {S A} (r : exec A) : M S A := fun s => (r, s).

Declare Scope go_scope.
Delimit Scope go_scope with go.
Notation "'let*' p ':=' c1 'in' c2" := (bind c1 (fun p => c2))
  (at level 100, p as pattern, c1 at next level, c2 at level 200, right associativity)
  : go_scope.

(** Calls without state: the error is returned as the source does. *)
Definition ebind {A B} (m : exec A) (k : A -> exec B) : exec B :=
  match m with
  | Ok a => k a
  | Fail e => Fail e
  | Panic msg => Panic msg
  | NoFuel => NoFuel
  end.

Notation "'let!' p ':=' c1 'in' c2" := (ebind c1 (fun p => c2))
  (at level 100, p as pattern, c1 at next level, c2 at level 200, right associativity)
  : go_scope.

(** [foldM f a l]: the calls of a loop, which stops at the first error. *)
Fixpoint foldM {A B} (f : A -> B -> exec A) (a : A) (l : list B) : exec A :=
  match l with
  | [] => Ok a
  | b :: l => ebind (f a b) (fun a => foldM f a l)
  end.

(** ** Machine integers

    Go's fixed-width integers are integers [Z]; every operation of the source
    that can overflow is written with the conversion of its type. *)

Definition uint16 (z : Z) : Z := (z mod 2 ^ 16)%Z.
Definition uint32 (z : Z) : Z := (z mod 2 ^ 32)%Z.
Definition int32 (z : Z) : Z := ((z + 2 ^ 31) mod 2 ^ 32 - 2 ^ 31)%Z.
Definition int64 (z : Z) : Z := ((z + 2 ^ 63) mod 2 ^ 64 - 2 ^ 63)%Z.

Definition MaxInt64 : Z := (2 ^ 63 - 1)%Z.

Lemma int64_small z : (- 2 ^ 63 <= z < 2 ^ 63)%Z -> int64 z = z.
Proof. intros H. unfold int64. rewrite Z.mod_small; lia. Qed.

Lemma int32_small z : (- 2 ^ 31 <= z < 2 ^ 31)%Z -> int32 z = z.
Proof. intros H. unfold int32. rewrite Z.mod_small; lia. Qed.

Lemma uint16_small z : (0 <= z < 2 ^ 16)%Z -> uint16 z = z.
Proof. intros H. unfold uint16. apply Z.mod_small; lia. Qed.

Lemma uint32_small z : (0 <= z < 2 ^ 32)%Z -> uint32 z = z.
Proof. intros H. unfold uint32. apply Z.mod_small; lia. Qed.

(** ** Equations and inversions of the monad *)

Section MonadLemmas.
Context {S A B : Type}.
Implicit Types (m : M S A) (k : A -> M S B) (s : S).

Lemma bind_ok m k s a s' : m s = (Ok a, s') -> bind m k s = k a s'.
Proof. unfold bind. by intros ->. Qed.

Lemma bind_fail m k s e s' : m s = (Fail e, s') -> bind m k s = (Fail e, s').
Proof. unfold bind. by intros ->. Qed.

Lemma bind_panic m k s msg s' : m s = (Panic msg, s') -> bind m k s = (Panic msg, s').
Proof. unfold bind. by intros ->. Qed.

Lemma bind_ok_inv m k s b s' :
  bind m k s = (Ok b, s') ->
  exists a s1, m s = (Ok a, s1) /\ k a s1 = (Ok b, s').
Proof. unfold bind. destruct (m s) as [[a|e|msg|] s1] eqn:E; naive_solver. Qed.

Lemma catch_ok m s a s' : m s = (Ok a, s') -> catch m s = (Ok (inl a), s').
Proof. unfold catch. by intros ->. Qed.

Lemma catch_fail m s e s' : m s = (Fail e, s') -> catch m s = (Ok (inr e), s').
Proof. unfold catch. by intros ->. Qed.
End MonadLemmas.

(** ** Lists *)

Lemma filter_none {A} (P : A -> Prop) `{!forall x, Decision (P x)} (l : list A) :
  Forall (fun x => ~ P x) l -> filter P l = [].
Proof.
  induction 1 as [|x l Hx _ IH]; [done|]. rewrite filter_cons.
  destruct (decide (P x)); [done|exact IH].
Qed.

Lemma filter_all {A} (P : A -> Prop) `{!forall x, Decision (P x)} (l : list A) :
  Forall P l -> filter P l = l.
Proof.
  induction 1 as [|x l Hx _ IH]; [done|]. rewrite filter_cons.
  destruct (decide (P x)); [by f_equal|done].
Qed.

Lemma Forall2_elem_l {A B} (P : A -> B -> Prop) l k x :
  Forall2 P l k -> x ∈ l -> exists y, y ∈ k /\ P x y.
Proof.
  intros HP (i & Hi)%list_elem_of_lookup. destruct (Forall2_lookup_l _ _ _ _ _ HP Hi) as (y & Hy & Hxy).
  exists y. split; [by eapply list_elem_of_lookup_2|done].
Qed.

Lemma Forall2_elem_r {A B} (P : A -> B -> Prop) l k y :
  Forall2 P l k -> y ∈ k -> exists x, x ∈ l /\ P x y.
Proof. intros HP Hy. apply (Forall2_elem_l (flip P) k l y); [by apply Forall2_flip|done]. Qed.

(** ** Invariants kept on every outcome *)

(** [keeps I m]: whatever [m] returns, it leaves [I] true. *)
Definition keeps {S A} (I : S -> Prop) (m : M S A) : Prop :=
  forall s, I s -> I (m s).2.

Create HintDb go discriminated.

Section Keeps.
Context {S : Type} (I : S -> Prop).

Lemma keeps_ret {A} (a : A) : keeps I (ret a).
Proof. by intros s. Qed.
Lemma keeps_fail {A} e : keeps I (@fail S A e).
Proof. by intros s. Qed.
Lemma keeps_panic {A} msg : keeps I (@panic S A msg).
Proof. by intros s. Qed.
Lemma keeps_nofuel {A} : keeps I (@nofuel S A).
Proof. by intros s. Qed.
Lemma keeps_lift {A} (r : exec A) : keeps I (lift r).
Proof. by intros s. Qed.
Lemma keeps_get : keeps I get.
Proof. by intros s. Qed.
Lemma keeps_gets {A} (f : S -> A) : keeps I (gets f).
Proof. by intros s. Qed.

Lemma keeps_bind {A B} (m : M S A) (k : A -> M S B) :
  keeps I m -> (forall a, keeps I (k a)) -> keeps I (bind m k).
Proof.
  intros Hm Hk s Hs. unfold bind. specialize (Hm s Hs).
  destruct (m s) as [[a|e|msg|] s']; simpl in *; try done. by apply Hk.
Qed.

Lemma keeps_catch {A} (m : M S A) : keeps I m -> keeps I (catch m).
Proof.
  intros Hm s Hs. unfold catch. specialize (Hm s Hs).
  by destruct (m s) as [[a|e|msg|] s'].
Qed.

Lemma keeps_modify (f : S -> S) : (forall s, I s -> I (f s)) -> keeps I (modify f).
Proof. intros Hf s Hs. by apply Hf. Qed.
End Keeps.

#[export] Hint Resolve keeps_ret keeps_fail keeps_panic keeps_nofuel keeps_lift
  keeps_get keeps_gets keeps_bind keeps_catch keeps_modify : go.

(** ** Tactics *)

(** Invert every [bind] of a successful run in the context. *)
Ltac run_inv :=
  repeat match goal with
  | H : bind _ _ _ = (Ok _, _) |- _ =>
      apply bind_ok_inv in H as (? & ? & ? & H)
  | H : ret _ _ = _ |- _ => unfold ret in H; simplify_eq
  | H : get _ = _ |- _ => unfold get in H; simplify_eq
  | H : gets _ _ = _ |- _ => unfold gets in H; simplify_eq
  | H : modify _ _ = _ |- _ => unfold modify in H; simplify_eq
  end.

(** Unfold the plumbing of the monad on a concrete call. *)
Ltac go_simpl :=
  cbv beta iota zeta delta [bind ret fail panic nofuel get gets modify catch lift fst snd].
