(* ===== verification/GoStr.v ===== *)
(** * Strings of the Go standard library

    A Go string is a sequence of bytes, here a [string] whose [ascii]
    characters are the bytes.  This file models what the source uses of
    [unicode/utf8], [strings] and [fmt]: rune decoding and encoding,
    [ToLower], [HasPrefix]/[HasSuffix], [Sprintf] with verb [%016x] and
    [Sscanf] with the same verb.  The one table that is not code, the Unicode
    simple lower-case mapping, is the class [UnicodeData]. *)

From stdpp Require Import base list strings.
From Stdlib Require Import ZArith Lia Ascii.
From S2P Require Import Prelude.
Local Open Scope Z_scope.

(** ** Definitions *)

Definition Z_of_ascii (a : ascii) : Z := Z.of_N (N_of_ascii a).
Definition ascii_of_Z (z : Z) : ascii := ascii_of_N (Z.to_N (z mod 256)).

Definition RuneError : Z := 65533.

Definition cont (z : Z) : bool := (128 <=? z) && (z <=? 191).
Definition between (lo hi z : Z) : bool := (lo <=? z) && (z <=? hi).

(** [[]rune(s)]: the UTF-8 decoding of [unicode/utf8], one [RuneError] per
    byte that starts no well-formed sequence. *)
Fixpoint runes (s : string) : list Z :=
  match s with
  | EmptyString => []
  | String a s1 =>
      let b0 := Z_of_ascii a in
      if b0 <? 128 then b0 :: runes s1
      else if between 194 223 b0 then
        match s1 with
        | String a1 s2 =>
            let b1 := Z_of_ascii a1 in
            if cont b1 then ((b0 - 192) * 64 + (b1 - 128)) :: runes s2
            else RuneError :: runes s1
        | _ => RuneError :: runes s1
        end
      else if between 224 239 b0 then
        match s1 with
        | String a1 (String a2 s3) =>
            let b1 := Z_of_ascii a1 in
            let b2 := Z_of_ascii a2 in
            if between (if b0 =? 224 then 160 else 128) (if b0 =? 237 then 159 else 191) b1
               && cont b2
            then ((b0 - 224) * 4096 + (b1 - 128) * 64 + (b2 - 128)) :: runes s3
            else RuneError :: runes s1
        | _ => RuneError :: runes s1
        end
      else if between 240 244 b0 then
        match s1 with
        | String a1 (String a2 (String a3 s4)) =>
            let b1 := Z_of_ascii a1 in
            let b2 := Z_of_ascii a2 in
            let b3 := Z_of_ascii a3 in
            if between (if b0 =? 240 then 144 else 128) (if b0 =? 244 then 143 else 191) b1
               && cont b2 && cont b3
            then ((b0 - 240) * 262144 + (b1 - 128) * 4096 + (b2 - 128) * 64 + (b3 - 128))
                   :: runes s4
            else RuneError :: runes s1
        | _ => RuneError :: runes s1
        end
      else RuneError :: runes s1
  end.

(** The bytes of a string, as integers. *)
Fixpoint codes (s : string) : list Z :=
  match s with
  | EmptyString => []
  | String a s => Z_of_ascii a :: codes s
  end.

(** A Unicode scalar value. *)
Definition valid_rune (r : Z) : bool :=
  (between 0 55295 r) || (between 57344 1114111 r).

(** [utf8.AppendRune]. *)
Definition rune_bytes (r0 : Z) : list Z :=
  let r := if valid_rune r0 then r0 else RuneError in
  if r <? 128 then [r]
  else if r <? 2048 then [192 + r / 64; 128 + r mod 64]
  else if r <? 65536 then [224 + r / 4096; 128 + (r / 64) mod 64; 128 + r mod 64]
  else [240 + r / 262144; 128 + (r / 4096) mod 64; 128 + (r / 64) mod 64; 128 + r mod 64].

Fixpoint bytes_str (l : list Z) : string :=
  match l with
  | [] => EmptyString
  | z :: l => String (ascii_of_Z z) (bytes_str l)
  end.

Fixpoint runes_str (rs : list Z) : string :=
  match rs with
  | [] => EmptyString
  | r :: rs => bytes_str (rune_bytes r) +:+ runes_str rs
  end.

(** The simple lower-case mapping of the Unicode Character Database
    ([unicode.ToLower]), with the three facts the proofs rely on. *)
Class UnicodeData := {
  unicode_ToLower : Z -> Z;
}.

Definition lower_byte (z : Z) : Z := if between 65 90 z then z + 32 else z.

Class UnicodeLaws (U : UnicodeData) : Prop := {
  unicode_ToLower_ascii : forall r, 0 <= r < 128 -> unicode_ToLower r = lower_byte r;
  unicode_ToLower_idem : forall r, unicode_ToLower (unicode_ToLower r) = unicode_ToLower r;
  unicode_ToLower_valid : forall r, valid_rune r = true -> valid_rune (unicode_ToLower r) = true;
}.

Fixpoint is_ascii (s : string) : bool :=
  match s with
  | EmptyString => true
  | String a s => (Z_of_ascii a <? 128) && is_ascii s
  end.

Fixpoint lower_ascii (s : string) : string :=
  match s with
  | EmptyString => EmptyString
  | String a s => String (ascii_of_Z (lower_byte (Z_of_ascii a))) (lower_ascii s)
  end.

(** [strings.ToLower]: the ASCII fast path, else [strings.Map] over the runes. *)
Definition ToLower `{UnicodeData} (s : string) : string :=
  if is_ascii s then lower_ascii s else runes_str (unicode_ToLower <$> runes s).

(** [strings.HasPrefix] and [strings.HasSuffix]. *)
Definition HasPrefix (s pre : string) : bool := String.prefix pre s.

Definition HasSuffix (s suf : string) : bool :=
  (String.length suf <=? String.length s)%nat
  && String.eqb (String.substring (String.length s - String.length suf) (String.length suf) s) suf.

(** The encodings of the runes of [unicode.IsSpace]. *)
Definition space_runes : list Z :=
  [9; 10; 11; 12; 13; 32; 0x85; 0xa0; 0x1680; 0x2000; 0x2001; 0x2002; 0x2003; 0x2004; 0x2005;
   0x2006; 0x2007; 0x2008; 0x2009; 0x200a; 0x2028; 0x2029; 0x202f; 0x205f; 0x3000].
Definition spaces : list (list ascii) := (fun r => ascii_of_Z <$> rune_bytes r) <$> space_runes.

Fixpoint strip (sp s : list ascii) : option (list ascii) :=
  match sp, s with
  | [], s => Some s
  | a :: sp, b :: s => if Ascii.eqb a b then strip sp s else None
  | _ :: _, [] => None
  end.

Fixpoint strip_any (sps : list (list ascii)) (s : list ascii) : option (list ascii) :=
  match sps with
  | [] => None
  | sp :: sps => match strip sp s with Some r => Some r | None => strip_any sps s end
  end.

(** Drop leading spaces; the fuel bounds their number. *)
Fixpoint trim (sps : list (list ascii)) (fuel : nat) (s : list ascii) : list ascii :=
  match fuel with
  | O => s
  | S fuel => match strip_any sps s with Some r => trim sps fuel r | None => s end
  end.

(** [strings.TrimSpace].  No encoding of a rune ends inside another, so dropping
    encoded spaces from the end is decoding backwards. *)
Definition TrimSpace (s : string) : string :=
  let l := String.list_ascii_of_string s in
  let l := trim spaces (length l) l in
  let r := trim (@rev ascii <$> spaces) (length l) (rev l) in
  String.string_of_list_ascii (rev r).

(** *** Hexadecimal *)

Definition hex_digit (d : Z) : ascii :=
  ascii_of_Z (if d <? 10 then 48 + d else 87 + d).

(** The [n] low hexadecimal digits of [u], most significant first. *)
Fixpoint hex_fix (n : nat) (u : Z) : string :=
  match n with
  | O => EmptyString
  | S n => hex_fix n (u / 16) +:+ String (hex_digit (u mod 16)) EmptyString
  end.

Definition hex_len (u : Z) : nat :=
  if u =? 0 then 1%nat else S (Z.to_nat (Z.log2 u / 4)).

(** [u] in hexadecimal, zero-padded to at least [n] digits. *)
Definition hex_pad (n : nat) (u : Z) : string := hex_fix (Nat.max n (hex_len u)) u.

(** [fmt.Sprintf] with verb [%016x] on an [int64]: the sign counts in the width. *)
Definition fmt_016x (z : Z) : string :=
  if z <? 0 then String "-" (hex_pad 15 (- z)) else hex_pad 16 z.

(** *** Scanning *)

(** [isSpace] of [fmt]. *)
Definition is_space (r : Z) : bool :=
  between 9 13 r || (r =? 32) || (r =? 133) || (r =? 160) || (r =? 5760)
  || between 8192 8202 r || (r =? 8232) || (r =? 8233) || (r =? 8239)
  || (r =? 8287) || (r =? 12288).

(** [SkipSpace] of a [Sscanf]: [None] is the error on a newline. *)
Fixpoint skip_space (rs : list Z) : option (list Z) :=
  match rs with
  | [] => Some []
  | r :: rs' =>
      if (r =? 13) && (match rs' with r' :: _ => r' =? 10 | [] => false end)
      then skip_space rs'
      else if r =? 10 then None
      else if is_space r then skip_space rs' else Some rs
  end.

Definition hex_value (r : Z) : option Z :=
  if between 48 57 r then Some (r - 48)
  else if between 97 102 r then Some (r - 87)
  else if between 65 70 r then Some (r - 55)
  else None.

(** Accept up to [n] hexadecimal digits; the value read, how many, the rest. *)
Fixpoint take_hex (n : nat) (acc : Z) (cnt : nat) (rs : list Z) : Z * nat * list Z :=
  match n, rs with
  | S n, r :: rs' =>
      match hex_value r with
      | Some d => take_hex n (acc * 16 + d) (S cnt) rs'
      | None => (acc, cnt, rs)
      end
  | _, _ => (acc, cnt, rs)
  end.

(** One [%016x] field read into an [int64]: [None] is any scan error, the
    range error of [strconv.ParseInt] included. *)
Definition scan_016x (rs : list Z) : option (Z * list Z) :=
  match skip_space rs with
  | None => None
  | Some rs =>
      let '(neg, width, rs) :=
        match rs with
        | r :: rs' => if r =? 45 then (true, 15%nat, rs')
                      else if r =? 43 then (false, 15%nat, rs')
                      else (false, 16%nat, rs)
        | [] => (false, 16%nat, rs)
        end in
      let '(v, cnt, rs) := take_hex width 0 0 rs in
      if (cnt =? 0)%nat then None
      else if neg then (if v <=? 2 ^ 63 then Some (- v, rs) else None)
      else (if v <? 2 ^ 63 then Some (v, rs) else None)
  end.

(** [fmt.Sscanf] with two [%016x] fields; text after the second is ignored. *)
Definition Sscanf_2x (s : string) : option (Z * Z) :=
  match scan_016x (runes s) with
  | Some (v1, rs) =>
      match scan_016x rs with
      | Some (v2, _) => Some (v1, v2)
      | None => None
      end
  | None => None
  end.

(** ** Bytes and runes *)

Lemma Z_of_ascii_bound a : 0 <= Z_of_ascii a < 256.
Proof.
  unfold Z_of_ascii. pose proof (N_ascii_bounded a). lia.
Qed.

Lemma ascii_of_Z_of_ascii a : ascii_of_Z (Z_of_ascii a) = a.
Proof.
  unfold ascii_of_Z, Z_of_ascii. pose proof (Z_of_ascii_bound a) as Hb.
  unfold Z_of_ascii in Hb. rewrite Z.mod_small by lia.
  rewrite N2Z.id. apply ascii_N_embedding.
Qed.

Lemma Z_of_ascii_of_Z z : Z_of_ascii (ascii_of_Z z) = z mod 256.
Proof.
  unfold ascii_of_Z, Z_of_ascii. pose proof (Z.mod_pos_bound z 256).
  rewrite N_ascii_embedding by lia. lia.
Qed.

Lemma Z_of_ascii_small z : 0 <= z < 256 -> Z_of_ascii (ascii_of_Z z) = z.
Proof. intros. rewrite Z_of_ascii_of_Z. apply Z.mod_small. lia. Qed.

Lemma Z_of_ascii_inj a b : Z_of_ascii a = Z_of_ascii b -> a = b.
Proof. intros H. by rewrite <-(ascii_of_Z_of_ascii a), H, ascii_of_Z_of_ascii. Qed.

(** Decide the boolean tests of the source on integers. *)
Ltac step_ifs :=
  repeat match goal with
  | |- (if ?c then _ else _) = _ =>
      first [ assert (c = true) as -> by lia | assert (c = false) as -> by lia ]
  end.

Lemma append_cons a s t : String a s +:+ t = String a (s +:+ t).
Proof. done. Qed.

Lemma append_nil s : EmptyString +:+ s = s.
Proof. done. Qed.

Lemma valid_rune_spec r :
  valid_rune r = true <-> (0 <= r <= 55295 \/ 57344 <= r <= 1114111).
Proof. unfold valid_rune, between. lia. Qed.

Lemma split_64 r : r = r / 64 * 64 + r mod 64 /\ 0 <= r mod 64 < 64.
Proof. split; [pose proof (Z.div_mod r 64); lia | apply Z.mod_pos_bound; lia]. Qed.

(** Decoding of one sequence of each length. *)
Lemma runes_seq1 b0 s :
  0 <= b0 < 128 -> runes (bytes_str [b0] +:+ s) = b0 :: runes s.
Proof.
  intros. cbn [bytes_str]. rewrite append_cons, append_nil. cbn [runes].
  rewrite Z_of_ascii_small by lia. step_ifs. done.
Qed.

Lemma runes_seq2 b0 b1 s :
  194 <= b0 <= 223 -> 128 <= b1 <= 191 ->
  runes (bytes_str [b0; b1] +:+ s) = ((b0 - 192) * 64 + (b1 - 128)) :: runes s.
Proof.
  intros. cbn [bytes_str]. rewrite !append_cons, append_nil. cbn [runes].
  rewrite !Z_of_ascii_small by lia. unfold between, cont. step_ifs. done.
Qed.

Lemma runes_seq3 b0 b1 b2 s :
  224 <= b0 <= 239 -> 128 <= b1 <= 191 -> 128 <= b2 <= 191 ->
  (b0 = 224 -> 160 <= b1) -> (b0 = 237 -> b1 <= 159) ->
  runes (bytes_str [b0; b1; b2] +:+ s)
  = ((b0 - 224) * 4096 + (b1 - 128) * 64 + (b2 - 128)) :: runes s.
Proof.
  intros ? ? ? Hlo Hhi. cbn [bytes_str]. rewrite !append_cons, append_nil. cbn [runes].
  rewrite !Z_of_ascii_small by lia. unfold between, cont.
  destruct (Z.eqb_spec b0 224) as [E|E], (Z.eqb_spec b0 237) as [E'|E'];
    try specialize (Hlo E); try specialize (Hhi E'); try lia; step_ifs; done.
Qed.

Lemma runes_seq4 b0 b1 b2 b3 s :
  240 <= b0 <= 244 -> 128 <= b1 <= 191 -> 128 <= b2 <= 191 -> 128 <= b3 <= 191 ->
  (b0 = 240 -> 144 <= b1) -> (b0 = 244 -> b1 <= 143) ->
  runes (bytes_str [b0; b1; b2; b3] +:+ s)
  = ((b0 - 240) * 262144 + (b1 - 128) * 4096 + (b2 - 128) * 64 + (b3 - 128)) :: runes s.
Proof.
  intros ? ? ? ? Hlo Hhi. cbn [bytes_str]. rewrite !append_cons, append_nil. cbn [runes].
  rewrite !Z_of_ascii_small by lia. unfold between, cont.
  destruct (Z.eqb_spec b0 240) as [E|E], (Z.eqb_spec b0 244) as [E'|E'];
    try specialize (Hlo E); try specialize (Hhi E'); try lia; step_ifs; done.
Qed.

(** Decoding inverts encoding on scalar values. *)
Lemma runes_rune_bytes r s :
  valid_rune r = true -> runes (bytes_str (rune_bytes r) +:+ s) = r :: runes s.
Proof.
  intros Hv. unfold rune_bytes. rewrite Hv. apply valid_rune_spec in Hv.
  pose proof (split_64 r) as H1. pose proof (split_64 (r / 64)) as H64.
  pose proof (split_64 (r / 4096)) as H4096.
  rewrite (Z.div_div r 64 64) in H64 by lia. change (64 * 64) with 4096 in H64.
  rewrite (Z.div_div r 4096 64) in H4096 by lia. change (4096 * 64) with 262144 in H4096.
  destruct (Z.ltb_spec r 128); [|destruct (Z.ltb_spec r 2048);
    [|destruct (Z.ltb_spec r 65536)]].
  - apply runes_seq1. lia.
  - rewrite runes_seq2 by lia. f_equal. lia.
  - rewrite runes_seq3 by lia. f_equal. lia.
  - rewrite runes_seq4 by lia. f_equal. lia.
Qed.

Lemma runes_runes_str rs :
  Forall (fun r => valid_rune r = true) rs -> runes (runes_str rs) = rs.
Proof.
  induction 1 as [|r rs Hr _ IH]; [done|].
  cbn [runes_str]. by rewrite runes_rune_bytes, IH.
Qed.

Lemma runes_ascii_cons a s :
  Z_of_ascii a < 128 -> runes (String a s) = Z_of_ascii a :: runes s.
Proof. intros H. cbn [runes]. destruct (Z.ltb_spec (Z_of_ascii a) 128); [done|lia]. Qed.

(** Every decoded rune is a scalar value. *)
Lemma runes_valid s : Forall (fun r => valid_rune r = true) (runes s).
Proof.
  assert (Hn : forall n s, (String.length s <= n)%nat ->
            Forall (fun r => valid_rune r = true) (runes s)); [|by eapply Hn].
  clear s. induction n as [|n IH]; intros [|a s1] Hlen; cbn [String.length] in Hlen;
    try lia; try by constructor.
  pose proof (Z_of_ascii_bound a).
  assert (IH1 : Forall (fun r => valid_rune r = true) (runes s1)) by (apply IH; lia).
  assert (Herr : valid_rune RuneError = true) by done.
  cbn [runes].
  destruct (Z.ltb_spec (Z_of_ascii a) 128).
  { constructor; [apply valid_rune_spec; lia|done]. }
  unfold between, cont.
  repeat match goal with
  | |- context [match ?s with EmptyString => _ | String _ _ => _ end] =>
      is_var s; destruct s as [|? ?]
  | |- Forall _ (if ?b then _ else _) => destruct b eqn:?
  end; cbn [String.length] in *;
  constructor; try done; try (apply IH; cbn [String.length]; lia);
  apply valid_rune_spec; repeat rewrite ?andb_true_iff, ?Z.leb_le in *;
  repeat match goal with
  | H : context [Z_of_ascii ?a =? _] |- _ => destruct (Z.eqb_spec (Z_of_ascii a) 224),
      (Z.eqb_spec (Z_of_ascii a) 237), (Z.eqb_spec (Z_of_ascii a) 240),
      (Z.eqb_spec (Z_of_ascii a) 244); try lia
  end; lia.
Qed.

(** A byte outside ASCII starts a rune outside ASCII. *)
Lemma runes_high a s :
  128 <= Z_of_ascii a -> exists r rs, runes (String a s) = r :: rs /\ 128 <= r.
Proof.
  intros H. cbn [runes]. destruct (Z.ltb_spec (Z_of_ascii a) 128); [lia|].
  unfold between, cont, RuneError.
  repeat match goal with
  | |- context [match ?s with EmptyString => _ | String _ _ => _ end] =>
      is_var s; destruct s as [|? ?]
  | |- context [if ?b then _ else _] => destruct b eqn:?
  end;
  eexists _, _; (split; [reflexivity|]);
  repeat rewrite ?andb_true_iff, ?Z.leb_le, ?Z.eqb_eq, ?Z.eqb_neq in *;
  try lia; repeat match goal with
  | H : context [if ?b then _ else _] |- _ => destruct b eqn:?
  end; repeat rewrite ?Z.eqb_eq, ?Z.eqb_neq in *; lia.
Qed.

(** ** Lower case *)

Lemma is_ascii_runes s : is_ascii s = true -> Forall (fun r => 0 <= r < 128) (runes s).
Proof.
  induction s as [|a s IH]; intros H; [constructor|].
  cbn [is_ascii] in H. apply andb_true_iff in H as [H1 H2].
  rewrite runes_ascii_cons by lia. constructor; [|by apply IH].
  pose proof (Z_of_ascii_bound a). lia.
Qed.

Lemma lower_byte_range z : 0 <= z < 128 -> 0 <= lower_byte z < 128.
Proof. unfold lower_byte, between. intros. destruct (_ && _) eqn:E; lia. Qed.

Lemma lower_byte_idem z : lower_byte (lower_byte z) = lower_byte z.
Proof.
  unfold lower_byte, between.
  destruct ((65 <=? z) && (z <=? 90)) eqn:E; [|by rewrite E].
  assert (((65 <=? z + 32) && (z + 32 <=? 90)) = false) as -> by lia. done.
Qed.

Lemma is_ascii_lower s : is_ascii s = true -> is_ascii (lower_ascii s) = true.
Proof.
  induction s as [|a s IH]; [done|]. cbn [is_ascii lower_ascii].
  rewrite !andb_true_iff. intros [H1 H2]. split; [|by apply IH].
  pose proof (Z_of_ascii_bound a). pose proof (lower_byte_range (Z_of_ascii a)).
  rewrite Z_of_ascii_small by lia. lia.
Qed.

Lemma lower_ascii_idem s : is_ascii s = true -> lower_ascii (lower_ascii s) = lower_ascii s.
Proof.
  induction s as [|a s IH]; [done|]. cbn [is_ascii lower_ascii].
  rewrite andb_true_iff. intros [H1 H2]. rewrite IH by done. f_equal. f_equal.
  pose proof (Z_of_ascii_bound a). pose proof (lower_byte_range (Z_of_ascii a)).
  rewrite Z_of_ascii_small by lia. apply lower_byte_idem.
Qed.

Section Lower.
Context `{U : UnicodeData} {L : UnicodeLaws U}.

Lemma runes_lower_ascii s :
  is_ascii s = true -> runes (lower_ascii s) = unicode_ToLower <$> runes s.
Proof.
  induction s as [|a s IH]; [done|]. cbn [is_ascii lower_ascii].
  rewrite andb_true_iff. intros [H1 H2].
  pose proof (Z_of_ascii_bound a). pose proof (lower_byte_range (Z_of_ascii a)).
  rewrite !runes_ascii_cons; rewrite ?Z_of_ascii_small by lia; try lia.
  cbn [fmap list_fmap]. rewrite unicode_ToLower_ascii, IH by (done || lia). done.
Qed.

(** On both paths the runes of the result are the lower-cased runes. *)
Lemma runes_ToLower s : runes (ToLower s) = unicode_ToLower <$> runes s.
Proof.
  unfold ToLower. destruct (is_ascii s) eqn:E; [by apply runes_lower_ascii|].
  apply runes_runes_str. apply Forall_fmap.
  eapply Forall_impl; [apply runes_valid|]. intros r Hr.
  by apply unicode_ToLower_valid.
Qed.

Lemma runes_str_ascii s : is_ascii s = true -> runes_str (runes s) = s.
Proof.
  induction s as [|a s IH]; [done|]. cbn [is_ascii]. rewrite andb_true_iff. intros [H1 H2].
  pose proof (Z_of_ascii_bound a).
  rewrite runes_ascii_cons by lia. cbn [runes_str]. rewrite IH by done.
  unfold rune_bytes.
  assert (valid_rune (Z_of_ascii a) = true) as -> by (apply valid_rune_spec; lia).
  assert ((Z_of_ascii a <? 128) = true) as -> by lia.
  cbn [bytes_str]. by rewrite ascii_of_Z_of_ascii.
Qed.

Lemma runes_str_fmap_idem s :
  runes_str (unicode_ToLower <$> runes (ToLower s)) = runes_str (runes (ToLower s)).
Proof.
  rewrite runes_ToLower, <-list_fmap_compose. f_equal.
  apply list_fmap_ext. intros _ r _. apply unicode_ToLower_idem.
Qed.

(** Lower-casing twice is lower-casing once. *)
Lemma ToLower_idem s : ToLower (ToLower s) = ToLower s.
Proof.
  unfold ToLower at 1. destruct (is_ascii (ToLower s)) eqn:E.
  - destruct (is_ascii s) eqn:Es.
    + unfold ToLower. rewrite Es. by apply lower_ascii_idem.
    + rewrite <-(runes_str_ascii (lower_ascii _)) by by apply is_ascii_lower.
      rewrite runes_lower_ascii by done.
      rewrite runes_str_fmap_idem. by apply runes_str_ascii.
  - rewrite runes_str_fmap_idem. rewrite runes_ToLower.
    destruct (is_ascii s) eqn:Es.
    + unfold ToLower in E. rewrite Es in E. by rewrite is_ascii_lower in E.
    + unfold ToLower. by rewrite Es.
Qed.
End Lower.

(** ** Hexadecimal *)

Lemma append_assoc (s t u : string) : (s +:+ t) +:+ u = s +:+ (t +:+ u).
Proof. induction s as [|a s IH]; [done|]. by rewrite !append_cons, IH. Qed.

Lemma append_empty_r (s : string) : s +:+ EmptyString = s.
Proof. induction s as [|a s IH]; [done|]. by rewrite append_cons, IH. Qed.

Lemma length_append (s t : string) :
  String.length (s +:+ t) = (String.length s + String.length t)%nat.
Proof. induction s as [|a s IH]; [done|]. rewrite append_cons. cbn. by rewrite IH. Qed.

Lemma length_hex_fix n u : String.length (hex_fix n u) = n.
Proof.
  revert u. induction n as [|n IH]; intros u; [done|].
  cbn [hex_fix]. rewrite length_append, IH. cbn. lia.
Qed.

Lemma hex_len_le n u : 0 <= u < 16 ^ Z.of_nat n -> (0 < n)%nat -> (hex_len u <= n)%nat.
Proof.
  intros [H0 H] Hn. unfold hex_len. destruct (Z.eqb_spec u 0); [lia|].
  assert (Z.log2 u < 4 * Z.of_nat n).
  { apply Z.log2_lt_pow2; [lia|]. rewrite Z.pow_mul_r by lia. done. }
  pose proof (Z.log2_nonneg u).
  assert (Z.log2 u / 4 < Z.of_nat n) by (apply Z.div_lt_upper_bound; lia).
  assert (0 <= Z.log2 u / 4) by (apply Z.div_pos; lia). lia.
Qed.

Lemma fmt_016x_nonneg z : 0 <= z < 2 ^ 63 -> fmt_016x z = hex_fix 16 z.
Proof.
  intros H. unfold fmt_016x, hex_pad. assert ((z <? 0) = false) as -> by lia.
  rewrite Nat.max_l; [done|]. apply hex_len_le; lia.
Qed.

Lemma Z_of_hex_digit d : 0 <= d < 16 ->
  Z_of_ascii (hex_digit d) = if d <? 10 then 48 + d else 87 + d.
Proof.
  intros H. unfold hex_digit. apply Z_of_ascii_small. destruct (Z.ltb_spec d 10); lia.
Qed.

Lemma hex_value_digit d : 0 <= d < 16 ->
  hex_value (if d <? 10 then 48 + d else 87 + d) = Some d.
Proof.
  intros H. unfold hex_value, between. destruct (Z.ltb_spec d 10); step_ifs; f_equal; lia.
Qed.

Lemma runes_app s t : is_ascii s = true -> runes (s +:+ t) = runes s ++ runes t.
Proof.
  induction s as [|a s IH]; [done|]. cbn [is_ascii]. rewrite andb_true_iff. intros [H1 H2].
  rewrite append_cons, !runes_ascii_cons by lia. by rewrite IH.
Qed.

Lemma is_ascii_app s t : is_ascii (s +:+ t) = is_ascii s && is_ascii t.
Proof.
  induction s as [|a s IH]; [done|]. rewrite append_cons. cbn [is_ascii].
  by rewrite IH, andb_assoc.
Qed.

Lemma is_ascii_hex_fix n u : is_ascii (hex_fix n u) = true.
Proof.
  revert u. induction n as [|n IH]; intros u; [done|].
  cbn [hex_fix]. rewrite is_ascii_app, IH. cbn [is_ascii andb].
  pose proof (Z.mod_pos_bound u 16). rewrite Z_of_hex_digit by lia.
  destruct (Z.ltb_spec (u mod 16) 10); lia.
Qed.

(** The value accumulated over a list of digit runes. *)
Definition hex_fold (acc : Z) (l : list Z) : Z :=
  fold_left (fun acc r => acc * 16 + default 0 (hex_value r)) l acc.

Lemma take_hex_app l m acc cnt rs :
  Forall (fun r => is_Some (hex_value r)) l ->
  take_hex (length l + m) acc cnt (l ++ rs)
  = take_hex m (hex_fold acc l) (cnt + length l) rs.
Proof.
  intros Hl. revert acc cnt. induction Hl as [|r l [d Hd] _ IH]; intros acc cnt.
  - by rewrite Nat.add_0_r.
  - cbn [length Nat.add app take_hex]. rewrite Hd, IH.
    unfold hex_fold. cbn [fold_left]. rewrite Hd. cbn. f_equal. lia.
Qed.

Lemma runes_hex_fix_S n u :
  runes (hex_fix (S n) u)
  = runes (hex_fix n (u / 16)) ++ [if u mod 16 <? 10 then 48 + u mod 16 else 87 + u mod 16].
Proof.
  cbn [hex_fix]. rewrite runes_app by apply is_ascii_hex_fix. f_equal.
  pose proof (Z.mod_pos_bound u 16).
  rewrite runes_ascii_cons; rewrite Z_of_hex_digit by lia; [done|].
  destruct (Z.ltb_spec (u mod 16) 10); lia.
Qed.

Lemma hex_fix_digits n u :
  length (runes (hex_fix n u)) = n
  /\ Forall (fun r => is_Some (hex_value r)) (runes (hex_fix n u))
  /\ (0 <= u < 16 ^ Z.of_nat n -> forall acc,
        hex_fold acc (runes (hex_fix n u)) = acc * 16 ^ Z.of_nat n + u).
Proof.
  revert u. induction n as [|n IH]; intros u.
  { split_and!; [done|constructor|]. intros Hu acc. cbn. change (16 ^ Z.of_nat 0) with 1 in Hu. lia. }
  destruct (IH (u / 16)) as (Hlen & Hd & Hf).
  pose proof (Z.mod_pos_bound u 16 ltac:(lia)) as Hm.
  rewrite runes_hex_fix_S. split_and!.
  - rewrite length_app, Hlen. cbn. lia.
  - apply Forall_app. split; [done|]. constructor; [|done]. by rewrite hex_value_digit.
  - intros Hu acc. rewrite Nat2Z.inj_succ, Z.pow_succ_r in * by lia.
    unfold hex_fold. rewrite fold_left_app. fold (hex_fold acc (runes (hex_fix n (u / 16)))).
    rewrite Hf by (split; [apply Z.div_pos; lia|apply Z.div_lt_upper_bound; lia]).
    cbn [fold_left]. rewrite hex_value_digit by done. cbn.
    pose proof (Z.div_mod u 16). nia.
Qed.

Lemma skip_space_id rs :
  (forall r, head rs = Some r -> is_Some (hex_value r)) -> skip_space rs = Some rs.
Proof.
  destruct rs as [|r rs]; [done|]. intros H. destruct (H r eq_refl) as [d Hd].
  unfold hex_value, between in Hd. cbn [skip_space]. unfold is_space, between.
  assert (48 <= r <= 57 \/ 97 <= r <= 102 \/ 65 <= r <= 70).
  { destruct (_ && _) eqn:E1 in Hd; [lia|]. destruct (_ && _) eqn:E2 in Hd; [lia|].
    destruct (_ && _) eqn:E3 in Hd; [lia|done]. }
  assert ((r =? 13) = false) as -> by lia. cbn [andb].
  assert ((r =? 10) = false) as -> by lia.
  match goal with |- (if ?c then _ else _) = _ => assert (c = false) as -> by lia end.
  done.
Qed.

(** Scanning a printed field gives the number back and consumes exactly it. *)
Lemma scan_hex_fix u rs :
  0 <= u < 2 ^ 63 -> scan_016x (runes (hex_fix 16 u) ++ rs) = Some (u, rs).
Proof.
  intros Hu. destruct (hex_fix_digits 16 u) as (Hlen & Hd & Hf).
  specialize (Hf ltac:(change (16 ^ Z.of_nat 16) with (2 ^ 64); lia) 0).
  destruct (runes (hex_fix 16 u)) as [|r l] eqn:El; [done|].
  inversion Hd as [|? ? [d Hr] Hd']; subst.
  unfold scan_016x. rewrite skip_space_id by (intros ? [= <-]; eauto).
  cbn [app].
  assert (r <> 45 /\ r <> 43) as [Hm Hp].
  { unfold hex_value, between in Hr. split; intros ->; done. }
  assert ((r =? 45) = false) as -> by lia. assert ((r =? 43) = false) as -> by lia.
  change (r :: l ++ rs) with ((r :: l) ++ rs). rewrite <-El in Hd, Hlen, Hf |- *.
  rewrite <-(Nat.add_0_r 16), <-Hlen at 1. rewrite take_hex_app by done.
  rewrite Hf, Hlen. cbn [take_hex]. cbn [Nat.add Nat.eqb].
  assert ((0 * 16 ^ Z.of_nat 16 + u <? 2 ^ 63) = true) as -> by lia.
  by do 2 f_equal.
Qed.

Lemma Sscanf_2x_print u v :
  0 <= u < 2 ^ 63 -> 0 <= v < 2 ^ 63 ->
  Sscanf_2x (hex_fix 16 u +:+ hex_fix 16 v) = Some (u, v).
Proof.
  intros Hu Hv. unfold Sscanf_2x. rewrite runes_app by apply is_ascii_hex_fix.
  rewrite scan_hex_fix by done. rewrite <-(app_nil_r (runes (hex_fix 16 v))).
  by rewrite scan_hex_fix.
Qed.

(** ** Byte-wise order of strings, the order of [slices.Sort] and of [<] *)

Definition str_le (s t : string) : Prop := String.leb s t = true.

#[export] Instance str_le_dec : RelDecision str_le.
Proof. intros s t. unfold str_le. apply _. Defined.

Lemma ascii_compare_Z a b : Ascii.compare a b = Z.compare (Z_of_ascii a) (Z_of_ascii b).
Proof. unfold Ascii.compare, Z_of_ascii. by rewrite N2Z.inj_compare. Qed.

Lemma str_compare_cons a b s t :
  String.compare (String a s) (String b t)
  = match Z.compare (Z_of_ascii a) (Z_of_ascii b) with
    | Eq => String.compare s t | c => c end.
Proof. cbn [String.compare]. by rewrite ascii_compare_Z. Qed.

Lemma str_compare_app s s' t t' :
  String.length s = String.length s' ->
  String.compare (s +:+ t) (s' +:+ t')
  = match String.compare s s' with Eq => String.compare t t' | c => c end.
Proof.
  revert s'. induction s as [|a s IH]; intros [|b s'] H; cbn in H; try lia; [done|].
  rewrite !append_cons, !str_compare_cons, IH by lia. by destruct (_ ?= _).
Qed.

Lemma str_le_compare s t : str_le s t <-> String.compare s t <> Gt.
Proof. unfold str_le, String.leb. destruct (String.compare s t); naive_solver. Qed.

Lemma str_compare_lt_trans s t u :
  String.compare s t <> Gt -> String.compare t u <> Gt -> String.compare s u <> Gt.
Proof.
  revert t u. induction s as [|a s IH]; intros [|b t] [|c u]; try done.
  rewrite !str_compare_cons.
  destruct (Z.compare_spec (Z_of_ascii a) (Z_of_ascii b)),
    (Z.compare_spec (Z_of_ascii b) (Z_of_ascii c)); try done;
  destruct (Z.compare_spec (Z_of_ascii a) (Z_of_ascii c)); try done; try lia.
  apply IH.
Qed.

#[export] Instance str_le_trans : Transitive str_le.
Proof. intros s t u. rewrite !str_le_compare. apply str_compare_lt_trans. Qed.

#[export] Instance str_le_total : Total str_le.
Proof.
  intros s t. rewrite !str_le_compare. rewrite (String.compare_antisym s t).
  destruct (String.compare t s); cbn; naive_solver.
Qed.

#[export] Instance str_le_antisym : AntiSymm (=) str_le.
Proof.
  intros s t. rewrite !str_le_compare, (String.compare_antisym s t).
  intros H1 H2. apply String.compare_eq_iff. rewrite (String.compare_antisym s t).
  by destruct (String.compare t s).
Qed.

Lemma hex_fix_first n u :
  exists d s, hex_fix (S n) u = String (hex_digit d) s /\ 0 <= d < 16.
Proof.
  revert u. induction n as [|n IH]; intros u; cbn [hex_fix].
  - exists (u mod 16), EmptyString. split; [done|]. apply Z.mod_pos_bound. lia.
  - destruct (IH (u / 16)) as (d & s & E & Hd). cbn [hex_fix] in E. rewrite E.
    eexists d, _. split; [reflexivity|done].
Qed.

(** On fixed-width fields the order of the text is the order of the numbers. *)
Lemma hex_fix_compare n u v :
  0 <= u < 16 ^ Z.of_nat n -> 0 <= v < 16 ^ Z.of_nat n ->
  String.compare (hex_fix n u) (hex_fix n v) = Z.compare u v.
Proof.
  revert u v. induction n as [|n IH]; intros u v Hu Hv.
  { change (16 ^ Z.of_nat 0) with 1 in *. by assert (u = 0) as -> by lia; assert (v = 0) as -> by lia. }
  rewrite Nat2Z.inj_succ, Z.pow_succ_r in * by lia. cbn [hex_fix].
  rewrite str_compare_app by by rewrite !length_hex_fix.
  rewrite IH by (split; [apply Z.div_pos; lia|apply Z.div_lt_upper_bound; lia]).
  rewrite str_compare_cons.
  pose proof (Z.mod_pos_bound u 16 ltac:(lia)). pose proof (Z.mod_pos_bound v 16 ltac:(lia)).
  rewrite !Z_of_hex_digit by lia.
  pose proof (Z.div_mod u 16). pose proof (Z.div_mod v 16).
  assert (Hd : Z.compare (if u mod 16 <? 10 then 48 + u mod 16 else 87 + u mod 16)
      (if v mod 16 <? 10 then 48 + v mod 16 else 87 + v mod 16)
      = Z.compare (u mod 16) (v mod 16)).
  { destruct (Z.ltb_spec (u mod 16) 10), (Z.ltb_spec (v mod 16) 10);
      destruct (Z.compare_spec (u mod 16) (v mod 16)); apply Z.compare_eq_iff
        || apply Z.compare_lt_iff || apply Z.compare_gt_iff; lia. }
  rewrite Hd. cbn [String.compare].
  destruct (Z.compare_spec (u / 16) (v / 16)); symmetry.
  - destruct (Z.compare_spec (u mod 16) (v mod 16)); [apply Z.compare_eq_iff
      |apply Z.compare_lt_iff|apply Z.compare_gt_iff]; lia.
  - apply Z.compare_lt_iff. lia.
  - apply Z.compare_gt_iff. lia.
Qed.

(** A negative number is printed with its sign, which sorts before every digit. *)
Lemma fmt_016x_compare z z' t t' :
  - 2 ^ 63 <= z < 2 ^ 63 -> 0 <= z' < 2 ^ 63 ->
  String.compare (fmt_016x z +:+ t) (fmt_016x z' +:+ t')
  = match Z.compare z z' with Eq => String.compare t t' | c => c end.
Proof.
  intros Hz Hz'. rewrite (fmt_016x_nonneg z') by done. destruct (Z.ltb_spec z 0) as [Hn|Hn].
  - assert (z ?= z' = Lt) as -> by (apply Z.compare_lt_iff; lia).
    unfold fmt_016x. apply Z.ltb_lt in Hn as ->.
    destruct (hex_fix_first 15 z') as (d & s & -> & Hd). cbn [String.append].
    rewrite !append_cons, str_compare_cons, Z_of_hex_digit by lia.
    change (Z_of_ascii "-") with 45.
    assert (45 ?= (if d <? 10 then 48 + d else 87 + d) = Lt) as ->; [|done].
    apply Z.compare_lt_iff. destruct (d <? 10); lia.
  - rewrite fmt_016x_nonneg by lia. rewrite str_compare_app by by rewrite !length_hex_fix.
    by rewrite hex_fix_compare by (change (16 ^ Z.of_nat 16) with (2 ^ 64); lia).
Qed.

#[export] Hint Resolve is_ascii_hex_fix : go.

(** ** Trimming *)

Lemma strip_app sp s : strip sp (sp ++ s) = Some s.
Proof. induction sp as [|a sp IH]; [done|]. cbn. by rewrite Ascii.eqb_refl. Qed.

Lemma strip_some sp s r : strip sp s = Some r -> s = sp ++ r.
Proof.
  revert s. induction sp as [|a sp IH]; intros [|b s]; cbn; intros E; simplify_eq; try done.
  destruct (Ascii.eqb_spec a b) as [->|]; [|done]. by rewrite (IH _ E).
Qed.

Lemma strip_any_some sps s r : strip_any sps s = Some r -> exists sp, sp ∈ sps /\ s = sp ++ r.
Proof.
  induction sps as [|sp sps IH]; [done|]. cbn. destruct (strip sp s) as [r'|] eqn:E; intros Er.
  - injection Er as <-. exists sp. split; [left|by apply strip_some].
  - destruct (IH Er) as (sp' & Hin & Hs). exists sp'. split; [by right|done].
Qed.

Lemma strip_any_none sps s : strip_any sps s = None <-> forall sp r, sp ∈ sps -> s <> sp ++ r.
Proof.
  split.
  - induction sps as [|sp sps IH]; cbn; intros E sp' r Hin; [by apply elem_of_nil in Hin|].
    destruct (strip sp s) as [r'|] eqn:Es; [done|].
    apply elem_of_cons in Hin as [->|Hin]; [|by apply IH].
    intros ->. by rewrite strip_app in Es.
  - intros Hn. destruct (strip_any sps s) as [r|] eqn:E; [|done].
    apply strip_any_some in E as (sp & Hin & Hs). by destruct (Hn sp r Hin).
Qed.

(** Trimming removes a prefix made of spaces, and stops at none: enough fuel is
    the length when no space is empty. *)
Lemma trim_spec sps fuel s :
  Forall (fun sp => sp <> []) sps -> (length s <= fuel)%nat ->
  (exists p, s = p ++ trim sps fuel s) /\ strip_any sps (trim sps fuel s) = None.
Proof.
  intros Hne. revert s. induction fuel as [|fuel IH]; intros s Hl.
  - destruct s; [|cbn in Hl; lia]. cbn. split; [by exists []|].
    apply strip_any_none. intros sp r Hin. rewrite Forall_forall in Hne.
    specialize (Hne sp Hin). by destruct sp.
  - cbn. destruct (strip_any sps s) as [r|] eqn:E; [|split; [by exists []|done]].
    apply strip_any_some in E as (sp & Hin & ->).
    rewrite Forall_forall in Hne. specialize (Hne sp Hin).
    assert (Hr : (length r <= fuel)%nat) by (rewrite length_app in Hl; destruct sp; [done|cbn in Hl; lia]).
    destruct (IH r Hr) as ((p & Hp) & Hn). split; [|done].
    exists (sp ++ p). by rewrite <-app_assoc, <-Hp.
Qed.

Lemma trim_id sps fuel s : strip_any sps s = None -> trim sps fuel s = s.
Proof. destruct fuel; [done|]. intros E. cbn. by rewrite E. Qed.

Lemma spaces_nonempty : Forall (fun sp => sp <> []) spaces.
Proof. repeat (constructor; [discriminate|]). constructor. Qed.

Lemma rev_spaces_nonempty : Forall (fun sp => sp <> []) (@rev ascii <$> spaces).
Proof. repeat (constructor; [discriminate|]). constructor. Qed.

(** What trimming leaves starts and ends with no space. *)
Definition trimmed (l : list ascii) : Prop :=
  strip_any spaces l = None /\ strip_any (@rev ascii <$> spaces) (rev l) = None.

Lemma TrimSpace_id s : trimmed (String.list_ascii_of_string s) -> TrimSpace s = s.
Proof.
  intros [H1 H2]. unfold TrimSpace. rewrite (trim_id _ _ _ H1), (trim_id _ _ _ H2), rev_involutive.
  apply String.string_of_list_ascii_of_string.
Qed.

Lemma TrimSpace_trimmed s : trimmed (String.list_ascii_of_string (TrimSpace s)).
Proof.
  unfold TrimSpace. rewrite String.list_ascii_of_string_of_list_ascii.
  set (l := String.list_ascii_of_string s).
  destruct (trim_spec spaces (length l) l spaces_nonempty) as (_ & H1); [done|].
  set (l1 := trim spaces (length l) l) in *.
  destruct (trim_spec (@rev ascii <$> spaces) (length l1) (rev l1) rev_spaces_nonempty)
    as ((p & Hp) & H2); [by rewrite length_rev|].
  set (l2 := trim _ _ (rev l1)) in *. split; [|by rewrite rev_involutive].
  apply strip_any_none. intros sp r Hin E.
  rewrite strip_any_none in H1. apply (H1 sp (r ++ rev p) Hin).
  rewrite <-(rev_involutive l1), Hp, rev_app_distr, E, <-app_assoc. done.
Qed.

Lemma TrimSpace_idem s : TrimSpace (TrimSpace s) = TrimSpace s.
Proof. apply TrimSpace_id, TrimSpace_trimmed. Qed.
