(* ===== verification/Bytes.v ===== *)
(** * Byte slices

    A Go [[]byte] is a [list byte].  The file models what the source uses of
    [encoding/binary] (big-endian integers), of [hash/crc32] (the IEEE
    checksum) and of [io] ([ReadFull] over a file read page by page). *)

From Stdlib.Strings Require Import String.
From Stdlib.Strings Require Export Byte.
From stdpp Require Import base list strings.
From Stdlib Require Import ZArith Lia.
From S2P Require Import Prelude.
Local Open Scope Z_scope.

(** ** Definitions *)

#[export] Instance byte_eq_dec : EqDecision byte := Byte.byte_eq_dec.

Definition Z_of_byte (b : byte) : Z := Z.of_N (Byte.to_N b).
Definition byte_of_Z (z : Z) : byte := default x00 (Byte.of_N (Z.to_N (z mod 256))).

(** [[]byte(s)] and [string(bs)]. *)
Definition bytes_of (s : string) : list byte := list_byte_of_string s.
Definition string_of (bs : list byte) : string := string_of_list_byte bs.

(** [binary.BigEndian.PutUint16] and [PutUint32] as the bytes they write. *)
Definition PutUint16 (v : Z) : list byte := [byte_of_Z (Z.shiftr v 8); byte_of_Z v].
Definition PutUint32 (v : Z) : list byte :=
  [byte_of_Z (Z.shiftr v 24); byte_of_Z (Z.shiftr v 16); byte_of_Z (Z.shiftr v 8); byte_of_Z v].

(** [binary.BigEndian.Uint16] and [Uint32]. *)
Definition be_value (bs : list byte) : Z :=
  fold_left (fun acc b => acc * 256 + Z_of_byte b) bs 0.

(** *** CRC-32, IEEE polynomial in reversed bit order *)

Definition crc_poly : N := 0xedb88320%N.

(** One table entry: eight steps of the bit loop of [simpleMakeTable]. *)
Fixpoint crc_bits (n : nat) (c : N) : N :=
  match n with
  | O => c
  | S n => crc_bits n (if N.odd c then N.lxor (N.shiftr c 1) crc_poly else N.shiftr c 1)
  end.

(** [simpleUpdate]: one byte. *)
Definition crc_byte (crc : N) (b : byte) : N :=
  N.lxor (crc_bits 8 (N.lxor (N.land crc 255) (Byte.to_N b))) (N.shiftr crc 8).

Definition crc32 (bs : list byte) : Z :=
  Z.of_N (N.lxor (fold_left crc_byte bs 0xffffffff%N) 0xffffffff%N).

(** *** Reading a file page by page *)

(** One [io.ReadFull] of [p] bytes at offset [off] of a file. *)
Definition ReadFull (p off : nat) (content : list byte) : exec (list byte) :=
  let rest := drop off content in
  match rest with
  | [] => Fail EOF
  | _ => if (length rest <? p)%nat then Fail ErrUnexpectedEOF else Ok (take p rest)
  end.

(** ** Bytes and integers *)

Lemma Z_of_byte_bound b : 0 <= Z_of_byte b < 256.
Proof. unfold Z_of_byte. pose proof (Byte.to_N_bounded b). lia. Qed.

Lemma byte_of_Z_of_byte b : byte_of_Z (Z_of_byte b) = b.
Proof.
  unfold byte_of_Z. pose proof (Z_of_byte_bound b) as H. rewrite Z.mod_small by lia.
  unfold Z_of_byte. rewrite N2Z.id, Byte.of_to_N. done.
Qed.

Lemma Z_of_byte_of_Z z : Z_of_byte (byte_of_Z z) = z mod 256.
Proof.
  unfold byte_of_Z, Z_of_byte. pose proof (Z.mod_pos_bound z 256 ltac:(lia)) as H.
  destruct (Byte.of_N (Z.to_N (z mod 256))) as [b|] eqn:E.
  - apply Byte.to_of_N in E. cbn. rewrite E. lia.
  - apply Byte.of_N_None_iff in E. lia.
Qed.

Lemma string_of_bytes_of s : string_of (bytes_of s) = s.
Proof. apply string_of_list_byte_of_string. Qed.

Lemma bytes_of_string_of bs : bytes_of (string_of bs) = bs.
Proof. apply list_byte_of_string_of_list_byte. Qed.

Lemma bytes_of_inj s t : bytes_of s = bytes_of t -> s = t.
Proof. intros H. by rewrite <-(string_of_bytes_of s), H, string_of_bytes_of. Qed.

Lemma be_PutUint16 v : 0 <= v < 2 ^ 16 -> be_value (PutUint16 v) = v.
Proof.
  intros H. unfold be_value, PutUint16. cbn [fold_left].
  rewrite !Z_of_byte_of_Z, Z.shiftr_div_pow2 by lia. change (2 ^ 8) with 256.
  Z.to_euclidean_division_equations. lia.
Qed.

Lemma be_PutUint32 v : 0 <= v < 2 ^ 32 -> be_value (PutUint32 v) = v.
Proof.
  intros H. unfold be_value, PutUint32. cbn [fold_left].
  rewrite !Z_of_byte_of_Z, !Z.shiftr_div_pow2 by lia.
  change (2 ^ 24) with (256 * 256 * 256). change (2 ^ 16) with (256 * 256).
  change (2 ^ 8) with 256. rewrite <-!Z.div_div by lia.
  set (a := v / 256). set (b := a / 256). set (c := b / 256).
  assert (v = a * 256 + v mod 256) by (subst a; pose proof (Z.div_mod v 256); lia).
  assert (a = b * 256 + a mod 256) by (subst b; pose proof (Z.div_mod a 256); lia).
  assert (b = c * 256 + b mod 256) by (subst c; pose proof (Z.div_mod b 256); lia).
  assert (0 <= c < 256).
  { subst a b c. rewrite !Z.div_div by lia. split; [apply Z.div_pos; lia|].
    apply Z.div_lt_upper_bound; lia. }
  rewrite (Z.mod_small c 256) by lia. lia.
Qed.

(** ** CRC-32 is a 32-bit value *)

Lemma lt_pow2_bits (c n : N) : (c < 2 ^ n)%N <-> (forall m, (n <= m)%N -> N.testbit c m = false).
Proof.
  split.
  - intros H m Hm. destruct (N.eq_dec c 0) as [->|Hc]; [apply N.bits_0|].
    apply N.bits_above_log2. apply N.lt_le_trans with n; [|done].
    apply N.log2_lt_pow2; lia.
  - intros H. destruct (N.eq_dec c 0) as [->|Hc]; [apply N.neq_0_lt_0, N.pow_nonzero; lia|].
    apply N.log2_lt_pow2; [lia|]. apply N.nle_gt. intros Hn.
    specialize (H _ Hn). by rewrite N.bit_log2 in H.
Qed.

Lemma lxor_lt32 a b : (a < 2 ^ 32)%N -> (b < 2 ^ 32)%N -> (N.lxor a b < 2 ^ 32)%N.
Proof.
  rewrite !lt_pow2_bits. intros Ha Hb m Hm. by rewrite N.lxor_spec, Ha, Hb.
Qed.

Lemma shiftr_lt32 a n : (a < 2 ^ 32)%N -> (N.shiftr a n < 2 ^ 32)%N.
Proof.
  rewrite !lt_pow2_bits. intros Ha m Hm. rewrite N.shiftr_spec by lia. apply Ha. lia.
Qed.

Lemma crc_bits_lt n c : (c < 2 ^ 32)%N -> (crc_bits n c < 2 ^ 32)%N.
Proof.
  revert c. induction n as [|n IH]; intros c Hc; [done|]. cbn [crc_bits]. apply IH.
  destruct (N.odd c); [apply lxor_lt32; [|done]|]; by apply shiftr_lt32.
Qed.

Lemma crc_byte_lt c b : (c < 2 ^ 32)%N -> (crc_byte c b < 2 ^ 32)%N.
Proof.
  intros Hc. unfold crc_byte. apply lxor_lt32; [|by apply shiftr_lt32].
  apply crc_bits_lt, lxor_lt32.
  - change 255%N with (N.ones 8). rewrite N.land_ones.
    pose proof (N.mod_upper_bound c (2 ^ 8)). lia.
  - pose proof (Byte.to_N_bounded b). lia.
Qed.

Lemma crc32_range bs : 0 <= crc32 bs < 2 ^ 32.
Proof.
  unfold crc32.
  assert (H : (fold_left crc_byte bs 0xffffffff < 2 ^ 32)%N).
  { assert (H0 : (0xffffffff < 2 ^ 32)%N) by done. revert H0. generalize 0xffffffff%N.
    induction bs as [|b bs IH]; intros c Hc; [done|]. cbn [fold_left].
    by apply IH, crc_byte_lt. }
  pose proof (lxor_lt32 _ 0xffffffff%N H ltac:(done)). lia.
Qed.

(** The check value of the CRC-32 catalogue. *)
Example crc32_check : crc32 (bytes_of "123456789") = 0xcbf43926.
Proof. vm_compute. reflexivity. Qed.

(** ** Paging *)

Lemma length_concat_pages p (ps : list (list byte)) :
  Forall (fun pg => length pg = p) ps -> length (concat ps) = (length ps * p)%nat.
Proof.
  induction 1 as [|pg ps Hpg _ IH]; [done|]. cbn [concat length]. rewrite length_app. lia.
Qed.

(** Reading at a page boundary of a file made of whole pages. *)
Lemma ReadFull_page p (ps qs : list (list byte)) pg :
  (0 < p)%nat -> Forall (fun pg => length pg = p) (ps ++ pg :: qs) ->
  ReadFull p (length ps * p) (concat (ps ++ pg :: qs)) = Ok pg.
Proof.
  intros Hp Hall. apply Forall_app in Hall as [Hps Hq].
  apply Forall_cons in Hq as [Hpg Hqs].
  unfold ReadFull. rewrite concat_app, drop_app_length' by (by rewrite length_concat_pages with (p := p)).
  cbn [concat]. destruct (pg ++ concat qs) as [|b l] eqn:E.
  { apply (f_equal length) in E. rewrite length_app in E. cbn in E. lia. }
  rewrite <-E, length_app, Hpg.
  destruct (Nat.ltb_spec (p + length (concat qs)) p); [lia|].
  by rewrite take_app_length' by done.
Qed.

(** The same when something follows the whole pages. *)
Lemma ReadFull_page_app p (ps qs : list (list byte)) pg rest :
  (0 < p)%nat -> Forall (fun pg => length pg = p) (ps ++ pg :: qs) ->
  ReadFull p (length ps * p) (concat (ps ++ pg :: qs) ++ rest) = Ok pg.
Proof.
  intros Hp Hall. apply Forall_app in Hall as [Hps Hq].
  apply Forall_cons in Hq as [Hpg Hqs].
  unfold ReadFull. rewrite concat_app, <-app_assoc,
    drop_app_length' by (by rewrite length_concat_pages with (p := p)).
  cbn [concat]. rewrite <-app_assoc. destruct (pg ++ concat qs ++ rest) as [|b l] eqn:E.
  { apply (f_equal length) in E. rewrite length_app in E. cbn in E. lia. }
  rewrite <-E, length_app, Hpg.
  destruct (Nat.ltb_spec (p + length (concat qs ++ rest)) p); [lia|].
  by rewrite take_app_length' by done.
Qed.

(** At the end of such a file: [io.EOF]. *)
Lemma ReadFull_end p (ps : list (list byte)) :
  Forall (fun pg => length pg = p) ps -> ReadFull p (length ps * p) (concat ps) = Fail EOF.
Proof.
  intros H. unfold ReadFull. by rewrite drop_ge by (rewrite length_concat_pages with (p := p); done).
Qed.

(** Before a torn last page: [io.ErrUnexpectedEOF]. *)
Lemma ReadFull_torn p (ps : list (list byte)) rest :
  (0 < length rest < p)%nat -> Forall (fun pg => length pg = p) ps ->
  ReadFull p (length ps * p) (concat ps ++ rest) = Fail ErrUnexpectedEOF.
Proof.
  intros Hr H. unfold ReadFull. rewrite drop_app_length' by (by rewrite length_concat_pages with (p := p)).
  destruct rest as [|b rest]; [cbn in Hr; lia|].
  destruct (Nat.ltb_spec (length (b :: rest)) p); [done|lia].
Qed.

#[export] Hint Resolve Z_of_byte_bound crc32_range : go.
