(* ===== verification/Base64.v ===== *)
(** * encoding/base64

    The two encodings the program meets: [RawURLEncoding], of the queries of
    DNS over HTTPS, and [StdEncoding] with padding, in which encoding/json
    writes a [[]byte].  They share the groups of six bits and differ by two
    digits and the padding. *)

From stdpp Require Import base list strings.
From Stdlib Require Import ZArith Lia Ascii.
From S2P Require Import Prelude GoStr Bytes.
Local Open Scope Z_scope.

(** ** Definitions *)

(** The last two digits of an alphabet. *)
Record Alphabet := mkAlphabet { digit62 : Z; digit63 : Z }.
Definition url_alphabet : Alphabet := mkAlphabet 45 95.
Definition std_alphabet : Alphabet := mkAlphabet 43 47.

Definition digit64 (al : Alphabet) (z : Z) : Z :=
  if z <? 26 then 65 + z
  else if z <? 52 then 71 + z
  else if z <? 62 then z - 4
  else if z =? 62 then digit62 al else digit63 al.

Definition value64 (al : Alphabet) (c : Z) : option Z :=
  if between 65 90 c then Some (c - 65)
  else if between 97 122 c then Some (c - 71)
  else if between 48 57 c then Some (c + 4)
  else if c =? digit62 al then Some 62
  else if c =? digit63 al then Some 63
  else None.

(** Groups of four digits are three bytes; two or three digits end the data, and
    their unused low bits are ignored. *)
Fixpoint bytes64 (l : list Z) : option (list byte) :=
  match l with
  | [] => Some []
  | a :: b :: c :: d :: l =>
      let v := a * 2 ^ 18 + b * 2 ^ 12 + c * 2 ^ 6 + d in
      bs ← bytes64 l; Some (byte_of_Z (v / 2 ^ 16) :: byte_of_Z (v / 2 ^ 8) :: byte_of_Z v :: bs)
  | [a; b; c] =>
      let v := a * 2 ^ 12 + b * 2 ^ 6 + c in Some [byte_of_Z (v / 2 ^ 10); byte_of_Z (v / 2 ^ 2)]
  | [a; b] => Some [byte_of_Z ((a * 2 ^ 6 + b) / 2 ^ 4)]
  | [a] => None
  end.

Fixpoint digits64 (bs : list byte) : list Z :=
  match bs with
  | [] => []
  | x :: y :: z :: bs =>
      let v := Z_of_byte x * 2 ^ 16 + Z_of_byte y * 2 ^ 8 + Z_of_byte z in
      v / 2 ^ 18 :: v / 2 ^ 12 mod 64 :: v / 2 ^ 6 mod 64 :: v mod 64 :: digits64 bs
  | [x; y] =>
      let v := (Z_of_byte x * 2 ^ 8 + Z_of_byte y) * 4 in
      [v / 2 ^ 12; v / 2 ^ 6 mod 64; v mod 64]
  | [x] => let v := Z_of_byte x * 16 in [v / 2 ^ 6; v mod 64]
  end.

(** Line breaks are skipped anywhere. *)
Definition no_breaks (cs : list Z) : list Z := filter (fun c => c <> 10 /\ c <> 13) cs.

Definition decode64 (al : Alphabet) (cs : list Z) : exec (list byte) :=
  match mapM (value64 al) cs ≫= bytes64 with
  | Some bs => Ok bs
  | None => Fail (ExtError "illegal base64 data")
  end.

Definition DecodeString (s : string) : exec (list byte) :=
  decode64 url_alphabet (no_breaks (codes s)).

Definition RawURLEncode (bs : list byte) : string := bytes_str (digit64 url_alphabet <$> digits64 bs).

(** The data of [StdEncoding] comes in groups of four; only the last group may
    end with one or two padding characters. *)
Definition unpad (cs : list Z) : list Z :=
  let n := length cs in
  if decide (drop (n - 2) cs = [61; 61]) then take (n - 2) cs
  else if decide (drop (n - 1) cs = [61]) then take (n - 1) cs
  else cs.

Definition StdDecode (s : string) : exec (list byte) :=
  let cs := no_breaks (codes s) in
  if (length cs mod 4 =? 0)%nat then decode64 std_alphabet (unpad cs)
  else Fail (ExtError "illegal base64 data").

Definition padding (bs : list byte) : list Z :=
  match (length bs mod 3)%nat with
  | 1%nat => [61; 61]
  | 2%nat => [61]
  | _ => []
  end.

Definition StdCodes (bs : list byte) : list Z := (digit64 std_alphabet <$> digits64 bs) ++ padding bs.
Definition StdEncode (bs : list byte) : string := bytes_str (StdCodes bs).

(** ** Lemmas *)

Lemma codes_bytes_str l : Forall (fun z => 0 <= z < 256) l -> codes (bytes_str l) = l.
Proof.
  induction 1 as [|z l Hz _ IH]; [done|]. cbn. by rewrite IH, Z_of_ascii_small.
Qed.

Lemma byte_of_Z_eq z b : z mod 256 = Z_of_byte b -> byte_of_Z z = b.
Proof.
  intros E. rewrite <-(byte_of_Z_of_byte b), <-E. unfold byte_of_Z. by rewrite Zmod_mod.
Qed.

(** The digits of an alphabet are ASCII, none of them a line break or the
    padding, and distinct. *)
Definition alphabet_ok (al : Alphabet) : Prop :=
  forall d, 0 <= d < 64 ->
  value64 al (digit64 al d) = Some d /\ 32 < digit64 al d < 127 /\ digit64 al d <> 61
  /\ digit64 al d <> 34 /\ digit64 al d <> 92 /\ digit64 al d <> 60 /\ digit64 al d <> 62
  /\ digit64 al d <> 38.

Lemma alphabet_ok_all al :
  forallb (fun n => let d := Z.of_nat n in let c := digit64 al d in
    bool_decide (value64 al c = Some d) && (32 <? c) && (c <? 127)
    && forallb (fun x => negb (c =? x)) [61; 34; 92; 60; 62; 38]) (seq 0 64) = true ->
  alphabet_ok al.
Proof.
  rewrite forallb_forall. intros Hall d Hd. specialize (Hall (Z.to_nat d) ltac:(apply in_seq; lia)).
  cbn [forallb] in Hall. rewrite Z2Nat.id in Hall by lia.
  rewrite !andb_true_iff, bool_decide_eq_true, !negb_true_iff, !Z.eqb_neq in Hall. intuition lia.
Qed.

Lemma url_ok : alphabet_ok url_alphabet.
Proof. apply alphabet_ok_all. vm_compute. reflexivity. Qed.

Lemma std_ok : alphabet_ok std_alphabet.
Proof. apply alphabet_ok_all. vm_compute. reflexivity. Qed.

(** Induction on lists three elements at a time. *)
Lemma list_ind3 {A} (P : list A -> Prop) :
  P [] -> (forall x, P [x]) -> (forall x y, P [x; y]) ->
  (forall x y z l, P l -> P (x :: y :: z :: l)) -> forall l, P l.
Proof.
  intros H0 H1 H2 H3 l. assert (Hall : P l /\ (forall x, P (x :: l)) /\ (forall x y, P (x :: y :: l))).
  { induction l as [|a l (IH0 & IH1 & IH2)]; auto. }
  apply Hall.
Qed.

Lemma digits64_range bs : Forall (fun d => 0 <= d < 64) (digits64 bs).
Proof.
  induction bs as [|x|x y|x y z bs IH] using list_ind3; [constructor|..]; cbn [digits64];
    pose proof (Z_of_byte_bound x); try pose proof (Z_of_byte_bound y);
    try pose proof (Z_of_byte_bound z);
    repeat first [exact IH | apply Forall_nil_2 | apply Forall_cons_2];
    first [apply Z.mod_pos_bound; lia | Z.to_euclidean_division_equations; lia].
Qed.

Lemma bytes64_digits64 bs : bytes64 (digits64 bs) = Some bs.
Proof.
  induction bs as [|x|x y|x y z bs IH] using list_ind3; [done|..]; cbn [digits64 bytes64];
    pose proof (Z_of_byte_bound x); try pose proof (Z_of_byte_bound y);
    try pose proof (Z_of_byte_bound z).
  - do 2 f_equal. apply byte_of_Z_eq. Z.to_euclidean_division_equations; lia.
  - f_equal. f_equal; [|f_equal]; apply byte_of_Z_eq; Z.to_euclidean_division_equations; lia.
  - rewrite IH. cbn. f_equal. set (v := _ + Z_of_byte z).
    assert (Ev : v / 2 ^ 18 * 2 ^ 18 + v / 2 ^ 12 mod 64 * 2 ^ 12 + v / 2 ^ 6 mod 64 * 2 ^ 6 + v mod 64 = v)
      by (Z.to_euclidean_division_equations; lia).
    rewrite Ev. subst v. clear Ev.
    f_equal; [|f_equal; [|f_equal]]; apply byte_of_Z_eq; Z.to_euclidean_division_equations; lia.
Qed.

Section Alphabets.
Context (al : Alphabet) (Hal : alphabet_ok al).

Lemma digit64s_printable bs :
  Forall (fun c => 32 < c < 127 /\ c <> 61 /\ c <> 34 /\ c <> 92 /\ c <> 60 /\ c <> 62 /\ c <> 38)
    (digit64 al <$> digits64 bs).
Proof.
  apply Forall_fmap. eapply Forall_impl; [apply digits64_range|]. intros d Hd. by apply Hal.
Qed.

Lemma decode64_encode bs : decode64 al (digit64 al <$> digits64 bs) = Ok bs.
Proof.
  unfold decode64.
  assert (mapM (value64 al) (digit64 al <$> digits64 bs) = Some (digits64 bs)) as ->;
    [|cbn; by rewrite bytes64_digits64].
  apply mapM_Some. apply Forall2_fmap_l. apply Forall_Forall2_diag.
  eapply Forall_impl; [apply digits64_range|]. intros d Hd. by apply Hal.
Qed.
End Alphabets.

Lemma no_breaks_id cs : Forall (fun c => 32 < c) cs -> no_breaks cs = cs.
Proof. intros Hcs. apply filter_all. eapply Forall_impl; [exact Hcs|]. cbn. lia. Qed.

Lemma DecodeString_encode bs : DecodeString (RawURLEncode bs) = Ok bs.
Proof.
  unfold DecodeString, RawURLEncode. pose proof (digit64s_printable _ url_ok bs) as Hr.
  rewrite codes_bytes_str by (eapply Forall_impl; [exact Hr|]; cbn; lia).
  rewrite no_breaks_id by (eapply Forall_impl; [exact Hr|]; cbn; lia).
  apply decode64_encode, url_ok.
Qed.

(** Whole groups: the digits and the padding together. *)
Lemma padding_cons3 x y z bs : padding (x :: y :: z :: bs) = padding bs.
Proof.
  unfold padding. cbn [length]. replace (S (S (S (length bs)))) with (length bs + 1 * 3)%nat by lia.
  by rewrite Nat.Div0.mod_add.
Qed.

Lemma length_StdCodes bs : (length (StdCodes bs) mod 4 = 0)%nat.
Proof.
  assert (exists k, length (StdCodes bs) = (k * 4)%nat) as [k ->]; [|by apply Nat.Div0.mod_mul].
  unfold StdCodes. rewrite length_app, length_fmap.
  induction bs as [|x|x y|x y z bs [k IH]] using list_ind3; [by exists 0%nat|by exists 1%nat..|].
  exists (S k). rewrite padding_cons3. cbn [digits64 length]. lia.
Qed.

(** Taking the padding off leaves the digits. *)
Lemma unpad_StdCodes bs : unpad (StdCodes bs) = digit64 std_alphabet <$> digits64 bs.
Proof.
  unfold unpad, StdCodes. pose proof (digit64s_printable _ std_ok bs) as Hr.
  set (ds := digit64 std_alphabet <$> digits64 bs) in *. clearbody ds.
  assert (Hin : forall k, drop k ds <> [61] /\ drop k ds <> [61; 61]).
  { intros k. apply (Forall_drop _ k) in Hr.
    split; intros E; rewrite E in Hr; apply Forall_cons in Hr as [? _]; lia. }
  unfold padding. rewrite length_app. destruct (length bs mod 3)%nat as [|[|[|n]]] eqn:Em; cbn [length].
  - rewrite app_nil_r, Nat.add_0_r.
    by rewrite (decide_False _ _ (proj2 (Hin _))), (decide_False _ _ (proj1 (Hin _))).
  - replace (length ds + 2 - 2)%nat with (length ds) by lia.
    rewrite drop_app_length, decide_True by done. by rewrite take_app_length.
  - replace (length ds + 1 - 1)%nat with (length ds) by lia.
    rewrite drop_app_length, take_app_length, (decide_True _ _ eq_refl). apply decide_False.
    intros E. destruct ds as [|d ds _] using rev_ind; [done|].
    rewrite length_app in E. cbn in E. replace (length ds + 1 + 1 - 2)%nat with (length ds) in E by lia.
    rewrite <-app_assoc, drop_app_length in E. injection E as ->.
    apply Forall_app in Hr as [_ Hr]. apply Forall_cons in Hr as [? _]. lia.
  - rewrite app_nil_r, Nat.add_0_r.
    by rewrite (decide_False _ _ (proj2 (Hin _))), (decide_False _ _ (proj1 (Hin _))).
Qed.

Lemma StdCodes_printable bs :
  Forall (fun c => 32 < c < 127 /\ c <> 34 /\ c <> 92 /\ c <> 60 /\ c <> 62 /\ c <> 38) (StdCodes bs).
Proof.
  apply Forall_app. split.
  - eapply Forall_impl; [apply (digit64s_printable _ std_ok)|]. cbn. lia.
  - unfold padding. repeat case_match; repeat constructor; lia.
Qed.

Lemma StdDecode_encode bs : StdDecode (StdEncode bs) = Ok bs.
Proof.
  unfold StdDecode, StdEncode. pose proof (StdCodes_printable bs) as Hr.
  rewrite codes_bytes_str by (eapply Forall_impl; [exact Hr|]; cbn; lia).
  rewrite no_breaks_id by (eapply Forall_impl; [exact Hr|]; cbn; lia).
  rewrite length_StdCodes. cbn [Nat.eqb]. rewrite unpad_StdCodes. apply decode64_encode, std_ok.
Qed.

Example std_examples :
  (fun s => StdEncode (bytes_of s)) <$> ["f"; "fo"; "foo"; "foob"] = ["Zg=="; "Zm8="; "Zm9v"; "Zm9vYg=="].
Proof. vm_compute. reflexivity. Qed.
