(* ===== verification/JsonText.v ===== *)
(** * encoding/json: text

    The values of JSON, the encoder's text for them ([print]) and the
    decoder's scanner and parser ([Parse]), on the runes of the text: every
    character with a meaning in JSON is ASCII, and UTF-8 decoding resumes at
    any ASCII byte, so the runes inside a string literal are those the
    decoder finds in it. *)

From stdpp Require Import base list strings sorting.
From Stdlib Require Import ZArith Lia Ascii.
From S2P Require Import Prelude GoStr Bytes.
Local Open Scope Z_scope.
Local Open Scope go_scope.

(** ** Values *)

(** A number is kept as its literal, an object as its members in order. *)
Inductive jvalue :=
| JNull
| JBool (b : bool)
| JNum (lit : list Z)
| JStr (s : string)
| JArr (vs : list jvalue)
| JObj (ms : list (string * jvalue)).

Definition text (s : string) : list Z := codes s.

(** ** Writing *)

Definition hexd (d : Z) : Z := Z_of_ascii (hex_digit d).

(** What [appendString] writes for a rune, with the HTML escaping of
    [json.Marshal]. *)
Definition escape (r : Z) : list Z :=
  if (r =? 34) || (r =? 92) then [92; r]
  else if r =? 8 then [92; 98]
  else if r =? 12 then [92; 102]
  else if r =? 10 then [92; 110]
  else if r =? 13 then [92; 114]
  else if r =? 9 then [92; 116]
  else if (r <? 32) || (r =? 60) || (r =? 62) || (r =? 38)
  then [92; 117; 48; 48; hexd (r / 16); hexd (r mod 16)]
  else if (r =? 0x2028) || (r =? 0x2029) then [92; 117; 50; 48; 50; hexd (r mod 16)]
  else [r].

(** [utf8.DecodeRuneInString] on [s], whose decoding starts with [r]: a rune
    that is not spelt by the bytes it was decoded from is an ill-formed byte. *)
Fixpoint quote_runes (rs : list Z) (s : string) : list Z :=
  match rs with
  | [] => []
  | r :: rs =>
      let w := bytes_str (rune_bytes r) in
      if String.prefix w s
      then escape r ++ quote_runes rs (String.substring (String.length w) (String.length s) s)
      else text "\ufffd" ++ quote_runes rs (String.substring 1 (String.length s) s)
  end.

Definition quote (s : string) : list Z := 34 :: quote_runes (runes s) s ++ [34].

Fixpoint join (l : list (list Z)) : list Z :=
  match l with
  | [] => []
  | [x] => x
  | x :: l => x ++ 44 :: join l
  end.

Fixpoint print (v : jvalue) : list Z :=
  match v with
  | JNull => text "null"
  | JBool b => if b then text "true" else text "false"
  | JNum lit => lit
  | JStr s => quote s
  | JArr vs => 91 :: join (map print vs) ++ [93]
  | JObj ms => 123 :: join (map (fun kv => quote kv.1 ++ 58 :: print kv.2) ms) ++ [125]
  end.

Definition Marshal (v : jvalue) : list byte := bytes_of (runes_str (print v)).

(** ** Reading *)

Definition syntax {A} : exec A := Fail (ExtError "json: syntax error").

Fixpoint skip_ws (rs : list Z) : list Z :=
  match rs with
  | c :: rs' => if (c =? 32) || (c =? 9) || (c =? 13) || (c =? 10) then skip_ws rs' else rs
  | [] => []
  end.

(** The character an escape of one letter stands for. *)
Definition unescape (e : Z) : option Z :=
  if (e =? 34) || (e =? 92) || (e =? 47) then Some e
  else if e =? 98 then Some 8
  else if e =? 102 then Some 12
  else if e =? 110 then Some 10
  else if e =? 114 then Some 13
  else if e =? 116 then Some 9
  else None.

Definition hex4 (h1 h2 h3 h4 : Z) : option Z :=
  a ← hex_value h1; b ← hex_value h2; c ← hex_value h3; d ← hex_value h4;
  Some (a * 4096 + b * 256 + c * 16 + d).

(** [utf16.IsSurrogate] and [utf16.DecodeRune]. *)
Definition surrogate (u : Z) : bool := between 0xd800 0xdfff u.
Definition decode_pair (u1 u2 : Z) : option Z :=
  if between 0xd800 0xdbff u1 && between 0xdc00 0xdfff u2
  then Some ((u1 - 0xd800) * 1024 + (u2 - 0xdc00) + 0x10000) else None.

Definition push (r : Z) (o : option (list Z * list Z)) : option (list Z * list Z) :=
  p ← o; Some (r :: p.1, p.2).

(** The rest of a string literal after its opening quote: the runes it stands
    for and what follows the closing quote.  A lone surrogate is replaced. *)
Fixpoint str_lit (rs : list Z) : option (list Z * list Z) :=
  match rs with
  | [] => None
  | c :: rs =>
      if c =? 34 then Some ([], rs)
      else if c <? 32 then None
      else if negb (c =? 92) then push c (str_lit rs)
      else
        match rs with
        | [] => None
        | e :: rs =>
            match unescape e with
            | Some r => push r (str_lit rs)
            | None =>
                if negb (e =? 117) then None
                else
                  match rs with
                  | h1 :: h2 :: h3 :: h4 :: rs =>
                      match hex4 h1 h2 h3 h4 with
                      | None => None
                      | Some u =>
                          if negb (surrogate u) then push u (str_lit rs)
                          else
                            match rs with
                            | c1 :: c2 :: g1 :: g2 :: g3 :: g4 :: rs' =>
                                match (if (c1 =? 92) && (c2 =? 117) then hex4 g1 g2 g3 g4 else None)
                                      ≫= decode_pair u with
                                | Some r => push r (str_lit rs')
                                | None => push RuneError (str_lit rs)
                                end
                            | _ => push RuneError (str_lit rs)
                            end
                      end
                  | _ => None
                  end
            end
        end
  end.

Definition is_digit (c : Z) : bool := between 48 57 c.

Fixpoint span_digits (rs : list Z) : list Z * list Z :=
  match rs with
  | c :: rs' => if is_digit c then let '(ds, r) := span_digits rs' in (c :: ds, r) else ([], rs)
  | [] => ([], [])
  end.

(** At least one digit. *)
Definition digits1 (rs : list Z) : option (list Z * list Z) :=
  match span_digits rs with
  | ([], _) => None
  | p => Some p
  end.

Definition num_int (rs : list Z) : option (list Z * list Z) :=
  match rs with
  | c :: rs' => if c =? 48 then Some ([48], rs') else digits1 rs
  | [] => None
  end.

Definition num_frac (rs : list Z) : option (list Z * list Z) :=
  match rs with
  | c :: rs' => if c =? 46 then p ← digits1 rs'; Some (46 :: p.1, p.2) else Some ([], rs)
  | [] => Some ([], [])
  end.

Definition num_exp (rs : list Z) : option (list Z * list Z) :=
  match rs with
  | c :: rs' =>
      if (c =? 101) || (c =? 69) then
        match rs' with
        | sg :: rs'' =>
            if (sg =? 43) || (sg =? 45) then p ← digits1 rs''; Some (c :: sg :: p.1, p.2)
            else p ← digits1 rs'; Some (c :: p.1, p.2)
        | [] => None
        end
      else Some ([], rs)
  | [] => Some ([], [])
  end.

Definition number (rs : list Z) : option (list Z * list Z) :=
  let '(sign, rs) :=
    match rs with c :: rs' => if c =? 45 then ([45], rs') else ([], rs) | [] => ([], []) end in
  i ← num_int rs; f ← num_frac i.2; e ← num_exp f.2;
  Some (sign ++ i.1 ++ f.1 ++ e.1, e.2).

Definition maxNestingDepth : nat := Z.to_nat 10000.

(** [lit] removed from the front. *)
Fixpoint after (lit rs : list Z) : option (list Z) :=
  match lit, rs with
  | [], rs => Some rs
  | a :: lit, b :: rs => if a =? b then after lit rs else None
  | _ :: _, [] => None
  end.

Definition keyword (lit : string) (v : jvalue) (rs : list Z) : exec (jvalue * list Z) :=
  match after (text lit) rs with
  | Some rs => Ok (v, rs)
  | None => syntax
  end.

(** [d] is the number of arrays and objects around the value. *)
Fixpoint parse_value (fuel d : nat) (rs : list Z) : exec (jvalue * list Z) :=
  match fuel with
  | O => NoFuel
  | S fuel =>
      match skip_ws rs with
      | [] => syntax
      | c :: rs' =>
          if c =? 34 then
            match str_lit rs' with
            | Some (r, rs) => Ok (JStr (runes_str r), rs)
            | None => syntax
            end
          else if c =? 91 then
            if (d =? maxNestingDepth)%nat then syntax
            else match skip_ws rs' with
                 | c2 :: rs2 =>
                     if c2 =? 93 then Ok (JArr [], rs2)
                     else let! p := parse_elements fuel (S d) rs' in Ok (JArr p.1, p.2)
                 | [] => syntax
                 end
          else if c =? 123 then
            if (d =? maxNestingDepth)%nat then syntax
            else match skip_ws rs' with
                 | c2 :: rs2 =>
                     if c2 =? 125 then Ok (JObj [], rs2)
                     else let! p := parse_members fuel (S d) rs' in Ok (JObj p.1, p.2)
                 | [] => syntax
                 end
          else if c =? 116 then keyword "true" (JBool true) (c :: rs')
          else if c =? 102 then keyword "false" (JBool false) (c :: rs')
          else if c =? 110 then keyword "null" JNull (c :: rs')
          else match number (c :: rs') with
               | Some (lit, rs) => Ok (JNum lit, rs)
               | None => syntax
               end
      end
  end
with parse_elements (fuel d : nat) (rs : list Z) : exec (list jvalue * list Z) :=
  match fuel with
  | O => NoFuel
  | S fuel =>
      let! p := parse_value fuel d rs in
      match skip_ws p.2 with
      | c :: rs =>
          if c =? 44 then let! q := parse_elements fuel d rs in Ok (p.1 :: q.1, q.2)
          else if c =? 93 then Ok ([p.1], rs)
          else syntax
      | [] => syntax
      end
  end
with parse_members (fuel d : nat) (rs : list Z) : exec (list (string * jvalue) * list Z) :=
  match fuel with
  | O => NoFuel
  | S fuel =>
      match skip_ws rs with
      | c :: rs =>
          if negb (c =? 34) then syntax
          else match str_lit rs with
               | None => syntax
               | Some (k, rs) =>
                   match skip_ws rs with
                   | c :: rs =>
                       if negb (c =? 58) then syntax
                       else
                         let! p := parse_value fuel d rs in
                         match skip_ws p.2 with
                         | c :: rs =>
                             if c =? 44 then
                               let! q := parse_members fuel d rs in
                               Ok ((runes_str k, p.1) :: q.1, q.2)
                             else if c =? 125 then Ok ([(runes_str k, p.1)], rs)
                             else syntax
                         | [] => syntax
                         end
                   | [] => syntax
                   end
               end
      | [] => syntax
      end
  end.

(** The text is checked to its end before anything is stored. *)
Definition Parse (bs : list byte) : exec jvalue :=
  let rs := runes (string_of bs) in
  let! p := parse_value (2 * length rs + 2) 0 rs in
  match skip_ws p.2 with
  | [] => Ok p.1
  | _ => syntax
  end.

(** ** Runes and the bytes that spell them *)

Lemma rune_bytes_2 b0 b1 :
  194 <= b0 <= 223 -> 128 <= b1 <= 191 ->
  rune_bytes ((b0 - 192) * 64 + (b1 - 128)) = [b0; b1].
Proof.
  intros H0 H1. unfold rune_bytes.
  assert (valid_rune ((b0 - 192) * 64 + (b1 - 128)) = true) as -> by (apply valid_rune_spec; lia).
  step_ifs. f_equal; [|f_equal]; Z.to_euclidean_division_equations; lia.
Qed.

Lemma rune_bytes_3 b0 b1 b2 :
  224 <= b0 <= 239 -> (if b0 =? 224 then 160 else 128) <= b1 <= (if b0 =? 237 then 159 else 191) ->
  128 <= b2 <= 191 ->
  rune_bytes ((b0 - 224) * 4096 + (b1 - 128) * 64 + (b2 - 128)) = [b0; b1; b2].
Proof.
  intros H0 H1 H2. unfold rune_bytes.
  assert (H3 : 128 <= b1 <= 191 /\ (b0 = 224 -> 160 <= b1) /\ (b0 = 237 -> b1 <= 159))
    by (destruct (Z.eqb_spec b0 224), (Z.eqb_spec b0 237); lia). clear H1.
  assert (valid_rune ((b0 - 224) * 4096 + (b1 - 128) * 64 + (b2 - 128)) = true) as ->
    by (apply valid_rune_spec; lia).
  step_ifs. f_equal; [|f_equal; [|f_equal]]; Z.to_euclidean_division_equations; lia.
Qed.

Lemma rune_bytes_4 b0 b1 b2 b3 :
  240 <= b0 <= 244 -> (if b0 =? 240 then 144 else 128) <= b1 <= (if b0 =? 244 then 143 else 191) ->
  128 <= b2 <= 191 -> 128 <= b3 <= 191 ->
  rune_bytes ((b0 - 240) * 262144 + (b1 - 128) * 4096 + (b2 - 128) * 64 + (b3 - 128))
  = [b0; b1; b2; b3].
Proof.
  intros H0 H1 H2 H3. unfold rune_bytes.
  assert (H4 : 128 <= b1 <= 191 /\ (b0 = 240 -> 144 <= b1) /\ (b0 = 244 -> b1 <= 143))
    by (destruct (Z.eqb_spec b0 240), (Z.eqb_spec b0 244); lia). clear H1.
  assert (valid_rune ((b0 - 240) * 262144 + (b1 - 128) * 4096 + (b2 - 128) * 64 + (b3 - 128)) = true) as ->
    by (apply valid_rune_spec; lia).
  step_ifs. f_equal; [|f_equal; [|f_equal; [|f_equal]]]; Z.to_euclidean_division_equations; lia.
Qed.

Ltac head_if E :=
  match goal with |- (if ?c then _ else _) = _ -> _ => destruct c eqn:E end.

Lemma cons_eq {A} (x y : A) l k : x :: l = y :: k -> x = y /\ l = k.
Proof. by intros [= -> ->]. Qed.

(** The first rune of a string is spelt by its first bytes, or stands for one
    ill-formed byte. *)
Lemma runes_cons_inv s r rs :
  runes s = r :: rs ->
  (exists s', s = bytes_str (rune_bytes r) +:+ s')
  \/ (r = RuneError /\ exists a s', s = String a s' /\ rs = runes s').
Proof.
  destruct s as [|a s1]; [done|]. pose proof (Z_of_ascii_bound a) as Ha. cbn [runes]. unfold cont, between.
  destruct (Z.ltb_spec (Z_of_ascii a) 128).
  { intros [<- <-]%cons_eq. left. exists s1. unfold rune_bytes.
    assert (valid_rune (Z_of_ascii a) = true) as -> by (apply valid_rune_spec; lia).
    assert ((Z_of_ascii a <? 128) = true) as -> by lia. cbn [bytes_str].
    by rewrite ascii_of_Z_of_ascii. }
  head_if E1.
  { destruct s1 as [|a1 s2]; [intros [<- <-]%cons_eq; right; eauto|].
    head_if E2; intros [<- <-]%cons_eq; [left; exists s2|right; eauto].
    rewrite rune_bytes_2 by lia. cbn [bytes_str]. by rewrite !ascii_of_Z_of_ascii. }
  head_if E2.
  { destruct s1 as [|a1 [|a2 s3]]; [intros [<- <-]%cons_eq; right; eauto..|].
    head_if E3; intros [<- <-]%cons_eq; [left; exists s3|right; eauto].
    rewrite rune_bytes_3 by lia. cbn [bytes_str]. by rewrite !ascii_of_Z_of_ascii. }
  head_if E3.
  { destruct s1 as [|a1 [|a2 [|a3 s4]]]; [intros [<- <-]%cons_eq; right; eauto..|].
    head_if E4; intros [<- <-]%cons_eq; [left; exists s4|right; eauto].
    rewrite rune_bytes_4 by lia. cbn [bytes_str]. by rewrite !ascii_of_Z_of_ascii. }
  intros [<- <-]%cons_eq. right. eauto.
Qed.

(** ** String literals *)

Lemma substring_all n s : (String.length s <= n)%nat -> String.substring 0 n s = s.
Proof.
  revert n. induction s as [|a s IH]; intros [|n] Hn; cbn in *; try done; [lia|].
  by rewrite IH by lia.
Qed.

Lemma substring_app w s n :
  (String.length s <= n)%nat -> String.substring (String.length w) n (w +:+ s) = s.
Proof. intros Hn. induction w as [|a w IH]; cbn; [by apply substring_all|done]. Qed.

Lemma prefix_app w s : String.prefix w s = true <-> exists s', s = w +:+ s'.
Proof.
  split.
  - revert s. induction w as [|a w IH]; intros s; [intros _; by exists s|]. destruct s as [|b s]; [done|].
    cbn. destruct (ascii_dec a b) as [->|]; [|done]. intros (s' & ->)%IH. by exists s'.
  - intros (s' & ->). induction w as [|a w IHw]; [by destruct s'|].
    rewrite append_cons. cbn [String.prefix]. destruct (ascii_dec a a); [exact IHw|done].
Qed.

(** The text written for the first rune of a string, and the string left. *)
Lemma quote_runes_cons s r rs :
  runes s = r :: rs ->
  exists s', runes s' = rs
    /\ (quote_runes (r :: rs) s = escape r ++ quote_runes rs s'
        \/ r = RuneError /\ quote_runes (r :: rs) s = text "\ufffd" ++ quote_runes rs s').
Proof.
  intros E. assert (Hv : valid_rune r = true).
  { pose proof (runes_valid s) as Hall. rewrite E in Hall. by inversion Hall. }
  cbn [quote_runes]. destruct (String.prefix _ s) eqn:Ep.
  - apply prefix_app in Ep as (s' & ->). exists s'.
    rewrite runes_rune_bytes in E by done. apply cons_eq in E as [_ <-]. split; [done|]. left.
    rewrite substring_app; [done|]. rewrite length_append. lia.
  - destruct (runes_cons_inv s r rs E) as [(s' & ->)|(-> & a & s' & -> & ->)].
    { assert (Hc : String.prefix (bytes_str (rune_bytes r)) (bytes_str (rune_bytes r) +:+ s') = true)
        by (apply prefix_app; eauto). congruence. }
    exists s'. split; [done|]. right. split; [done|]. f_equal. f_equal.
    cbn [String.length String.substring]. apply substring_all. lia.
Qed.

Lemma hexd_value d : 0 <= d < 16 -> hex_value (hexd d) = Some d.
Proof. intros Hd. unfold hexd. rewrite Z_of_hex_digit by done. by apply hex_value_digit. Qed.

(** Reading an escaped rune gives the rune. *)
Lemma str_lit_escape r rest :
  valid_rune r = true -> str_lit (escape r ++ rest) = push r (str_lit rest).
Proof.
  intros Hv. apply valid_rune_spec in Hv. unfold escape.
  match goal with |- str_lit ((if ?c then _ else _) ++ _) = _ => destruct c eqn:E1 end.
  { apply orb_true_iff in E1 as [->%Z.eqb_eq| ->%Z.eqb_eq]; done. }
  destruct (Z.eqb_spec r 8) as [->|]; [done|]. destruct (Z.eqb_spec r 12) as [->|]; [done|].
  destruct (Z.eqb_spec r 10) as [->|]; [done|]. destruct (Z.eqb_spec r 13) as [->|]; [done|].
  destruct (Z.eqb_spec r 9) as [->|]; [done|].
  apply orb_false_iff in E1 as [N1%Z.eqb_neq N2%Z.eqb_neq].
  match goal with |- str_lit ((if ?c then _ else _) ++ _) = _ => destruct c eqn:E2 end.
  { assert (Hr : 0 <= r < 64) by lia.
    assert (H1 : 0 <= r / 16 < 16) by (Z.to_euclidean_division_equations; lia).
    assert (H2 : 0 <= r mod 16 < 16) by (apply Z.mod_pos_bound; lia).
    cbn [app str_lit]. change (unescape 117) with (@None Z). cbn [Z.eqb Pos.eqb Z.ltb Z.compare Pos.compare Pos.compare_cont negb].
    unfold hex4. rewrite !hexd_value by done. change (hex_value 48) with (Some 0). cbn [mbind option_bind].
    replace (0 * 4096 + 0 * 256 + r / 16 * 16 + r mod 16) with r by (Z.to_euclidean_division_equations; lia).
    by assert (surrogate r = false) as -> by (unfold surrogate, between; lia). }
  match goal with |- str_lit ((if ?c then _ else _) ++ _) = _ => destruct c eqn:E3 end.
  { apply orb_true_iff in E3 as [->%Z.eqb_eq| ->%Z.eqb_eq]; vm_compute (hexd _); done. }
  cbn [app str_lit]. rewrite (proj2 (Z.eqb_neq r 34)), (proj2 (Z.eqb_neq r 92)) by done.
  cbn [negb]. by assert ((r <? 32) = false) as -> by lia.
Qed.

Lemma str_lit_quote_runes s rest :
  str_lit (quote_runes (runes s) s ++ 34 :: rest) = Some (runes s, rest).
Proof.
  remember (runes s) as rs eqn:E. symmetry in E. revert s E.
  induction rs as [|r rs IH]; intros s E; [done|].
  assert (Hv : valid_rune r = true).
  { pose proof (runes_valid s) as Hall. rewrite E in Hall. by inversion Hall. }
  destruct (quote_runes_cons s r rs E) as (s' & Hs' & [->|[-> ->]]); rewrite <-app_assoc.
  - rewrite str_lit_escape by done. by rewrite IH.
  - change (str_lit (text "\ufffd" ++ quote_runes rs s' ++ 34 :: rest))
      with (push RuneError (str_lit (quote_runes rs s' ++ 34 :: rest))). by rewrite IH.
Qed.

Lemma str_lit_quote s rest : quote s ++ rest = 34 :: (quote_runes (runes s) s ++ 34 :: rest).
Proof. unfold quote. cbn [app]. by rewrite <-app_assoc. Qed.

(** What is written is well-formed text. *)
Lemma valid_hexd d : 0 <= d < 16 -> valid_rune (hexd d) = true.
Proof.
  intros Hd. pose proof (hexd_value d Hd) as E. apply valid_rune_spec. left.
  pose proof (Z_of_ascii_bound (hex_digit d)). unfold hexd. lia.
Qed.

Lemma escape_valid r : valid_rune r = true -> Forall (fun c => valid_rune c = true) (escape r).
Proof.
  intros Hv. pose proof Hv as Hr%valid_rune_spec. unfold escape.
  assert (0 <= r mod 16 < 16) by (apply Z.mod_pos_bound; lia).
  repeat match goal with |- Forall _ (if ?b then _ else _) => destruct b eqn:? end;
    repeat first [apply Forall_nil_2|apply Forall_cons_2]; try done; apply valid_hexd; try done.
  Z.to_euclidean_division_equations; lia.
Qed.

Lemma quote_valid s : Forall (fun c => valid_rune c = true) (quote s).
Proof.
  unfold quote. apply Forall_cons_2; [done|]. apply Forall_app. split; [|by repeat constructor].
  remember (runes s) as rs eqn:E. symmetry in E. revert s E.
  induction rs as [|r rs IH]; intros s E; [done|].
  assert (Hv : valid_rune r = true).
  { pose proof (runes_valid s) as Hall. rewrite E in Hall. by inversion Hall. }
  destruct (quote_runes_cons s r rs E) as (s' & Hs' & [->|[-> ->]]); apply Forall_app;
    (split; [|by apply IH]); [by apply escape_valid|by repeat constructor].
Qed.

(** ** Values and their text *)

Section JInd.
Context (P : jvalue -> Prop).
Hypothesis Hnull : P JNull.
Hypothesis Hbool : forall b, P (JBool b).
Hypothesis Hnum : forall lit, P (JNum lit).
Hypothesis Hstr : forall s, P (JStr s).
Hypothesis Harr : forall vs, Forall P vs -> P (JArr vs).
Hypothesis Hobj : forall ms, Forall (fun kv => P kv.2) ms -> P (JObj ms).

(** Induction through the lists of elements and members. *)
Fixpoint jvalue_nested_ind (v : jvalue) : P v :=
  match v with
  | JNull => Hnull
  | JBool b => Hbool b
  | JNum lit => Hnum lit
  | JStr s => Hstr s
  | JArr vs => Harr vs ((fix go vs : Forall P vs := match vs with
                          | [] => List.Forall_nil _
                          | v :: vs => List.Forall_cons _ v vs (jvalue_nested_ind v) (go vs)
                          end) vs)
  | JObj ms => Hobj ms ((fix go ms : Forall (fun kv => P kv.2) ms := match ms with
                          | [] => List.Forall_nil _
                          | kv :: ms => List.Forall_cons _ kv ms (jvalue_nested_ind kv.2) (go ms)
                          end) ms)
  end.
End JInd.

(** The string a string is read back as: ill-formed bytes are replaced. *)
Definition to_utf8 (s : string) : string := runes_str (runes s).

Fixpoint clean (v : jvalue) : jvalue :=
  match v with
  | JStr s => JStr (to_utf8 s)
  | JArr vs => JArr (map clean vs)
  | JObj ms => JObj (map (fun kv => (to_utf8 kv.1, clean kv.2)) ms)
  | v => v
  end.

(** No number inside, as in all the program writes. *)
Fixpoint plain (v : jvalue) : bool :=
  match v with
  | JNum _ => false
  | JArr vs => forallb plain vs
  | JObj ms => forallb (fun kv => plain kv.2) ms
  | _ => true
  end.

Fixpoint depth (v : jvalue) : nat :=
  match v with
  | JArr vs => S (list_max (map depth vs))
  | JObj ms => S (list_max (map (fun kv => depth kv.2) ms))
  | _ => O
  end.

Definition is_ws (c : Z) : bool := (c =? 32) || (c =? 9) || (c =? 13) || (c =? 10).

Lemma skip_ws_cons c rs : is_ws c = false -> skip_ws (c :: rs) = c :: rs.
Proof. unfold is_ws. intros E. cbn [skip_ws]. by rewrite E. Qed.

(** The first character of a value: no white space, no closing bracket. *)
Lemma print_head v :
  plain v = true -> exists c t, print v = c :: t /\ is_ws c = false /\ (c =? 93) = false /\ (c =? 125) = false.
Proof.
  destruct v as [|[]| | | |]; intros Hp; [..|done| | |]; cbn [print]; eexists _, _; (split; [reflexivity|done]).
Qed.

Lemma skip_ws_print v rest : plain v = true -> skip_ws (print v ++ rest) = print v ++ rest.
Proof.
  intros Hp. destruct (print_head v Hp) as (c & t & -> & Hc & _). by apply skip_ws_cons.
Qed.

Definition member_text (kv : string * jvalue) : list Z := quote kv.1 ++ 58 :: print kv.2.

(** What [parse_value] promises on the text of [v]. *)
Definition reads_back (v : jvalue) : Prop :=
  plain v = true -> forall fuel d rest,
  (2 * length (print v) < fuel)%nat -> (d + depth v <= maxNestingDepth)%nat ->
  parse_value fuel d (print v ++ rest) = Ok (clean v, rest).

Lemma parse_elements_print vs : forall fuel d rest,
  vs <> [] -> Forall reads_back vs -> forallb plain vs = true ->
  (2 * length (join (map print vs)) + 1 < fuel)%nat ->
  (d + list_max (map depth vs) <= maxNestingDepth)%nat ->
  parse_elements fuel d (join (map print vs) ++ 93 :: rest) = Ok (map clean vs, rest).
Proof.
  induction vs as [|v vs IH]; intros fuel d rest Hne Hall Hp Hf Hd; [done|].
  apply Forall_cons in Hall as [Hv Hall]. cbn [forallb] in Hp. apply andb_true_iff in Hp as [Hpv Hp].
  cbn [map list_max foldr] in Hd. destruct fuel as [|fuel]; [lia|]. cbn [parse_elements].
  destruct vs as [|v2 vs].
  - cbn [map join] in *. rewrite Hv by (done || lia). done.
  - change (join (map print (v :: v2 :: vs)))
      with (print v ++ 44 :: join (map print (v2 :: vs))) in *.
    rewrite length_app in Hf. cbn [length] in Hf. rewrite <-app_assoc. cbn [app].
    rewrite Hv by (done || lia). cbn [ebind fst snd]. rewrite skip_ws_cons by done. cbn [Z.eqb Pos.eqb].
    rewrite IH; [done..| |]; cbn [map list_max fold_right] in *; lia.
Qed.

Lemma parse_members_print ms : forall fuel d rest,
  ms <> [] -> Forall (fun kv => reads_back kv.2) ms -> forallb (fun kv => plain kv.2) ms = true ->
  (2 * length (join (map member_text ms)) + 1 < fuel)%nat ->
  (d + list_max (map (fun kv => depth kv.2) ms) <= maxNestingDepth)%nat ->
  parse_members fuel d (join (map member_text ms) ++ 125 :: rest)
  = Ok (map (fun kv => (to_utf8 kv.1, clean kv.2)) ms, rest).
Proof.
  induction ms as [|[k v] ms IH]; intros fuel d rest Hne Hall Hp Hf Hd; [done|].
  apply Forall_cons in Hall as [Hv Hall]. cbn [forallb snd] in Hp. apply andb_true_iff in Hp as [Hpv Hp].
  cbn [map list_max foldr snd] in Hd. cbn [snd] in Hv.
  assert (Ht : exists tl, join (map member_text ((k, v) :: ms)) ++ 125 :: rest
    = quote k ++ 58 :: print v ++ tl /\ length (join (map member_text ((k, v) :: ms)))
      = (length (quote k) + 1 + length (print v) + match ms with [] => 0 | _ => 1 + length (join (map member_text ms)) end)%nat
    /\ tl = match ms with [] => 125 :: rest | _ => 44 :: join (map member_text ms) ++ 125 :: rest end).
  { destruct ms as [|m ms]; eexists; (split; [|split; [|reflexivity]]).
    - cbn [map join]. unfold member_text. cbn [fst snd]. by rewrite <-app_assoc.
    - cbn [map join]. unfold member_text. cbn [fst snd]. rewrite length_app. cbn [length]. lia.
    - change (join (map member_text ((k, v) :: m :: ms)))
        with (member_text (k, v) ++ 44 :: join (map member_text (m :: ms))).
      unfold member_text at 1. cbn [fst snd]. rewrite <-!app_assoc. cbn [app]. done.
    - change (join (map member_text ((k, v) :: m :: ms)))
        with (member_text (k, v) ++ 44 :: join (map member_text (m :: ms))).
      unfold member_text at 1. cbn [fst snd]. rewrite !length_app. cbn [length]. rewrite ?length_app. cbn [length]. lia. }
  destruct Ht as (tl & -> & Hl & Htl). rewrite Hl in Hf.
  destruct fuel as [|fuel]; [lia|]. cbn [parse_members]. rewrite str_lit_quote, skip_ws_cons by done.
  cbn [Z.eqb Pos.eqb negb]. rewrite str_lit_quote_runes, skip_ws_cons by done. cbn [Z.eqb Pos.eqb negb].
  rewrite Hv by (done || lia). cbn [ebind fst snd]. subst tl. destruct ms as [|m ms]; [done|].
  rewrite skip_ws_cons by done. cbn [Z.eqb Pos.eqb]. rewrite IH; [done..| |]; cbn [map list_max fold_right] in *; lia.
Qed.

Lemma parse_print v : reads_back v.
Proof.
  induction v as [|b|lit|s|vs IH|ms IH] using jvalue_nested_ind; intros Hp fuel d rest Hf Hd;
    (destruct fuel as [|fuel]; [lia|]); cbn [parse_value]; rewrite skip_ws_print by done.
  - done.
  - by destruct b.
  - done.
  - cbn [print]. rewrite str_lit_quote. cbn [Z.eqb Pos.eqb]. by rewrite str_lit_quote_runes.
  - cbn [print depth plain length] in *. rewrite length_app in Hf. cbn [length app Z.eqb Pos.eqb] in *.
    destruct (Nat.eqb_spec d maxNestingDepth); [lia|]. rewrite <-app_assoc. cbn [app].
    destruct vs as [|v vs]; [done|].
    assert (Hh : exists c t, join (map print (v :: vs)) ++ 93 :: rest = c :: t /\ is_ws c = false /\ (c =? 93) = false).
    { cbn [forallb] in Hp. apply andb_true_iff in Hp as [Hv _].
      destruct (print_head v Hv) as (c & t & E & H1 & H2 & _). cbn [map].
      destruct vs; cbn [map join]; rewrite E; eexists _, _; (split; [reflexivity|done]). }
    destruct Hh as (c & t & E & Hw & Hc). rewrite E, skip_ws_cons, Hc by done. rewrite <-E.
    rewrite parse_elements_print by (done || lia). done.
  - cbn [print depth plain length] in *. rewrite length_app in Hf. cbn [length app Z.eqb Pos.eqb] in *.
    destruct (Nat.eqb_spec d maxNestingDepth); [lia|]. rewrite <-app_assoc. cbn [app].
    destruct ms as [|m ms]; [done|].
    change (map (fun kv => quote kv.1 ++ 58 :: print kv.2)) with (map member_text) in *.
    assert (Hh : exists t, join (map member_text (m :: ms)) ++ 125 :: rest = 34 :: t)
      by (destruct ms; eexists; reflexivity).
    destruct Hh as (t & E). rewrite E, skip_ws_cons by done. cbn [Z.eqb Pos.eqb]. rewrite <-E.
    rewrite parse_members_print by (done || lia). done.
Qed.

Lemma Forall_join (P : Z -> Prop) l : P 44 -> Forall (Forall P) l -> Forall P (join l).
Proof.
  intros H44. induction 1 as [|x l Hx Hl IH]; [constructor|]. destruct l as [|y l]; [done|].
  change (join (x :: y :: l)) with (x ++ 44 :: join (y :: l)). apply Forall_app. split; [done|].
  by constructor.
Qed.

Lemma print_valid v : plain v = true -> Forall (fun c => valid_rune c = true) (print v).
Proof.
  induction v as [|b|lit|s|vs IH|ms IH] using jvalue_nested_ind; intros Hp; cbn [print plain] in *.
  - by repeat constructor.
  - destruct b; by repeat constructor.
  - done.
  - apply quote_valid.
  - apply Forall_cons_2; [done|]. apply Forall_app. split; [|by repeat constructor].
    apply Forall_join; [done|]. apply List.Forall_map. rewrite forallb_forall in Hp.
    rewrite Forall_forall in IH |- *. intros v Hv. apply IH; [done|]. apply Hp. by apply list_elem_of_In.
  - apply Forall_cons_2; [done|]. apply Forall_app. split; [|by repeat constructor].
    apply Forall_join; [done|]. apply List.Forall_map. rewrite forallb_forall in Hp.
    rewrite Forall_forall in IH |- *. intros v Hv. apply Forall_app. split; [apply quote_valid|].
    apply Forall_cons_2; [done|]. apply IH; [done|]. apply Hp. by apply list_elem_of_In.
Qed.

(** Reading what [Marshal] wrote. *)
Lemma Parse_Marshal v :
  plain v = true -> (depth v <= maxNestingDepth)%nat -> Parse (Marshal v) = Ok (clean v).
Proof.
  intros Hp Hd. unfold Parse, Marshal. rewrite string_of_bytes_of, runes_runes_str by by apply print_valid.
  rewrite <-(app_nil_r (print v)) at 2. rewrite parse_print by (done || lia). done.
Qed.

(** ** The parser ends *)

Lemma skip_ws_length rs : (length (skip_ws rs) <= length rs)%nat.
Proof. induction rs as [|c rs IH]; cbn; [done|]. destruct (_ || _); cbn; lia. Qed.

Lemma push_length r o n :
  (forall q rest, o = Some (q, rest) -> (length rest < n)%nat) ->
  forall q rest, push r o = Some (q, rest) -> (length rest < n)%nat.
Proof. intros Ho q rest. unfold push. destruct o as [[q' r']|]; [|done]. intros [= <- <-]. by eapply Ho. Qed.

(** A string literal ends before its input. *)
Lemma str_lit_length rs q rest : str_lit rs = Some (q, rest) -> (length rest < length rs)%nat.
Proof.
  assert (Hn : forall n rs, (length rs <= n)%nat -> forall q rest,
    str_lit rs = Some (q, rest) -> (length rest < length rs)%nat); [|by eapply Hn].
  clear. induction n as [|n IH]; intros [|c rs] Hl q rest; cbn [length] in Hl; try done; [lia|].
  assert (Hrec : forall r k, (length k <= length rs)%nat -> forall q rest,
    push r (str_lit k) = Some (q, rest) -> (length rest < length (c :: rs))%nat).
  { intros r k Hk. apply push_length. intros q' rest' E. cbn. apply IH in E; lia. }
  cbn [str_lit]. destruct (c =? 34); [intros [= <- <-]; cbn; lia|]. destruct (c <? 32); [done|].
  destruct (negb _); [by apply Hrec|]. destruct rs as [|e rs]; [done|].
  destruct (unescape e); [apply Hrec; cbn; lia|]. destruct (negb _); [done|].
  destruct rs as [|h1 [|h2 [|h3 [|h4 rs]]]]; try done. destruct (hex4 _ _ _ _) as [u|]; [|done].
  destruct (negb _); [apply Hrec; cbn; lia|].
  destruct rs as [|c1 [|c2 [|g1 [|g2 [|g3 [|g4 rs]]]]]]; try (apply Hrec; cbn; lia).
  destruct (_ ≫= _); apply Hrec; cbn; lia.
Qed.

Lemma span_digits_length rs : forall ds rest, span_digits rs = (ds, rest) ->
  length rs = (length ds + length rest)%nat.
Proof.
  induction rs as [|c rs IH]; cbn; intros ds rest; [by intros [= <- <-]|].
  destruct (is_digit c); [|by intros [= <- <-]]. destruct (span_digits rs) as [ds' r'].
  intros [= <- <-]. cbn. by rewrite (IH ds' r').
Qed.

Lemma digits1_length rs ds rest : digits1 rs = Some (ds, rest) -> (length rest < length rs)%nat.
Proof.
  unfold digits1. destruct (span_digits rs) as [ds' r'] eqn:E. apply span_digits_length in E.
  destruct ds'; [done|]. intros [= <- <-]. cbn in E. lia.
Qed.

Lemma num_int_length rs ds rest : num_int rs = Some (ds, rest) -> (length rest < length rs)%nat.
Proof.
  unfold num_int. destruct rs as [|c rs]; [done|]. destruct (c =? 48); [intros [= <- <-]; cbn; lia|].
  apply digits1_length.
Qed.

Lemma num_frac_length rs ds rest : num_frac rs = Some (ds, rest) -> (length rest <= length rs)%nat.
Proof.
  unfold num_frac. destruct rs as [|c rs]; [by intros [= <- <-]|].
  destruct (c =? 46); [|by intros [= <- <-]].
  destruct (digits1 rs) as [[d r]|] eqn:E; [|done]. apply digits1_length in E. intros [= <- <-]. cbn. lia.
Qed.

Lemma num_exp_length rs ds rest : num_exp rs = Some (ds, rest) -> (length rest <= length rs)%nat.
Proof.
  unfold num_exp. destruct rs as [|c rs]; [by intros [= <- <-]|].
  destruct (_ || _); [|by intros [= <- <-]]. destruct rs as [|sg rs]; [done|].
  destruct (_ || _).
  - destruct (digits1 rs) as [[d r]|] eqn:E; [|done]. apply digits1_length in E. intros [= <- <-]. cbn. lia.
  - destruct (digits1 (sg :: rs)) as [[d r]|] eqn:E; [|done]. apply digits1_length in E.
    intros [= <- <-]. cbn in *. lia.
Qed.

Lemma number_length rs lit rest : number rs = Some (lit, rest) -> (length rest < length rs)%nat.
Proof.
  unfold number. set (p := match rs with [] => _ | _ => _ end).
  assert (Hp : (length p.2 <= length rs)%nat) by (subst p; destruct rs as [|c rs]; [done|]; destruct (c =? 45); cbn; lia).
  destruct p as [sign rs']. cbn [snd] in Hp.
  destruct (num_int rs') as [[i ri]|] eqn:E1; [|done]. cbn [mbind option_bind fst snd].
  destruct (num_frac ri) as [[f rf]|] eqn:E2; [|done]. cbn [mbind option_bind fst snd].
  destruct (num_exp rf) as [[e re]|] eqn:E3; [|done]. cbn [mbind option_bind fst snd]. intros [= <- <-].
  apply num_int_length in E1. apply num_frac_length in E2. apply num_exp_length in E3. lia.
Qed.

(** The call ends, and what it leaves is shorter than what it was given. *)
Definition shortens {A} (rs : list Z) (x : exec (A * list Z)) : Prop :=
  match x with
  | Ok p => (length p.2 < length rs)%nat
  | NoFuel => False
  | _ => True
  end.

Lemma shortens_ebind {A B} (rs : list Z) (m : exec (A * list Z)) (k : A * list Z -> exec (B * list Z)) rs' :
  shortens rs' m -> (forall p, (length p.2 < length rs')%nat -> shortens rs (k p)) ->
  shortens rs (ebind m k).
Proof. intros Hm Hk. destruct m; cbn in *; try done. by apply Hk. Qed.

Lemma after_length lit rs rest : after lit rs = Some rest -> length rs = (length lit + length rest)%nat.
Proof.
  revert rs. induction lit as [|a lit IH]; intros rs; cbn; [by intros [= ->]|].
  destruct rs as [|b rs]; [done|]. destruct (a =? b); [|done]. intros E. cbn. by rewrite (IH rs).
Qed.

Lemma keyword_shortens lit v rs : text lit <> [] -> shortens rs (keyword lit v rs).
Proof.
  intros Hne. unfold keyword. destruct (after _ _) eqn:E; [|done]. apply after_length in E. cbn.
  destruct (text lit); [done|]. cbn in E. lia.
Qed.

Lemma parse_ends fuel : forall d rs,
  ((2 * length rs + 1 <= fuel)%nat -> shortens rs (parse_value fuel d rs))
  /\ ((2 * length rs + 2 <= fuel)%nat -> shortens rs (parse_elements fuel d rs))
  /\ ((2 * length rs + 2 <= fuel)%nat -> shortens rs (parse_members fuel d rs)).
Proof.
  induction fuel as [|fuel IH]; intros d rs; [split_and!; lia|].
  assert (IV : forall d rs, (2 * length rs + 1 <= fuel)%nat -> shortens rs (parse_value fuel d rs)) by (intros; by apply IH).
  assert (IE : forall d rs, (2 * length rs + 2 <= fuel)%nat -> shortens rs (parse_elements fuel d rs)) by (intros; by apply IH).
  assert (IM : forall d rs, (2 * length rs + 2 <= fuel)%nat -> shortens rs (parse_members fuel d rs)) by (intros; by apply IH).
  clear IH. pose proof (skip_ws_length rs) as Hs. split_and!; intros Hf.
  - cbn [parse_value]. destruct (skip_ws rs) as [|c rs'] eqn:E; [done|]. cbn [length] in Hs.
    pose proof (skip_ws_length rs') as Hs'.
    destruct (c =? 34).
    { destruct (str_lit rs') as [[q r]|] eqn:El; [|done]. apply str_lit_length in El. cbn. lia. }
    destruct (c =? 91).
    { destruct (_ =? _)%nat; [done|]. destruct (skip_ws rs') as [|c2 rs2]; [done|]. cbn [length] in Hs'.
      destruct (c2 =? 93); [cbn; lia|]. apply (shortens_ebind rs _ _ rs'); [apply IE; lia|].
      intros p Hp. cbn. lia. }
    destruct (c =? 123).
    { destruct (_ =? _)%nat; [done|]. destruct (skip_ws rs') as [|c2 rs2]; [done|]. cbn [length] in Hs'.
      destruct (c2 =? 125); [cbn; lia|]. apply (shortens_ebind rs _ _ rs'); [apply IM; lia|].
      intros p Hp. cbn. lia. }
    assert (Hk : forall lit v, text lit <> [] -> shortens rs (keyword lit v (c :: rs'))).
    { intros lit v Hne. pose proof (keyword_shortens lit v (c :: rs') Hne) as Hk.
      destruct (keyword lit v (c :: rs')); cbn in *; try done; lia. }
    destruct (c =? 116); [by apply Hk|]. destruct (c =? 102); [by apply Hk|].
    destruct (c =? 110); [by apply Hk|].
    destruct (number (c :: rs')) as [[lit r]|] eqn:En; [|done]. apply number_length in En. cbn in *. lia.
  - cbn [parse_elements]. apply (shortens_ebind rs _ _ rs); [apply IV; lia|]. intros p Hp.
    pose proof (skip_ws_length p.2) as Hs2. destruct (skip_ws p.2) as [|c rs2]; [done|]. cbn [length] in Hs2.
    destruct (c =? 44).
    + apply (shortens_ebind rs _ _ rs2); [apply IE; lia|]. intros q Hq. cbn. lia.
    + destruct (c =? 93); [|done]. cbn. lia.
  - cbn [parse_members]. destruct (skip_ws rs) as [|c rs1] eqn:E; [done|]. cbn [length] in Hs.
    destruct (negb _); [done|]. destruct (str_lit rs1) as [[k rs2]|] eqn:El; [|done].
    apply str_lit_length in El. pose proof (skip_ws_length rs2) as Hs2.
    destruct (skip_ws rs2) as [|c3 rs3]; [done|]. cbn [length] in Hs2. destruct (negb _); [done|].
    apply (shortens_ebind rs _ _ rs3); [apply IV; lia|]. intros p Hp.
    pose proof (skip_ws_length p.2) as Hs4. destruct (skip_ws p.2) as [|c5 rs5]; [done|]. cbn [length] in Hs4.
    destruct (c5 =? 44).
    + apply (shortens_ebind rs _ _ rs5); [apply IM; lia|]. intros q Hq. cbn. lia.
    + destruct (c5 =? 125); [|done]. cbn. lia.
Qed.

Lemma Parse_ends bs : Parse bs <> NoFuel.
Proof.
  unfold Parse. destruct (parse_ends (2 * length (runes (string_of bs)) + 2) 0 (runes (string_of bs)))
    as [Hv _]. specialize (Hv ltac:(lia)). destruct (parse_value _ _ _) as [p| | |]; try done.
  cbn. by destruct (skip_ws p.2).
Qed.
