(* ===== verification/Toy.v ===== *)
(** * A byte encoding of any countable type

    Used by the concrete instances of the library encoders (it models none of
    them): the bits of the number of a value, one per byte. *)

From stdpp Require Import base countable list strings.
From S2P Require Import Prelude Bytes.

Fixpoint enc_pos (p : positive) : list byte :=
  match p with
  | xI p => x01 :: enc_pos p
  | xO p => x00 :: enc_pos p
  | xH => [x02]
  end.
Fixpoint dec_pos (bs : list byte) : option (positive * list byte) :=
  match bs with
  | x01 :: bs => p ← dec_pos bs; Some (xI p.1, p.2)
  | x00 :: bs => p ← dec_pos bs; Some (xO p.1, p.2)
  | x02 :: bs => Some (xH, bs)
  | _ => None
  end.

Definition of_option {A} (o : option A) : exec A :=
  match o with Some a => Ok a | None => Fail (ExtError "malformed") end.

Definition toy_enc {A} `{Countable A} (a : A) : list byte := enc_pos (encode a).
Definition toy_dec {A} `{Countable A} (bs : list byte) : exec A :=
  of_option (p ← dec_pos bs; decode p.1).

Lemma dec_enc_pos p bs : dec_pos (enc_pos p ++ bs) = Some (p, bs).
Proof. induction p as [p IH|p IH|]; cbn; by rewrite ?IH. Qed.

Lemma toy_dec_enc {A} `{Countable A} (a : A) : toy_dec (toy_enc a) = Ok a.
Proof.
  unfold toy_dec, toy_enc. rewrite <-(app_nil_r (enc_pos _)), dec_enc_pos.
  cbn [mbind option_bind fst]. by rewrite decode_encode.
Qed.
