(* ===== verification/NetUrl.v ===== *)
(** * net/url

    What the program uses of [url.Parse] and of [URL]: the addresses of the
    peers and of the listeners are parsed, and the host of a peer is replaced.
    Texts are lists of bytes.  The definitions follow the library as of Go 1.24.0;
    of an error only the kind is kept. *)

From stdpp Require Import base list sets strings.
From Stdlib Require Import ZArith Lia Ascii.
From S2P Require Import Prelude GoStr.
Local Open Scope Z_scope.
Local Open Scope go_scope.

(** ** Definitions *)

Notation text := (list Z).

Record URL := mkURL {
  Scheme : text;
  Opaque : text;
  User : option (text * option text);   (* the password is optional *)
  Host : text;
  Path : text;
  RawPath : text;
  OmitHost : bool;
  ForceQuery : bool;
  RawQuery : text;
  Fragment : text;
  RawFragment : text;
}.

Definition with_host (h : text) (u : URL) : URL :=
  mkURL (Scheme u) (Opaque u) (User u) h (Path u) (RawPath u) (OmitHost u) (ForceQuery u) (RawQuery u)
    (Fragment u) (RawFragment u).

(** *** Bytes *)

Definition letter (c : Z) : bool := between 97 122 c || between 65 90 c.
Definition digit (c : Z) : bool := between 48 57 c.
Definition alnum (c : Z) : bool := letter c || digit c.
Definition one_of (s : string) (c : Z) : bool := existsb (Z.eqb c) (codes s).

(** [strings.Cut] and the cut at [strings.LastIndex], for one byte. *)
Fixpoint cut (c : Z) (l : text) : text * option text :=
  match l with
  | [] => ([], None)
  | x :: l => if x =? c then ([], Some l) else let '(a, b) := cut c l in (x :: a, b)
  end.

Fixpoint cut_last (c : Z) (l : text) : option (text * text) :=
  match l with
  | [] => None
  | x :: l =>
      match cut_last c l with
      | Some (a, b) => Some (x :: a, b)
      | None => if x =? c then Some ([], l) else None
      end
  end.

Definition contains (c : Z) (l : text) : bool := existsb (Z.eqb c) l.

(** *** Escaping *)

Inductive encoding := encodePath | encodeHost | encodeZone | encodeUserPassword | encodeFragment.

Definition host_or_zone (mode : encoding) : bool :=
  match mode with encodeHost | encodeZone => true | _ => false end.

Definition shouldEscape (c : Z) (mode : encoding) : bool :=
  if alnum c then false
  else if host_or_zone mode && (one_of "!$&'()*+,;=:[]<>" c || (c =? 34)) then false
  else if one_of "-_.~" c then false
  else if one_of "$&+,/:;=?@" c then
    match mode with
    | encodePath => c =? 63
    | encodeUserPassword => one_of "@/?:" c
    | encodeFragment => false
    | encodeHost | encodeZone => true
    end
  else
    match mode with
    | encodeFragment => negb (one_of "!()*" c)
    | _ => true
    end.

Definition upper_hex (d : Z) : Z := if d <? 10 then 48 + d else 55 + d.

Definition escape (l : text) (mode : encoding) : text :=
  flat_map (fun c => if shouldEscape c mode then [37; upper_hex (c / 16); upper_hex (c mod 16)] else [c]) l.

Definition EscapeError {A} : exec A := Fail (ExtError "invalid URL escape").
Definition InvalidHostError {A} : exec A := Fail (ExtError "invalid character in host name").

(** Escapes of ASCII bytes are refused in a host, but for %25 and, in a zone,
    spaces and what a host may hold anyway. *)
Definition escape_ok (mode : encoding) (a b x y : Z) : bool :=
  let percent := (a =? 50) && (b =? 53) in
  match mode with
  | encodeHost => negb ((x <? 8) && negb percent)
  | encodeZone =>
      let v := x * 16 + y in
      negb (negb percent && negb (v =? 32) && shouldEscape v encodeHost)
  | _ => true
  end.

Fixpoint unescape (l : text) (mode : encoding) : exec text :=
  match l with
  | [] => Ok []
  | c :: l' =>
      if c =? 37 then
        match l' with
        | a :: b :: l'' =>
            match hex_value a, hex_value b with
            | Some x, Some y =>
                if escape_ok mode a b x y then let! r := unescape l'' mode in Ok (x * 16 + y :: r)
                else EscapeError
            | _, _ => EscapeError
            end
        | _ => EscapeError
        end
      else if host_or_zone mode && (c <? 128) && shouldEscape c mode then InvalidHostError
      else let! r := unescape l' mode in Ok (c :: r)
  end.

(** The bytes that may stand in a text that is already encoded. *)
Definition validEncoded (l : text) (mode : encoding) : bool :=
  forallb (fun c => one_of "!$&'()*+,;=:@[]%" c || negb (shouldEscape c mode)) l.

(** [setPath] and [setFragment]: the decoded text, and the given one when the
    default encoding is another. *)
Definition decoded (p : text) (mode : encoding) : exec (text * text) :=
  let! path := unescape p mode in
  Ok (path, if decide (p = escape path mode) then [] else p).

(** [EscapedPath] and [EscapedFragment]; [star] is the exception of a path. *)
Definition encoded (star : bool) (path raw : text) (mode : encoding) : text :=
  let default := if star && bool_decide (path = [42]) then [42] else escape path mode in
  match raw with
  | [] => default
  | _ =>
      if validEncoded raw mode then
        match unescape raw mode with
        | Ok p => if decide (p = path) then raw else default
        | _ => default
        end
      else default
  end.

(** *** The authority *)

Definition validOptionalPort (port : text) : bool :=
  match port with
  | [] => true
  | c :: l => (c =? 58) && forallb digit l
  end.

Definition bad_port {A} : exec A := Fail (ExtError "invalid port after host").

(** The index of %25: the text before it and the text from it on. *)
Fixpoint find_zone (l : text) : option (text * text) :=
  match l with
  | [] => None
  | c :: l' =>
      if decide (take 3 l = [37; 50; 53]) then Some ([], l)
      else '(a, b) ← find_zone l'; Some (c :: a, b)
  end.

Definition parseHost (host : text) : exec text :=
  if bool_decide (take 1 host = [91]) then
    match cut_last 93 host with
    | None => Fail (ExtError "missing ']' in host")
    | Some (before, colonPort) =>
        if negb (validOptionalPort colonPort) then bad_port
        else
          match find_zone before with
          | Some (h1, h2) =>
              let! host1 := unescape h1 encodeHost in
              let! host2 := unescape h2 encodeZone in
              let! host3 := unescape (93 :: colonPort) encodeHost in
              Ok (host1 ++ host2 ++ host3)
          | None => unescape host encodeHost
          end
    end
  else
    match cut_last 58 host with
    | Some (_, port) => if validOptionalPort (58 :: port) then unescape host encodeHost else bad_port
    | None => unescape host encodeHost
    end.

Definition validUserinfo (l : text) : bool :=
  forallb (fun c => alnum c || one_of "-._:~!$&'()*+,;=%@" c) l.

Definition parseUserinfo (l : text) : exec (text * option text) :=
  if negb (validUserinfo l) then Fail (ExtError "net/url: invalid userinfo")
  else
    match cut 58 l with
    | (_, None) => let! name := unescape l encodeUserPassword in Ok (name, None)
    | (n, Some p) =>
        let! name := unescape n encodeUserPassword in
        let! password := unescape p encodeUserPassword in
        Ok (name, Some password)
    end.

Definition parseAuthority (authority : text) : exec (option (text * option text) * text) :=
  match cut_last 64 authority with
  | None => let! host := parseHost authority in Ok (None, host)
  | Some (userinfo, h) =>
      let! host := parseHost h in
      let! user := parseUserinfo userinfo in
      Ok (Some user, host)
  end.

(** *** Parse *)

(** The text before the first colon if it can be a scheme; [first] says that
    nothing has been read yet. *)
Fixpoint scheme_of (first : bool) (l : text) : exec (option (text * text)) :=
  match l with
  | [] => Ok None
  | c :: l =>
      if letter c || (negb first && (digit c || one_of "+-." c)) then
        let! r := scheme_of false l in
        Ok ('(s, rest) ← r; Some (c :: s, rest))
      else if c =? 58 then
        if first then Fail (ExtError "missing protocol scheme") else Ok (Some ([], l))
      else Ok None
  end.

Definition getScheme (l : text) : exec (text * text) :=
  let! r := scheme_of true l in
  Ok (default ([], l) r).

(** User, host, whether an empty host is left out, and path. *)
Definition split_authority (scheme rest : text)
    : exec (option (text * option text) * text * bool * text) :=
  if bool_decide (take 2 rest = [47; 47])
     && (bool_decide (scheme <> []) || negb (bool_decide (take 3 rest = [47; 47; 47]))) then
    let '(authority, p) := cut 47 (drop 2 rest) in
    let! (user, host) := parseAuthority authority in
    Ok (user, host, false, match p with None => [] | Some p => 47 :: p end)
  else Ok (None, [], bool_decide (scheme <> []) && bool_decide (take 1 rest = [47]), rest).

(** The part after [scheme:], without the query. *)
Definition parse_rest (scheme rest : text) (force : bool) (query : text) : exec URL :=
  let! (user, host, omit, p) := split_authority scheme rest in
  let! (path, raw) := decoded p encodePath in
  Ok (mkURL scheme [] user host path raw omit force query [] []).

Definition parse (rawURL : text) : exec URL :=
  if existsb (fun c => (c <? 32) || (c =? 127)) rawURL then
    Fail (ExtError "net/url: invalid control character in URL")
  else if decide (rawURL = [42]) then Ok (mkURL [] [] None [] [42] [] false false [] [] [])
  else
    let! (s, rest) := getScheme rawURL in
    let scheme := lower_byte <$> s in
    let '(rest, force, query) :=
      match cut 63 rest with
      | (r, Some []) => (r, true, [])
      | (r, Some q) => (r, false, q)
      | (r, None) => (r, false, [])
      end in
    if negb (bool_decide (take 1 rest = [47])) then
      if decide (scheme <> []) then Ok (mkURL scheme rest None [] [] [] false force query [] [])
      else if contains 58 (cut 47 rest).1 then
        Fail (ExtError "first path segment in URL cannot contain colon")
      else parse_rest scheme rest force query
    else parse_rest scheme rest force query.

Definition Parse (rawURL : string) : exec URL :=
  let '(u, frag) := cut 35 (codes rawURL) in
  let! url := parse u in
  match frag with
  | None | Some [] => Ok url
  | Some f =>
      let! (fragment, raw) := decoded f encodeFragment in
      Ok (mkURL (Scheme url) (Opaque url) (User url) (Host url) (Path url) (RawPath url) (OmitHost url)
            (ForceQuery url) (RawQuery url) fragment raw)
  end.

(** *** Reading a URL *)

Definition splitHostPort (hostPort : text) : text * text :=
  let '(host, port) :=
    match cut_last 58 hostPort with
    | Some (h, p) => if validOptionalPort (58 :: p) then (h, p) else (hostPort, [])
    | None => (hostPort, [])
    end in
  let n := length host in
  if bool_decide (take 1 host = [91]) && bool_decide (drop (n - 1) host = [93])
  then (take (n - 2) (drop 1 host), port)
  else (host, port).

Definition Hostname (u : URL) : string := bytes_str (splitHostPort (Host u)).1.
Definition Port (u : URL) : string := bytes_str (splitHostPort (Host u)).2.

Definition user_text (ui : text * option text) : text :=
  escape ui.1 encodeUserPassword
  ++ match ui.2 with None => [] | Some p => 58 :: escape p encodeUserPassword end.

Definition url_text (u : URL) : text :=
  let scheme := match Scheme u with [] => [] | s => s ++ [58] end in
  let body :=
    match Opaque u with
    | _ :: _ => scheme ++ Opaque u
    | [] =>
        let has {A} (l : list A) := match l with [] => false | _ => true end in
        let user := match User u with None => false | Some _ => true end in
        let authority :=
          if (has (Scheme u) || has (Host u) || user) && negb (OmitHost u && negb (has (Host u)) && negb user)
          then (if has (Host u) || has (Path u) || user then [47; 47] else [])
               ++ match User u with None => [] | Some ui => user_text ui ++ [64] end
               ++ escape (Host u) encodeHost
          else [] in
        let path := encoded true (Path u) (RawPath u) encodePath in
        let slash :=
          match path with
          | c :: _ => if negb (c =? 47) && has (Host u) then [47] else []
          | [] => []
          end in
        let front := scheme ++ authority ++ slash in
        let dot := if negb (has front) && contains 58 (cut 47 path).1 then [46; 47] else [] in
        front ++ dot ++ path
    end in
  body
  ++ (if ForceQuery u || negb (bool_decide (RawQuery u = [])) then 63 :: RawQuery u else [])
  ++ match Fragment u with [] => [] | f => 35 :: encoded false f (RawFragment u) encodeFragment end.

(** [URL.String]. *)
Definition URL_String (u : URL) : string := bytes_str (url_text u).

(** Known texts. *)
Example parse_http : option_map URL_String (match Parse "HTTP://a%C3%A4.lan:80/x%41%2fy?q=1#f%20" with Ok u => Some u | _ => None end)
  = Some "http://a%C3%A4.lan:80/x%41%2fy?q=1#f%20".
Proof. vm_compute. reflexivity. Qed.

Example parse_v6 : match Parse "udp://[fe80::1%25en0]:53" with Ok u => (Hostname u, Port u) | _ => ("", "") end = ("fe80::1%en0", "53").
Proof. vm_compute. reflexivity. Qed.

Example parse_plain_port : Parse "0.0.0.0:8080" = Fail (ExtError "first path segment in URL cannot contain colon").
Proof. vm_compute. reflexivity. Qed.

(** ** Plain addresses

    scheme://host, with or without a port and a path, none of whose bytes is
    escaped: the addresses the sample configuration has. *)

Definition host_char (c : Z) : bool := alnum c || one_of "-_.~" c.
Definition path_char (c : Z) : bool := alnum c || one_of "-_.~$&+,/:;=@" c.

(** The port comes with its colon, the path with its slash. *)
Record plain_address (scheme host port path : text) : Prop := {
  plain_scheme : scheme <> [] /\ Forall (fun c => between 97 122 c = true) scheme;
  plain_host : host <> [] /\ Forall (fun c => host_char c = true) host;
  plain_port : validOptionalPort port = true;
  plain_path : (path = [] \/ take 1 path = [47]) /\ Forall (fun c => path_char c = true) path;
}.

Definition address (scheme host port path : text) : text := scheme ++ [58; 47; 47] ++ host ++ port ++ path.

Definition plain_url (scheme host port path : text) : URL :=
  mkURL scheme [] None (host ++ port) path [] false false [] [] [].

(** ** Lemmas *)

Lemma one_of_In s c : one_of s c = true -> c ∈ codes s.
Proof. unfold one_of. intros (x & Hx & ->%Z.eqb_eq)%existsb_exists. by apply list_elem_of_In. Qed.

Lemma cut_none c l : Forall (fun x => x <> c) l -> cut c l = (l, None).
Proof. induction 1 as [|x l Hx _ IH]; [done|]. cbn. by rewrite (proj2 (Z.eqb_neq _ _) Hx), IH. Qed.

Lemma cut_at c l r : Forall (fun x => x <> c) l -> cut c (l ++ c :: r) = (l, Some r).
Proof.
  induction 1 as [|x l Hx _ IH]; cbn; [by rewrite Z.eqb_refl|].
  by rewrite (proj2 (Z.eqb_neq _ _) Hx), IH.
Qed.

Lemma cut_last_none c l : Forall (fun x => x <> c) l -> cut_last c l = None.
Proof. induction 1 as [|x l Hx _ IH]; [done|]. cbn. by rewrite IH, (proj2 (Z.eqb_neq _ _) Hx). Qed.

Lemma cut_last_at c l r : Forall (fun x => x <> c) r -> cut_last c (l ++ c :: r) = Some (l, r).
Proof.
  intros Hr. induction l as [|x l IH]; cbn; [|by rewrite IH].
  by rewrite cut_last_none, Z.eqb_refl.
Qed.

(** A text of bytes the mode does not escape is its own encoding. *)
Definition literal (mode : encoding) (l : text) : Prop :=
  Forall (fun c => shouldEscape c mode = false /\ c <> 37) l.

Lemma escape_literal mode l : literal mode l -> escape l mode = l.
Proof. induction 1 as [|c l [Hc _] _ IH]; [done|]. unfold escape in *. cbn. by rewrite Hc, IH. Qed.

Lemma unescape_literal mode l : literal mode l -> unescape l mode = Ok l.
Proof.
  induction 1 as [|c l [Hc Hp] _ IH]; [done|]. cbn.
  by rewrite (proj2 (Z.eqb_neq _ _) Hp), Hc, andb_false_r, IH.
Qed.

Lemma decoded_literal mode l : literal mode l -> decoded l mode = Ok (l, []).
Proof.
  intros Hl. unfold decoded. rewrite unescape_literal by done. cbn.
  by rewrite escape_literal, decide_True.
Qed.

(** The classes of bytes are finite: a fact about them is checked byte by byte. *)
Lemma byte_class (P Q : Z -> bool) :
  forallb (fun n => implb (P (Z.of_nat n)) (Q (Z.of_nat n))) (seq 0 256) = true ->
  (forall c, P c = true -> 0 <= c < 256) -> forall c, P c = true -> Q c = true.
Proof.
  rewrite forallb_forall. intros Hall Hb c Hc. pose proof (Hb c Hc).
  specialize (Hall (Z.to_nat c) ltac:(apply in_seq; lia)). rewrite Z2Nat.id in Hall by lia.
  by rewrite Hc in Hall.
Qed.

Lemma alnum_bound c : alnum c = true -> 0 <= c < 256.
Proof. unfold alnum, letter, digit, between. rewrite !orb_true_iff, !andb_true_iff. lia. Qed.

Lemma one_of_bound s c : one_of s c = true -> 0 <= c < 256.
Proof.
  intros Hc%one_of_In. induction s as [|a s IH]; [by apply elem_of_nil in Hc|].
  cbn in Hc. apply elem_of_cons in Hc as [->|Hc]; [apply Z_of_ascii_bound|by apply IH].
Qed.

Lemma class_bound s c : alnum c || one_of s c = true -> 0 <= c < 256.
Proof. intros [Hc|Hc]%orb_true_iff; [by apply alnum_bound|by eapply one_of_bound]. Qed.

Definition none_of (l : text) (c : Z) : bool := negb (existsb (Z.eqb c) l).

Lemma none_of_neq l c x : none_of l c = true -> x ∈ l -> c <> x.
Proof.
  unfold none_of. intros Hn Hx ->. apply list_elem_of_In in Hx. apply negb_true_iff in Hn.
  assert (existsb (Z.eqb x) l = true); [apply existsb_exists; eexists; split; [exact Hx|apply Z.eqb_refl]|congruence].
Qed.

(** Not escaped, no control byte, and none of the bytes a parser looks for. *)
Definition safe (mode : encoding) (l : text) (c : Z) : bool :=
  negb (shouldEscape c mode) && none_of (37 :: 127 :: l) c && (32 <=? c).

Definition marks : text := [35; 47; 63; 64; 91; 93].

Lemma host_char_safe c : host_char c = true -> safe encodeHost (58 :: marks) c = true.
Proof. revert c. apply byte_class; [vm_compute; reflexivity|]. apply class_bound. Qed.

Lemma path_char_safe c : path_char c = true -> safe encodePath [35; 63] c = true.
Proof. revert c. apply byte_class; [vm_compute; reflexivity|]. apply class_bound. Qed.

Lemma port_char_bound c : digit c || (c =? 58) = true -> 0 <= c < 256.
Proof. unfold digit, between. rewrite orb_true_iff, andb_true_iff. lia. Qed.

Lemma port_char_safe c : digit c || (c =? 58) = true -> safe encodeHost marks c = true.
Proof. revert c. apply byte_class; [vm_compute; reflexivity|apply port_char_bound]. Qed.

Lemma scheme_char_safe c :
  between 97 122 c = true -> safe encodePath (58 :: marks) c && letter c && (lower_byte c =? c) = true.
Proof.
  revert c. apply byte_class; [vm_compute; reflexivity|]. intros c. unfold between. rewrite andb_true_iff. lia.
Qed.

Definition all_safe (mode : encoding) (l : text) (t : text) : Prop := Forall (fun c => safe mode l c = true) t.

Lemma safe_literal mode l t : all_safe mode l t -> literal mode t.
Proof.
  intros Ht. apply (Forall_impl _ _ _ Ht). unfold safe. intros c [[Hc%negb_true_iff Hn]%andb_true_iff _]%andb_true_iff.
  split; [done|]. apply (none_of_neq _ _ _ Hn). left.
Qed.

Lemma safe_without mode l t x : all_safe mode l t -> x ∈ l -> Forall (fun c => c <> x) t.
Proof.
  intros Ht Hx. apply (Forall_impl _ _ _ Ht). unfold safe. intros c [[_ Hn]%andb_true_iff _]%andb_true_iff.
  apply (none_of_neq _ _ _ Hn). by do 2 right.
Qed.

Lemma safe_printable mode l t : all_safe mode l t -> Forall (fun c => 32 <= c /\ c <> 127) t.
Proof.
  intros Ht. apply (Forall_impl _ _ _ Ht). unfold safe. intros c [[_ Hn]%andb_true_iff Hc%Z.leb_le]%andb_true_iff.
  split; [done|]. apply (none_of_neq _ _ _ Hn). right. left.
Qed.

Lemma all_safe_weaken mode l l' t : l' ⊆ l -> all_safe mode l t -> all_safe mode l' t.
Proof.
  intros Hl Ht. apply (Forall_impl _ _ _ Ht). unfold safe. intros c.
  rewrite !andb_true_iff. intros [[He Hn] Hc]. split_and!; [done| |done].
  unfold none_of. apply negb_true_iff, not_true_iff_false. intros (x & Hx & ->%Z.eqb_eq)%existsb_exists.
  apply (none_of_neq _ _ x Hn); [|done]. apply list_elem_of_In in Hx. set_solver.
Qed.

Section Plain.
Context (scheme host port path : text) (Hpl : plain_address scheme host port path).

Lemma scheme_safe : all_safe encodePath (58 :: marks) scheme.
Proof.
  eapply Forall_impl; [exact (proj2 (plain_scheme _ _ _ _ Hpl))|]. intros c Hc.
  apply scheme_char_safe in Hc. by apply andb_true_iff in Hc as [[? _]%andb_true_iff _].
Qed.

Lemma host_safe : all_safe encodeHost (58 :: marks) host.
Proof. eapply Forall_impl; [exact (proj2 (plain_host _ _ _ _ Hpl))|]. apply host_char_safe. Qed.

Lemma path_safe : all_safe encodePath [35; 63] path.
Proof. eapply Forall_impl; [exact (proj2 (plain_path _ _ _ _ Hpl))|]. apply path_char_safe. Qed.

Lemma port_cases : port = [] \/ exists ds, port = 58 :: ds /\ Forall (fun c => digit c = true) ds.
Proof.
  pose proof (plain_port _ _ _ _ Hpl) as Hp. destruct port as [|c ds]; [by left|right].
  cbn in Hp. apply andb_true_iff in Hp as [->%Z.eqb_eq Hd]. exists ds. split; [done|].
  apply Forall_forall. intros x Hx%list_elem_of_In. by apply (proj1 (forallb_forall _ _) Hd).
Qed.

Lemma port_chars : Forall (fun c => digit c || (c =? 58) = true) port.
Proof.
  destruct port_cases as [->|(ds & -> & Hds)]; [constructor|]. constructor; [done|].
  eapply Forall_impl; [exact Hds|]. intros c Hc. cbn. by rewrite Hc.
Qed.

Lemma port_safe : all_safe encodeHost marks port.
Proof. eapply Forall_impl; [exact port_chars|]. apply port_char_safe. Qed.

Lemma authority_safe : all_safe encodeHost marks (host ++ port).
Proof.
  apply Forall_app. split; [|apply port_safe]. apply (all_safe_weaken _ (58 :: marks)); [set_solver|].
  apply host_safe.
Qed.

Lemma parseHost_plain : parseHost (host ++ port) = Ok (host ++ port).
Proof.
  pose proof (unescape_literal _ _ (safe_literal _ _ _ authority_safe)) as Hu. unfold parseHost.
  rewrite bool_decide_eq_false_2.
  - destruct port_cases as [Ep|(ds & Ep & Hds)].
    + rewrite Ep, app_nil_r in Hu |- *. rewrite cut_last_none; [done|].
      apply (safe_without _ _ _ _ host_safe). set_solver.
    + assert (Hval : validOptionalPort (58 :: ds) = true) by (rewrite <-Ep; apply (plain_port _ _ _ _ Hpl)).
      rewrite Ep, cut_last_at, Hval, <-Ep; [done|]. eapply Forall_impl; [exact Hds|].
      intros c Hc ->. done.
  - pose proof (safe_without _ _ _ 91 authority_safe ltac:(set_solver)) as Hn.
    destruct (host ++ port) as [|c l]; [done|]. cbn. apply Forall_cons in Hn as [Hn _]. congruence.
Qed.

Lemma getScheme_plain : getScheme (address scheme host port path) = Ok (scheme, 47 :: 47 :: host ++ port ++ path).
Proof.
  destruct (plain_scheme _ _ _ _ Hpl) as [Hne Hall]. unfold getScheme, address.
  assert (Hgo : forall s first r, Forall (fun c => between 97 122 c = true) s -> (s <> [] \/ first = false) ->
    scheme_of first (s ++ 58 :: r) = Ok (Some (s, r))).
  { clear. intros s. induction s as [|c s IH]; intros first r Hs Hf; cbn.
    - destruct Hf as [Hf|Hf]; [done|by rewrite Hf].
    - apply Forall_cons in Hs as [Hc Hs]. apply scheme_char_safe in Hc.
      apply andb_true_iff in Hc as [[_ Hl]%andb_true_iff _]. rewrite Hl. cbn.
      by rewrite IH; [..|by right]. }
  cbn [app]. rewrite (Hgo scheme true) by auto. done.
Qed.

Lemma lower_plain : lower_byte <$> scheme = scheme.
Proof.
  rewrite <-(list_fmap_id scheme) at 2. apply list_fmap_ext. intros i c Hc.
  pose proof (Forall_lookup_1 _ _ _ _ (proj2 (plain_scheme _ _ _ _ Hpl)) Hc) as Hs.
  apply scheme_char_safe in Hs. by apply andb_true_iff in Hs as [_ ?%Z.eqb_eq].
Qed.

(** No byte of the address ends it early. *)
Lemma address_without c : c ∈ [35; 63] -> Forall (fun x => x <> c) (host ++ port ++ path).
Proof.
  intros Hc. rewrite app_assoc. apply Forall_app. split.
  - apply (safe_without _ _ _ _ authority_safe). set_solver.
  - by apply (safe_without _ _ _ _ path_safe).
Qed.

Lemma address_printable : existsb (fun c => (c <? 32) || (c =? 127)) (address scheme host port path) = false.
Proof.
  assert (Hall : Forall (fun c => 32 <= c /\ c <> 127) (address scheme host port path)).
  { unfold address. rewrite !Forall_app. split_and!.
    - eapply safe_printable, scheme_safe.
    - repeat constructor; lia.
    - eapply safe_printable, host_safe.
    - eapply safe_printable, port_safe.
    - eapply safe_printable, path_safe. }
  apply not_true_iff_false. intros (c & Hin & Hc)%existsb_exists. rewrite Forall_forall in Hall.
  apply list_elem_of_In, Hall in Hin. apply orb_true_iff in Hc as [?%Z.ltb_lt|?%Z.eqb_eq]; lia.
Qed.

Lemma cut_path : cut 47 (host ++ port ++ path) = (host ++ port, match path with [] => None | _ :: p => Some p end).
Proof.
  rewrite app_assoc. pose proof (safe_without _ _ _ 47 authority_safe ltac:(set_solver)) as Hn.
  destruct (plain_path _ _ _ _ Hpl) as [[->|Hp] _].
  - by rewrite app_nil_r, cut_none.
  - destruct path as [|c p]; [done|]. cbn in Hp. injection Hp as ->. by rewrite cut_at.
Qed.

Lemma split_authority_plain :
  split_authority scheme (47 :: 47 :: host ++ port ++ path) = Ok (None, host ++ port, false, path).
Proof.
  unfold split_authority. rewrite !(bool_decide_eq_true_2 (_ = _)) by done.
  rewrite (bool_decide_eq_true_2 (scheme <> [])) by apply (plain_scheme _ _ _ _ Hpl). cbn [andb orb].
  change (drop 2 _) with (host ++ port ++ path). rewrite cut_path. unfold parseAuthority.
  rewrite cut_last_none by (apply (safe_without _ _ _ _ authority_safe); set_solver).
  rewrite parseHost_plain. cbn [ebind]. repeat f_equal.
  destruct (plain_path _ _ _ _ Hpl) as [[->|Hp] _]; [done|].
  destruct path; [done|]. cbn in Hp. congruence.
Qed.

Lemma parse_plain : parse (address scheme host port path) = Ok (plain_url scheme host port path).
Proof.
  unfold parse. rewrite address_printable, decide_False.
  2:{ unfold address. destruct (plain_scheme _ _ _ _ Hpl) as [Hne _]. by destruct scheme as [|c [|]]. }
  rewrite getScheme_plain. cbn [ebind]. rewrite lower_plain.
  rewrite cut_none by (do 2 (apply Forall_cons; split; [done|]); apply address_without; set_solver).
  rewrite (bool_decide_eq_true_2 (take 1 _ = _)) by done. cbn [negb]. unfold parse_rest.
  rewrite split_authority_plain. cbn [ebind].
  by rewrite (decoded_literal _ _ (safe_literal _ _ _ path_safe)).
Qed.

Lemma address_no_fragment : Forall (fun x => x <> 35) (address scheme host port path).
Proof.
  unfold address. apply Forall_app. split.
  - apply (safe_without _ _ _ _ scheme_safe). set_solver.
  - do 3 (apply Forall_cons; split; [done|]). apply address_without. set_solver.
Qed.
End Plain.

Lemma Parse_plain scheme host port path a :
  plain_address scheme host port path -> codes a = address scheme host port path ->
  Parse a = Ok (plain_url scheme host port path).
Proof.
  intros Hpl Ea. unfold Parse. rewrite Ea, cut_none by by apply address_no_fragment.
  rewrite parse_plain by done. done.
Qed.

Lemma Hostname_plain scheme host port path :
  plain_address scheme host port path ->
  Hostname (plain_url scheme host port path) = bytes_str host
  /\ Port (plain_url scheme host port path) = bytes_str (drop 1 port).
Proof.
  intros Hpl.
  assert (E : splitHostPort (host ++ port) = (host, drop 1 port)); [|unfold Hostname, Port; cbn [Host plain_url]; by rewrite E].
  pose proof (safe_without _ _ _ 91 (host_safe _ _ _ _ Hpl) ltac:(set_solver)) as H91.
  assert (Hb : bool_decide (take 1 host = [91]) = false).
  { apply bool_decide_eq_false_2. destruct host as [|c l]; [done|]. cbn. apply Forall_cons in H91 as [? _]. congruence. }
  unfold splitHostPort. pose proof (plain_port _ _ _ _ Hpl) as Hv.
  destruct (port_cases _ _ _ _ Hpl) as [->|(ds & -> & Hds)].
  - rewrite app_nil_r, cut_last_none by (apply (safe_without _ _ _ _ (host_safe _ _ _ _ Hpl)); set_solver).
    by rewrite Hb.
  - rewrite cut_last_at, Hv, Hb; [done|]. eapply Forall_impl; [exact Hds|]. by intros c Hc ->.
Qed.

(** What the URL with a host prints as. *)
Lemma text_plain scheme host port path h :
  plain_address scheme host port path -> h <> [] ->
  url_text (with_host h (plain_url scheme host port path)) = scheme ++ [58; 47; 47] ++ escape h encodeHost ++ path.
Proof.
  intros Hpl Hh. pose proof (escape_literal _ _ (safe_literal _ _ _ (path_safe _ _ _ _ Hpl))) as He.
  destruct (plain_scheme _ _ _ _ Hpl) as [Hs _]. destruct (plain_path _ _ _ _ Hpl) as [Hp _].
  unfold url_text. cbn [Scheme Opaque User Host Path RawPath OmitHost ForceQuery RawQuery Fragment with_host plain_url].
  rewrite bool_decide_eq_true_2 by done. cbn [negb orb andb app]. rewrite app_nil_r.
  assert (Ee : encoded true path [] encodePath = path).
  { unfold encoded. destruct (true && _) eqn:E; [|exact He]. apply andb_true_iff in E as [_ ->%bool_decide_eq_true]. done. }
  rewrite Ee. generalize (escape h encodeHost). intros e.
  destruct scheme as [|c s]; [done|]. destruct h as [|d h]; [done|].
  destruct Hp as [->|Hp].
  - cbn. by rewrite !app_nil_r, <-app_assoc.
  - destruct path as [|x p]; [done|]. cbn in Hp. injection Hp as ->. cbn. by rewrite app_nil_r, <-!app_assoc.
Qed.

(** A plain address prints as itself. *)
Lemma codes_bytes s : bytes_str (codes s) = s.
Proof. induction s as [|a s IH]; [done|]. cbn. by rewrite IH, ascii_of_Z_of_ascii. Qed.

Lemma URL_String_plain scheme host port path a :
  plain_address scheme host port path -> codes a = address scheme host port path ->
  URL_String (plain_url scheme host port path) = a.
Proof.
  intros Hpl Ea. change (plain_url scheme host port path)
    with (with_host (host ++ port) (plain_url scheme host port path)).
  unfold URL_String. rewrite text_plain; [|done|].
  - rewrite (escape_literal _ _ (safe_literal _ _ _ (authority_safe _ _ _ _ Hpl))), <-app_assoc, <-(codes_bytes a), Ea.
    done.
  - pose proof (proj1 (plain_host _ _ _ _ Hpl)). by destruct host.
Qed.

(** Parsing returns: a URL or an error. *)
Definition returns {A} (x : exec A) : Prop := match x with Ok _ | Fail _ => True | _ => False end.

Lemma returns_bind {A B} (x : exec A) (k : A -> exec B) :
  returns x -> (forall a, returns (k a)) -> returns (ebind x k).
Proof. destruct x; cbn; auto. Qed.

#[local] Hint Resolve returns_bind : go.

Lemma unescape_returns mode : forall l, returns (unescape l mode).
Proof.
  fix go 1. intros [|c l]; [exact I|]. cbn [unescape]. destruct (c =? 37).
  - destruct l as [|a [|b l]]; [exact I..|]. destruct (hex_value a), (hex_value b); try exact I.
    destruct (escape_ok _ _ _ _ _); [|exact I]. apply returns_bind; [apply go|]. intros ?. exact I.
  - destruct (_ && _); [exact I|]. apply returns_bind; [apply go|]. intros ?. exact I.
Qed.

Lemma scheme_of_returns first l : returns (scheme_of first l).
Proof.
  revert first. induction l as [|c l IH]; intros first; cbn; [exact I|].
  destruct (_ || _); [apply returns_bind; [apply IH|]; intros ?; exact I|].
  destruct (c =? 58); [|exact I]. by destruct first.
Qed.

Ltac go_returns :=
  repeat first [ exact I | progress intros | apply unescape_returns | apply scheme_of_returns
               | apply returns_bind; [|intros ?] | progress unfold decoded, bad_port | case_match ].

Lemma parseHost_returns l : returns (parseHost l).
Proof. unfold parseHost. go_returns. Qed.

Lemma parseAuthority_returns l : returns (parseAuthority l).
Proof.
  unfold parseAuthority, parseUserinfo. case_match; go_returns; apply parseHost_returns.
Qed.

Lemma parse_returns l : returns (parse l).
Proof.
  assert (Hrest : forall s r f q, returns (parse_rest s r f q)).
  { intros s r f q. unfold parse_rest. apply returns_bind; [|go_returns].
    unfold split_authority. case_match; [|exact I]. destruct (cut _ _).
    apply returns_bind; [apply parseAuthority_returns|go_returns]. }
  unfold parse, getScheme. case_match; [exact I|]. case_match; [exact I|].
  apply returns_bind; [go_returns|]. intros [s rest].
  destruct (match cut 63 rest with (_, _) => _ end) as [[r f] q].
  repeat case_match; first [exact I|apply Hrest].
Qed.

Lemma Parse_returns a : returns (Parse a).
Proof.
  unfold Parse. destruct (cut 35 (codes a)) as [u f]. apply returns_bind; [apply parse_returns|]. go_returns.
Qed.
