(* ===== verification/SequenceId.v ===== *)
(** * Sequence identifiers (internal/iface/wal.go)

    A WAL position: term, collection (one file) and sequence number inside the
    file, compared lexicographically. *)

From stdpp Require Import prelude strings pretty.
From Stdlib Require Import ZArith Lia.
From S2P Require Import Prelude.
Local Open Scope Z_scope.

(** ** Definitions *)

Record SequenceId := mkSeq { Term : Z; Collection : Z; Seq : Z }.

#[export] Instance SequenceId_eq_dec : EqDecision SequenceId.
Proof. solve_decision. Defined.

Definition EmptySequenceId : SequenceId := mkSeq 0 0 0.

(** [SequenceId.Compare], test by test. *)
Definition Compare (s to : SequenceId) : Z :=
  if Term s <? Term to then -1
  else if Term s >? Term to then 1
  else if Collection s <? Collection to then -1
  else if Collection s >? Collection to then 1
  else if Seq s <? Seq to then -1
  else if Seq s =? Seq to then 0
  else 1.

(** [fmt.Sprint] of the struct. *)
Definition Sprint (s : SequenceId) : string :=
  "{" +:+ pretty (Term s) +:+ " " +:+ pretty (Collection s) +:+ " " +:+ pretty (Seq s) +:+ "}".

(** The lexicographic order the comparison is meant to implement. *)
Definition seq_lt (s t : SequenceId) : Prop :=
  Term s < Term t
  \/ (Term s = Term t
      /\ (Collection s < Collection t \/ (Collection s = Collection t /\ Seq s < Seq t))).

#[export] Instance seq_lt_dec : RelDecision seq_lt.
Proof. intros s t. unfold seq_lt. apply _. Defined.

(** ** [Compare] decides the lexicographic order *)

Lemma Compare_cases s t :
  (Compare s t = -1 /\ seq_lt s t) \/ (Compare s t = 0 /\ s = t) \/ (Compare s t = 1 /\ seq_lt t s).
Proof.
  destruct s as [a b c], t as [a' b' c']. unfold Compare, seq_lt. cbn.
  rewrite !Z.gtb_ltb.
  destruct (Z.ltb_spec a a'); [left; lia|]. destruct (Z.ltb_spec a' a); [right; right; lia|].
  destruct (Z.ltb_spec b b'); [left; lia|]. destruct (Z.ltb_spec b' b); [right; right; lia|].
  destruct (Z.ltb_spec c c'); [left; lia|]. destruct (Z.eqb_spec c c'); [right; left|right; right; lia].
  split; [done|]. f_equal; lia.
Qed.

#[export] Instance seq_lt_irreflexive : Irreflexive seq_lt.
Proof. intros s. unfold complement, seq_lt. lia. Qed.

#[export] Instance seq_lt_transitive : Transitive seq_lt.
Proof. intros s t u. unfold seq_lt. lia. Qed.

(** [Compare] is a three-way comparison for a strict total order: the
    result is -1, 0 or 1 exactly when the first identifier is smaller than,
    equal to or greater than the second in the lexicographic order of
    (term, collection, sequence). *)
Theorem Compare_spec s t :
  (Compare s t = -1 <-> seq_lt s t)
  /\ (Compare s t = 0 <-> s = t)
  /\ (Compare s t = 1 <-> seq_lt t s).
Proof.
  pose proof (Compare_cases s t) as H.
  pose proof (irreflexivity seq_lt s). pose proof (irreflexivity seq_lt t).
  assert (~ (seq_lt s t /\ seq_lt t s)) by (unfold seq_lt; lia).
  split_and!; split; intros; destruct H as [[E ?]|[[E ?]|[E ?]]]; subst; try done; try lia;
    naive_solver.
Qed.

Lemma Compare_gt s t : Compare s t > 0 <-> seq_lt t s.
Proof.
  assert (Compare s t = 1 <-> seq_lt t s) as <-.
  { pose proof (Compare_cases s t) as H. pose proof (irreflexivity seq_lt t).
    assert (~ (seq_lt s t /\ seq_lt t s)) by (unfold seq_lt; lia).
    split; intros; destruct H as [[E ?]|[[E ?]|[E ?]]]; subst; try done; try lia; naive_solver. }
  destruct (Compare_cases s t) as [[E _]|[[E _]|[E _]]]; rewrite E; lia.
Qed.
