(* ===== verification/WalPage.v ===== *)
(** * Pages of the write-ahead log (internal/wal/wal.go)

    A page is one fixed-size buffer holding one record: a type byte, the
    record length on two bytes, the checksum of the page on four, a reserved
    byte, the data and zero padding.  [prepareDataBufByPage] writes it and
    [pageRecordsInfo] reads it back. *)

From stdpp Require Import base list strings.
From Stdlib Require Import ZArith Lia.
From S2P Require Import Prelude Bytes.
Local Open Scope Z_scope.

(** ** Definitions *)

Definition EntryTypeWhole : Z := 9.
Definition EntryTypeStart : Z := 10.
Definition EntryTypeMiddle : Z := 11.
Definition EntryTypeEnd : Z := 12.
Definition EntryTypeBrokenEnd : Z := 13.
Definition EntryTypeMask : Z := 15.
Definition EntryHeader : Z := 160.
Definition RecordHeaderSize : Z := 8.

(** The buffer under construction: type, length, checksum, reserved byte and
    the data copied after them, cut or padded to the page. *)
Definition page_layout (p : nat) (dat : list byte) (entryType crc : Z) : list byte :=
  [byte_of_Z (Z.lor EntryHeader entryType)]
  ++ PutUint16 (uint16 (Z.of_nat (length dat)))
  ++ PutUint32 crc
  ++ [byte_of_Z 0]
  ++ take (p - 8) (dat ++ replicate (p - 8) (byte_of_Z 0)).
#[global] Arguments page_layout : simpl never.

(** A buffer shorter than the header makes the slice expressions panic. *)
Definition prepareDataBufByPage (maxPageSize : Z) (dat : list byte) (entryType : Z)
  : exec (list byte) :=
  if maxPageSize <? 8 then Panic "slice bounds out of range"
  else
    let p := Z.to_nat maxPageSize in
    let buf := page_layout p dat entryType 0 in
    Ok (page_layout p dat entryType (crc32 buf)).

(** [buf] with the checksum bytes cleared. *)
Definition clear_crc (buf : list byte) : list byte :=
  take 3 buf ++ replicate 4 (byte_of_Z 0) ++ drop 7 buf.

(** The records of one page, each with its data and type.  [length] is a
    [uint16]: both [length+8] are computed in 16 bits. *)
Definition pageRecordsInfo (buf : list byte) : exec (list (list byte * Z)) :=
  if (length buf <? 7)%nat then Panic "index out of range"
  else
    let crc32val := be_value (take 4 (drop 3 buf)) in
    let buf := clear_crc buf in
    if negb (crc32 buf =? crc32val) then Fail (NewError "page crc32 mismatch")
    else
      let len := be_value (take 2 (drop 1 buf)) in
      let stop := uint16 (len + 8) in
      if Z.of_nat (length buf) <? stop then Fail (NewError "length field exceeded")
      else if stop <? 8 then Panic "slice bounds out of range"
      else
        let type := Z.land (Z_of_byte (hd (byte_of_Z 0) buf)) EntryTypeMask in
        Ok [(take (Z.to_nat stop - 8) (drop 8 buf), type)].

(** ** The layout of a page *)

Lemma length_page_layout p dat t crc :
  (8 <= p)%nat -> length (page_layout p dat t crc) = p.
Proof.
  intros Hp. unfold page_layout, PutUint16, PutUint32.
  rewrite !length_app, length_take, length_app, length_replicate. cbn [length]. lia.
Qed.

Lemma clear_crc_layout p dat t crc :
  clear_crc (page_layout p dat t crc) = page_layout p dat t 0.
Proof. done. Qed.

Lemma layout_crc p dat t crc :
  take 4 (drop 3 (page_layout p dat t crc)) = PutUint32 crc.
Proof. done. Qed.

Lemma layout_len p dat t crc :
  take 2 (drop 1 (page_layout p dat t crc)) = PutUint16 (uint16 (Z.of_nat (length dat))).
Proof. done. Qed.

Lemma layout_data p dat t crc :
  (length dat <= p - 8)%nat -> take (length dat) (drop 8 (page_layout p dat t crc)) = dat.
Proof.
  intros H. change (drop 8 (page_layout p dat t crc))
    with (take (p - 8) (dat ++ replicate (p - 8) (byte_of_Z 0))).
  rewrite take_take, Nat.min_l by done. by rewrite take_app_length.
Qed.

Lemma layout_type p dat t crc :
  0 <= t < 16 -> Z.land (Z_of_byte (hd (byte_of_Z 0) (page_layout p dat t crc))) EntryTypeMask = t.
Proof.
  intros Ht. unfold page_layout. cbn [hd app]. rewrite Z_of_byte_of_Z.
  unfold EntryHeader, EntryTypeMask.
  assert (t = 0 \/ t = 1 \/ t = 2 \/ t = 3 \/ t = 4 \/ t = 5 \/ t = 6 \/ t = 7 \/ t = 8 \/ t = 9
    \/ t = 10 \/ t = 11 \/ t = 12 \/ t = 13 \/ t = 14 \/ t = 15) as Hc by lia.
  repeat destruct Hc as [->|Hc]; [done..|]. by subst.
Qed.

Lemma uint16_range z : 0 <= uint16 z < 2 ^ 16.
Proof. unfold uint16. apply Z.mod_pos_bound. lia. Qed.

(** What the record reader does with any page of the writer. *)
Lemma pageRecordsInfo_layout p dat t :
  (8 <= p)%nat -> (length dat <= p - 8)%nat -> Z.of_nat (length dat) < 2 ^ 16 - 8 ->
  0 <= t < 16 ->
  pageRecordsInfo (page_layout p dat t (crc32 (page_layout p dat t 0))) = Ok [(dat, t)].
Proof.
  intros Hp Hd H16 Ht. unfold pageRecordsInfo.
  rewrite length_page_layout, layout_crc, clear_crc_layout by done.
  destruct (Nat.ltb_spec p 7); [lia|].
  rewrite be_PutUint32 by apply crc32_range. rewrite Z.eqb_refl. cbn [negb].
  rewrite layout_len, length_page_layout by done.
  rewrite (uint16_small (Z.of_nat (length dat))) by lia. rewrite be_PutUint16 by lia.
  rewrite uint16_small by lia.
  assert ((Z.of_nat p <? Z.of_nat (length dat) + 8) = false) as -> by lia.
  assert ((Z.of_nat (length dat) + 8 <? 8) = false) as -> by lia.
  rewrite layout_type by done.
  replace (Z.to_nat (Z.of_nat (length dat) + 8) - 8)%nat with (length dat) by lia.
  by rewrite layout_data.
Qed.

Lemma prepareDataBufByPage_ok mps dat t :
  8 <= mps ->
  prepareDataBufByPage mps dat t
  = Ok (page_layout (Z.to_nat mps) dat t (crc32 (page_layout (Z.to_nat mps) dat t 0))).
Proof. intros H. unfold prepareDataBufByPage. by assert ((mps <? 8) = false) as -> by lia. Qed.

(** ** Properties *)

(** C32. Page round trip: the page written for a record that fits is exactly
    one page long and reading it gives back the record's data and type,
    checksum and length checks included. *)
Theorem page_roundtrip mps dat t :
  8 <= mps -> Z.of_nat (length dat) <= mps - RecordHeaderSize ->
  Z.of_nat (length dat) < 2 ^ 16 - 8 -> 0 <= t < 16 ->
  exists buf, prepareDataBufByPage mps dat t = Ok buf
    /\ Z.of_nat (length buf) = mps
    /\ pageRecordsInfo buf = Ok [(dat, t)].
Proof.
  unfold RecordHeaderSize. intros Hm Hd H16 Ht. rewrite prepareDataBufByPage_ok by done.
  eexists. split; [done|]. split; [rewrite length_page_layout; lia|].
  apply pageRecordsInfo_layout; lia.
Qed.

Lemma page_roundtrip_witness :
  exists buf, prepareDataBufByPage 16 (bytes_of "abc") EntryTypeWhole = Ok buf
    /\ Z.of_nat (length buf) = 16
    /\ pageRecordsInfo buf = Ok [(bytes_of "abc", EntryTypeWhole)].
Proof. apply (page_roundtrip 16 (bytes_of "abc") EntryTypeWhole); vm_compute; done. Defined.

(** Corruption is detected: a page whose stored checksum differs from the
    checksum of its other bytes is rejected, whatever its length and type. *)
Theorem page_crc_mismatch buf :
  (7 <= length buf)%nat -> crc32 (clear_crc buf) <> be_value (take 4 (drop 3 buf)) ->
  pageRecordsInfo buf = Fail (NewError "page crc32 mismatch").
Proof.
  intros Hl Hc. unfold pageRecordsInfo. destruct (Nat.ltb_spec (length buf) 7); [lia|].
  by apply Z.eqb_neq in Hc as ->.
Qed.

Lemma page_crc_mismatch_witness :
  pageRecordsInfo (replicate 16 (byte_of_Z 1)) = Fail (NewError "page crc32 mismatch").
Proof. apply (page_crc_mismatch (replicate 16 (byte_of_Z 1))); vm_compute; [lia|done]. Defined.

(** The length check computes [length+8] in 16 bits: for a length field of
    65528 or more it wraps around, the check passes on every page and the
    slice expression panics instead of returning the length error. *)
Theorem page_length_overflow_panics buf :
  (8 <= length buf)%nat -> crc32 (clear_crc buf) = be_value (take 4 (drop 3 buf)) ->
  65528 <= be_value (take 2 (drop 1 buf)) < 2 ^ 16 ->
  pageRecordsInfo buf = Panic "slice bounds out of range".
Proof.
  intros Hl Hc Hlen. unfold pageRecordsInfo. destruct (Nat.ltb_spec (length buf) 7); [lia|].
  rewrite Hc, Z.eqb_refl. cbn [negb].
  assert (take 2 (drop 1 (clear_crc buf)) = take 2 (drop 1 buf)) as ->.
  { destruct buf as [|? [|? [|? ?]]]; cbn in Hl; try lia. done. }
  assert (Hlc : length (clear_crc buf) = length buf).
  { unfold clear_crc. rewrite !length_app, length_take, length_drop, length_replicate. lia. }
  assert (uint16 (be_value (take 2 (drop 1 buf)) + 8)
    = be_value (take 2 (drop 1 buf)) + 8 - 2 ^ 16) as ->.
  { unfold uint16. rewrite <-(Z_mod_plus_full _ (-1)). rewrite Z.mod_small; lia. }
  rewrite Hlc.
  match goal with |- (if ?c then _ else _) = _ => assert (c = false) as -> by lia end.
  by match goal with |- (if ?c then _ else _) = _ => assert (c = true) as -> by lia end.
Qed.

Definition overflow_page : list byte :=
  [byte_of_Z 169; byte_of_Z 255; byte_of_Z 250]
  ++ PutUint32 (crc32 ([byte_of_Z 169; byte_of_Z 255; byte_of_Z 250]
       ++ replicate 13 (byte_of_Z 0)))
  ++ replicate 9 (byte_of_Z 0).

Lemma page_length_overflow_panics_witness :
  pageRecordsInfo overflow_page = Panic "slice bounds out of range".
Proof. apply (page_length_overflow_panics overflow_page); vm_compute; lia || done. Defined.
