(* ===== verification/Wal.v ===== *)
(** * The disk write-ahead log (internal/wal/wal.go)

    [DiskWal] with the folder it writes.  The folder is a map from file names
    to contents; a schedule of faults decides which operating-system calls
    fail, so that every error path is a run of the model.  A failing [Write]
    leaves the bytes it had already appended, as the OS does. *)

From stdpp Require Import base list gmap strings sorting.
From Stdlib Require Import ZArith Lia.
From S2P Require Import Prelude GoStr Bytes SequenceId WalPage.
Local Open Scope Z_scope.
Local Open Scope go_scope.

(** ** State *)

(** A file: its bytes, and how many of them the last [Sync] made durable. *)
Record File := mkFile { content : list byte; synced : nat }.

(** An open descriptor of the file [h_name]; [h_open] is false after [Close]. *)
Record Handle := mkHandle { h_name : string; h_open : bool }.

Record DiskWal := mkWal {
  curTerm : Z;
  curCollection : Z;
  curSeq : Z;
  pageOccupied : Z;
  maxFileSize : Z;
  maxPageSize : Z;
  folder : string;
  curFile : option Handle;
  dirty : Z;
  syncers : nat;  (* background sync goroutines started by Initialize *)
}.

(** One scheduled failure: the error text and, for a [Write], how many bytes
    reached the file before it. *)
Record Fault := mkFault { f_err : string; f_bytes : nat }.

Record World := mkWorld {
  wal : DiskWal;
  disk : gmap string File;
  faults : list (option Fault);
}.

Definition with_pos (c s : Z) (d : DiskWal) : DiskWal :=
  mkWal (curTerm d) c s (pageOccupied d) (maxFileSize d) (maxPageSize d) (folder d)
    (curFile d) (dirty d) (syncers d).
Definition with_term (t : Z) (d : DiskWal) : DiskWal :=
  mkWal t (curCollection d) (curSeq d) (pageOccupied d) (maxFileSize d) (maxPageSize d)
    (folder d) (curFile d) (dirty d) (syncers d).
Definition with_pages (n : Z) (d : DiskWal) : DiskWal :=
  mkWal (curTerm d) (curCollection d) (curSeq d) n (maxFileSize d) (maxPageSize d) (folder d)
    (curFile d) (dirty d) (syncers d).
Definition with_file (f : option Handle) (d : DiskWal) : DiskWal :=
  mkWal (curTerm d) (curCollection d) (curSeq d) (pageOccupied d) (maxFileSize d)
    (maxPageSize d) (folder d) f (dirty d) (syncers d).
Definition with_dirty (b : Z) (d : DiskWal) : DiskWal :=
  mkWal (curTerm d) (curCollection d) (curSeq d) (pageOccupied d) (maxFileSize d)
    (maxPageSize d) (folder d) (curFile d) b (syncers d).
Definition with_syncers (n : nat) (d : DiskWal) : DiskWal :=
  mkWal (curTerm d) (curCollection d) (curSeq d) (pageOccupied d) (maxFileSize d)
    (maxPageSize d) (folder d) (curFile d) (dirty d) n.

Definition upd_wal (f : DiskWal -> DiskWal) : M World unit :=
  modify (fun w => mkWorld (f (wal w)) (disk w) (faults w)).

Definition upd_disk (f : gmap string File -> gmap string File) : M World unit :=
  modify (fun w => mkWorld (wal w) (f (disk w)) (faults w)).

Definition NewDiskWal (folder : string) : DiskWal :=
  mkWal 1 0 0 0 (1 * 1024 * 1024 * 1024) (4 * 1024) folder None 0 0.

Definition StartWalSequence : SequenceId := mkSeq 1 1 1.

(** ** Operating-system calls *)

(** Consume the next entry of the fault schedule; an exhausted one never fails. *)
Definition next_fault : M World (option Fault) :=
  fun w => match faults w with
           | [] => (Ok None, w)
           | f :: fs => (Ok f, mkWorld (wal w) (disk w) fs)
           end.

Definition os_call : M World unit :=
  let* f := next_fault in
  match f with
  | None => ret tt
  | Some f => fail (ExtError (f_err f))
  end.

(** [os.OpenFile] with [O_APPEND|O_CREATE|O_RDWR]. *)
Definition OpenFile (name : string) : M World Handle :=
  let* _ := os_call in
  let* _ := upd_disk (fun dk =>
    match dk !! name with Some _ => dk | None => <[name := mkFile [] 0]> dk end) in
  ret (mkHandle name true).

Definition append_to (name : string) (buf : list byte) (dk : gmap string File)
  : gmap string File :=
  match dk !! name with
  | Some f => <[name := mkFile (content f ++ buf) (synced f)]> dk
  | None => dk
  end.

(** [File.Write] on a descriptor opened for appending. *)
Definition WriteFile (h : Handle) (buf : list byte) : M World unit :=
  if negb (h_open h) then fail (ExtError "file already closed")
  else
    let* f := next_fault in
    match f with
    | None => upd_disk (append_to (h_name h) buf)
    | Some f =>
        let* _ := upd_disk (append_to (h_name h) (take (f_bytes f) buf)) in
        fail (ExtError (f_err f))
    end.

(** [File.Close]: the descriptor is unusable afterwards, whatever it returns. *)
Definition CloseFile : M World unit :=
  let* w := get in
  match curFile (wal w) with
  | None => fail (ExtError "invalid argument")
  | Some h =>
      if negb (h_open h) then fail (ExtError "file already closed")
      else
        let* _ := upd_wal (with_file (Some (mkHandle (h_name h) false))) in
        os_call
  end.

(** [File.Sync]: the bytes written so far become durable. *)
Definition SyncFile (h : Handle) : M World unit :=
  if negb (h_open h) then fail (ExtError "file already closed")
  else
    let* _ := os_call in
    upd_disk (fun dk => match dk !! h_name h with
                        | Some f => <[h_name h := mkFile (content f) (length (content f))]> dk
                        | None => dk
                        end).

(** [io.ReadFull] of the [k]-th page of a file. *)
Definition read_page (name : string) (k : nat) : M World (list byte) :=
  let* _ := os_call in
  let* w := get in
  match disk w !! name with
  | None => fail (ExtError "file does not exist")
  | Some f => let p := Z.to_nat (maxPageSize (wal w)) in lift (ReadFull p (k * p) (content f))
  end.

(** The loop of [readWalFileInfo], [seekWalFileWritePoint] and [replayFile]:
    read a page, stop at [io.EOF], return any other error, else run the body.
    The fuel bounds the number of reads. *)
Fixpoint page_loop {S A} (rd : nat -> M S (list byte)) (body : list byte -> A -> M S A)
    (fuel k : nat) (acc : A) : M S A :=
  match fuel with
  | O => nofuel
  | S fuel =>
      let* r := catch (rd k) in
      match r with
      | inr e => if decide (e = EOF) then ret acc else fail e
      | inl pg => let* acc := body pg acc in page_loop rd body fuel (1 + k) acc
      end
  end.

(** One read per byte of the file and one more are enough for any page size
    that is not zero. *)
Definition file_fuel (name : string) (w : World) : nat :=
  match disk w !! name with Some f => S (length (content f)) | None => 1 end.

(** ** Names *)

Definition filename (term collection seq : Z) : string :=
  fmt_016x term +:+ fmt_016x collection.
#[global] Arguments filename : simpl never.

Definition walfilename (name : string) : exec (string * SequenceId) :=
  if negb (String.length name =? 32)%nat then Fail (NewError "file name length mismatch")
  else match Sscanf_2x name with
       | None => Fail (ExtError "Sscanf")
       | Some (v1, v2) =>
           if (v1 <=? 0) || (v2 <=? 0)
           then Fail (NewError "file sequence id has one or more less than 1")
           else Ok (name, mkSeq v1 v2 0)
       end.

Definition curPosition (d : DiskWal) : SequenceId :=
  mkSeq (curTerm d) (curCollection d) (curSeq d).

Definition CurrentSequence : M World SequenceId := gets (fun w => curPosition (wal w)).

(** ** Writing *)

Definition guaranteePage (pageCnt : Z) : M World unit :=
  let* w := get in
  let d := wal w in
  match curFile d with
  | None =>
      let* _ := upd_wal (with_pos (int64 (curCollection d + 1)) 0) in
      let* f := OpenFile (filename (curTerm d) (int64 (curCollection d + 1)) 0) in
      upd_wal (with_file (Some f))
  | Some _ =>
      if (pageOccupied d + pageCnt) * maxPageSize d >? maxFileSize d then
        let* _ := CloseFile in
        let* _ := upd_wal (fun d => with_pages 0 (with_pos (int64 (curCollection d + 1)) 0 d)) in
        let* f := OpenFile (filename (curTerm d) (int64 (curCollection d + 1)) 0) in
        upd_wal (with_file (Some f))
      else ret tt
  end.

Definition writeDataPage (dat : list byte) (entryType : Z) : M World unit :=
  let* w := get in
  let* buf := lift (prepareDataBufByPage (maxPageSize (wal w)) dat entryType) in
  match curFile (wal w) with
  | None => panic "nil file"
  | Some h =>
      let* _ := WriteFile h buf in
      upd_wal (fun d => with_pages (int32 (pageOccupied d + 1))
                          (with_pos (curCollection d) (int64 (curSeq d + 1)) d))
  end.

(** The multi-page loop: [n] and [t] as the source computes them. *)
Fixpoint write_loop (fuel : nat) (recordMax : Z) (bytes : list byte) (offset : Z)
  : M World unit :=
  match fuel with
  | O => nofuel
  | S fuel =>
      let len := Z.of_nat (length bytes) in
      let t := if offset =? 0 then EntryTypeStart else EntryTypeMiddle in
      let '(n, t) := if offset + recordMax >=? len then (len - offset, EntryTypeEnd)
                     else (recordMax, t) in
      let* _ := guaranteePage 1 in
      let* _ := writeDataPage (take (Z.to_nat n) (drop (Z.to_nat offset) bytes)) t in
      if offset + n >=? len then ret tt else write_loop fuel recordMax bytes (offset + n)
  end.

Definition WriteEntryWithFullPage (bytes : list byte) : M World SequenceId :=
  let* w := get in
  let recordMax := int32 (maxPageSize (wal w) - RecordHeaderSize) in
  let* _ :=
    if recordMax >=? Z.of_nat (length bytes) then
      let* _ := guaranteePage 1 in writeDataPage bytes EntryTypeWhole
    else write_loop (S (length bytes)) recordMax bytes 0 in
  let* _ := upd_wal (with_dirty 1) in
  gets (fun w => curPosition (wal w)).

Definition WriteEntry (bytes : list byte) : M World SequenceId := WriteEntryWithFullPage bytes.

(** ** Opening an existing log *)

(** The files of the folder whose names parse, with the positions they give;
    the others are only logged. *)
Definition fileMap (dk : gmap string File) : gmap string SequenceId :=
  map_imap (fun name _ => match walfilename name with
                          | Ok (_, seq) => Some seq
                          | _ => None
                          end) dk.

(** [slices.Sort] of the collected names. *)
Definition sorted_names (dk : gmap string File) : list string :=
  merge_sort str_le (map_to_list (fileMap dk)).*1.

Definition listWalFiles : M World (list string) :=
  let* _ := os_call in
  gets (fun w => sorted_names (disk w)).

Record FileInfo := mkInfo { totalPages : Z; totalValidSeq : Z; clean : bool }.

(** The body of the reading loop of [readWalFileInfo]; the second component is
    [lastRecordsInfo]. *)
Definition info_page (pg : list byte) (acc : FileInfo * list (list byte * Z))
  : M World (FileInfo * list (list byte * Z)) :=
  let* recs := lift (pageRecordsInfo pg) in
  ret (mkInfo (int32 (totalPages acc.1 + 1))
         (int64 (totalValidSeq acc.1 + Z.of_nat (length recs))) (clean acc.1), recs).

(** The test on [len(pageBuf)] concerns the buffer, allocated with the page
    size, not what was read into it. *)
Definition readWalFileInfo (file : string) : M World FileInfo :=
  let* w := get in
  let* h := OpenFile file in
  let* w' := get in
  let* acc := page_loop (read_page file) info_page (file_fuel file w') 0 (mkInfo 0 0 false, []) in
  if maxPageSize (wal w) <=? 0 then ret (mkInfo 0 0 true)
  else match last acc.2 with
       | None => panic "index out of range"
       | Some (_, type) =>
           if type =? EntryTypeMiddle then
             let* dat := lift (prepareDataBufByPage (maxPageSize (wal w)) [] EntryTypeBrokenEnd) in
             let* _ := WriteFile h dat in
             ret (mkInfo (int32 (totalPages acc.1 + 1)) (int64 (totalValidSeq acc.1 + 1))
                    (clean acc.1))
           else ret acc.1
       end.

Definition seekWalFileWritePoint (filename : string) : M World unit :=
  let* _ := os_call in   (* filepath.Abs *)
  let* h := OpenFile filename in
  let* w := get in
  let* _ := page_loop (read_page filename)
    (fun _ (_ : unit) => upd_wal (fun d => with_pages (int32 (pageOccupied d + 1)) d))
    (file_fuel filename w) 0 tt in
  upd_wal (with_file (Some h)).

Definition Initialize : M World SequenceId :=
  let* _ := os_call in   (* MkdirAll *)
  let* _ := os_call in   (* Walk *)
  let* w := get in
  match last (sorted_names (disk w)) with
  | None =>
      let* _ := upd_wal (fun d => with_term 1 (with_pos 0 0 d)) in
      gets (fun w => curPosition (wal w))
  | Some lastFileName =>
      let* finfo := readWalFileInfo lastFileName in
      let seq := default EmptySequenceId (fileMap (disk w) !! lastFileName) in
      let* _ := upd_wal (fun d =>
        with_term (Term seq) (with_pos (Collection seq) (totalValidSeq finfo) d)) in
      let* _ := seekWalFileWritePoint lastFileName in
      let* _ := upd_wal (fun d => with_syncers (S (syncers d)) d) in
      gets (fun w => curPosition (wal w))
  end.

(** One iteration of a background sync goroutine; a failing [Sync] is logged. *)
Definition sync_tick : M World unit :=
  let* w := get in
  if dirty (wal w) =? 1 then
    let* _ := upd_wal (with_dirty 0) in
    match curFile (wal w) with
    | None => ret tt   (* Sync on a nil file returns an error, which is logged *)
    | Some h => let* _ := catch (SyncFile h) in ret tt
    end
  else ret tt.

(** ** Replaying

    The callback works on a state [R] of the caller, kept beside the log's. *)

Section Replay.
Context {R : Type} (fn : list byte -> M R unit).

(** The callback is called on the data of each record of the page. *)
Fixpoint deliver (recs : list (list byte * Z)) : M (World * R) unit :=
  match recs with
  | [] => ret tt
  | (dat, _) :: recs => let* _ := on_snd (fn dat) in deliver recs
  end.

Definition replay_page (pg : list byte) (_ : unit) : M (World * R) unit :=
  let* recs := lift (pageRecordsInfo pg) in deliver recs.

Definition replayFile (filename : string) : M (World * R) unit :=
  let* _ := on_fst (OpenFile filename) in
  let* st := get in
  page_loop (fun k => on_fst (read_page filename k)) replay_page (file_fuel filename st.1) 0 tt.

Fixpoint replay_files (files : list string) : M (World * R) unit :=
  match files with
  | [] => ret tt
  | f :: files => let* _ := replayFile f in replay_files files
  end.

(** The index loop over the sorted names: stop at the first name greater
    than the target, else count. *)
Fixpoint find_index (target : string) (files : list string) (idx : Z) : Z :=
  match files with
  | [] => idx
  | v :: files => if String.ltb target v then idx else find_index target files (idx + 1)
  end.

Definition ReplayIncomplete (from : SequenceId) : M (World * R) SequenceId :=
  let* st := get in
  let d := wal st.1 in
  if (curTerm d =? Term from) && (curCollection d =? Collection from) && (curSeq d =? Seq from)
  then ret from
  else if (curTerm d =? 1) && (curCollection d =? 0) && (curSeq d =? 0)
  then ret StartWalSequence
  else if Compare from (curPosition d) >? 0
  then fail (NewError
    ("replay incomplete failed - request newer wal than history:" +:+ Sprint from))
  else
    let* files := on_fst listWalFiles in
    let idx := find_index (filename (Term from) (Collection from) (Seq from)) files (-1) in
    if idx =? -1
    then fail (NewError
        ("replay incomplete failed - insufficient wal history, require:" +:+ Sprint from))
    else
      let* _ := replay_files (drop (Z.to_nat idx) files) in
      let* st := get in
      ret (curPosition (wal st.1)).
End Replay.
