(* ===== verification/WalNames.v ===== *)
(** * File names of the write-ahead log

    [filename] and [walfilename] are inverse on the positions a log uses, and
    the byte-wise order of the names is the order of (term, collection): so the
    last name of the sorted list is the newest file and the index loop of
    [ReplayIncomplete] finds the file that holds a position. *)

From stdpp Require Import base list gmap strings sorting.
From Stdlib Require Import ZArith Lia.
From S2P Require Import Prelude GoStr Bytes SequenceId WalPage Wal.
Local Open Scope Z_scope.

(** ** Definitions *)

(** The key of a file: its term and collection. *)
Notation key := (Z * Z)%type.

Definition key_ok (k : key) : Prop := 0 < k.1 < 2 ^ 63 /\ 0 < k.2 < 2 ^ 63.

Definition key_le (k k' : key) : Prop := k.1 < k'.1 \/ (k.1 = k'.1 /\ k.2 <= k'.2).
Definition key_lt (k k' : key) : Prop := k.1 < k'.1 \/ (k.1 = k'.1 /\ k.2 < k'.2).

#[export] Instance key_le_dec : RelDecision key_le.
Proof. intros k k'. unfold key_le. apply _. Defined.

Definition name_of (k : key) : string := filename k.1 k.2 0.

(** Any pair of 64-bit integers, as a position that is asked for may be. *)
Definition key_int64 (k : key) : Prop := - 2 ^ 63 <= k.1 < 2 ^ 63 /\ - 2 ^ 63 <= k.2 < 2 ^ 63.

(** How many keys of a sorted list are not above [k]. *)
Definition count_le (k : key) (ks : list key) : nat := length (filter (fun k' => key_le k' k) ks).

(** ** Lemmas *)

Lemma name_of_hex k : key_ok k -> name_of k = hex_fix 16 k.1 +:+ hex_fix 16 k.2.
Proof.
  intros [H1 H2]. unfold name_of, filename. by rewrite !fmt_016x_nonneg by lia.
Qed.

Lemma walfilename_name_of k :
  key_ok k -> walfilename (name_of k) = Ok (name_of k, mkSeq k.1 k.2 0).
Proof.
  intros Hk. rewrite name_of_hex by done. destruct Hk as [H1 H2]. unfold walfilename.
  rewrite length_append, !length_hex_fix. cbn [Nat.add Nat.eqb negb].
  rewrite Sscanf_2x_print by lia.
  by assert ((k.1 <=? 0) || (k.2 <=? 0) = false) as -> by lia.
Qed.

Lemma name_of_inj k k' : key_ok k -> key_ok k' -> name_of k = name_of k' -> k = k'.
Proof.
  intros Hk Hk' H. pose proof (walfilename_name_of k Hk) as E.
  rewrite H, walfilename_name_of in E by done. destruct k, k'. naive_solver.
Qed.

Lemma key_ok_int64 k : key_ok k -> key_int64 k.
Proof. unfold key_ok, key_int64. lia. Qed.

Lemma name_of_compare k k' :
  key_int64 k -> key_ok k' ->
  String.compare (name_of k) (name_of k')
  = match Z.compare k.1 k'.1 with Eq => Z.compare k.2 k'.2 | c => c end.
Proof.
  intros [H1 H2] [H1' H2']. unfold name_of, filename. rewrite fmt_016x_compare by lia.
  destruct (Z.compare k.1 k'.1); [|done..].
  rewrite <-(append_empty_r (fmt_016x k.2)), <-(append_empty_r (fmt_016x k'.2)).
  rewrite fmt_016x_compare by lia. by destruct (Z.compare k.2 k'.2).
Qed.

Lemma name_of_le k k' :
  key_ok k -> key_ok k' -> str_le (name_of k) (name_of k') <-> key_le k k'.
Proof.
  intros Hk%key_ok_int64 Hk'. rewrite str_le_compare, name_of_compare by done. unfold key_le.
  destruct (Z.compare_spec k.1 k'.1), (Z.compare_spec k.2 k'.2); split; intros; try done; lia.
Qed.

Lemma name_of_ltb k k' :
  key_int64 k -> key_ok k' -> String.ltb (name_of k) (name_of k') = bool_decide (key_lt k k').
Proof.
  intros Hk Hk'. unfold String.ltb. rewrite name_of_compare by done. symmetry. unfold key_lt.
  destruct (Z.compare_spec k.1 k'.1), (Z.compare_spec k.2 k'.2);
    first [apply bool_decide_eq_true_2; lia | apply bool_decide_eq_false_2; lia].
Qed.

Lemma key_lt_le k k' : key_lt k k' -> key_le k k'.
Proof. unfold key_lt, key_le. lia. Qed.

Lemma key_lt_nle k k' : key_lt k k' <-> ~ key_le k' k.
Proof. unfold key_lt, key_le. lia. Qed.

#[export] Instance key_lt_trans : Transitive key_lt.
Proof. intros a b c. unfold key_lt. lia. Qed.

#[export] Instance key_le_trans : Transitive key_le.
Proof. intros a b c. unfold key_le. lia. Qed.

(** A list is determined by being sorted and having given elements. *)
Lemma sorted_unique `{R : relation A} `{!Transitive R, !AntiSymm (=) R} (l l' : list A) :
  Sorted R l -> Sorted R l' -> l ≡ₚ l' -> l = l'.
Proof. intros. by eapply Sorted_unique. Qed.

Lemma names_sorted (ks : list key) :
  Forall key_ok ks -> StronglySorted key_lt ks -> Sorted str_le (name_of <$> ks).
Proof.
  intros Hok Hs. apply StronglySorted_Sorted. induction Hs as [|k ks Hs IH Hk]; [constructor|].
  inversion Hok as [|? ? Hk0 Hok']; subst. cbn. constructor; [by apply IH|].
  apply Forall_fmap. eapply Forall_impl; [apply Forall_and; split; [exact Hk|exact Hok']|].
  intros k' [Hlt Hk']. cbn. apply name_of_le; [done..|]. by apply key_lt_le.
Qed.

Lemma StronglySorted_lt_NoDup (ks : list key) : StronglySorted key_lt ks -> NoDup ks.
Proof.
  induction 1 as [|k ks _ IH Hk]; constructor; [|done].
  intros Hin. rewrite Forall_forall in Hk. specialize (Hk _ Hin). unfold key_lt in Hk. lia.
Qed.

(** The sorted names of a folder whose log files are exactly those of [ks]. *)
Lemma sorted_names_keys dk (ks : list key) :
  Forall key_ok ks -> StronglySorted key_lt ks ->
  (forall n, is_Some (fileMap dk !! n) <-> n ∈ name_of <$> ks) ->
  sorted_names dk = name_of <$> ks.
Proof.
  intros Hok Hs Hdom. unfold sorted_names.
  eapply (sorted_unique (R := str_le)); [apply Sorted_merge_sort, _|by apply names_sorted|].
  rewrite merge_sort_Permutation. apply NoDup_Permutation.
  - apply NoDup_fst_map_to_list.
  - apply NoDup_fmap_2_strong; [|by apply StronglySorted_lt_NoDup].
    rewrite Forall_forall in Hok. intros k k' Hk Hk'. apply name_of_inj; auto.
  - intros n. rewrite <-Hdom. rewrite list_elem_of_fmap. split.
    + intros ((n' & s) & -> & H%elem_of_map_to_list). by exists s.
    + intros [s Hs']. exists (n, s). split; [done|]. by apply elem_of_map_to_list.
Qed.

(** The index loop counts the names not above the target. *)
Lemma find_index_count (k : key) (ks : list key) idx :
  key_int64 k -> Forall key_ok ks -> StronglySorted key_lt ks ->
  find_index (name_of k) (name_of <$> ks) idx = idx + Z.of_nat (count_le k ks).
Proof.
  intros Hk Hok Hs. revert idx. induction Hs as [|k' ks Hs IH Hk']; intros idx; [cbn; lia|].
  inversion Hok as [|? ? Hk0 Hok']; subst.
  cbn [fmap list_fmap find_index]. rewrite name_of_ltb by done.
  unfold count_le in *. rewrite filter_cons. case_bool_decide as E.
  - assert (Hno : filter (fun k'' => key_le k'' k) ks = []).
    { apply filter_none. eapply Forall_impl; [exact Hk'|].
      intros k'' H. unfold key_lt, key_le in *. lia. }
    rewrite Hno. destruct (decide (key_le k' k)) as [Hle|_]; [|cbn; lia].
    by apply key_lt_nle in E.
  - destruct (decide (key_le k' k)) as [Hle|Hle].
    + rewrite IH by done. cbn [length]. lia.
    + by apply key_lt_nle in Hle.
Qed.

(** ** Properties *)

(** Name round trip: for every term and collection a log can have, the
    file name parses back to exactly that term and collection; distinct
    positions have distinct names. *)
Theorem walfilename_filename t c s :
  0 < t < 2 ^ 63 -> 0 < c < 2 ^ 63 ->
  walfilename (filename t c s) = Ok (filename t c s, mkSeq t c 0)
  /\ String.length (filename t c s) = 32%nat.
Proof.
  intros Ht Hc. pose proof (walfilename_name_of (t, c)) as H. unfold name_of in H. cbn in H.
  split; [apply H; done|]. unfold filename.
  by rewrite !fmt_016x_nonneg, length_append, !length_hex_fix by lia.
Qed.

Lemma walfilename_filename_witness :
  walfilename "00000000000000017fffffffffffffff"
  = Ok ("00000000000000017fffffffffffffff"%string, mkSeq 1 MaxInt64 0)
  /\ String.length "00000000000000017fffffffffffffff" = 32%nat.
Proof. apply (walfilename_filename 1 MaxInt64 1); done. Defined.

(** Name order: the byte-wise order in which the names are sorted and
    compared is the lexicographic order of (term, collection). *)
Theorem filename_order t c t' c' :
  0 < t < 2 ^ 63 -> 0 < c < 2 ^ 63 -> 0 < t' < 2 ^ 63 -> 0 < c' < 2 ^ 63 ->
  str_le (filename t c 0) (filename t' c' 0) <-> t < t' \/ (t = t' /\ c <= c').
Proof. intros. by apply (name_of_le (t, c) (t', c')). Qed.

Lemma filename_order_witness :
  str_le (filename 1 9 0) (filename 1 10 0) <-> 1 < 1 \/ (1 = 1 /\ 9 <= 10).
Proof. apply (filename_order 1 9 1 10); done. Defined.
