(* ===== verification/WalLog.v ===== *)
(** * Writing the log: invariant and refinement

    The abstract log is a list of files in position order, each a list of
    records.  [log_rep] relates it to the folder, [wal_inv] to the running
    [DiskWal]; [WriteEntry] refines appending the records of the entry. *)

From stdpp Require Import base list gmap strings sorting.
From Stdlib Require Import ZArith Lia.
From S2P Require Import Prelude GoStr Bytes SequenceId WalPage Wal WalNames.
Local Open Scope Z_scope.
Local Open Scope go_scope.

(** ** Abstract log *)

Notation record := (list byte * Z)%type.
Notation log := (list (key * list record)).

Definition all_recs (L : log) : list record := concat L.*2.

(** The page of a record, and the records a page of [p] bytes can hold. *)
Definition enc (p : nat) (r : record) : list byte :=
  page_layout p r.1 r.2 (crc32 (page_layout p r.1 r.2 0)).
#[global] Arguments enc : simpl never.

Definition rec_ok (p : nat) (r : record) : Prop :=
  (8 < p)%nat /\ Z.of_nat p < 2 ^ 16 /\ (length r.1 <= p - 8)%nat /\ 0 <= r.2 < 16.

Definition holds (p : nat) (f : File) (recs : list record) : Prop :=
  content f = concat (enc p <$> recs) /\ Forall (rec_ok p) recs.

(** The records of an entry: one [Whole], or [Start], [Middle]..., [End]. *)
Fixpoint split_recs (fuel M : nat) (first : bool) (bs : list byte) : list record :=
  match fuel with
  | O => []
  | S fuel =>
      if (length bs <=? M)%nat then [(bs, EntryTypeEnd)]
      else (take M bs, if first then EntryTypeStart else EntryTypeMiddle)
             :: split_recs fuel M false (drop M bs)
  end.

Definition entry_recs (M : nat) (bs : list byte) : list record :=
  if (length bs <=? M)%nat then [(bs, EntryTypeWhole)]
  else split_recs (length bs) M true bs.

Record log_rep (p : nat) (dk : gmap string File) (L : log) : Prop := {
  lr_keys : Forall key_ok L.*1;
  lr_sorted : StronglySorted key_lt L.*1;
  lr_files : forall k recs, (k, recs) ∈ L -> exists f, dk !! name_of k = Some f /\ holds p f recs;
  lr_only : forall n, is_Some (fileMap dk !! n) <-> n ∈ name_of <$> L.*1;
}.

Record wal_params (d : DiskWal) : Prop := {
  wp_page : 8 < maxPageSize d < 2 ^ 16;
  wp_file : maxPageSize d <= maxFileSize d < 2 ^ 31;
}.

Record wal_inv (w : World) (L : log) : Prop := {
  wi_params : wal_params (wal w);
  wi_rep : log_rep (Z.to_nat (maxPageSize (wal w))) (disk w) L;
  wi_size : Forall (fun kr => Z.of_nat (length kr.2) * maxPageSize (wal w)
                              <= maxFileSize (wal w)) L;
  wi_cur :
    match curFile (wal w) with
    | None => L = [] /\ curTerm (wal w) = 1 /\ curCollection (wal w) = 0
              /\ curSeq (wal w) = 0 /\ pageOccupied (wal w) = 0
    | Some h => exists L0 recs,
        L = L0 ++ [((curTerm (wal w), curCollection (wal w)), recs)]
        /\ h = mkHandle (name_of (curTerm (wal w), curCollection (wal w))) true
        /\ curSeq (wal w) = Z.of_nat (length recs)
        /\ pageOccupied (wal w) = Z.of_nat (length recs)
    end;
}.

(** What a successful write of [new] records changes. *)
Record grown (w w' : World) (L L' : log) (new : list record) : Prop := {
  gr_recs : all_recs L' = all_recs L ++ new;
  gr_ext : forall L0 k recs, L = L0 ++ [(k, recs)] ->
           exists recs' L2, L' = L0 ++ (k, recs ++ recs') :: L2;
  gr_faults : faults w' = [];
  gr_term : curTerm (wal w') = curTerm (wal w);
  gr_page : maxPageSize (wal w') = maxPageSize (wal w);
  gr_fsize : maxFileSize (wal w') = maxFileSize (wal w);
  gr_sync : syncers (wal w') = syncers (wal w);
  gr_coll : curCollection (wal w) <= curCollection (wal w')
            <= curCollection (wal w) + Z.of_nat (length new);
  gr_pos : new <> [] -> seq_lt (curPosition (wal w)) (curPosition (wal w'));
  gr_open : new <> [] -> curFile (wal w') <> None /\ 0 < curSeq (wal w');
}.

(** ** Lemmas on the representation *)

Lemma rec_ok_length p r : rec_ok p r -> length (enc p r) = p.
Proof. intros (Hp & _). apply length_page_layout. lia. Qed.

Lemma length_holds p f recs : holds p f recs -> length (content f) = (length recs * p)%nat.
Proof.
  intros [-> Hr]. rewrite length_concat_pages with (p := p).
  - by rewrite length_fmap.
  - apply Forall_fmap. eapply Forall_impl; [exact Hr|]. intros r H. by apply rec_ok_length.
Qed.

Lemma enc_pages p recs :
  Forall (rec_ok p) recs -> Forall (fun pg => length pg = p) (enc p <$> recs).
Proof.
  intros H. apply Forall_fmap. eapply Forall_impl; [exact H|]. intros r. apply rec_ok_length.
Qed.

Lemma pageRecordsInfo_enc p r : rec_ok p r -> pageRecordsInfo (enc p r) = Ok [r].
Proof.
  intros (Hp & H16 & Hl & Ht). destruct r as [dat t]. apply pageRecordsInfo_layout; cbn in *; lia.
Qed.

Lemma holds_snoc p f recs r :
  holds p f recs -> rec_ok p r ->
  holds p (mkFile (content f ++ enc p r) (synced f)) (recs ++ [r]).
Proof.
  intros [Hc Hr] Hok. split; cbn.
  - by rewrite fmap_app, concat_app, Hc; cbn; rewrite app_nil_r.
  - apply Forall_app; split; [done|]. by constructor.
Qed.

Lemma fileMap_lookup dk n :
  fileMap dk !! n = match dk !! n with
                    | Some _ => match walfilename n with Ok (_, s) => Some s | _ => None end
                    | None => None
                    end.
Proof. unfold fileMap. rewrite map_lookup_imap. by destruct (dk !! n). Qed.

Lemma fileMap_insert_dom dk k f n :
  key_ok k ->
  is_Some (fileMap (<[name_of k := f]> dk) !! n) <-> n = name_of k \/ is_Some (fileMap dk !! n).
Proof.
  intros Hk. rewrite !fileMap_lookup. destruct (decide (n = name_of k)) as [->|Hn].
  - rewrite lookup_insert_eq, walfilename_name_of by done. naive_solver.
  - rewrite lookup_insert_ne by done. naive_solver.
Qed.

Lemma log_rep_keys_not p dk L k :
  log_rep p dk L -> key_ok k -> Forall (fun k' => key_lt k' k) L.*1 -> dk !! name_of k = None.
Proof.
  intros H Hk Hlt. destruct (dk !! name_of k) as [f|] eqn:E; [|done]. exfalso.
  assert (Hin : is_Some (fileMap dk !! name_of k)).
  { rewrite fileMap_lookup, E, walfilename_name_of by done. done. }
  apply (lr_only _ _ _ H) in Hin. apply list_elem_of_fmap in Hin as (k' & En & Hin).
  pose proof (lr_keys _ _ _ H) as Hok. rewrite Forall_forall in Hok, Hlt.
  apply name_of_inj in En; [|done|by apply Hok]. subst.
  specialize (Hlt _ Hin). unfold key_lt in Hlt. lia.
Qed.

(** A new empty file after all the others. *)
Lemma log_rep_new p dk L k :
  log_rep p dk L -> key_ok k -> Forall (fun k' => key_lt k' k) L.*1 ->
  log_rep p (<[name_of k := mkFile [] 0]> dk) (L ++ [(k, [])]).
Proof.
  intros H Hk Hlt. pose proof (lr_keys _ _ _ H) as Hok. split.
  - rewrite fmap_app. apply Forall_app; split; [done|]. by constructor.
  - rewrite fmap_app. apply StronglySorted_app; split_and!;
      [|apply (lr_sorted _ _ _ H)|repeat constructor].
    intros k1 k2 H1 H2. rewrite Forall_forall in Hlt. apply list_elem_of_singleton in H2 as ->. auto.
  - intros k' recs [Hin|Hin]%elem_of_app.
    + destruct (lr_files _ _ _ H k' recs Hin) as (f & Hf & Hh). exists f. split; [|done].
      rewrite lookup_insert_ne; [done|]. intros E. apply name_of_inj in E; [|done|].
      * subst. rewrite Forall_forall in Hlt.
        specialize (Hlt k' ltac:(apply list_elem_of_fmap; by exists (k', recs))).
        unfold key_lt in Hlt. lia.
      * rewrite Forall_forall in Hok. apply Hok, list_elem_of_fmap. by exists (k', recs).
    + apply list_elem_of_singleton in Hin. simplify_eq.
      eexists. rewrite lookup_insert_eq. split; [done|]. by split; [|constructor].
  - intros n. rewrite fileMap_insert_dom by done. rewrite (lr_only _ _ _ H).
    rewrite !fmap_app, elem_of_app. cbn. rewrite list_elem_of_singleton. naive_solver.
Qed.

(** One more page at the end of the last file. *)
Lemma log_rep_append p dk L k recs r :
  log_rep p dk (L ++ [(k, recs)]) -> rec_ok p r ->
  log_rep p (append_to (name_of k) (enc p r) dk) (L ++ [(k, recs ++ [r])]).
Proof.
  intros H Hr. pose proof (lr_keys _ _ _ H) as Hok.
  destruct (lr_files _ _ _ H k recs) as (f & Hf & Hh); [set_solver|].
  unfold append_to. rewrite Hf.
  assert (Hfst : (L ++ [(k, recs ++ [r])]).*1 = (L ++ [(k, recs)]).*1) by by rewrite !fmap_app.
  split; rewrite ?Hfst; [done|apply (lr_sorted _ _ _ H)|..].
  - assert (Hlt : Forall (fun k' => key_lt k' k) L.*1).
    { pose proof (lr_sorted _ _ _ H) as Hs. rewrite fmap_app in Hs.
      apply StronglySorted_app in Hs as (Hs & _). apply Forall_forall. intros k' Hk'.
      apply Hs; [done|]. cbn. set_solver. }
    intros k' recs' [Hin|Hin]%elem_of_app.
    + destruct (lr_files _ _ _ H k' recs') as (f' & Hf' & Hh'); [set_solver|].
      exists f'. split; [|done]. rewrite lookup_insert_ne; [done|]. intros E.
      rewrite fmap_app in Hok. apply Forall_app in Hok as [Hok1 Hok2].
      inversion Hok2 as [|? ? Hk0 _]; subst. rewrite Forall_forall in Hok1, Hlt.
      assert (k' ∈ L.*1) as Hk' by (apply list_elem_of_fmap; by exists (k', recs')).
      apply name_of_inj in E; [|done|by apply Hok1]. subst.
      specialize (Hlt _ Hk'). unfold key_lt in Hlt. lia.
    + apply list_elem_of_singleton in Hin. simplify_eq. eexists.
      rewrite lookup_insert_eq. split; [done|]. by apply holds_snoc.
  - intros n. rewrite <-(lr_only _ _ _ H), fileMap_insert_dom.
    + split; [|by right]. intros [->|?]; [|done]. rewrite fileMap_lookup, Hf.
      rewrite fmap_app in Hok. apply Forall_app in Hok as [_ Hok2].
      inversion Hok2; subst. by rewrite walfilename_name_of.
    + rewrite fmap_app in Hok. apply Forall_app in Hok as [_ Hok2]. by inversion Hok2.
Qed.

(** ** The write path *)

Lemma all_recs_app L1 L2 : all_recs (L1 ++ L2) = all_recs L1 ++ all_recs L2.
Proof. unfold all_recs. by rewrite fmap_app, concat_app. Qed.

Lemma all_recs_one k recs : all_recs [(k, recs)] = recs.
Proof. unfold all_recs. cbn. apply app_nil_r. Qed.

Lemma keys_below L0 (k : key) (recs : list record) :
  StronglySorted key_lt (L0 ++ [(k, recs)]).*1 -> Forall (fun k' => key_lt k' k) L0.*1.
Proof.
  rewrite fmap_app. intros (Hs & _)%StronglySorted_app. apply Forall_forall.
  intros k' Hk'. apply Hs; [done|]. cbn. set_solver.
Qed.

Lemma keys_below_next L0 t c (recs : list record) :
  StronglySorted key_lt (L0 ++ [((t, c), recs)]).*1 ->
  Forall (fun k' => key_lt k' (t, c + 1)) (L0 ++ [((t, c), recs)]).*1.
Proof.
  intros H. pose proof (keys_below _ _ _ H) as Hb. rewrite fmap_app. apply Forall_app; split.
  - eapply Forall_impl; [exact Hb|]. intros k'. unfold key_lt; cbn. lia.
  - constructor; [|constructor]. unfold key_lt; cbn. lia.
Qed.

Lemma wal_inv_last_key w L0 t c (recs : list record) :
  wal_inv w (L0 ++ [((t, c), recs)]) -> key_ok (t, c).
Proof.
  intros H. pose proof (lr_keys _ _ _ (wi_rep _ _ H)) as Hk. rewrite fmap_app in Hk.
  apply Forall_app in Hk as [_ Hk]. by inversion Hk.
Qed.

(** [guaranteePage] leaves an open file with room for one more page, the
    current one or a fresh next one. *)
Lemma guaranteePage_ok w L :
  wal_inv w L -> faults w = [] -> curCollection (wal w) + 1 < 2 ^ 63 ->
  exists w' L0 recs,
    guaranteePage 1 w = (Ok tt, w')
    /\ wal_inv w' (L0 ++ [((curTerm (wal w'), curCollection (wal w')), recs)])
    /\ curFile (wal w') = Some (mkHandle (name_of (curTerm (wal w'), curCollection (wal w'))) true)
    /\ (Z.of_nat (length recs) + 1) * maxPageSize (wal w') <= maxFileSize (wal w')
    /\ curSeq (wal w') = Z.of_nat (length recs) /\ pageOccupied (wal w') = Z.of_nat (length recs)
    /\ faults w' = [] /\ curTerm (wal w') = curTerm (wal w)
    /\ maxPageSize (wal w') = maxPageSize (wal w) /\ maxFileSize (wal w') = maxFileSize (wal w)
    /\ syncers (wal w') = syncers (wal w)
    /\ ((w' = w /\ L = L0 ++ [((curTerm (wal w'), curCollection (wal w')), recs)])
        \/ (L0 = L /\ recs = [] /\ curCollection (wal w') = curCollection (wal w) + 1)).
Proof.
  destruct w as [[T C S P MF MP fo cf di sy] dk fs]. intros Hinv Hf Hc.
  destruct (wi_params _ _ Hinv) as [Hp Hm]. pose proof (wi_rep _ _ Hinv) as Hrep.
  pose proof (wi_size _ _ Hinv) as Hsz. pose proof (wi_cur _ _ Hinv) as Hcur. cbn in *. subst fs.
  unfold guaranteePage. cbn [bind get wal curFile].
  destruct cf as [h|].
  - destruct Hcur as (L0 & recs & -> & -> & -> & ->).
    pose proof (wal_inv_last_key _ _ _ _ _ Hinv) as [HT HC]. cbn in HT, HC.
    cbn [wal curFile pageOccupied maxPageSize maxFileSize curCollection curTerm].
    destruct (Z.gtb_spec ((Z.of_nat (length recs) + 1) * MP) MF) as [Hgt|Hle].
    + (* rotate *)
      pose proof (keys_below_next _ _ _ _ (lr_sorted _ _ _ Hrep)) as Hlt.
      assert (Hk : key_ok (T, C + 1)) by (split; cbn; lia).
      pose proof (log_rep_keys_not _ _ _ _ Hrep Hk Hlt) as Hnone.
      change (name_of (T, C + 1)) with (filename T (C + 1) 0) in Hnone.
      unfold CloseFile, OpenFile, upd_wal, upd_disk, os_call, next_fault.
      go_simpl. cbn. rewrite (int64_small (C + 1)) by lia. rewrite Hnone.
      eexists (mkWorld (mkWal T (C + 1) 0 0 MF MP fo
        (Some (mkHandle (filename T (C + 1) 0) true)) di sy) _ []),
        (L0 ++ [((T, C), recs)]), [].
      split; [done|]. cbn. split_and!; try done; [|lia|right; split_and!; done].
      split; cbn; [by split| |apply Forall_app; split; [done|repeat constructor; cbn; lia]|].
      * by apply (log_rep_new _ _ _ (T, C + 1)).
      * by eexists _, [].
    + eexists _, L0, recs. split; [done|]. cbn. split_and!; try done. by left.
  - destruct Hcur as (-> & -> & -> & -> & ->).
    assert (Hk : key_ok (1, 1)) by (split; cbn; lia).
    pose proof (log_rep_keys_not _ _ _ _ Hrep Hk ltac:(constructor)) as Hnone.
    change (name_of (1, 1)) with (filename 1 1 0) in Hnone.
    unfold OpenFile, upd_wal, upd_disk, os_call, next_fault. go_simpl. cbn.
    change (int64 (0 + 1)) with 1. rewrite Hnone.
    eexists (mkWorld (mkWal 1 1 0 0 MF MP fo (Some (mkHandle (filename 1 1 0) true)) di sy) _ []),
      [], [].
    split; [done|]. cbn. split_and!; try done; [|lia|by right].
    split; cbn; [by split| |repeat constructor; cbn; lia|].
    + by apply (log_rep_new _ _ [] (1, 1)).
    + by eexists [], [].
Qed.

(** One record written through [guaranteePage] and [writeDataPage]. *)
Lemma write_rec_ok w L dat t :
  wal_inv w L -> faults w = [] -> curCollection (wal w) + 1 < 2 ^ 63 ->
  rec_ok (Z.to_nat (maxPageSize (wal w))) (dat, t) ->
  exists w' L',
    (let* _ := guaranteePage 1 in writeDataPage dat t) w = (Ok tt, w')
    /\ wal_inv w' L' /\ grown w w' L L' [(dat, t)].
Proof.
  intros Hinv Hf Hc Hr.
  destruct (guaranteePage_ok w L Hinv Hf Hc) as
    (w1 & L0 & recs & E & Hinv1 & Hcf & Hroom & HS & HP & Hf1 & HT & HMP & HMF & Hsy & Hcase).
  rewrite (bind_ok _ _ _ _ _ E). destruct (wi_params _ _ Hinv1) as [Hp Hm].
  pose proof (wi_rep _ _ Hinv1) as Hrep.
  pose proof (wi_size _ _ Hinv1) as Hsz. apply Forall_app in Hsz as [Hsz1 _].
  rewrite <-HMP in Hr.
  destruct w1 as [[T C S P MF MP fo cf di sy] dk fs]. cbn in *. subst cf fs S P.
  unfold writeDataPage. unfold bind at 1. cbn [get wal maxPageSize]. rewrite prepareDataBufByPage_ok by lia.
  change (page_layout (Z.to_nat MP) dat t (crc32 (page_layout (Z.to_nat MP) dat t 0)))
    with (enc (Z.to_nat MP) (dat, t)).
  unfold WriteFile, upd_wal, upd_disk, next_fault. go_simpl. cbn.
  assert (Hlen : Z.of_nat (length recs) < 2 ^ 31 - 1) by nia.
  rewrite int32_small, int64_small by lia.
  eexists _, (L0 ++ [((T, C), recs ++ [(dat, t)])]). split; [done|]. split; [split; cbn|].
  - by split.
  - by apply log_rep_append.
  - apply Forall_app; split; [done|]. repeat constructor. cbn. rewrite length_app. cbn. nia.
  - exists L0, (recs ++ [(dat, t)]). rewrite length_app. cbn. split_and!; try done; lia.
  - split; cbn; try done.
    + rewrite all_recs_app, all_recs_one. destruct Hcase as [[_ ->]|(-> & -> & _)].
      * by rewrite all_recs_app, all_recs_one, app_assoc.
      * done.
    + intros L0' k' rs HL. destruct Hcase as [[_ ->]|(-> & -> & _)].
      * apply app_inj_tail in HL as [-> [= <- <-]]. by exists [(dat, t)], [].
      * exists [], [((T, C), [(dat, t)])]. by rewrite HL, app_nil_r, <-app_assoc.
    + destruct Hcase as [[<- _]|(_ & _ & ->)]; cbn; lia.
    + intros _. unfold seq_lt, curPosition. cbn.
      destruct Hcase as [[<- _]|(_ & _ & ->)]; cbn; rewrite <-?HT; lia.
    + intros _. split; [done|lia].
Qed.

Lemma grown_trans w w1 w2 L L1 L2 n1 n2 :
  n1 <> [] -> n2 <> [] -> grown w w1 L L1 n1 -> grown w1 w2 L1 L2 n2 ->
  grown w w2 L L2 (n1 ++ n2).
Proof.
  intros Hn1 Hn2 [R1 F1 A1 T1 P1 S1 Y1 C1 Q1 O1] [R2 F2 A2 T2 P2 S2 Y2 C2 Q2 O2].
  split; try congruence; auto.
  - rewrite R2, R1. by rewrite app_assoc.
  - intros L0 k recs HL. destruct (F1 _ _ _ HL) as (r1 & M1 & H1).
    destruct M1 as [|x M1 _] using rev_ind.
    + destruct (F2 _ _ _ H1) as (r2 & M2 & H2). exists (r1 ++ r2), M2. by rewrite app_assoc.
    + destruct x as [k2 recs2]. rewrite app_comm_cons, app_assoc in H1.
      destruct (F2 _ _ _ H1) as (r2 & M2 & H2).
      exists r1, (M1 ++ (k2, recs2 ++ r2) :: M2). by rewrite H2, <-app_assoc.
  - rewrite length_app. lia.
  - intros _. etrans; eauto.
Qed.

Lemma split_recs_nonempty fuel M first bs :
  (0 < fuel)%nat -> split_recs fuel M first bs <> [].
Proof. destruct fuel; [lia|]. cbn. intros _. by destruct (_ <=? _)%nat. Qed.

(** The multi-page loop writes the records of [split_recs] and terminates. *)
Lemma write_loop_ok fuel sf M bytes offset w L :
  wal_inv w L -> faults w = [] ->
  M = maxPageSize (wal w) - 8 -> 0 <= offset < Z.of_nat (length bytes) ->
  (length (drop (Z.to_nat offset) bytes) < fuel)%nat ->
  (length (drop (Z.to_nat offset) bytes) <= sf)%nat ->
  curCollection (wal w) + Z.of_nat (length (drop (Z.to_nat offset) bytes)) < 2 ^ 63 ->
  exists w' L',
    write_loop fuel M bytes offset w = (Ok tt, w') /\ wal_inv w' L'
    /\ grown w w' L L'
         (split_recs sf (Z.to_nat M) (offset =? 0) (drop (Z.to_nat offset) bytes)).
Proof.
  revert sf offset w L. induction fuel as [|fuel IH]; intros sf offset w L Hinv Hf HM Ho Hfu Hsf Hc;
    [lia|].
  destruct (wi_params _ _ Hinv) as [Hp Hm].
  rewrite length_drop in *. destruct sf as [|sf]; [lia|].
  cbn [write_loop split_recs]. rewrite length_drop.
  destruct (Z.geb_spec (offset + M) (Z.of_nat (length bytes))) as [Hge|Hlt].
  - (* the last piece *)
    destruct (Nat.leb_spec (length bytes - Z.to_nat offset) (Z.to_nat M)); [|lia].
    rewrite (take_ge (drop _ _)) by (rewrite length_drop; lia).
    edestruct (write_rec_ok w L (drop (Z.to_nat offset) bytes) EntryTypeEnd)
      as (w1 & L1 & E & Hinv1 & Hg); [done..|lia| |].
    { split_and!; cbn; rewrite ?length_drop; lia || done. }
    destruct (bind_ok_inv _ _ _ _ _ E) as ([] & wm & E1 & E2).
    exists w1, L1. split; [|done]. rewrite (bind_ok _ _ _ _ _ E1), (bind_ok _ _ _ _ _ E2).
    by destruct (Z.geb_spec (offset + (Z.of_nat (length bytes) - offset)) (Z.of_nat (length bytes)));
      [|lia].
  - (* a piece followed by others *)
    destruct (Nat.leb_spec (length bytes - Z.to_nat offset) (Z.to_nat M)); [lia|].
    set (t := if offset =? 0 then EntryTypeStart else EntryTypeMiddle).
    edestruct (write_rec_ok w L (take (Z.to_nat M) (drop (Z.to_nat offset) bytes)) t)
      as (w1 & L1 & E & Hinv1 & Hg); [done..|lia| |].
    { split_and!; cbn; rewrite ?length_take, ?length_drop; try lia;
        subst t; by destruct (_ =? _). }
    destruct (bind_ok_inv _ _ _ _ _ E) as ([] & wm & E1 & E2).
    rewrite (bind_ok _ _ _ _ _ E1), (bind_ok _ _ _ _ _ E2).
    destruct (Z.geb_spec (offset + M) (Z.of_nat (length bytes))); [lia|].
    pose proof (gr_coll _ _ _ _ _ Hg) as Hcc. cbn in Hcc.
    rewrite drop_drop. replace (Z.to_nat offset + Z.to_nat M)%nat with (Z.to_nat (offset + M)) by lia.
    edestruct (IH sf (offset + M) w1 L1) as (w2 & L2 & E3 & Hinv2 & Hg2);
      [done|apply Hg|rewrite (gr_page _ _ _ _ _ Hg); done|lia|rewrite length_drop; lia..|].
    exists w2, L2. split; [done|]. split; [done|].
    assert ((offset + M =? 0) = false) as E0 by lia. rewrite E0 in Hg2.
    eapply (grown_trans w w1 w2 L L1 L2 [_]); [done| |done|done].
    apply split_recs_nonempty. lia.
Qed.

(** [WriteEntry] on a well-formed log always succeeds and appends exactly the
    records of the entry. *)
Lemma WriteEntry_ok w L bytes :
  wal_inv w L -> faults w = [] ->
  curCollection (wal w) + Z.of_nat (length bytes) + 1 < 2 ^ 63 ->
  exists w' L',
    WriteEntry bytes w = (Ok (curPosition (wal w')), w') /\ wal_inv w' L'
    /\ grown w w' L L' (entry_recs (Z.to_nat (maxPageSize (wal w) - 8)) bytes)
    /\ dirty (wal w') = 1.
Proof.
  intros Hinv Hf Hc. destruct (wi_params _ _ Hinv) as [Hp Hm].
  unfold WriteEntry, WriteEntryWithFullPage, RecordHeaderSize.
  unfold bind at 1. cbn [get]. rewrite int32_small by lia.
  assert (Hpre : exists w' L',
    (if maxPageSize (wal w) - 8 >=? Z.of_nat (length bytes)
     then (let* _ := guaranteePage 1 in writeDataPage bytes EntryTypeWhole)
     else write_loop (S (length bytes)) (maxPageSize (wal w) - 8) bytes 0) w = (Ok tt, w')
    /\ wal_inv w' L'
    /\ grown w w' L L' (entry_recs (Z.to_nat (maxPageSize (wal w) - 8)) bytes)).
  { unfold entry_recs.
    destruct (Z.geb_spec (maxPageSize (wal w) - 8) (Z.of_nat (length bytes))),
      (Nat.leb_spec (length bytes) (Z.to_nat (maxPageSize (wal w) - 8))); try lia.
    - apply write_rec_ok; try done; try lia. split_and!; cbn; lia || done.
    - destruct (write_loop_ok (S (length bytes)) (length bytes) (maxPageSize (wal w) - 8)
        bytes 0 w L) as (w' & L' & E & H1 & H2); rewrite ?drop_0; try done; try lia.
      rewrite drop_0 in H2. by exists w', L'. }
  destruct Hpre as (w1 & L1 & E & Hinv1 & Hg). rewrite (bind_ok _ _ _ _ _ E).
  exists (mkWorld (with_dirty 1 (wal w1)) (disk w1) (faults w1)), L1.
  split; [done|]. destruct w1 as [[] dk fs]. 
  split; [destruct Hinv1 as [[? ?] ? ? ?]; split; cbn; [by split|done..]|].
  split; [|done]. by destruct Hg; split.
Qed.

(** The data of the records of an entry, in order, is the entry. *)
Lemma split_recs_data fuel M first bs :
  (0 < M)%nat -> (length bs <= fuel)%nat -> (0 < length bs)%nat ->
  concat (split_recs fuel M first bs).*1 = bs.
Proof.
  intros HM. revert first bs. induction fuel as [|fuel IH]; intros first bs Hf Hb; [lia|].
  cbn [split_recs]. destruct (Nat.leb_spec (length bs) M); cbn; [by rewrite app_nil_r|].
  rewrite IH; rewrite ?length_drop; try lia. apply take_drop.
Qed.

Lemma entry_recs_data M bs : (0 < M)%nat -> concat (entry_recs M bs).*1 = bs.
Proof.
  intros HM. unfold entry_recs. destruct (Nat.leb_spec (length bs) M); cbn; [by rewrite app_nil_r|].
  apply split_recs_data; lia.
Qed.

Lemma entry_recs_nonempty M bs : entry_recs M bs <> [].
Proof.
  unfold entry_recs. destruct (Nat.leb_spec (length bs) M); [done|].
  apply split_recs_nonempty. lia.
Qed.

Lemma split_recs_length fuel M first bs : (length (split_recs fuel M first bs) <= fuel)%nat.
Proof.
  revert first bs. induction fuel as [|fuel IH]; intros first bs; [done|]. cbn [split_recs].
  destruct (_ <=? _)%nat; cbn [length]; [lia|]. specialize (IH false (drop M bs)). lia.
Qed.

Lemma entry_recs_length M bs : (length (entry_recs M bs) <= length bs + 1)%nat.
Proof.
  unfold entry_recs. destruct (_ <=? _)%nat; cbn [length]; [lia|].
  pose proof (split_recs_length (length bs) M true bs). lia.
Qed.

(** No log file is larger than [maxFileSize], and all are whole pages. *)
Definition files_bounded (d : DiskWal) (dk : gmap string File) : Prop :=
  forall name f, dk !! name = Some f -> is_Some (fileMap dk !! name) ->
  Z.of_nat (length (content f)) <= maxFileSize d
  /\ (maxPageSize d | Z.of_nat (length (content f))).

Lemma wal_inv_bounded w L : wal_inv w L -> files_bounded (wal w) (disk w).
Proof.
  intros Hinv name f Hn Hs.
  apply (lr_only _ _ _ (wi_rep _ _ Hinv)) in Hs. apply list_elem_of_fmap in Hs as (k & -> & Hk).
  apply list_elem_of_fmap in Hk as ((k' & recs) & -> & Hk).
  destruct (lr_files _ _ _ (wi_rep _ _ Hinv) _ _ Hk) as (f' & Hf' & Hh).
  cbn in Hn. simplify_eq. pose proof (wi_size _ _ Hinv) as Hsz.
  rewrite Forall_forall in Hsz. specialize (Hsz _ Hk). cbn in Hsz.
  destruct (wi_params _ _ Hinv) as [Hp _]. rewrite (length_holds _ _ _ Hh).
  split; [lia|]. exists (Z.of_nat (length recs)). lia.
Qed.

(** A log that has not written anything, over a folder without log files. *)
Lemma wal_inv_fresh d dk fs :
  wal_params d -> curFile d = None -> curTerm d = 1 -> curCollection d = 0 -> curSeq d = 0 ->
  pageOccupied d = 0 -> (forall n, fileMap dk !! n = None) ->
  wal_inv (mkWorld d dk fs) [].
Proof.
  intros Hp Hf HT HC HS HP Hn. split; cbn; [done| |constructor|by rewrite Hf].
  split; cbn; [constructor|constructor|by intros ? ? ?%elem_of_nil|].
  intros n. rewrite Hn. split; [by intros [? ?]|by intros ?%elem_of_nil].
Qed.

(** ** Properties *)

(** C4. Writing refines appending: on a well-formed log and without I/O
    failures [WriteEntry] terminates and succeeds, the invariant is kept, the
    log grows by exactly the records of the entry, whose data put together is
    the entry, and the returned position is the new current one, strictly
    after the previous one. *)
Theorem WriteEntry_refines w L bytes :
  wal_inv w L -> faults w = [] ->
  curCollection (wal w) + Z.of_nat (length bytes) + 1 < 2 ^ 63 ->
  let new := entry_recs (Z.to_nat (maxPageSize (wal w) - 8)) bytes in
  exists w' L',
    WriteEntry bytes w = (Ok (curPosition (wal w')), w')
    /\ wal_inv w' L'
    /\ all_recs L' = all_recs L ++ new
    /\ concat new.*1 = bytes
    /\ seq_lt (curPosition (wal w)) (curPosition (wal w')).
Proof.
  intros Hinv Hf Hc new. destruct (WriteEntry_ok w L bytes Hinv Hf Hc)
    as (w' & L' & E & Hinv' & Hg & _). exists w', L'.
  destruct (wi_params _ _ Hinv) as [Hp _].
  split_and!; [done|done|apply Hg|apply entry_recs_data; lia|].
  apply Hg, entry_recs_nonempty.
Qed.

Definition tiny_wal (c : option Handle) : DiskWal := mkWal 1 0 0 0 32 16 "wal" c 0 0.
Definition tiny_world : World := mkWorld (tiny_wal None) ∅ [].

Lemma tiny_world_inv : wal_inv tiny_world [].
Proof. apply wal_inv_fresh; try done. Qed.

Lemma WriteEntry_refines_witness :
  exists w' L',
    WriteEntry (bytes_of "a long entry of 3 pages") tiny_world = (Ok (curPosition (wal w')), w')
    /\ wal_inv w' L'
    /\ all_recs L' = all_recs [] ++ entry_recs 8 (bytes_of "a long entry of 3 pages")
    /\ concat (entry_recs 8 (bytes_of "a long entry of 3 pages")).*1
       = bytes_of "a long entry of 3 pages"
    /\ seq_lt (curPosition (wal tiny_world)) (curPosition (wal w')).
Proof.
  apply (WriteEntry_refines tiny_world [] (bytes_of "a long entry of 3 pages"));
    [apply tiny_world_inv|done|done].
Defined.

(** The positions the example goes through: two files of two pages. *)
Example WriteEntry_example :
  ((let* _ := WriteEntry (bytes_of "a long entry of 3 pages") in CurrentSequence) tiny_world).1
  = Ok (mkSeq 1 2 1).
Proof. vm_compute. reflexivity. Qed.
