(* ===== verification/WalOpen.v ===== *)
(** * Opening an existing log: [Initialize]

    What [Initialize] recovers from a folder that holds a well-formed log, its
    repair of an incomplete last record, and the life of a log over any sequence
    of writes and restarts. *)

From stdpp Require Import base list gmap strings sorting.
From Stdlib Require Import ZArith Lia.
From S2P Require Import Prelude GoStr Bytes SequenceId WalPage Wal WalNames WalLog.
Local Open Scope Z_scope.
Local Open Scope go_scope.

(** ** Definitions of the specification *)

(** The body of a page loop run over a list of pages. *)
Fixpoint fold_pages {S A B} (body : B -> A -> M S A) (l : list B) (acc : A) : M S A :=
  match l with
  | [] => ret acc
  | b :: l => let* acc := body b acc in fold_pages body l acc
  end.

(** A log structure just created by [NewDiskWal], before [Initialize]. *)
Definition reopened (d : DiskWal) : DiskWal :=
  mkWal 1 0 0 0 (maxFileSize d) (maxPageSize d) (folder d) None 0 0.

(** A process ends and a new one opens the folder. *)
Definition reopen : M World SequenceId :=
  fun w => Wal.Initialize (mkWorld (reopened (wal w)) (disk w) (faults w)).

(** The life of a log: entries written, and processes that follow each other. *)
Inductive log_event :=
| Write (bytes : list byte)
| Reopen.

Definition log_event_run (ev : log_event) : M World SequenceId :=
  match ev with
  | Write bytes => WriteEntry bytes
  | Reopen => reopen
  end.

Fixpoint log_run (evs : list log_event) : M World unit :=
  match evs with
  | [] => ret tt
  | ev :: evs => let* _ := log_event_run ev in log_run evs
  end.

(** The collections a life can use up. *)
Definition event_cost (ev : log_event) : Z :=
  match ev with
  | Write bytes => Z.of_nat (length bytes) + 1
  | Reopen => 0
  end.

Definition run_cost (evs : list log_event) : Z := foldr (fun ev n => event_cost ev + n) 0 evs.

(** ** The page loop *)

Lemma page_loop_pages {S A} (rd : nat -> M S (list byte)) (body : list byte -> A -> M S A)
    (pgs : list (list byte)) (I : S -> Prop) :
  (forall s k pg, I s -> pgs !! k = Some pg -> rd k s = (Ok pg, s)) ->
  (forall s, I s -> rd (length pgs) s = (Fail EOF, s)) ->
  (forall pg acc, pg ∈ pgs -> keeps I (body pg acc)) ->
  forall fuel k acc s, I s -> (k <= length pgs)%nat -> (length pgs - k < fuel)%nat ->
  page_loop rd body fuel k acc s = fold_pages body (drop k pgs) acc s.
Proof.
  intros Hrd Hend Hbody. induction fuel as [|fuel IH]; intros k acc s Hs Hk Hf; [lia|].
  cbn [page_loop]. destruct (pgs !! k) as [pg|] eqn:E.
  - rewrite (bind_ok _ _ _ _ _ (catch_ok _ _ _ _ (Hrd s k pg Hs E))).
    rewrite (drop_S _ _ _ E). cbn [fold_pages].
    assert (Hin : pg ∈ pgs) by by eapply list_elem_of_lookup_2.
    pose proof (Hbody pg acc Hin s Hs) as Hs'. unfold bind.
    destruct (body pg acc s) as [[a|e|msg|] s'] eqn:Eb; try done.
    apply IH; [done| |]; apply lookup_lt_Some in E; lia.
  - apply lookup_ge_None in E. assert (k = length pgs) as -> by lia.
    rewrite (bind_ok _ _ _ _ _ (catch_fail _ _ _ _ (Hend s Hs))).
    rewrite drop_ge by lia. by rewrite decide_True.
Qed.

(** The file [name] of a world without pending faults holds [recs]. *)
Definition reads (name : string) (p : nat) (recs : list record) (w : World) : Prop :=
  faults w = [] /\ Z.to_nat (maxPageSize (wal w)) = p
  /\ exists f, disk w !! name = Some f /\ holds p f recs.

Lemma read_page_some name p recs w k pg :
  (0 < p)%nat -> reads name p recs w -> (enc p <$> recs) !! k = Some pg ->
  read_page name k w = (Ok pg, w).
Proof.
  intros Hp (Hf & Hm & f & Hd & Hc & Hok) Hk. destruct w as [d dk fs]. cbn in *. subst fs p.
  unfold read_page, os_call, next_fault. go_simpl. cbn. rewrite Hd, Hc.
  pose proof (enc_pages _ _ Hok) as Hall.
  rewrite <-(take_drop_middle _ _ _ Hk) in Hall |- *.
  assert (length (take k (enc (Z.to_nat (maxPageSize d)) <$> recs)) = k) as Hl.
  { rewrite length_take. apply lookup_lt_Some in Hk. lia. }
  rewrite <-Hl at 1. by rewrite ReadFull_page.
Qed.

Lemma read_page_end name p recs w :
  reads name p recs w -> read_page name (length (enc p <$> recs)) w = (Fail EOF, w).
Proof.
  intros (Hf & Hm & f & Hd & Hc & Hok). destruct w as [d dk fs]. cbn in *. subst fs p.
  unfold read_page, os_call, next_fault. go_simpl. cbn. rewrite Hd, Hc.
  by rewrite ReadFull_end by by apply enc_pages.
Qed.

Lemma file_fuel_enough name p recs w :
  (0 < p)%nat -> reads name p recs w -> (length (enc p <$> recs) < file_fuel name w)%nat.
Proof.
  intros Hp (Hf & Hm & f & Hd & Hh). unfold file_fuel. rewrite Hd, (length_holds _ _ _ Hh), length_fmap.
  nia.
Qed.

Lemma fold_info_pages p recs n1 n2 b last0 (w : World) :
  Forall (rec_ok p) recs -> 0 <= n1 -> 0 <= n2 ->
  n1 + Z.of_nat (length recs) < 2 ^ 31 -> n2 + Z.of_nat (length recs) < 2 ^ 31 ->
  fold_pages info_page (enc p <$> recs) (mkInfo n1 n2 b, last0) w
  = (Ok (mkInfo (n1 + Z.of_nat (length recs)) (n2 + Z.of_nat (length recs)) b,
         match last recs with Some r => [r] | None => last0 end), w).
Proof.
  intros Hok. revert n1 n2 last0. induction Hok as [|r recs Hr Hok IH]; intros n1 n2 last0 H1 H2 H3 H4.
  { cbn. unfold ret. by rewrite !Z.add_0_r. }
  cbn [fmap list_fmap fold_pages length] in *. unfold bind at 1, info_page at 1.
  unfold bind, lift, ret. rewrite pageRecordsInfo_enc by done. cbn [fst snd totalPages totalValidSeq clean length].
  rewrite int32_small, int64_small by lia.
  change (Z.of_nat 1) with 1. rewrite IH by lia.
  rewrite last_cons, Nat2Z.inj_succ.
  replace (n1 + Z.succ (Z.of_nat (length recs))) with (n1 + 1 + Z.of_nat (length recs)) by lia.
  replace (n2 + Z.succ (Z.of_nat (length recs))) with (n2 + 1 + Z.of_nat (length recs)) by lia.
  by destruct (last recs).
Qed.

(** The whole reading loop of [readWalFileInfo]. *)
Lemma info_loop name p recs w :
  (0 < p)%nat -> reads name p recs w -> Z.of_nat (length recs) < 2 ^ 31 ->
  page_loop (read_page name) info_page (file_fuel name w) 0 (mkInfo 0 0 false, []) w
  = (Ok (mkInfo (Z.of_nat (length recs)) (Z.of_nat (length recs)) false,
         match last recs with Some r => [r] | None => [] end), w).
Proof.
  intros Hp Hr Hn. pose proof Hr as (Hf & Hm & f & Hd & Hc & Hok).
  erewrite (page_loop_pages _ _ (enc p <$> recs) (fun w' => w' = w));
    [|intros ? ? ? -> ?; by eapply read_page_some|intros ? ->; by apply read_page_end
     | |done|lia|rewrite Nat.sub_0_r; by apply file_fuel_enough].
  - rewrite drop_0, fold_info_pages by (done || lia). by rewrite !Z.add_0_l.
  - intros pg acc Hin ? ->. apply list_elem_of_fmap in Hin as (r & -> & Hin).
    rewrite Forall_forall in Hok. unfold info_page, bind, lift, ret.
    by rewrite pageRecordsInfo_enc by by apply Hok.
Qed.

Lemma OpenFile_exists name w f :
  faults w = [] -> disk w !! name = Some f -> OpenFile name w = (Ok (mkHandle name true), w).
Proof.
  destruct w as [d dk fs]. cbn. intros -> Hd.
  unfold OpenFile, os_call, next_fault, upd_disk. go_simpl. cbn. by rewrite Hd.
Qed.

(** [readWalFileInfo] on a file of well-formed pages: the panic on an empty
    file, the repair after a [Middle], else just the counts. *)
Lemma readWalFileInfo_ok name p recs w :
  wal_params (wal w) -> p = Z.to_nat (maxPageSize (wal w)) -> reads name p recs w ->
  Z.of_nat (length recs) + 1 < 2 ^ 31 ->
  readWalFileInfo name w =
    match last recs with
    | None => (Panic "index out of range", w)
    | Some (_, type) =>
        if type =? EntryTypeMiddle then
          (Ok (mkInfo (Z.of_nat (length recs) + 1) (Z.of_nat (length recs) + 1) false),
           mkWorld (wal w) (append_to name (enc p ([], EntryTypeBrokenEnd)) (disk w)) [])
        else (Ok (mkInfo (Z.of_nat (length recs)) (Z.of_nat (length recs)) false), w)
    end.
Proof.
  intros [Hp Hm] -> Hr Hn. pose proof Hr as (Hf & _ & f & Hd & Hh).
  unfold readWalFileInfo. unfold bind at 1. cbn [get].
  rewrite (bind_ok _ _ _ _ _ (OpenFile_exists _ _ _ Hf Hd)). unfold bind at 1. cbn [get].
  rewrite (bind_ok _ _ _ _ _ (info_loop name (Z.to_nat (maxPageSize (wal w))) recs w
    ltac:(lia) Hr ltac:(lia))).
  assert ((maxPageSize (wal w) <=? 0) = false) as -> by lia. cbn [fst snd].
  destruct (last recs) as [[dat type]|] eqn:E; [|done].
  cbn [last]. destruct (Z.eqb_spec type EntryTypeMiddle) as [->|Ht]; [|done].
  rewrite prepareDataBufByPage_ok by lia.
  change (page_layout _ [] EntryTypeBrokenEnd _)
    with (enc (Z.to_nat (maxPageSize (wal w))) ([], EntryTypeBrokenEnd)).
  destruct w as [d dk fs]. cbn in *. subst fs.
  unfold WriteFile, next_fault, upd_disk. go_simpl. cbn.
  by rewrite int32_small, int64_small by lia.
Qed.

(** [seekWalFileWritePoint] counts the pages and keeps the file open. *)
Lemma seek_ok name p recs w :
  wal_params (wal w) -> p = Z.to_nat (maxPageSize (wal w)) -> reads name p recs w ->
  0 <= pageOccupied (wal w) -> pageOccupied (wal w) + Z.of_nat (length recs) < 2 ^ 31 ->
  seekWalFileWritePoint name w
  = (Ok tt, mkWorld (with_file (Some (mkHandle name true))
              (with_pages (pageOccupied (wal w) + Z.of_nat (length recs)) (wal w))) (disk w) []).
Proof.
  intros [Hp Hm] -> Hr H0 Hn. pose proof Hr as (Hf & _ & f & Hd & Hc & Hok).
  unfold seekWalFileWritePoint.
  assert (os_call w = (Ok tt, w)) as E0.
  { unfold os_call, next_fault. go_simpl. by rewrite Hf. }
  rewrite (bind_ok _ _ _ _ _ E0).
  rewrite (bind_ok _ _ _ _ _ (OpenFile_exists _ _ _ Hf Hd)). unfold bind at 1. cbn [get].
  set (body := fun (_ : list byte) (_ : unit) =>
    upd_wal (fun d => with_pages (int32 (pageOccupied d + 1)) d)).
  assert (Hfold : forall (l : list (list byte)) w,
    0 <= pageOccupied (wal w) -> pageOccupied (wal w) + Z.of_nat (length l) < 2 ^ 31 ->
    fold_pages body l tt w
    = (Ok tt, mkWorld (with_pages (pageOccupied (wal w) + Z.of_nat (length l)) (wal w))
                (disk w) (faults w))).
  { induction l as [|pg l IH]; intros [[T C Q P MF MP fo cf di sy] dk fs] HA HB; cbn [length wal pageOccupied] in *.
    - cbn. unfold ret. by rewrite Z.add_0_r.
    - cbn [fold_pages]. unfold bind at 1, body at 1, upd_wal, modify.
      cbn [wal with_pages pageOccupied]. rewrite int32_small by lia.
      replace (P + Z.of_nat (S (length l))) with (P + 1 + Z.of_nat (length l)) by lia.
      rewrite IH; cbn [wal with_pages pageOccupied]; [done|lia..]. }
  unfold bind at 1.
  erewrite (page_loop_pages _ _ (enc (Z.to_nat (maxPageSize (wal w))) <$> recs)
    (reads name (Z.to_nat (maxPageSize (wal w))) recs));
    [|intros ? ? ? ? ?; eapply read_page_some; [|done..]; lia|intros ? ?; by apply read_page_end
     | |done|lia|rewrite Nat.sub_0_r; apply file_fuel_enough; [lia|done]].
  - rewrite drop_0, Hfold by (rewrite ?length_fmap; lia).
    rewrite length_fmap. unfold upd_wal, modify. cbn. by rewrite Hf.
  - intros pg [] _ [[T C Q P MF MP fo cf di sy] dk fs] H. exact H.
Qed.

(** ** [Initialize] on a folder that represents a log *)

Definition repaired (recs : list record) : list record :=
  match last recs with
  | Some (_, type) =>
      if type =? EntryTypeMiddle then recs ++ [([], EntryTypeBrokenEnd)] else recs
  | None => recs
  end.

Lemma os_call_ok w : faults w = [] -> os_call w = (Ok tt, w).
Proof. intros Hf. unfold os_call, next_fault. go_simpl. by rewrite Hf. Qed.

Lemma log_rep_names p dk L : log_rep p dk L -> sorted_names dk = name_of <$> L.*1.
Proof.
  intros H. apply sorted_names_keys; [apply (lr_keys _ _ _ H)|apply (lr_sorted _ _ _ H)|].
  apply (lr_only _ _ _ H).
Qed.

Lemma last_name p dk L0 k recs :
  log_rep p dk (L0 ++ [(k, recs)]) ->
  last (sorted_names dk) = Some (name_of k) /\ fileMap dk !! name_of k = Some (mkSeq k.1 k.2 0).
Proof.
  intros H. rewrite (log_rep_names _ _ _ H), !fmap_app, last_app. split; [done|].
  destruct (lr_files _ _ _ H k recs ltac:(set_solver)) as (f & Hf & _).
  rewrite fileMap_lookup, Hf, walfilename_name_of; [done|].
  pose proof (lr_keys _ _ _ H) as Hk. rewrite fmap_app in Hk.
  apply Forall_app in Hk as [_ Hk]. by inversion Hk.
Qed.

Lemma log_rep_reads d dk L0 k recs :
  log_rep (Z.to_nat (maxPageSize d)) dk (L0 ++ [(k, recs)]) ->
  reads (name_of k) (Z.to_nat (maxPageSize d)) recs (mkWorld d dk []).
Proof.
  intros H. split; [done|]. split; [done|]. apply (lr_files _ _ _ H). set_solver.
Qed.

(** Whatever [readWalFileInfo] does, [Initialize] reads the newest file first. *)
Lemma Initialize_reads d dk L0 k recs :
  log_rep (Z.to_nat (maxPageSize d)) dk (L0 ++ [(k, recs)]) ->
  Initialize (mkWorld d dk [])
  = (let* finfo := readWalFileInfo (name_of k) in
     let* _ := upd_wal (fun d =>
       with_term k.1 (with_pos k.2 (totalValidSeq finfo) d)) in
     let* _ := seekWalFileWritePoint (name_of k) in
     let* _ := upd_wal (fun d => with_syncers (S (syncers d)) d) in
     gets (fun w => curPosition (wal w))) (mkWorld d dk []).
Proof.
  intros H. destruct (last_name _ _ _ _ _ H) as [Hl Hm].
  unfold Initialize. rewrite (bind_ok _ _ _ _ _ (os_call_ok (mkWorld d dk []) eq_refl)).
  rewrite (bind_ok _ _ _ _ _ (os_call_ok (mkWorld d dk []) eq_refl)).
  unfold bind at 1. cbn [get disk]. rewrite Hl, Hm. done.
Qed.

Lemma repaired_cases recs :
  recs <> [] ->
  exists dat type, last recs = Some (dat, type)
    /\ ((type = EntryTypeMiddle /\ repaired recs = recs ++ [([], EntryTypeBrokenEnd)])
        \/ (type <> EntryTypeMiddle /\ repaired recs = recs)).
Proof.
  intros Hne. unfold repaired. destruct (last recs) as [[dat type]|] eqn:E.
  - exists dat, type. split; [done|].
    destruct (Z.eqb_spec type EntryTypeMiddle); [by left|by right].
  - by apply last_None in E.
Qed.

Lemma Initialize_ok d dk L0 k recs :
  wal_params d -> pageOccupied d = 0 ->
  log_rep (Z.to_nat (maxPageSize d)) dk (L0 ++ [(k, recs)]) ->
  recs <> [] -> Z.of_nat (length recs) + 1 < 2 ^ 31 ->
  let n := Z.of_nat (length (repaired recs)) in
  exists dk',
    Initialize (mkWorld d dk [])
    = (Ok (mkSeq k.1 k.2 n),
       mkWorld (mkWal k.1 k.2 n n (maxFileSize d) (maxPageSize d) (folder d)
                  (Some (mkHandle (name_of k) true)) (dirty d) (S (syncers d))) dk' [])
    /\ log_rep (Z.to_nat (maxPageSize d)) dk' (L0 ++ [(k, repaired recs)])
    /\ (repaired recs = recs -> dk' = dk).
Proof.
  intros Hpar HP0 Hrep Hne Hn n. pose proof Hpar as [Hp Hm].
  pose proof (log_rep_reads _ _ _ _ _ Hrep) as Hreads.
  rewrite (Initialize_reads _ _ _ _ _ Hrep).
  pose proof (readWalFileInfo_ok (name_of k) _ recs (mkWorld d dk []) Hpar eq_refl
    Hreads Hn) as Hinfo.
  destruct (repaired_cases recs Hne) as (dat & type & Hlast & Hcase).
  rewrite Hlast in Hinfo.
  set (dk' := if type =? EntryTypeMiddle
              then append_to (name_of k) (enc (Z.to_nat (maxPageSize d)) ([], EntryTypeBrokenEnd)) dk
              else dk).
  assert (Hinfo' : readWalFileInfo (name_of k) (mkWorld d dk [])
    = (Ok (mkInfo n n false), mkWorld d dk' [])).
  { rewrite Hinfo. subst dk' n. destruct Hcase as [[-> ->]|[Ht ->]].
    - rewrite Z.eqb_refl. rewrite length_app. cbn [wal disk length]. repeat f_equal; lia.
    - by apply Z.eqb_neq in Ht as ->. }
  assert (Hrep' : log_rep (Z.to_nat (maxPageSize d)) dk' (L0 ++ [(k, repaired recs)])).
  { subst dk'. destruct Hcase as [[-> ->]|[Ht ->]].
    - apply log_rep_append; [done|]. split_and!; cbn; lia || done.
    - by apply Z.eqb_neq in Ht as ->. }
  assert (Hn' : n < 2 ^ 31).
  { subst n. destruct Hcase as [[_ ->]|[_ ->]]; rewrite ?length_app; cbn; lia. }
  exists dk'. split; [|split; [done|]].
  - rewrite (bind_ok _ _ _ _ _ Hinfo'). unfold bind at 1. cbn [upd_wal modify].
    unfold bind at 1.
    rewrite (seek_ok (name_of k) (Z.to_nat (maxPageSize d)) (repaired recs)); cbn;
      rewrite ?HP0; [done|split; cbn; lia|done| |lia|lia].
    split; [done|]. split; [done|]. apply (lr_files _ _ _ Hrep'). set_solver.
  - intros E. subst dk'. destruct Hcase as [[-> Hx]|[Ht _]]; [|by apply Z.eqb_neq in Ht as ->].
    rewrite Hx in E. apply (f_equal length) in E. rewrite length_app in E. cbn in E. lia.
Qed.

Lemma last_split_recs fuel M first bs :
  (0 < fuel)%nat -> (0 < M)%nat -> (length bs <= fuel)%nat -> (0 < length bs)%nat ->
  exists dat, last (split_recs fuel M first bs) = Some (dat, EntryTypeEnd).
Proof.
  intros Hf HM. revert first bs. induction fuel as [|fuel IH]; intros first bs Hb H0; [lia|].
  cbn [split_recs]. destruct (Nat.leb_spec (length bs) M); [by eexists|].
  destruct (IH ltac:(lia) false (drop M bs)) as [dat E]; rewrite ?length_drop; try lia.
  exists dat. by rewrite last_cons, E.
Qed.

Lemma last_entry_recs M bs :
  (0 < M)%nat ->
  exists dat t, last (entry_recs M bs) = Some (dat, t)
    /\ (t = EntryTypeWhole \/ t = EntryTypeEnd).
Proof.
  intros HM. unfold entry_recs. destruct (Nat.leb_spec (length bs) M); [by eexists _, _; eauto|].
  destruct (last_split_recs (length bs) M true bs) as [dat E]; try lia. eauto.
Qed.

(** The last file of a log that was written to, with its last record. *)
Lemma written_last w w' L L' M bytes :
  wal_inv w' L' -> (0 < M)%nat -> grown w w' L L' (entry_recs M bytes) ->
  exists L0 k recs, L' = L0 ++ [(k, recs)] /\ recs <> []
    /\ curPosition (wal w') = mkSeq k.1 k.2 (Z.of_nat (length recs))
    /\ curFile (wal w') = Some (mkHandle (name_of k) true)
    /\ repaired recs = recs.
Proof.
  intros Hinv HM Hg. destruct (gr_open _ _ _ _ _ Hg (entry_recs_nonempty _ _)) as [Ho Hs].
  pose proof (wi_cur _ _ Hinv) as Hcur. destruct (curFile (wal w')) as [h|]; [|done].
  destruct Hcur as (L0 & recs & -> & -> & HS & HP).
  exists L0, (curTerm (wal w'), curCollection (wal w')), recs.
  assert (Hne : recs <> []) by (intros ->; cbn in HS; lia).
  split_and!; [done|done|unfold curPosition; by rewrite HS|done|].
  pose proof (gr_recs _ _ _ _ _ Hg) as Hr. rewrite all_recs_app, all_recs_one in Hr.
  destruct (last_entry_recs M bytes HM) as (dat & t & El & Ht).
  apply (f_equal last) in Hr. rewrite !last_app, El in Hr.
  unfold repaired. destruct (last recs) as [[dat' t']|] eqn:E.
  - simplify_eq. by destruct Ht as [-> | ->].
  - done.
Qed.

(** Opening a folder whose newest file needs no repair: [Initialize] finds the
    position of the writer. *)
Lemma Initialize_settled w1 L0 k (recs : list record) :
  wal_inv w1 (L0 ++ [(k, recs)]) -> recs <> [] -> repaired recs = recs ->
  exists w2, Initialize (mkWorld (reopened (wal w1)) (disk w1) []) = (Ok (curPosition (wal w1)), w2)
    /\ wal_inv w2 (L0 ++ [(k, recs)]) /\ disk w2 = disk w1 /\ faults w2 = []
    /\ curPosition (wal w2) = curPosition (wal w1) /\ syncers (wal w2) = 1%nat
    /\ reopened (wal w2) = reopened (wal w1).
Proof.
  intros Hinv1 Hne Hrep.
  assert (Hpos : curPosition (wal w1) = mkSeq k.1 k.2 (Z.of_nat (length recs))).
  { pose proof (wi_cur _ _ Hinv1) as Hcur. destruct (curFile (wal w1)).
    - destruct Hcur as (L1 & recs1 & E & _ & HS & _). apply app_inj_tail in E as [_ [= -> ->]].
      unfold curPosition. by rewrite HS.
    - destruct Hcur as [E _]. by destruct L0. }
  pose proof (wi_size _ _ Hinv1) as Hsz. pose proof (wi_params _ _ Hinv1) as [Hp1 Hm1].
  assert (Hlen : Z.of_nat (length recs) + 1 < 2 ^ 31).
  { apply Forall_app in Hsz as [_ Hsz]. inversion Hsz as [|? ? Hb _]. cbn in Hb. nia. }
  destruct (Initialize_ok (reopened (wal w1)) (disk w1) L0 k recs) as (dk' & Ei & Hr & Hdk);
    [by split|done|apply (wi_rep _ _ Hinv1)|done|done|].
  rewrite Hrep in Ei, Hr. rewrite (Hdk Hrep) in *.
  eexists. split; [rewrite Hpos; exact Ei|].
  split; [|cbn; by rewrite Hpos].
  split; cbn; [by split|done|done|]. exists L0, recs. by destruct k.
Qed.

(** Opening the folder a writer left. *)
Lemma Initialize_written w w1 L L' M bytes :
  wal_inv w1 L' -> (0 < M)%nat -> grown w w1 L L' (entry_recs M bytes) ->
  exists w2, Initialize (mkWorld (reopened (wal w1)) (disk w1) []) = (Ok (curPosition (wal w1)), w2)
    /\ wal_inv w2 L' /\ disk w2 = disk w1 /\ faults w2 = []
    /\ curPosition (wal w2) = curPosition (wal w1) /\ syncers (wal w2) = 1%nat
    /\ reopened (wal w2) = reopened (wal w1).
Proof.
  intros Hinv1 HM Hg.
  destruct (written_last _ _ _ _ M _ Hinv1 HM Hg) as (L0 & k & recs & -> & Hne & _ & _ & Hrep).
  by apply Initialize_settled.
Qed.

(** Opening a folder that holds no log files. *)
Lemma Initialize_none d dk :
  (forall n, fileMap dk !! n = None) ->
  Initialize (mkWorld d dk [])
  = (Ok (mkSeq 1 0 0), mkWorld (with_term 1 (with_pos 0 0 d)) dk []).
Proof.
  intros Hn.
  assert (sorted_names dk = []) as E.
  { unfold sorted_names. replace (fileMap dk) with (∅ : gmap string SequenceId);
      [by rewrite map_to_list_empty|]. apply map_eq. intros n. by rewrite Hn, lookup_empty. }
  unfold Initialize, os_call, next_fault. go_simpl. cbn. rewrite E. done.
Qed.

(** *** The life of a log *)

(** The newest file is one a new process can take over. *)
Record log_settled (d : DiskWal) (w : World) (L : log) : Prop := {
  ls_inv : wal_inv w L;
  ls_faults : faults w = [];
  ls_sizes : maxFileSize (wal w) = maxFileSize d /\ maxPageSize (wal w) = maxPageSize d;
  ls_last : forall L0 k recs, L = L0 ++ [(k, recs)] -> recs <> [] /\ repaired recs = recs;
}.

Lemma reopened_sizes d d' :
  reopened d = reopened d' -> maxFileSize d = maxFileSize d' /\ maxPageSize d = maxPageSize d'.
Proof. by intros [= ? ? ?]. Qed.

Lemma log_event_ok d w L ev :
  log_settled d w L -> curCollection (wal w) + event_cost ev < 2 ^ 63 ->
  exists seq w' L', log_event_run ev w = (Ok seq, w') /\ log_settled d w' L'
    /\ curCollection (wal w') <= curCollection (wal w) + event_cost ev.
Proof.
  intros [Hinv Hf [HF HP] Hlast] Hc. destruct ev as [bytes|]; cbn [event_cost log_event_run] in *.
  - destruct (WriteEntry_ok w L bytes Hinv Hf) as (w1 & L1 & E & Hinv1 & Hg & _); [lia|].
    exists (curPosition (wal w1)), w1, L1. split; [done|]. destruct (wi_params _ _ Hinv) as [Hp _].
    destruct (written_last _ _ _ _ (Z.to_nat (maxPageSize (wal w) - 8)) _ Hinv1 ltac:(lia) Hg)
      as (L0 & k & recs & -> & Hne & _ & _ & Hrep).
    pose proof (gr_coll _ _ _ _ _ Hg) as Hcc.
    pose proof (entry_recs_length (Z.to_nat (maxPageSize (wal w) - 8)) bytes) as Hl.
    split; [|lia]. split; [done|apply Hg| |by intros L0' k' recs' [_ [= <- <-]]%app_inj_tail].
    by rewrite (gr_fsize _ _ _ _ _ Hg), (gr_page _ _ _ _ _ Hg).
  - unfold reopen. rewrite Hf. destruct L as [|[k recs] L0 _] using rev_ind.
    + assert (Hn : forall n, fileMap (disk w) !! n = None).
      { intros n. destruct (fileMap (disk w) !! n) eqn:E; [|done]. exfalso.
        eapply (elem_of_nil n). apply (lr_only _ _ _ (wi_rep _ _ Hinv)). by eexists. }
      rewrite Initialize_none by done. destruct (wi_params _ _ Hinv) as [Hp Hm].
      eexists _, _, []. split; [reflexivity|]. pose proof (wi_cur _ _ Hinv) as Hcur.
      split; [|destruct (curFile (wal w)); [by destruct Hcur as ([] & ? & ? & _)|destruct Hcur as (_ & _ & HC0 & _); cbn; lia]].
      split; [apply wal_inv_fresh; by try split|done|by split|by intros [] ? ?].
    + destruct (Hlast L0 k recs eq_refl) as [Hne Hrep].
      destruct (Initialize_settled w L0 k recs Hinv Hne Hrep)
        as (w2 & E & Hi2 & _ & Hf2 & Hpos & _ & Hre).
      eexists _, w2, (L0 ++ [(k, recs)]). split; [exact E|].
      unfold curPosition in Hpos. injection Hpos as _ -> _. split; [|lia].
      apply reopened_sizes in Hre as [HF2 HP2]. split; [done|done|by rewrite HF2, HP2|done].
Qed.

Lemma log_run_ok d evs w L :
  log_settled d w L -> curCollection (wal w) + run_cost evs < 2 ^ 63 ->
  exists w' L', log_run evs w = (Ok tt, w') /\ log_settled d w' L'.
Proof.
  revert w L. induction evs as [|ev evs IH]; intros w L Hs Hc; [by exists w, L|].
  assert (Hn : 0 <= run_cost evs).
  { clear. unfold run_cost. induction evs as [|ev evs IH]; cbn [foldr]; [lia|]. destruct ev; cbn [event_cost]; lia. }
  change (run_cost (ev :: evs)) with (event_cost ev + run_cost evs) in Hc.
  destruct (log_event_ok d w L ev Hs) as (seq & w1 & L1 & E & Hs1 & Hc1); [lia|].
  destruct (IH w1 L1 Hs1) as (w2 & L2 & E2 & Hs2); [lia|].
  exists w2, L2. split; [|done]. cbn [log_run]. by rewrite (bind_ok _ _ _ _ _ E).
Qed.

(** ** Properties *)

(** C35. Size bound over the life of a log: from a new log over a folder without
    log files, any sequence of writes and of processes that open the folder
    again runs without failing, as long as the operating system does not fail,
    and then no log file is larger than [maxFileSize] and every log file is a
    whole number of pages.  (A write that fails half-way breaks the second
    bound, [failed_write_corrupts]; a process that stops inside a write of
    several pages breaks the first, [repair_exceeds_size].) *)
Theorem log_run_bounded d dk evs :
  wal_params d -> d = reopened d -> (forall n, fileMap dk !! n = None) ->
  run_cost evs < 2 ^ 63 ->
  exists w', log_run evs (mkWorld d dk []) = (Ok tt, w') /\ files_bounded d (disk w').
Proof.
  intros Hp Hd Hn Hc.
  assert (Hs : log_settled d (mkWorld d dk []) []).
  { split; [rewrite Hd; destruct Hp; apply wal_inv_fresh; by try split|done..|by intros [] ? ?]. }
  destruct (log_run_ok d evs _ [] Hs) as (w' & L' & E & [Hinv _ [HF HP] _]); [rewrite Hd; cbn; lia|].
  exists w'. split; [done|]. apply wal_inv_bounded in Hinv. unfold files_bounded in *. by rewrite <-HF, <-HP.
Qed.

Lemma log_run_bounded_witness :
  exists w', log_run [Reopen; Write (bytes_of "a long entry of 3 pages"); Reopen; Write (bytes_of "x")]
      (mkWorld (NewDiskWal "wal") {[ "notes.txt" := mkFile [] 0 ]} []) = (Ok tt, w')
    /\ files_bounded (NewDiskWal "wal") (disk w').
Proof.
  apply log_run_bounded; [by split|done| |done].
  intros n. rewrite fileMap_lookup. destruct (decide (n = "notes.txt"%string)) as [->|Hn].
  - by rewrite lookup_singleton_eq.
  - by rewrite lookup_singleton_ne.
Defined.

(** C17. Recovery: after a successful write, a new process that opens the folder
    with [Initialize] finds the position the writer had returned, leaves the
    folder as it is and satisfies the log invariant for the same log. *)
Theorem Initialize_recovers w L bytes w' seq :
  wal_inv w L -> faults w = [] ->
  curCollection (wal w) + Z.of_nat (length bytes) + 1 < 2 ^ 63 ->
  WriteEntry bytes w = (Ok seq, w') ->
  exists w2 L',
    Initialize (mkWorld (reopened (wal w')) (disk w') []) = (Ok seq, w2)
    /\ wal_inv w' L' /\ wal_inv w2 L'
    /\ disk w2 = disk w' /\ curPosition (wal w2) = seq /\ syncers (wal w2) = 1%nat.
Proof.
  intros Hinv Hf Hc E. destruct (WriteEntry_ok w L bytes Hinv Hf Hc)
    as (w1 & L' & E1 & Hinv1 & Hg & _).
  rewrite E in E1. injection E1 as -> ->. destruct (wi_params _ _ Hinv) as [Hp _].
  destruct (Initialize_written _ _ _ _ (Z.to_nat (maxPageSize (wal w) - 8)) _ Hinv1 ltac:(lia) Hg) as (w2 & Ei & Hi2 & Hd & _ & H).
  exists w2, L'. by split_and!; try apply H.
Qed.

Lemma Initialize_recovers_witness :
  let w' := (WriteEntry (bytes_of "a long entry of 3 pages") tiny_world).2 in
  exists w2 L',
    Initialize (mkWorld (reopened (wal w')) (disk w') []) = (Ok (mkSeq 1 2 1), w2)
    /\ wal_inv w' L' /\ wal_inv w2 L'
    /\ disk w2 = disk w' /\ curPosition (wal w2) = mkSeq 1 2 1 /\ syncers (wal w2) = 1%nat.
Proof.
  apply (Initialize_recovers tiny_world [] (bytes_of "a long entry of 3 pages"));
    [apply tiny_world_inv|done|done|].
  vm_compute. reflexivity.
Defined.

(** Repair: when the last record of the newest file is a [Middle], its
    entry is closed with one [BrokenEnd] page and the position counts it. *)
Theorem Initialize_repairs_middle d dk L0 k recs dat :
  wal_params d -> pageOccupied d = 0 ->
  log_rep (Z.to_nat (maxPageSize d)) dk (L0 ++ [(k, recs ++ [(dat, EntryTypeMiddle)])]) ->
  Z.of_nat (length recs) + 2 < 2 ^ 31 ->
  exists w',
    Initialize (mkWorld d dk []) = (Ok (mkSeq k.1 k.2 (Z.of_nat (length recs) + 2)), w')
    /\ log_rep (Z.to_nat (maxPageSize d)) (disk w')
         (L0 ++ [(k, recs ++ [(dat, EntryTypeMiddle); ([], EntryTypeBrokenEnd)])]).
Proof.
  intros Hpar HP0 Hrep Hn.
  destruct (Initialize_ok d dk L0 k (recs ++ [(dat, EntryTypeMiddle)])) as (dk' & E & Hr & _);
    [done|done|done|by destruct recs|rewrite length_app; cbn; lia|].
  assert (Hre : repaired (recs ++ [(dat, EntryTypeMiddle)])
    = recs ++ [(dat, EntryTypeMiddle); ([], EntryTypeBrokenEnd)]).
  { unfold repaired. rewrite last_snoc. cbn. by rewrite <-app_assoc. }
  rewrite Hre in *.
  replace (Z.of_nat (length recs) + 2) with
    (Z.of_nat (length (recs ++ [(dat, EntryTypeMiddle); ([], EntryTypeBrokenEnd)])))
    by (rewrite length_app; cbn [length]; lia).
  eexists. split; [exact E|exact Hr].
Qed.

(** A folder with one log file. *)
Lemma log_rep_single p k recs f :
  key_ok k -> holds p f recs -> log_rep p {[name_of k := f]} [(k, recs)].
Proof.
  intros Hk Hh. split; cbn.
  - by constructor.
  - repeat constructor.
  - intros k' recs' Hin%list_elem_of_singleton. simplify_eq. exists f.
    by rewrite lookup_singleton_eq.
  - intros n. rewrite fileMap_lookup, list_elem_of_singleton. split.
    + intros [s Hs]. destruct (decide (name_of k = n)) as [->|Hn]; [done|].
      by rewrite lookup_singleton_ne in Hs.
    + intros ->. by rewrite lookup_singleton_eq, walfilename_name_of.
Qed.

(** The folder whose only log file, (1, 1), holds the given records. *)
Definition tiny_disk (recs : list record) : gmap string File :=
  {[filename 1 1 0 := mkFile (concat (enc 16 <$> recs)) 0]}.

Lemma tiny_disk_rep recs :
  Forall (rec_ok 16) recs -> log_rep (Z.to_nat (maxPageSize (tiny_wal None))) (tiny_disk recs) [((1, 1), recs)].
Proof. intros H. by apply (log_rep_single 16 (1, 1)). Qed.

Ltac tiny_recs := repeat constructor; vm_compute; lia || done.

Lemma Initialize_repairs_middle_witness :
  exists w',
    Initialize (mkWorld (tiny_wal None)
      (tiny_disk ([(bytes_of "12345678", EntryTypeStart)] ++ [(bytes_of "12345678", EntryTypeMiddle)]))
      []) = (Ok (mkSeq 1 1 3), w')
    /\ log_rep 16 (disk w')
         ([] ++ [((1, 1), [(bytes_of "12345678", EntryTypeStart)]
              ++ [(bytes_of "12345678", EntryTypeMiddle); ([], EntryTypeBrokenEnd)])]).
Proof.
  apply (Initialize_repairs_middle (tiny_wal None)
    (tiny_disk ([(bytes_of "12345678", EntryTypeStart)] ++ [(bytes_of "12345678", EntryTypeMiddle)]))
    [] (1, 1) [(bytes_of "12345678", EntryTypeStart)] (bytes_of "12345678"));
    [done|done|apply tiny_disk_rep; tiny_recs|done].
Defined.

(** An entry torn after its first page is not repaired: when the last
    record of the newest file is a [Start], [Initialize] leaves the folder
    unchanged, so the next entry follows an open one. *)
Theorem Initialize_keeps_open_start d dk L0 k recs dat :
  wal_params d -> pageOccupied d = 0 ->
  log_rep (Z.to_nat (maxPageSize d)) dk (L0 ++ [(k, recs ++ [(dat, EntryTypeStart)])]) ->
  Z.of_nat (length recs) + 2 < 2 ^ 31 ->
  exists w',
    Initialize (mkWorld d dk []) = (Ok (mkSeq k.1 k.2 (Z.of_nat (length recs) + 1)), w')
    /\ disk w' = dk.
Proof.
  intros Hpar HP0 Hrep Hn.
  destruct (Initialize_ok d dk L0 k (recs ++ [(dat, EntryTypeStart)])) as (dk' & E & _ & Hdk);
    [done|done|done|by destruct recs|rewrite length_app; cbn; lia|].
  assert (Hre : repaired (recs ++ [(dat, EntryTypeStart)]) = recs ++ [(dat, EntryTypeStart)]).
  { unfold repaired. by rewrite last_snoc. }
  rewrite (Hdk Hre), Hre in E.
  replace (Z.of_nat (length recs) + 1) with (Z.of_nat (length (recs ++ [(dat, EntryTypeStart)])))
    by (rewrite length_app; cbn [length]; lia).
  by eexists.
Qed.

Lemma Initialize_keeps_open_start_witness :
  exists w',
    Initialize (mkWorld (tiny_wal None) (tiny_disk ([] ++ [(bytes_of "12345678", EntryTypeStart)])) [])
    = (Ok (mkSeq 1 1 1), w')
    /\ disk w' = tiny_disk ([] ++ [(bytes_of "12345678", EntryTypeStart)]).
Proof.
  apply (Initialize_keeps_open_start (tiny_wal None)
    (tiny_disk ([] ++ [(bytes_of "12345678", EntryTypeStart)])) [] (1, 1) [] (bytes_of "12345678"));
    [done|done|apply tiny_disk_rep; tiny_recs|done].
Defined.

(** An empty newest file, which [guaranteePage] leaves behind when the
    process stops between creating a file and writing its first page, makes
    [Initialize] panic: the test for an empty file looks at the length of the
    read buffer, which is never zero. *)
Theorem Initialize_empty_file_panics d dk L0 k :
  wal_params d ->
  log_rep (Z.to_nat (maxPageSize d)) dk (L0 ++ [(k, [])]) ->
  Initialize (mkWorld d dk []) = (Panic "index out of range", mkWorld d dk []).
Proof.
  intros Hpar Hrep. rewrite (Initialize_reads _ _ _ _ _ Hrep).
  apply bind_panic.
  by rewrite (readWalFileInfo_ok (name_of k) _ [] (mkWorld d dk []) Hpar eq_refl
    (log_rep_reads _ _ _ _ _ Hrep)).
Qed.

Lemma Initialize_empty_file_panics_witness :
  Initialize (mkWorld (tiny_wal None) (tiny_disk []) [])
  = (Panic "index out of range", mkWorld (tiny_wal None) (tiny_disk []) []).
Proof.
  apply (Initialize_empty_file_panics (tiny_wal None) (tiny_disk []) [] (1, 1));
    [done|apply tiny_disk_rep; tiny_recs].
Defined.

(** The state the panic needs is one [WriteEntry] away: a fault on the first
    write of a fresh log. *)
Example empty_file_reachable :
  disk (WriteEntry (bytes_of "x")
    (mkWorld (tiny_wal None) ∅ [None; Some (mkFault "no space left on device" 0)])).2
  = tiny_disk [].
Proof. vm_compute. reflexivity. Qed.

(** A folder without log files: [Initialize] reports position (1, 0, 0)
    and, unlike on the other path, starts no background sync. *)
Theorem Initialize_fresh d dk :
  (forall n, fileMap dk !! n = None) ->
  exists w', Initialize (mkWorld d dk []) = (Ok (mkSeq 1 0 0), w')
    /\ disk w' = dk /\ syncers (wal w') = syncers d.
Proof.
  intros Hn. rewrite Initialize_none by done. by eexists.
Qed.

Lemma Initialize_fresh_witness :
  exists w', Initialize (mkWorld (NewDiskWal "wal") {[ "notes.txt" := mkFile [] 0 ]} [])
    = (Ok (mkSeq 1 0 0), w')
    /\ disk w' = {[ "notes.txt" := mkFile [] 0 ]} /\ syncers (wal w') = 0%nat.
Proof.
  apply (Initialize_fresh (NewDiskWal "wal") {[ "notes.txt" := mkFile [] 0 ]}).
  intros n. rewrite fileMap_lookup. destruct (decide (n = "notes.txt"%string)) as [->|Hn].
  - by rewrite lookup_singleton_eq.
  - by rewrite lookup_singleton_ne.
Defined.

(** The page loop when reading ends with an error other than [io.EOF]. *)
Lemma page_loop_fails {S A} (rd : nat -> M S (list byte)) (body : list byte -> A -> M S A)
    (pgs : list (list byte)) (e : error) s0 :
  e <> EOF ->
  (forall k pg, pgs !! k = Some pg -> rd k s0 = (Ok pg, s0)) ->
  rd (length pgs) s0 = (Fail e, s0) ->
  (forall pg acc, pg ∈ pgs -> exists acc', body pg acc s0 = (Ok acc', s0)) ->
  forall fuel k acc, (k <= length pgs)%nat -> (length pgs - k < fuel)%nat ->
  page_loop rd body fuel k acc s0 = (Fail e, s0).
Proof.
  intros He Hrd Hend Hbody. induction fuel as [|fuel IH]; intros k acc Hk Hf; [lia|].
  cbn [page_loop]. destruct (pgs !! k) as [pg|] eqn:E.
  - rewrite (bind_ok _ _ _ _ _ (catch_ok _ _ _ _ (Hrd k pg E))).
    destruct (Hbody pg acc) as [acc' Hb]; [by eapply list_elem_of_lookup_2|].
    rewrite (bind_ok _ _ _ _ _ Hb). apply lookup_lt_Some in E. apply IH; lia.
  - apply lookup_ge_None in E. assert (k = length pgs) as -> by lia.
    rewrite (bind_ok _ _ _ _ _ (catch_fail _ _ _ _ Hend)).
    by rewrite decide_False.
Qed.

(** A torn page is refused: when the newest file ends with an incomplete
    page, as a failed or interrupted write leaves it, [Initialize] returns
    [io.ErrUnexpectedEOF] and the folder is unchanged. *)
Theorem Initialize_torn_page d dk name f recs rest :
  wal_params d ->
  last (sorted_names dk) = Some name -> dk !! name = Some f ->
  content f = concat (enc (Z.to_nat (maxPageSize d)) <$> recs) ++ rest ->
  Forall (rec_ok (Z.to_nat (maxPageSize d))) recs ->
  (0 < length rest < Z.to_nat (maxPageSize d))%nat ->
  Initialize (mkWorld d dk []) = (Fail ErrUnexpectedEOF, mkWorld d dk []).
Proof.
  intros [Hp Hm] Hl Hd Hc Hok Hr. set (p := Z.to_nat (maxPageSize d)) in *.
  unfold Initialize. rewrite (bind_ok _ _ _ _ _ (os_call_ok (mkWorld d dk []) eq_refl)).
  rewrite (bind_ok _ _ _ _ _ (os_call_ok (mkWorld d dk []) eq_refl)).
  unfold bind at 1. cbn [get disk]. rewrite Hl. apply bind_fail.
  unfold readWalFileInfo. unfold bind at 1. cbn [get].
  rewrite (bind_ok _ _ _ _ _ (OpenFile_exists _ (mkWorld d dk []) _ eq_refl Hd)).
  unfold bind at 1. cbn [get]. apply bind_fail.
  pose proof (enc_pages _ _ Hok) as Hpages.
  apply (page_loop_fails _ _ (enc p <$> recs)); [done|..].
  - intros k pg Hk. unfold read_page, os_call, next_fault. go_simpl. cbn. rewrite Hd, Hc. fold p.
    rewrite <-(take_drop_middle _ _ _ Hk) in Hpages |- *.
    assert (length (take k (enc p <$> recs)) = k) as Hlk.
    { rewrite length_take. apply lookup_lt_Some in Hk. lia. }
    rewrite <-Hlk at 1. by rewrite ReadFull_page_app by (done || lia).
  - unfold read_page, os_call, next_fault. go_simpl. cbn. rewrite Hd, Hc. fold p.
    by rewrite ReadFull_torn.
  - intros pg acc (r & -> & Hin)%list_elem_of_fmap. rewrite Forall_forall in Hok.
    unfold info_page, bind, lift, ret. rewrite pageRecordsInfo_enc by by apply Hok. by eexists.
  - lia.
  - unfold file_fuel. cbn [disk]. rewrite Hd, Hc, length_app.
    rewrite length_concat_pages with (p := p) by done. nia.
Qed.

Lemma Initialize_torn_page_witness :
  let dk := {[ filename 1 1 0
    := mkFile (concat (enc 16 <$> [(bytes_of "x", EntryTypeWhole)]) ++ bytes_of "torn") 0 ]} in
  Initialize (mkWorld (tiny_wal None) dk []) = (Fail ErrUnexpectedEOF, mkWorld (tiny_wal None) dk []).
Proof.
  apply (Initialize_torn_page (tiny_wal None) _ (filename 1 1 0)
    (mkFile (concat (enc 16 <$> [(bytes_of "x", EntryTypeWhole)]) ++ bytes_of "torn") 0)
    [(bytes_of "x", EntryTypeWhole)] (bytes_of "torn"));
    [done|vm_compute; done|by rewrite lookup_singleton_eq|done|tiny_recs|vm_compute; lia].
Defined.

(** A failed write corrupts the ones that follow it: the next entry is
    acknowledged, yet the folder can no longer be opened. *)
Example failed_write_corrupts :
  let w1 := (catch (WriteEntry (bytes_of "lost"))
    (mkWorld (tiny_wal None) ∅ [None; Some (mkFault "interrupted" 5)])).2 in
  let '(r, w2) := WriteEntry (bytes_of "kept") w1 in
  r = Ok (mkSeq 1 1 1)
  /\ (Initialize (mkWorld (reopened (wal w2)) (disk w2) [])).1
     = Fail (NewError "page crc32 mismatch").
Proof. vm_compute. done. Qed.

(** The repair of [Initialize] does not ask for room: when the process stops
    after the second page of an entry and that page fills the file, the page it
    appends makes the file larger than [maxFileSize]. *)
Example repair_exceeds_size :
  let w1 := (let* _ := guaranteePage 1 in let* _ := writeDataPage (bytes_of "a long e") EntryTypeStart in
             let* _ := guaranteePage 1 in writeDataPage (bytes_of "ntry of ") EntryTypeMiddle) tiny_world in
  let '(r, w2) := reopen w1.2 in
  w1.1 = Ok tt /\ r = Ok (mkSeq 1 1 3)
  /\ (length ∘ content <$> disk w2 !! filename 1 1 0) = Some 48%nat /\ maxFileSize (wal w2) = 32.
Proof. vm_compute. done. Qed.
