(* ===== verification/WalReplay.v ===== *)
(** * Replaying the log: [ReplayIncomplete]

    Which records reach the callback, in which order, for every starting
    position. *)

From stdpp Require Import base list gmap strings sorting.
From Stdlib Require Import ZArith Lia.
From S2P Require Import Prelude GoStr Bytes SequenceId WalPage Wal WalNames WalLog WalOpen.
Local Open Scope Z_scope.
Local Open Scope go_scope.

(** ** Specification *)

(** Call [fn] on each datum, stopping at the first error. *)
Fixpoint feed {R} (fn : list byte -> M R unit) (ds : list (list byte)) : M R unit :=
  match ds with
  | [] => ret tt
  | d :: ds => let* _ := fn d in feed fn ds
  end.

(** The files from the last one whose key is not above the position. *)
Definition replay_from (from : SequenceId) (L : log) : log :=
  drop (count_le (Term from, Collection from) L.*1 - 1) L.

(** Writing a list of entries, and the data of their records. *)
Fixpoint write_all (bs : list (list byte)) : M World unit :=
  match bs with
  | [] => ret tt
  | b :: bs => let* _ := WriteEntry b in write_all bs
  end.

Definition fragments (M : nat) (bs : list (list byte)) : list (list byte) :=
  concat ((fun b => (entry_recs M b).*1) <$> bs).

(** ** Lemmas *)

Section Replay.
Context {R : Type} (fn : list byte -> M R unit).

Lemma feed_app ds1 ds2 r :
  feed fn (ds1 ++ ds2) r = (let* _ := feed fn ds1 in feed fn ds2) r.
Proof.
  revert r. induction ds1 as [|d ds1 IH]; intros r; [done|].
  cbn [app feed]. unfold bind at 1 3. unfold bind at 1.
  destruct (fn d r) as [[a|e|msg|] r']; [apply IH|done..].
Qed.

Lemma deliver_feed recs w r :
  deliver fn recs (w, r) = on_snd (feed fn recs.*1) (w, r).
Proof.
  revert r. induction recs as [|[dat t] recs IH]; intros r; [done|].
  cbn [deliver fmap list_fmap fst feed]. unfold bind at 1, on_snd at 1. cbn [snd fst].
  unfold on_snd, bind. cbn [snd fst].
  destruct (fn dat r) as [[a|e|msg|] r']; [|done..].
  rewrite IH. unfold on_snd. cbn. done.
Qed.

Lemma fold_replay_pages p recs w r :
  Forall (rec_ok p) recs ->
  fold_pages (replay_page fn) (enc p <$> recs) tt (w, r) = on_snd (feed fn recs.*1) (w, r).
Proof.
  intros Hok. revert r. induction Hok as [|[dat t] recs Hr Hok IH]; intros r; [done|].
  cbn [fmap list_fmap fold_pages fst feed].
  assert (E : replay_page fn (enc p (dat, t)) tt (w, r) = on_snd (fn dat) (w, r)).
  { unfold replay_page, bind, lift. rewrite pageRecordsInfo_enc by done.
    cbn [deliver]. unfold bind, on_snd, ret. cbn. by destruct (fn dat r) as [[[]|e|msg|] r']. }
  unfold bind at 1. rewrite E. unfold on_snd, bind. cbn [snd fst].
  destruct (fn dat r) as [[[]|e|msg|] r']; [apply IH|done..].
Qed.

Lemma replayFile_ok name p recs w r :
  (0 < p)%nat -> reads name p recs w ->
  replayFile fn name (w, r) = on_snd (feed fn recs.*1) (w, r).
Proof.
  intros Hp Hr. pose proof Hr as (Hf & Hm & f & Hd & Hc & Hok).
  unfold replayFile. unfold bind at 1, on_fst at 1. cbn [fst snd].
  rewrite (OpenFile_exists _ _ _ Hf Hd). unfold bind at 1. cbn [get fst].
  erewrite (page_loop_pages _ _ (enc p <$> recs) (fun st => st.1 = w));
    [|..|done|lia|rewrite Nat.sub_0_r; by apply file_fuel_enough].
  - rewrite drop_0. by apply fold_replay_pages.
  - intros [w' r'] k pg [= ->] Hk. unfold on_fst. cbn [fst snd]. by erewrite read_page_some.
  - intros [w' r'] [= ->]. unfold on_fst. cbn [fst snd]. by erewrite read_page_end.
  - intros pg [] (rc & -> & Hin)%list_elem_of_fmap [w' r'] [= ->]. rewrite Forall_forall in Hok.
    unfold replay_page, bind, lift. rewrite pageRecordsInfo_enc by by apply Hok.
    rewrite deliver_feed. unfold on_snd. cbn [fst snd].
    match goal with |- context [feed fn ?l r'] => by destruct (feed fn l r') end.
Qed.

Lemma replay_files_ok p (L : log) w r :
  (0 < p)%nat -> (forall k recs, (k, recs) ∈ L -> reads (name_of k) p recs w) ->
  replay_files fn (name_of <$> L.*1) (w, r) = on_snd (feed fn (all_recs L).*1) (w, r).
Proof.
  intros Hp. revert r. induction L as [|[k recs] L IH]; intros r HL; [done|].
  cbn [fmap list_fmap fst replay_files].
  assert (Hk : reads (name_of k) p recs w) by (apply HL; set_solver).
  unfold bind at 1. rewrite (replayFile_ok _ _ _ _ _ Hp Hk).
  change (all_recs ((k, recs) :: L)) with (recs ++ all_recs L).
  rewrite fmap_app. unfold on_snd at 1 2. cbn [snd fst]. rewrite feed_app. unfold bind.
  destruct (feed fn recs.*1 r) as [[[]|e|msg|] r'] eqn:E; try done.
  rewrite IH; [done|]. intros k' recs' Hin. apply HL. set_solver.
Qed.

Lemma ReplayIncomplete_newer from w r :
  curPosition (wal w) <> from -> curPosition (wal w) <> mkSeq 1 0 0 ->
  seq_lt (curPosition (wal w)) from ->
  ReplayIncomplete fn from (w, r) =
    (Fail (NewError ("replay incomplete failed - request newer wal than history:"
                       +:+ Sprint from)), (w, r)).
Proof.
  intros Hne Hn0 Hlt%Compare_gt. unfold ReplayIncomplete. unfold bind at 1. cbn [get fst].
  match goal with |- (if ?c then _ else _) _ = _ => assert (c = false) as -> end.
  { destruct from. apply not_true_is_false. intros H.
    apply Hne. unfold curPosition. cbn in H. f_equal; lia. }
  match goal with |- (if ?c then _ else _) _ = _ => assert (c = false) as -> end.
  { apply not_true_is_false. intros H. apply Hn0. unfold curPosition. f_equal; lia. }
  by match goal with |- (if ?c then _ else _) _ = _ => assert (c = true) as -> by lia end.
Qed.

(** A log without files answers every position but its own alike. *)
Lemma ReplayIncomplete_no_wal from w r :
  from <> curPosition (wal w) -> curPosition (wal w) = mkSeq 1 0 0 ->
  ReplayIncomplete fn from (w, r) = (Ok StartWalSequence, (w, r)).
Proof.
  intros Hne Hpos. unfold ReplayIncomplete. unfold bind at 1. cbn [get fst].
  match goal with |- (if ?c then _ else _) _ = _ => assert (c = false) as -> end.
  { destruct from. apply not_true_is_false. intros H.
    apply Hne. unfold curPosition. cbn in H. f_equal; lia. }
  unfold curPosition in Hpos. injection Hpos as -> -> ->. reflexivity.
Qed.

(** The replay proper, once the early returns are ruled out. *)
Lemma ReplayIncomplete_files p L from w r :
  (0 < p)%nat -> p = Z.to_nat (maxPageSize (wal w)) -> faults w = [] ->
  log_rep p (disk w) L -> key_int64 (Term from, Collection from) ->
  curPosition (wal w) <> from -> curPosition (wal w) <> mkSeq 1 0 0 ->
  ~ seq_lt (curPosition (wal w)) from ->
  ReplayIncomplete fn from (w, r) =
    if decide (count_le (Term from, Collection from) L.*1 = 0%nat)
    then (Fail (NewError
            ("replay incomplete failed - insufficient wal history, require:" +:+ Sprint from)), (w, r))
    else (let* _ := on_snd (feed fn (all_recs (replay_from from L)).*1) in
          ret (curPosition (wal w))) (w, r).
Proof.
  intros Hp Hpe Hf Hrep Hk Hne Hn0 Hle. unfold ReplayIncomplete. unfold bind at 1. cbn [get fst].
  match goal with |- (if ?c then _ else _) _ = _ => assert (c = false) as -> end.
  { destruct from. apply not_true_is_false. intros H.
    apply Hne. unfold curPosition. cbn in H. f_equal; lia. }
  match goal with |- (if ?c then _ else _) _ = _ => assert (c = false) as -> end.
  { apply not_true_is_false. intros H. apply Hn0. unfold curPosition. f_equal; lia. }
  match goal with |- (if ?c then _ else _) _ = _ => assert (c = false) as -> end.
  { apply not_true_is_false. intros H. apply Hle, Compare_gt. lia. }
  assert (E : on_fst listWalFiles (w, r) = (Ok (name_of <$> L.*1), (w, r))).
  { unfold on_fst, listWalFiles. cbn [fst snd].
    rewrite (bind_ok _ _ _ _ _ (os_call_ok w Hf)). unfold gets.
    by rewrite (log_rep_names _ _ _ Hrep). }
  rewrite (bind_ok _ _ _ _ _ E).
  change (filename (Term from) (Collection from) (Seq from))
    with (name_of (Term from, Collection from)).
  rewrite find_index_count; [|done|apply (lr_keys _ _ _ Hrep)|apply (lr_sorted _ _ _ Hrep)].
  set (n := count_le (Term from, Collection from) L.*1).
  case_decide as Hn.
  - rewrite Hn. done.
  - assert ((-1 + Z.of_nat n =? -1) = false) as -> by lia.
    replace (Z.to_nat (-1 + Z.of_nat n)) with (n - 1)%nat by lia.
    rewrite <-fmap_drop, <-fmap_drop. unfold bind at 1.
    rewrite (replay_files_ok p) with (w := w); [|done|].
    + unfold replay_from. fold n. unfold bind. unfold on_snd. cbn [fst snd].
      by destruct (feed fn (all_recs (drop (n - 1) L)).*1 r) as [[[]|e|msg|] r'].
    + intros k recs Hin. split; [done|]. split; [by subst|]. apply (lr_files _ _ _ Hrep).
      rewrite <-(take_drop (n - 1) L). apply elem_of_app. by right.
Qed.
End Replay.

Lemma write_all_ok bs w L :
  wal_inv w L -> faults w = [] ->
  curCollection (wal w) + Z.of_nat (length (concat bs)) + 2 * Z.of_nat (length bs) < 2 ^ 63 ->
  bs <> [] ->
  exists w' L' new,
    write_all bs w = (Ok tt, w') /\ wal_inv w' L' /\ grown w w' L L' new /\ new <> []
    /\ new.*1 = fragments (Z.to_nat (maxPageSize (wal w) - 8)) bs.
Proof.
  revert w L. induction bs as [|b bs IH]; intros w L Hinv Hf Hc Hne; [done|].
  cbn [concat length] in Hc. rewrite length_app in Hc.
  destruct (WriteEntry_ok w L b Hinv Hf) as (w1 & L1 & E & Hinv1 & Hg & _); [lia|].
  cbn [write_all]. rewrite (bind_ok _ _ _ _ _ E).
  pose proof (entry_recs_nonempty (Z.to_nat (maxPageSize (wal w) - 8)) b) as Hne1.
  unfold fragments. cbn [fmap list_fmap concat].
  destruct bs as [|b' bs].
  - exists w1, L1, (entry_recs (Z.to_nat (maxPageSize (wal w) - 8)) b).
    split_and!; try done. cbn. by rewrite app_nil_r.
  - pose proof (gr_coll _ _ _ _ _ Hg) as Hcc.
    pose proof (entry_recs_length (Z.to_nat (maxPageSize (wal w) - 8)) b) as Hel.
    destruct (IH w1 L1 Hinv1 (gr_faults _ _ _ _ _ Hg)) as (w2 & L2 & new & E2 & Hi2 & Hg2 & Hn2 & Hd2);
      [cbn [length] in *; lia|done|].
    rewrite (gr_page _ _ _ _ _ Hg) in Hd2.
    exists w2, L2, (entry_recs (Z.to_nat (maxPageSize (wal w) - 8)) b ++ new).
    split_and!; [done|done|by eapply grown_trans| |by rewrite fmap_app, Hd2].
    by destruct (entry_recs _ b).
Qed.

(** Replaying from the newest position of [L] covers the newest file of [L]
    and everything written later. *)
Lemma count_le_ext L0 k (recs : list record) L2 :
  StronglySorted key_lt (L0 ++ (k, recs) :: L2).*1 ->
  count_le k (L0 ++ (k, recs) :: L2).*1 = S (length L0).
Proof.
  intros Hs. rewrite fmap_app in *. cbn [fmap list_fmap fst] in *. unfold count_le.
  apply StronglySorted_app in Hs as (Hlt & Hs0 & Hs2).
  apply StronglySorted_inv in Hs2 as [_ Hgt]. rewrite filter_app, length_app.
  rewrite (filter_all _ L0.*1), length_fmap; [|apply Forall_forall; intros k' Hin;
    specialize (Hlt k' k Hin ltac:(set_solver)); unfold key_le, key_lt in *; lia].
  rewrite filter_cons_True by (unfold key_le; lia). cbn [length].
  rewrite filter_none; [cbn; lia|]. eapply Forall_impl; [exact Hgt|].
  intros k'. unfold key_le, key_lt. cbn. lia.
Qed.

Lemma replay_from_ext L0 k (recs : list record) L2 s :
  StronglySorted key_lt (L0 ++ (k, recs) :: L2).*1 ->
  replay_from (mkSeq k.1 k.2 s) (L0 ++ (k, recs) :: L2) = (k, recs) :: L2.
Proof.
  intros Hs. unfold replay_from. cbn [Term Collection].
  replace (k.1, k.2) with k by by destruct k.
  rewrite count_le_ext by done. cbn [Nat.sub]. rewrite Nat.sub_0_r. by rewrite drop_app_length.
Qed.

(** The side conditions of [ReplayIncomplete_files] hold once something was
    written. *)
Lemma wal_inv_position w L :
  wal_inv w L -> L <> [] ->
  curPosition (wal w) <> mkSeq 1 0 0 /\ key_ok (curTerm (wal w), curCollection (wal w)).
Proof.
  intros Hinv Hne. pose proof (wi_cur _ _ Hinv) as Hcur. destruct (curFile (wal w)) as [h|].
  - destruct Hcur as (L0 & recs & -> & _). pose proof (wal_inv_last_key _ _ _ _ _ Hinv) as Hk.
    split; [|done]. destruct Hk as [_ Hc]. unfold curPosition. cbn in Hc. intros [= _ Hz _]. lia.
  - by destruct Hcur as [-> _].
Qed.

Lemma wal_inv_empty w : wal_inv w [] -> curPosition (wal w) = mkSeq 1 0 0.
Proof.
  intros Hinv. pose proof (wi_cur _ _ Hinv) as Hcur. destruct (curFile (wal w)) as [h|].
  - destruct Hcur as ([|] & recs & ? & _); done.
  - destruct Hcur as (_ & H1 & H2 & H3 & _). unfold curPosition. by rewrite H1, H2, H3.
Qed.

(** What follows the newest file of the old log is what was written. *)
Lemma gr_suffix w w' L0 k recs recs' L2 new Lall :
  grown w w' (L0 ++ [(k, recs)]) Lall new -> Lall = L0 ++ (k, recs ++ recs') :: L2 ->
  (recs ++ recs') ++ all_recs L2 = recs ++ new.
Proof.
  intros Hg ->. pose proof (gr_recs _ _ _ _ _ Hg) as Hn.
  rewrite !all_recs_app, all_recs_one in Hn.
  change (all_recs ((k, recs ++ recs') :: L2)) with ((recs ++ recs') ++ all_recs L2) in Hn.
  rewrite <-!app_assoc in *. by apply app_inv_head in Hn.
Qed.

(** A replay from a position inside the log, older than the current one. *)
Lemma ReplayIncomplete_inside {R} (fn : list byte -> M R unit) r w L0 k (recs : list record) L2 s :
  wal_inv w (L0 ++ (k, recs) :: L2) -> faults w = [] ->
  seq_lt (mkSeq k.1 k.2 s) (curPosition (wal w)) ->
  ReplayIncomplete fn (mkSeq k.1 k.2 s) (w, r)
  = (let* _ := on_snd (feed fn (recs ++ all_recs L2).*1) in ret (curPosition (wal w))) (w, r).
Proof.
  intros Hinv Hf Hlt. destruct (wal_inv_position _ _ Hinv ltac:(by destruct L0)) as [Hp0 _].
  pose proof (lr_sorted _ _ _ (wi_rep _ _ Hinv)) as Hsort.
  assert (Hk : key_ok k).
  { pose proof (lr_keys _ _ _ (wi_rep _ _ Hinv)) as Hk. rewrite fmap_app in Hk.
    apply Forall_app in Hk as [_ Hk]. by inversion Hk. }
  rewrite (ReplayIncomplete_files fn (Z.to_nat (maxPageSize (wal w))) _ _ _ _
    ltac:(destruct (wi_params _ _ Hinv); lia) eq_refl Hf (wi_rep _ _ Hinv)); [|apply key_ok_int64; by destruct k| |done|].
  - rewrite replay_from_ext by done. cbn [Term Collection].
    replace (k.1, k.2) with k by by destruct k. rewrite count_le_ext by done.
    rewrite decide_False by done. done.
  - intros Heq. rewrite Heq in Hlt. by apply (irreflexivity seq_lt) in Hlt.
  - intros H. by apply (irreflexivity seq_lt (curPosition (wal w))); etrans.
Qed.

(** ** Properties *)

(** C29. The outcomes of a replay request, for every position of 64-bit integers
    and every log the invariant allows: the current position gets nothing and is
    told so; a log without files answers every other position with
    [StartWalSequence]; a position ahead of the log and a position older than the
    oldest file are refused without any call of the callback; every other
    position gets exactly the data of the records of the file that holds it - or
    of the last one before it - and of all later files, in order, until the
    callback first fails.  The log is never changed. *)
Theorem ReplayIncomplete_outcomes {R} (fn : list byte -> M R unit) w L from r :
  wal_inv w L -> faults w = [] -> key_int64 (Term from, Collection from) ->
  ReplayIncomplete fn from (w, r) =
    if decide (from = curPosition (wal w)) then (Ok from, (w, r))
    else match L with
    | [] => (Ok StartWalSequence, (w, r))
    | _ =>
      if decide (seq_lt (curPosition (wal w)) from) then
        (Fail (NewError ("replay incomplete failed - request newer wal than history:"
                           +:+ Sprint from)), (w, r))
      else if decide (count_le (Term from, Collection from) L.*1 = 0%nat) then
        (Fail (NewError ("replay incomplete failed - insufficient wal history, require:"
                           +:+ Sprint from)), (w, r))
      else (let* _ := on_snd (feed fn (all_recs (replay_from from L)).*1) in
            ret (curPosition (wal w))) (w, r)
    end.
Proof.
  intros Hinv Hf Hk. destruct (wi_params _ _ Hinv) as [Hp _].
  destruct (decide (from = curPosition (wal w))) as [->|Hcur].
  { unfold ReplayIncomplete, bind at 1, curPosition. cbn. by rewrite !Z.eqb_refl. }
  destruct L as [|kr L].
  { apply ReplayIncomplete_no_wal; [done|by eapply wal_inv_empty]. }
  destruct (wal_inv_position _ _ Hinv ltac:(done)) as [Hp0 _].
  destruct (decide (seq_lt (curPosition (wal w)) from)) as [Hlt|Hge].
  - by apply ReplayIncomplete_newer.
  - apply (ReplayIncomplete_files fn (Z.to_nat (maxPageSize (wal w)))); try done; try lia.
    apply (wi_rep _ _ Hinv).
Qed.

(** A log of one file with two records. *)
Definition two_recs : list record :=
  [(bytes_of "page one", EntryTypeWhole); (bytes_of "p2", EntryTypeWhole)].
Definition two_world : World :=
  mkWorld (mkWal 1 1 2 2 32 16 "wal" (Some (mkHandle (filename 1 1 0) true)) 0 0)
    (tiny_disk two_recs) [].

Lemma two_world_inv : wal_inv two_world [((1, 1), two_recs)].
Proof.
  split; cbn; [by split|apply tiny_disk_rep; tiny_recs|repeat constructor; cbn; lia|].
  by exists [], two_recs.
Qed.

Lemma ReplayIncomplete_outcomes_witness :
  ReplayIncomplete (fun d => modify (fun acc => acc ++ [d])) (mkSeq 1 1 1) (two_world, [])
  = (Ok (mkSeq 1 1 2), (two_world, [bytes_of "page one"; bytes_of "p2"])).
Proof.
  rewrite (ReplayIncomplete_outcomes _ two_world [((1, 1), two_recs)] (mkSeq 1 1 1) []);
    [vm_compute; reflexivity|apply two_world_inv|done|split; cbn; lia].
Defined.

(** C6. Catching up: after a write returned the position [from] and more entries
    were written, replaying from [from] delivers first the [Seq from] records of
    the file of [from] that were already known, then the data of every record
    written since, each once and in order, and nothing else. *)
Theorem ReplayIncomplete_catches_up {R} (fn : list byte -> M R unit) r w L b w1 from bs w2 :
  wal_inv w L -> faults w = [] ->
  curCollection (wal w) + Z.of_nat (length (concat (b :: bs)))
    + 2 * Z.of_nat (length (b :: bs)) < 2 ^ 63 ->
  WriteEntry b w = (Ok from, w1) -> write_all bs w1 = (Ok tt, w2) -> bs <> [] ->
  let M := Z.to_nat (maxPageSize (wal w) - 8) in
  exists older known,
    (all_recs L ++ entry_recs M b).*1 = older ++ known
    /\ Z.of_nat (length known) = Seq from
    /\ ReplayIncomplete fn from (w2, r)
       = (let* _ := on_snd (feed fn (known ++ fragments M bs)) in
          ret (curPosition (wal w2))) (w2, r).
Proof.
  intros Hinv Hf Hc E1 E2 Hne M. cbn [concat length] in Hc. rewrite length_app in Hc.
  destruct (wi_params _ _ Hinv) as [Hp _].
  destruct (WriteEntry_ok w L b Hinv Hf) as (w1' & L1 & E & Hinv1 & Hg & _); [lia|].
  rewrite E1 in E. injection E as -> <-.
  pose proof (gr_coll _ _ _ _ _ Hg) as Hcc. pose proof (entry_recs_length M b) as Hel.
  destruct (write_all_ok bs w1 L1 Hinv1 (gr_faults _ _ _ _ _ Hg))
    as (w2' & L2 & new & E & Hinv2 & Hg2 & Hn2 & Hd2); [unfold M in *; lia|done|].
  rewrite E2 in E. injection E as <-. rewrite (gr_page _ _ _ _ _ Hg) in Hd2.
  destruct (written_last _ _ _ _ M b Hinv1 ltac:(lia) Hg) as (L0 & k & recs & -> & Hr & Hpos & _).
  destruct (gr_ext _ _ _ _ _ Hg2 _ _ _ eq_refl) as (recs' & L3 & ->).
  exists (all_recs L0).*1, recs.*1. split_and!.
  - unfold M. by rewrite <-(gr_recs _ _ _ _ _ Hg), all_recs_app, all_recs_one, fmap_app.
  - by rewrite Hpos, length_fmap.
  - pose proof (gr_pos _ _ _ _ _ Hg2 Hn2) as Hlt. rewrite Hpos in *.
    rewrite (ReplayIncomplete_inside _ _ _ _ _ _ _ _ Hinv2 (gr_faults _ _ _ _ _ Hg2) Hlt).
    rewrite (gr_suffix _ _ _ _ _ _ _ _ _ Hg2 eq_refl). unfold M. by rewrite fmap_app, Hd2.
Qed.

Lemma ReplayIncomplete_catches_up_witness :
  let w1 := (WriteEntry (bytes_of "first") tiny_world).2 in
  let w2 := (write_all [bytes_of "second entry"; bytes_of "third"] w1).2 in
  exists older known,
    (all_recs [] ++ entry_recs 8 (bytes_of "first")).*1 = older ++ known
    /\ Z.of_nat (length known) = 1
    /\ ReplayIncomplete (fun d => modify (fun acc => acc ++ [d])) (mkSeq 1 1 1) (w2, [])
       = (let* _ := on_snd (feed (fun d => modify (fun acc => acc ++ [d]))
                              (known ++ fragments 8 [bytes_of "second entry"; bytes_of "third"])) in
          ret (curPosition (wal w2))) (w2, []).
Proof.
  destruct (ReplayIncomplete_catches_up (fun d => modify (fun acc => acc ++ [d])) []
    tiny_world [] (bytes_of "first") (WriteEntry (bytes_of "first") tiny_world).2 (mkSeq 1 1 1)
    [bytes_of "second entry"; bytes_of "third"]
    (write_all [bytes_of "second entry"; bytes_of "third"]
      (WriteEntry (bytes_of "first") tiny_world).2).2) as (older & known & H);
    [apply tiny_world_inv|done|done|vm_compute; reflexivity|vm_compute; reflexivity|done|].
  exists older, known. exact H.
Defined.

(** An entry of several pages reaches the callback as its fragments. *)
Example replay_splits_entries :
  let w1 := (WriteEntry (bytes_of "first") tiny_world).2 in
  let w2 := (WriteEntry (bytes_of "second entry") w1).2 in
  (ReplayIncomplete (fun d => modify (fun acc => acc ++ [string_of d])) (mkSeq 1 1 1) (w2, [])).2.2
  = ["first"; "second e"; "ntry"].
Proof. vm_compute. reflexivity. Qed.
