(* ===== verification/WalTerm.v ===== *)
(** * Termination of the log's operations

    Every loop of the log runs on fuel; whatever the operating system
    answers, whatever the files hold and whatever the callback returns, the
    fuel the model gives is never exhausted, so the outcome is the code's. *)

From stdpp Require Import base list gmap strings sorting.
From Stdlib Require Import ZArith Lia.
From S2P Require Import Prelude GoStr Bytes SequenceId WalPage Wal.
Local Open Scope Z_scope.
Local Open Scope go_scope.

(** ** Definitions of the specification *)

(** From a state in [I] the call does not run out of fuel, and whatever it
    returns it ends in [I]. *)
Definition halts {S A} (I : S -> Prop) (m : M S A) : Prop :=
  forall s, I s -> (m s).1 <> NoFuel /\ I (m s).2.

(** Pages that can hold at least one byte of data. *)
Definition paged (w : World) : Prop := 8 < maxPageSize (wal w) < 2 ^ 31.

(** ** Composition *)

Section Halts.
Context {S : Type} (I : S -> Prop).

Lemma halts_ret {A} (a : A) : halts I (ret a).
Proof. by intros s. Qed.
Lemma halts_fail {A} e : halts I (@fail S A e).
Proof. by intros s. Qed.
Lemma halts_panic {A} msg : halts I (@panic S A msg).
Proof. by intros s. Qed.
Lemma halts_get : halts I get.
Proof. by intros s. Qed.
Lemma halts_gets {A} (f : S -> A) : halts I (gets f).
Proof. by intros s. Qed.
Lemma halts_lift {A} (r : exec A) : r <> NoFuel -> halts I (lift r).
Proof. by intros Hr s. Qed.
Lemma halts_modify (f : S -> S) : (forall s, I s -> I (f s)) -> halts I (modify f).
Proof. intros Hf s Hs. split; [done|by apply Hf]. Qed.

Lemma halts_bind {A B} (m : M S A) (k : A -> M S B) :
  halts I m -> (forall a, halts I (k a)) -> halts I (bind m k).
Proof.
  intros Hm Hk s Hs. unfold bind. destruct (Hm s Hs) as [Hn Hi].
  destruct (m s) as [[a|e|msg|] s']; cbn [fst snd] in *; try done. by apply Hk.
Qed.

(** A call whose continuation needs the state it starts from. *)
Lemma halts_bind_at {B} (k : S -> M S B) :
  (forall s, I s -> (k s s).1 <> NoFuel /\ I (k s s).2) -> halts I (bind get k).
Proof. intros Hk s Hs. by apply Hk. Qed.

Lemma halts_bind_get {B} (k : S -> M S B) :
  (forall s, I s -> halts I (k s)) -> halts I (bind get k).
Proof. intros Hk s Hs. by apply (Hk s Hs). Qed.

Lemma halts_catch {A} (m : M S A) : halts I m -> halts I (catch m).
Proof.
  intros Hm s Hs. unfold catch. destruct (Hm s Hs) as [Hn Hi].
  by destruct (m s) as [[a|e|msg|] s'].
Qed.

Lemma halts_if {A} (b : bool) (m1 m2 : M S A) : halts I m1 -> halts I m2 -> halts I (if b then m1 else m2).
Proof. by destruct b. Qed.

End Halts.

Lemma halts_on_fst {S T A} (I : S -> Prop) (m : M S A) :
  halts I m -> halts (fun st : S * T => I st.1) (on_fst m).
Proof.
  intros Hm [s t] Hs. unfold on_fst. destruct (Hm s Hs) as [Hn Hi]. cbn [fst snd] in *.
  by destruct (m s).
Qed.

Lemma halts_on_snd {S T A} (I : S -> Prop) (m : M T A) :
  (forall t, (m t).1 <> NoFuel) -> halts (fun st : S * T => I st.1) (on_snd m).
Proof. intros Hm [s t] Hs. unfold on_snd. specialize (Hm t). cbn [fst snd] in *. by destruct (m t). Qed.

#[export] Hint Resolve halts_ret halts_fail halts_panic halts_get halts_gets halts_lift halts_modify
  halts_bind halts_catch halts_if halts_on_fst halts_on_snd : halts.

(** ** The operating system *)

Section Os.
Context (I : World -> Prop).
Hypothesis I_faults : forall w fs, I w -> I (mkWorld (wal w) (disk w) fs).

Lemma halts_next_fault : halts I next_fault.
Proof. intros w Hw. unfold next_fault. destruct (faults w); split; cbn; auto. Qed.

Lemma halts_os_call : halts I os_call.
Proof. apply halts_bind; [apply halts_next_fault|]. intros []; auto with halts. Qed.

Lemma halts_read_page name k : halts I (read_page name k).
Proof.
  apply halts_bind; [apply halts_os_call|]. intros []. apply halts_bind_get. intros w Hw.
  destruct (disk w !! name); [|auto with halts]. apply halts_lift. unfold ReadFull.
  destruct (drop _ _); [done|]. by destruct (_ <? _)%nat.
Qed.
End Os.

(** The page loop stops: a page past the end of the file cannot be read. *)
Lemma halts_page_loop {S A} (I : S -> Prop) (rd : nat -> M S (list byte)) body (n : nat) :
  (forall k, halts I (rd k)) ->
  (forall k s, I s -> (n <= k)%nat -> forall pg, (rd k s).1 <> Ok pg) ->
  (forall pg acc, halts I (body pg acc)) ->
  forall fuel k (acc : A), (n - k < fuel)%nat -> halts I (page_loop rd body fuel k acc).
Proof.
  intros Hrd Hend Hb. induction fuel as [|fuel IH]; intros k acc Hf; [lia|]. cbn [page_loop].
  intros s Hs. unfold bind, catch. destruct (Hrd k s Hs) as [Hn Hi]. specialize (Hend k s Hs).
  destruct (rd k s) as [[pg|e|msg|] s1]; cbn [fst snd] in *; try done.
  - assert (k < n)%nat. { destruct (Nat.lt_ge_cases k n); [done|]. by destruct (Hend ltac:(done) pg). }
    destruct (Hb pg acc s1 Hi) as [Hn2 Hi2].
    destruct (body pg acc s1) as [[acc'|e|msg|] s2]; cbn [fst snd] in *; try done.
    apply IH; [lia|done].
  - by destruct (decide _).
Qed.

(** ** What the reading loops leave unchanged *)

(** [name] holds [c] and the page size is [p]. *)
Definition file_is (name : string) (c : option (list byte)) (p : Z) (w : World) : Prop :=
  content <$> (disk w !! name) = c /\ maxPageSize (wal w) = p.

Lemma read_page_end_of name c p k w :
  8 < p -> file_is name c p w -> (length (default [] c) <= k)%nat ->
  forall pg, (read_page name k w).1 <> Ok pg.
Proof.
  intros Hp [Hc Hm] Hk pg. unfold read_page, os_call, next_fault. go_simpl.
  destruct (faults w) as [|[f|] fs]; cbn [disk wal]; try done;
    (destruct (disk w !! name) as [f'|] eqn:E; [|done]);
    cbn in Hc; subst c; cbn [default from_option id] in Hk; unfold ReadFull; by rewrite drop_ge by nia.
Qed.

Lemma halts_file_loop {A} name c p (body : list byte -> A -> M World A) fuel acc :
  8 < p -> (length (default [] c) < fuel)%nat ->
  (forall pg acc, halts (file_is name c p) (body pg acc)) ->
  halts (file_is name c p) (page_loop (read_page name) body fuel 0 acc).
Proof.
  intros Hp Hf Hb. apply halts_page_loop with (n := length (default [] c)); try done; [| |lia].
  - intros k. by apply halts_read_page.
  - intros k s Hs. by eapply read_page_end_of.
Qed.

Lemma file_is_refl name w :
  file_is name (content <$> (disk w !! name)) (maxPageSize (wal w)) w
  /\ (length (default [] (content <$> (disk w !! name))) < file_fuel name w)%nat.
Proof. split; [done|]. unfold file_fuel. destruct (disk w !! name); cbn; lia. Qed.

(** ** The operations of the log *)

Lemma paged_faults w fs : paged w -> paged (mkWorld (wal w) (disk w) fs).
Proof. done. Qed.

Lemma halts_upd_wal (f : DiskWal -> DiskWal) :
  (forall d, maxPageSize (f d) = maxPageSize d) -> halts paged (upd_wal f).
Proof. intros Hf. apply halts_modify. intros w. unfold paged. cbn [wal]. by rewrite Hf. Qed.

Lemma halts_upd_disk f : halts paged (upd_disk f).
Proof. by apply halts_modify. Qed.

Lemma halts_os : halts paged os_call.
Proof. by apply halts_os_call. Qed.

Lemma halts_fault : halts paged next_fault.
Proof. by apply halts_next_fault. Qed.

#[local] Hint Resolve halts_upd_wal halts_upd_disk halts_os halts_fault : halts.
#[local] Hint Extern 1 (_ = _) => reflexivity : halts.

Lemma halts_OpenFile name : halts paged (OpenFile name).
Proof. unfold OpenFile. repeat (apply halts_bind; [auto with halts|]; intros); auto with halts. Qed.

Lemma halts_WriteFile h buf : halts paged (WriteFile h buf).
Proof.
  unfold WriteFile. apply halts_if; [auto with halts|]. apply halts_bind; [auto with halts|].
  intros [f|]; auto with halts.
Qed.

Lemma halts_CloseFile : halts paged CloseFile.
Proof.
  unfold CloseFile. apply halts_bind; [auto with halts|]. intros w.
  destruct (curFile (wal w)); auto with halts.
Qed.

#[local] Hint Resolve halts_OpenFile halts_WriteFile halts_CloseFile : halts.

Lemma halts_guaranteePage n : halts paged (guaranteePage n).
Proof.
  unfold guaranteePage. apply halts_bind; [auto with halts|]. intros w.
  destruct (curFile (wal w)); [apply halts_if|];
    repeat (apply halts_bind; [auto with halts|]; intros); auto with halts.
Qed.

Lemma prepareDataBufByPage_halts mps dat t : prepareDataBufByPage mps dat t <> NoFuel.
Proof. unfold prepareDataBufByPage. by destruct (_ <? _). Qed.

Lemma pageRecordsInfo_halts pg : pageRecordsInfo pg <> NoFuel.
Proof. unfold pageRecordsInfo. by repeat case_match. Qed.

#[local] Hint Resolve prepareDataBufByPage_halts pageRecordsInfo_halts : halts.

Lemma halts_writeDataPage dat t : halts paged (writeDataPage dat t).
Proof.
  unfold writeDataPage. apply halts_bind; [auto with halts|]. intros w.
  apply halts_bind; [auto with halts|]. intros buf.
  destruct (curFile (wal w)); auto with halts.
Qed.

#[local] Hint Resolve halts_guaranteePage halts_writeDataPage : halts.

(** Each turn of the multi-page loop moves [offset] by at least one byte. *)
Lemma halts_write_loop fuel rmax bytes offset :
  0 < rmax -> 0 <= offset -> (length bytes - Z.to_nat offset < fuel)%nat ->
  halts paged (write_loop fuel rmax bytes offset).
Proof.
  intros Hr. revert offset. induction fuel as [|fuel IH]; intros offset Ho Hf; [lia|]. cbn [write_loop].
  destruct (Z.geb_spec (offset + rmax) (Z.of_nat (length bytes)));
    (apply halts_bind; [auto with halts|]; intros []; apply halts_bind; [auto with halts|]; intros []).
  - destruct (Z.geb_spec (offset + (Z.of_nat (length bytes) - offset)) (Z.of_nat (length bytes))); [auto with halts|lia].
  - destruct (Z.geb_spec (offset + rmax) (Z.of_nat (length bytes))); [lia|]. apply IH; lia.
Qed.

Lemma halts_WriteEntry bytes : halts paged (WriteEntry bytes).
Proof.
  unfold WriteEntry, WriteEntryWithFullPage, RecordHeaderSize. apply halts_bind_get. intros w Hw.
  destruct Hw as [Hw1 Hw2]. rewrite int32_small by lia.
  apply halts_bind; [|intros []; auto with halts]. apply halts_if; [auto with halts|].
  apply halts_write_loop; lia.
Qed.

(** A reading loop, followed by code that only needs the page size. *)
Lemma halts_read_loop {A B} name (body : list byte -> A -> M World A) init (k : A -> M World B) :
  (forall c p pg acc, halts (file_is name c p) (body pg acc)) ->
  (forall a, halts paged (k a)) ->
  halts paged (let* w := get in
               let* acc := page_loop (read_page name) body (file_fuel name w) 0 init in k acc).
Proof.
  intros Hb Hk. apply halts_bind_at. intros w Hw. destruct (file_is_refl name w) as [Hj Hf].
  destruct (halts_file_loop name _ _ body _ init (proj1 Hw) Hf ltac:(auto) w Hj) as [Hn Hi].
  unfold bind. destruct (page_loop _ _ _ _ _ w) as [[a|e|msg|] w']; cbn [fst snd] in *; try done;
    destruct Hi as [_ Hi]; unfold paged in Hw; rewrite <-Hi in Hw; [by apply Hk|done|done].
Qed.

Lemma halts_readWalFileInfo name : halts paged (readWalFileInfo name).
Proof.
  unfold readWalFileInfo. apply halts_bind; [auto with halts|]. intros w.
  apply halts_bind; [auto with halts|]. intros h. apply halts_read_loop.
  - intros c p pg acc. unfold info_page. auto with halts.
  - intros acc. apply halts_if; [auto with halts|]. destruct (last acc.2) as [[]|]; [|auto with halts].
    apply halts_if; auto 6 with halts.
Qed.

Lemma halts_seekWalFileWritePoint name : halts paged (seekWalFileWritePoint name).
Proof.
  unfold seekWalFileWritePoint. apply halts_bind; [auto with halts|]. intros _.
  apply halts_bind; [auto with halts|]. intros h. apply halts_read_loop; [|auto with halts].
  intros c p pg []. apply halts_modify. by intros w [? ?].
Qed.

#[local] Hint Resolve halts_readWalFileInfo halts_seekWalFileWritePoint : halts.

Lemma halts_Initialize : halts paged Initialize.
Proof.
  unfold Initialize. do 2 (apply halts_bind; [auto with halts|]; intros []).
  apply halts_bind; [auto with halts|]. intros w. destruct (last _); [|auto with halts].
  repeat (apply halts_bind; [auto with halts|]; intros ?). auto with halts.
Qed.

(** ** Replaying *)

Section ReplayHalts.
Context {R : Type} (fn : list byte -> M R unit).
Hypothesis fn_halts : forall dat r, (fn dat r).1 <> NoFuel.

Notation on_world I := (fun st : World * R => I st.1).

Lemma halts_deliver I recs : halts (on_world I) (deliver fn recs).
Proof. induction recs as [|[dat t] recs IH]; cbn; [auto with halts|]. apply halts_bind; auto with halts. Qed.

Lemma halts_replay_page I pg u : halts (on_world I) (replay_page fn pg u).
Proof. unfold replay_page. apply halts_bind; [auto with halts|]. intros recs. apply halts_deliver. Qed.

Lemma halts_replayFile name : halts (on_world paged) (replayFile fn name).
Proof.
  unfold replayFile. apply halts_bind; [auto with halts|]. intros _.
  apply halts_bind_at. intros [w r] Hw. cbn [fst] in Hw |- *. destruct (file_is_refl name w) as [Hj Hf].
  destruct (halts_page_loop (on_world (file_is name (content <$> (disk w !! name)) (maxPageSize (wal w))))
    (fun k => on_fst (read_page name k)) (replay_page fn)
    (length (default [] (content <$> (disk w !! name))))) with (fuel := file_fuel name w) (k := 0%nat)
    (acc := tt) (s := (w, r)) as [Hn Hi]; [| | |lia|done|].
  - intros k. apply halts_on_fst. by apply halts_read_page.
  - intros k [w' r'] Hs Hk pg. cbn [fst] in Hs. pose proof (read_page_end_of _ _ _ _ _ (proj1 Hw) Hs Hk pg) as Hr.
    unfold on_fst. cbn [fst snd]. by destruct (read_page name k w').
  - intros pg acc. apply halts_replay_page.
  - split; [done|]. destruct (page_loop _ _ _ _ _ _) as [x [w' r']]. cbn [fst snd] in *.
    destruct Hi as [_ Hi]. unfold paged in *. by rewrite Hi.
Qed.

Lemma halts_replay_files files : halts (on_world paged) (replay_files fn files).
Proof.
  induction files as [|f files IH]; cbn; [auto with halts|].
  apply halts_bind; [apply halts_replayFile|auto].
Qed.

Lemma halts_ReplayIncomplete from : halts (on_world paged) (ReplayIncomplete fn from).
Proof.
  unfold ReplayIncomplete. apply halts_bind; [auto with halts|]. intros st.
  do 3 (apply halts_if; [auto with halts|]). apply halts_bind.
  { unfold listWalFiles. auto with halts. }
  intros files. apply halts_if; [auto with halts|]. apply halts_bind; [apply halts_replay_files|].
  auto with halts.
Qed.
End ReplayHalts.

(** ** Properties *)

(** C11. Termination: with pages that can hold data, and a callback that
    returns, appending an entry, opening the log, replaying it and a turn of
    the background sync all end with the code's own outcome, for every
    folder, every file content however corrupt, every failure of the
    operating system and every start position: no loop runs forever. *)
Theorem wal_terminates {R} (fn : list byte -> M R unit) bytes from w (r : R) :
  8 < maxPageSize (wal w) < 2 ^ 31 ->
  (forall dat r, (fn dat r).1 <> NoFuel) ->
  (WriteEntry bytes w).1 <> NoFuel /\ (Initialize w).1 <> NoFuel
  /\ (ReplayIncomplete fn from (w, r)).1 <> NoFuel.
Proof.
  intros Hp Hfn. split_and!.
  - by apply halts_WriteEntry.
  - by apply halts_Initialize.
  - by apply (halts_ReplayIncomplete fn Hfn from (w, r)).
Qed.

(** A folder with a torn file and a call that fails half-way. *)
Definition torn_world : World :=
  mkWorld (mkWal 1 1 1 1 32 16 "wal" None 0 0)
    {[ filename 1 1 0 := mkFile (replicate 21 x01) 0; "notes" := mkFile [x02] 0 ]}
    [None; None; Some (mkFault "disk full" 3)].

Lemma wal_terminates_witness :
  let fn := fun dat (seen : list (list byte)) => (Ok tt, dat :: seen) in
  (WriteEntry (bytes_of "a long entry of 3 pages") torn_world).1 <> NoFuel
  /\ (Initialize torn_world).1 <> NoFuel
  /\ (ReplayIncomplete fn (mkSeq 1 1 0) (torn_world, [])).1 <> NoFuel.
Proof. intros fn. apply (wal_terminates fn); [cbn; lia|done]. Defined.

(** The bound on the page size is needed: a page of only the header never
    moves [offset], whatever the fuel. *)
Lemma empty_pages_loop fuel w :
  faults w = [] -> maxPageSize (wal w) = 8 -> maxFileSize (wal w) = 2 ^ 31 - 1 ->
  pageOccupied (wal w) + Z.of_nat fuel < 2 ^ 20 -> 0 <= pageOccupied (wal w) ->
  (exists h, curFile (wal w) = Some h /\ h_open h = true) ->
  (write_loop fuel 0 [x01] 0 w).1 = NoFuel.
Proof.
  revert w. induction fuel as [|fuel IH]; intros w Hf Hp Hm Hl H0 (h & Hh & Ho); [done|].
  destruct w as [[T C S P MF MP fo cf di sy] dk fs]. cbn in Hf, Hp, Hm, Hl, H0, Hh. subst.
  cbn [write_loop]. change (0 + 0 >=? Z.of_nat (length [x01])) with false. cbv iota.
  unfold bind at 1, guaranteePage at 1. unfold bind at 1. cbn [get wal curFile pageOccupied maxPageSize maxFileSize].
  destruct (Z.gtb_spec ((P + 1) * 8) (2 ^ 31 - 1)); [lia|]. cbn [ret].
  unfold writeDataPage, WriteFile, upd_wal, upd_disk, next_fault. go_simpl. cbn [wal curFile maxPageSize].
  rewrite prepareDataBufByPage_ok by lia. rewrite Ho. cbn [negb faults wal disk].
  change (0 + 0 >=? Z.of_nat (length [x01])) with false. cbv iota.
  apply IH; cbn; try done; rewrite ?int32_small by lia; try lia. by exists h.
Qed.
