(* ===== verification/WalDurable.v ===== *)
(** * Durability of the log

    What a power loss leaves of the folder: of every file at least the bytes
    the last [Sync] made durable, maybe more of them, and a file never synced
    maybe not at all.  The background tick syncs the current file only. *)

From stdpp Require Import base list gmap strings sorting.
From Stdlib Require Import ZArith Lia.
From S2P Require Import Prelude GoStr Bytes SequenceId WalPage Wal WalNames WalLog WalOpen.
Local Open Scope Z_scope.
Local Open Scope go_scope.

(** ** Definitions of the specification *)

Definition durable (f : File) : Prop := synced f = length (content f).

Inductive survives (f : File) : option File -> Prop :=
| sv_part n : (synced f <= n <= length (content f))%nat ->
    survives f (Some (mkFile (take n (content f)) n))
| sv_gone : synced f = 0%nat -> survives f None.

Definition power_loss (dk dk' : gmap string File) : Prop :=
  forall name, match dk !! name with
               | Some f => survives f (dk' !! name)
               | None => dk' !! name = None
               end.

(** Every log file but the one in use is durable and not empty. *)
Definition closed_durable (w : World) : Prop :=
  forall name f, disk w !! name = Some f -> is_Some (fileMap (disk w) !! name) ->
  curFile (wal w) <> Some (mkHandle name true) -> durable f /\ content f <> [].

(** ** Lemmas *)

(** A durable file with data keeps it. *)
Lemma durable_survives f o : durable f -> content f <> [] -> survives f o ->
  o = Some (mkFile (content f) (length (content f))).
Proof.
  intros Hd Hne [n Hn|H0]; unfold durable in Hd.
  - assert (n = length (content f)) as -> by lia. by rewrite take_ge by lia.
  - rewrite Hd in H0. by apply nil_length_inv in H0.
Qed.

Lemma survives_durable f : durable f -> survives f (Some f).
Proof.
  destruct f as [ct sy]. unfold durable. cbn [content synced]. intros ->.
  rewrite <-(take_ge ct (length ct)) at 3 by lia. apply (sv_part (mkFile ct (length ct)) (length ct)). done.
Qed.

(** A log of durable, non-empty files is the same log after a power loss. *)
Lemma log_rep_power_loss p dk dk' L :
  log_rep p dk L ->
  (forall k f, k ∈ L.*1 -> dk !! name_of k = Some f -> durable f /\ content f <> []) ->
  power_loss dk dk' -> log_rep p dk' L.
Proof.
  intros [Hk Hs Hf Ho] Hd Hl.
  assert (Hsame : forall k f, k ∈ L.*1 -> dk !! name_of k = Some f ->
    dk' !! name_of k = Some (mkFile (content f) (length (content f)))).
  { intros k f Hin E. specialize (Hl (name_of k)). rewrite E in Hl. destruct (Hd k f Hin E).
    by apply durable_survives. }
  split; [done|done| |].
  - intros k recs Hin. destruct (Hf k recs Hin) as (f & E & Hh).
    eexists. split; [by eapply Hsame; [apply list_elem_of_fmap; by exists (k, recs)|]|exact Hh].
  - intros n. rewrite <-Ho, !fileMap_lookup. pose proof (Hl n) as Hn.
    destruct (dk !! n) as [f|] eqn:E; [|by rewrite Hn].
    destruct (walfilename n) as [[nm sq]|?|?|] eqn:En; [|by destruct (dk' !! n)..].
    assert (Hin : n ∈ name_of <$> L.*1) by (apply Ho; rewrite fileMap_lookup, E, En; by eexists).
    apply list_elem_of_fmap in Hin as (k & -> & Hin). by rewrite (Hsame k f).
Qed.

(** One tick of the background goroutine after a write. *)
Lemma sync_tick_ok w name f :
  faults w = [] -> dirty (wal w) = 1 -> curFile (wal w) = Some (mkHandle name true) ->
  disk w !! name = Some f ->
  sync_tick w = (Ok tt, mkWorld (with_dirty 0 (wal w))
    (<[name := mkFile (content f) (length (content f))]> (disk w)) []).
Proof.
  destruct w as [[T C S P MF MP fo cf di sy] dk fs]. cbn. intros -> -> -> Hf.
  unfold sync_tick, SyncFile, os_call, next_fault, upd_wal, upd_disk. go_simpl. cbn. by rewrite Hf.
Qed.

(** Rewriting a log file with the same content keeps the log. *)
Lemma log_rep_resync p dk L name f :
  log_rep p dk L -> dk !! name = Some f ->
  log_rep p (<[name := mkFile (content f) (length (content f))]> dk) L.
Proof.
  intros [Hk Hs Hf Ho] E. split; [done|done| |].
  - intros k recs Hin. destruct (Hf k recs Hin) as (f' & E' & Hh).
    destruct (decide (name_of k = name)) as [<-|Hne].
    + rewrite E in E'. injection E' as <-. rewrite lookup_insert_eq. by eexists.
    + rewrite lookup_insert_ne by done. by exists f'.
  - intros n. rewrite <-Ho, !fileMap_lookup. destruct (decide (n = name)) as [->|Hne].
    + rewrite lookup_insert_eq, E. done.
    + by rewrite lookup_insert_ne by done.
Qed.

(** Opening any folder with the log of a writer. *)
Lemma Initialize_over w1 dk L0 k recs :
  wal_inv w1 (L0 ++ [(k, recs)]) -> recs <> [] -> repaired recs = recs ->
  log_rep (Z.to_nat (maxPageSize (wal w1))) dk (L0 ++ [(k, recs)]) ->
  exists w2, Initialize (mkWorld (reopened (wal w1)) dk [])
      = (Ok (mkSeq k.1 k.2 (Z.of_nat (length recs))), w2)
    /\ wal_inv w2 (L0 ++ [(k, recs)]) /\ disk w2 = dk.
Proof.
  intros Hinv Hne Hrep Hlr. pose proof (wi_size _ _ Hinv) as Hsz. pose proof (wi_params _ _ Hinv) as [Hp1 Hm1].
  assert (Hlen : Z.of_nat (length recs) + 1 < 2 ^ 31).
  { apply Forall_app in Hsz as [_ Hsz]. inversion Hsz as [|? ? Hb _]. cbn in Hb. nia. }
  destruct (Initialize_ok (reopened (wal w1)) dk L0 k recs) as (dk' & Ei & Hr & Hdk);
    [by split|done|done|done|done|].
  rewrite Hrep in Ei, Hr. rewrite (Hdk Hrep) in *. eexists. split; [exact Ei|]. split; [|done].
  split; cbn; [by split|done|done|]. exists L0, recs. by destruct k.
Qed.

(** ** Properties *)

(** C15. A tick makes an entry durable: after a successful write and one round of
    the background sync, whatever a power loss leaves of the folder, a new
    process finds the position the writer had returned and exactly the records
    of the log with the entry's at the end - provided the older log files were
    synced when they were closed (which the code does not do:
    [rotation_loses_records]). *)
Theorem tick_makes_durable w L bytes seq w1 :
  wal_inv w L -> faults w = [] ->
  curCollection (wal w) + Z.of_nat (length bytes) + 1 < 2 ^ 63 ->
  WriteEntry bytes w = (Ok seq, w1) -> closed_durable w1 ->
  exists w2 L', sync_tick w1 = (Ok tt, w2)
    /\ all_recs L' = all_recs L ++ entry_recs (Z.to_nat (maxPageSize (wal w) - 8)) bytes
    /\ forall dk, power_loss (disk w2) dk ->
         exists w3, Initialize (mkWorld (reopened (wal w2)) dk []) = (Ok seq, w3)
           /\ wal_inv w3 L' /\ disk w3 = dk.
Proof.
  intros Hinv Hf Hc E Hcd.
  destruct (WriteEntry_ok w L bytes Hinv Hf Hc) as (w1' & L' & E1 & Hinv1 & Hg & Hdirty).
  rewrite E in E1. injection E1 as -> <-. destruct (wi_params _ _ Hinv) as [Hp _].
  destruct (written_last _ _ _ _ (Z.to_nat (maxPageSize (wal w) - 8)) _ Hinv1 ltac:(lia) Hg)
    as (L0 & k & recs & -> & Hne & Hpos & Hcf & Hrep).
  pose proof (wi_rep _ _ Hinv1) as Hlr.
  destruct (lr_files _ _ _ Hlr k recs) as (f & Ef & Hh); [set_solver|].
  eexists _, (L0 ++ [(k, recs)]).
  split; [by apply (sync_tick_ok w1 (name_of k) f); [apply Hg|..]|]. split; [apply Hg|].
  intros dk Hl. cbn [disk wal] in *.
  assert (Hlr' : log_rep (Z.to_nat (maxPageSize (wal w1))) dk (L0 ++ [(k, recs)])).
  { apply (log_rep_power_loss _ _ dk _ (log_rep_resync _ _ _ (name_of k) f Hlr Ef)); [|exact Hl].
    intros k' f' Hin [[_ <-]|[Hk E']]%lookup_insert_Some.
    - split; [done|]. cbn. intros Hn. apply (f_equal length) in Hn. rewrite (length_holds _ _ _ Hh) in Hn.
      destruct (wi_params _ _ Hinv1) as [Hp1 _]. destruct recs; [done|]. cbn in Hn. lia.
    - apply (Hcd (name_of k')); [done| |].
      + apply (lr_only _ _ _ Hlr), list_elem_of_fmap. by exists k'.
      + rewrite Hcf. by intros [= Hx]. }
  destruct (Initialize_over w1 dk L0 k recs Hinv1 Hne Hrep Hlr') as (w3 & Ei & Hi3 & Hd3).
  exists w3. rewrite Hpos. split; [exact Ei|by split].
Qed.

Lemma tick_makes_durable_witness :
  let w1 := (WriteEntry (bytes_of "entry-1") tiny_world).2 in
  exists w2 L', sync_tick w1 = (Ok tt, w2)
    /\ all_recs L' = [(bytes_of "entry-1", EntryTypeWhole)]
    /\ forall dk, power_loss (disk w2) dk ->
         exists w3, Initialize (mkWorld (reopened (wal w2)) dk []) = (Ok (mkSeq 1 1 1), w3)
           /\ wal_inv w3 L' /\ disk w3 = dk.
Proof.
  apply (tick_makes_durable tiny_world [] (bytes_of "entry-1"));
    [apply tiny_world_inv|done|done|vm_compute; reflexivity|].
  intros name f Hf _ Hc. vm_compute in Hc.
  assert (Hd : disk (WriteEntry (bytes_of "entry-1") tiny_world).2
    = {[filename 1 1 0 := mkFile (enc 16 (bytes_of "entry-1", EntryTypeWhole)) 0]})
    by (vm_compute; reflexivity).
  rewrite Hd in Hf. apply lookup_singleton_Some in Hf as [<- <-]. by destruct Hc.
Defined.

(** The data the callback of a replay has seen, newest first. *)
Definition collect (dat : list byte) : M (list (list byte)) unit := modify (cons dat).

(** The second process has a sync goroutine; a new log has none. *)
Definition three_writes : M World SequenceId :=
  let* _ := WriteEntry (bytes_of "entry-1") in
  let* _ := reopen in
  let* _ := WriteEntry (bytes_of "entry-2") in
  let* seq := WriteEntry (bytes_of "entry-3") in
  let* _ := sync_tick in
  ret seq.

(** The folder after the loss of what was never synced of the first file. *)
Definition lossy (dk : gmap string File) : gmap string File :=
  <[filename 1 1 0 := mkFile (enc 16 (bytes_of "entry-1", EntryTypeWhole)) 16]> dk.

Definition lossy_world : World :=
  (Initialize (mkWorld (reopened (wal (three_writes tiny_world).2))
     (lossy (disk (three_writes tiny_world).2)) [])).2.

Lemma run_result {S A} (m : M S A) s r : (m s).1 = r -> m s = (r, (m s).2).
Proof. intros <-. apply surjective_pairing. Qed.

Lemma replay_result {S T A} (m : M (S * T) A) st r t : (m st).1 = r -> (m st).2.2 = t -> m st = (r, ((m st).2.1, t)).
Proof. intros <- <-. by destruct (m st) as [? []]. Qed.

(** Closing a full file does not sync it, and no later tick does: three entries
    are written and acknowledged by two processes, the third in a new file, and
    the sync goroutine ticks; after a power loss that a file system may leave,
    the log opens without error at the position of the third entry, and a replay
    delivers the first and the third - the second is gone from the middle. *)
Example rotation_loses_records :
  exists w1 w2 w3,
    three_writes tiny_world = (Ok (mkSeq 1 2 1), w1)
    /\ syncers (wal w1) = 1%nat
    /\ power_loss (disk w1) (lossy (disk w1))
    /\ Initialize (mkWorld (reopened (wal w1)) (lossy (disk w1)) []) = (Ok (mkSeq 1 2 1), w2)
    /\ ReplayIncomplete collect (mkSeq 1 1 0) (w2, [])
       = (Ok (mkSeq 1 2 1), (w3, [bytes_of "entry-3"; bytes_of "entry-1"])).
Proof.
  exists (three_writes tiny_world).2, lossy_world, (ReplayIncomplete collect (mkSeq 1 1 0) (lossy_world, [])).2.1.
  assert (E1 : (three_writes tiny_world).1 = Ok (mkSeq 1 2 1)) by (vm_compute; reflexivity).
  assert (E2 : (Initialize (mkWorld (reopened (wal (three_writes tiny_world).2))
    (lossy (disk (three_writes tiny_world).2)) [])).1 = Ok (mkSeq 1 2 1)) by (vm_compute; reflexivity).
  assert (E3 : (ReplayIncomplete collect (mkSeq 1 1 0) (lossy_world, [])).1 = Ok (mkSeq 1 2 1))
    by (vm_compute; reflexivity).
  assert (E4 : (ReplayIncomplete collect (mkSeq 1 1 0) (lossy_world, [])).2.2
    = [bytes_of "entry-3"; bytes_of "entry-1"]) by (vm_compute; reflexivity).
  split; [exact (run_result _ _ _ E1)|]. split; [vm_compute; reflexivity|]. split.
  2: { split; [unfold lossy_world; exact (run_result _ _ _ E2)|exact (replay_result _ _ _ _ E3 E4)]. }
  clear E1 E2 E3 E4.
  intros name. unfold lossy. set (dk := disk (three_writes tiny_world).2).
  destruct (decide (name = filename 1 1 0)) as [->|Hne].
  - rewrite lookup_insert_eq. 
    assert (E : dk !! filename 1 1 0 = Some (mkFile (enc 16 (bytes_of "entry-1", EntryTypeWhole)
      ++ enc 16 (bytes_of "entry-2", EntryTypeWhole)) 0)) by (vm_compute; reflexivity).
    rewrite E.
    assert (Et : enc 16 (bytes_of "entry-1", EntryTypeWhole)
      = take 16 (enc 16 (bytes_of "entry-1", EntryTypeWhole) ++ enc 16 (bytes_of "entry-2", EntryTypeWhole)))
      by (vm_compute; reflexivity).
    rewrite Et at 2. apply (sv_part (mkFile _ 0) 16). split; [cbn; lia|].
    apply (Nat.leb_le 16). vm_compute. reflexivity.
  - rewrite lookup_insert_ne by done. destruct (dk !! name) as [f|] eqn:E; [|done].
    apply survives_durable. unfold durable.
    assert (Hd : delete (filename 1 1 0) dk
      = {[filename 1 2 0 := mkFile (enc 16 (bytes_of "entry-3", EntryTypeWhole)) 16]}) by (vm_compute; reflexivity).
    rewrite <-(lookup_delete_ne dk (filename 1 1 0)), Hd in E by (by intros Heq; apply Hne).
    apply lookup_singleton_Some in E as [_ <-]. vm_compute. reflexivity.
Qed.
