(* ===== verification/Storage.v ===== *)
(** * Key-value storage (internal/storage, internal/iface/storage.go)

    The storage interface, its contract, and [DiskvStorage] over the diskv
    library.  diskv is third-party code: its three operations are the class
    [Diskv], what the source relies on is [DiskvLaws]. *)

From stdpp Require Import base list gmap strings.
From Stdlib Require Import ZArith Lia Ascii.
From S2P Require Import Prelude GoStr Bytes SequenceId.
Local Open Scope Z_scope.
Local Open Scope go_scope.

(** ** Interface *)

Record Snapshot := mkSnapshot {
  SnapshotSequenceId : SequenceId;
  Entries : list (list byte * list byte);
}.

(** [iface.KVStorageAdv] of a storage with state [D]. *)
Class KVStorageAdv (D : Type) := {
  kv_Put : list byte -> list byte -> M D unit;
  kv_Get : list byte -> M D (option (list byte));
  kv_Initialize : M D unit;
  kv_LatestSnapshotData : Z -> M D Snapshot;
}.

(** ** Keys *)

Definition key_rune (ch : Z) : bool :=
  ((ch >=? 48) && (ch <=? 57)) || ((ch >=? 97) && (ch <=? 122))
  || ((ch >=? 65) && (ch <=? 90)) || (ch =? 95).

Definition validateKeyFormat (key : string) : bool := forallb key_rune (runes key).

Definition VersionKeyString : string := "____sequence_id____".
Definition VersionKey : list byte := bytes_of VersionKeyString.

(** ** The contract of a storage

    While [kv_ok] holds (no I/O error), the storage is a map from the valid keys. *)
Class KVLaws (D : Type) `{KVStorageAdv D} := {
  kv_ok : D -> Prop;
  kv_map : D -> gmap string (list byte);
  kv_Put_valid d k v :
    kv_ok d -> k <> [] -> validateKeyFormat (string_of k) = true ->
    exists d', kv_Put k v d = (Ok tt, d') /\ kv_ok d'
      /\ kv_map d' = <[string_of k := v]> (kv_map d);
  kv_Put_invalid d k v :
    validateKeyFormat (string_of k) = false -> kv_Put k v d = (Fail ErrKeyFormatInvalid, d);
  kv_Get_valid d k :
    kv_ok d -> k <> [] -> validateKeyFormat (string_of k) = true ->
    exists d', kv_Get k d = (Ok (kv_map d !! string_of k), d') /\ kv_ok d' /\ kv_map d' = kv_map d;
  kv_Get_invalid d k :
    validateKeyFormat (string_of k) = false -> kv_Get k d = (Fail ErrKeyFormatInvalid, d);
  kv_Snapshot_spec d term :
    kv_ok d -> map_Forall (fun k _ => k <> EmptyString /\ validateKeyFormat k = true) (kv_map d) ->
    exists d' es, kv_LatestSnapshotData term d = (Ok (mkSnapshot EmptySequenceId es), d')
      /\ kv_ok d' /\ kv_map d' = kv_map d
      /\ NoDup es.*1
      /\ forall k v, (k, v) ∈ es <->
           kv_map d !! string_of k = Some v /\ string_of k <> VersionKeyString;
}.

(** ** The diskv library *)

Class Diskv (D : Type) := {
  diskv_Write : string -> list byte -> M D unit;
  diskv_Read : string -> M D (list byte);
  diskv_Keys : M D (list string);       (* what the channel of [Keys(nil)] yields *)
  os_IsNotExist : error -> bool;        (* os.IsNotExist *)
}.

(** What the source relies on: while the disk serves ([dv_ok]), writing,
    reading and listing act on a map of the non-empty keys. *)
Class DiskvLaws (D : Type) `{Diskv D} := {
  dv_ok : D -> Prop;
  dv_map : D -> gmap string (list byte);
  dv_Write d k v :
    dv_ok d -> k <> EmptyString ->
    exists d', diskv_Write k v d = (Ok tt, d') /\ dv_ok d' /\ dv_map d' = <[k := v]> (dv_map d);
  dv_Read d k :
    dv_ok d -> k <> EmptyString ->
    exists r d', diskv_Read k d = (r, d') /\ dv_ok d' /\ dv_map d' = dv_map d
      /\ match dv_map d !! k with
         | Some v => r = Ok v
         | None => exists e, r = Fail e /\ os_IsNotExist e = true
         end;
  dv_Keys d :
    dv_ok d ->
    exists ks d', diskv_Keys d = (Ok ks, d') /\ dv_ok d' /\ dv_map d' = dv_map d
      /\ NoDup ks /\ forall k, k ∈ ks <-> is_Some (dv_map d !! k);
}.

(** ** [NewDiskvStroage]

    What it uses of the outside: [Abs] is filepath.Abs (which asks the operating
    system for the working directory), [sha256] is sha256.Sum256, [diskv_New] is
    the constructor of the library, with the options the source sets. *)
Record DiskvOptions := mkOptions {
  BasePath : string;
  Transform : string -> list string;
  CacheSizeMax : Z;
}.

(** hex.EncodeToString *)
Definition EncodeToString (src : list byte) : string :=
  foldr (fun b s => hex_fix 2 (Z_of_byte b) +:+ s) EmptyString src.

(** The slice [[:4]] is in range, since the hash has 32 bytes ([sha256_prefix_length]). *)
Definition diskvSha256prefix (sha256 : list byte -> list byte) (s : string) : string :=
  String.substring 0 4 (EncodeToString (sha256 (bytes_of s))).

Definition NewDiskvStroage {D} (Abs : string -> exec string) (sha256 : list byte -> list byte)
    (diskv_New : DiskvOptions -> D) (folder : string) : exec D :=
  let! f := Abs folder in
  Ok (diskv_New (mkOptions f (fun s => [diskvSha256prefix sha256 s]) (1024 * 1024))).

(** ** [DiskvStorage] *)

Section DiskvStorage.
Context {D : Type} `{Diskv D}.

Definition Put (k v : list byte) : M D unit :=
  let key := string_of k in
  if negb (validateKeyFormat key) then fail ErrKeyFormatInvalid
  else diskv_Write key v.

Definition Get (k : list byte) : M D (option (list byte)) :=
  let key := string_of k in
  if negb (validateKeyFormat key) then fail ErrKeyFormatInvalid
  else
    let* r := catch (diskv_Read key) in
    match r with
    | inr err => if os_IsNotExist err then ret None else fail err
    | inl dat => ret (Some dat)
    end.

(** The keys received before an empty one. *)
Fixpoint keyList (kch : list string) : list string :=
  match kch with
  | [] => []
  | key :: kch => if String.eqb key "" then [] else key :: keyList kch
  end.

Fixpoint snapshot_entries (keys : list string) : M D (list (list byte * list byte)) :=
  match keys with
  | [] => ret []
  | key :: keys =>
      if String.eqb key VersionKeyString then snapshot_entries keys
      else
        let k := bytes_of key in
        let* v := Get k in
        let* es := snapshot_entries keys in
        match v with
        | Some v => ret ((k, v) :: es)
        | None => ret es
        end
  end.

Definition LatestSnapshotData (term : Z) : M D Snapshot :=
  let* kch := diskv_Keys in
  let* es := snapshot_entries (keyList kch) in
  ret (mkSnapshot EmptySequenceId es).

Definition Initialize : M D unit := ret tt.

#[export] Instance DiskvStorage_ops : KVStorageAdv D := {|
  kv_Put := Put;
  kv_Get := Get;
  kv_Initialize := Initialize;
  kv_LatestSnapshotData := LatestSnapshotData;
|}.
End DiskvStorage.

(** The bytes a key may hold. *)
Fixpoint key_bytes (s : string) : bool :=
  match s with
  | EmptyString => true
  | String a s => key_rune (Z_of_ascii a) && key_bytes s
  end.

(** ** Lemmas *)

Lemma key_rune_ascii ch : key_rune ch = true -> 48 <= ch < 128.
Proof. unfold key_rune. lia. Qed.

Lemma validateKeyFormat_bytes s : validateKeyFormat s = key_bytes s.
Proof.
  induction s as [|a s IH]; [done|]. cbn [key_bytes]. rewrite <-IH.
  destruct (Z.ltb_spec (Z_of_ascii a) 128) as [H|H].
  - unfold validateKeyFormat. by rewrite runes_ascii_cons by lia.
  - destruct (runes_high a s) as (r & rs & E & Hr); [lia|].
    assert (key_rune (Z_of_ascii a) = false) as ->.
    { apply not_true_is_false. intros Hk%key_rune_ascii. lia. }
    unfold validateKeyFormat. rewrite E. cbn [forallb andb].
    apply andb_false_iff. left. apply not_true_is_false. intros Hk%key_rune_ascii. lia.
Qed.

Lemma length_EncodeToString src : String.length (EncodeToString src) = (2 * length src)%nat.
Proof.
  induction src as [|b src IH]; [done|]. unfold EncodeToString in *. cbn [foldr length].
  rewrite length_append, IH, length_hex_fix. lia.
Qed.

Lemma sha256_prefix_length sha256 s :
  length (sha256 (bytes_of s)) = 32%nat ->
  (4 <= String.length (EncodeToString (sha256 (bytes_of s))))%nat.
Proof. intros H. rewrite length_EncodeToString, H. lia. Qed.

Lemma string_of_nil k : k <> [] -> string_of k <> EmptyString.
Proof.
  intros Hk E. apply Hk. rewrite <-(bytes_of_string_of k), E. done.
Qed.

Lemma keyList_all kch : EmptyString ∉ kch -> keyList kch = kch.
Proof.
  induction kch as [|key kch IH]; [done|]. intros Hn. cbn [keyList].
  destruct (String.eqb_spec key ""); [set_solver|]. f_equal. apply IH. set_solver.
Qed.

Section DiskvLemmas.
Context {D : Type} `{DL : DiskvLaws D}.

Lemma Put_ok d k v :
  dv_ok d -> k <> [] -> validateKeyFormat (string_of k) = true ->
  exists d', Put k v d = (Ok tt, d') /\ dv_ok d' /\ dv_map d' = <[string_of k := v]> (dv_map d).
Proof.
  intros Hd Hk Hv. unfold Put. rewrite Hv. cbn [negb]. by apply dv_Write, string_of_nil.
Qed.

Lemma Get_ok d k :
  dv_ok d -> k <> [] -> validateKeyFormat (string_of k) = true ->
  exists d', Get k d = (Ok (dv_map d !! string_of k), d') /\ dv_ok d' /\ dv_map d' = dv_map d.
Proof.
  intros Hd Hk Hv. unfold Get. rewrite Hv. cbn [negb].
  destruct (dv_Read d (string_of k) Hd (string_of_nil _ Hk)) as (r & d' & E & Hd' & Hm & Hr).
  exists d'. split; [|done]. destruct (dv_map d !! string_of k) as [v|].
  - subst r. by rewrite (bind_ok _ _ _ _ _ (catch_ok _ _ _ _ E)).
  - destruct Hr as (e & -> & He). rewrite (bind_ok _ _ _ _ _ (catch_fail _ _ _ _ E)).
    by rewrite He.
Qed.

(** The entries of a list of valid keys, in the order of the list. *)
Lemma snapshot_entries_ok keys d :
  dv_ok d -> Forall (fun k => k <> EmptyString /\ validateKeyFormat k = true) keys ->
  exists d', snapshot_entries keys d
    = (Ok (omap (fun k => if String.eqb k VersionKeyString then None
                          else (fun v => (bytes_of k, v)) <$> dv_map d !! k) keys), d')
    /\ dv_ok d' /\ dv_map d' = dv_map d.
Proof.
  revert d. induction keys as [|key keys IH]; intros d Hd Hks; [by exists d|].
  inversion Hks as [|? ? [Hne Hv] Hks']; subst. cbn [snapshot_entries omap list_omap].
  destruct (String.eqb_spec key VersionKeyString); [by apply IH|].
  destruct (Get_ok d (bytes_of key)) as (d1 & E1 & Hd1 & Hm1);
    [done|by destruct key|by rewrite string_of_bytes_of|].
  rewrite string_of_bytes_of in E1.
  destruct (IH d1 Hd1 Hks') as (d2 & E2 & Hd2 & Hm2).
  exists d2. rewrite (bind_ok _ _ _ _ _ E1), (bind_ok _ _ _ _ _ E2), Hm2, Hm1.
  by destruct (dv_map d !! key).
Qed.

Lemma LatestSnapshotData_ok d term :
  dv_ok d -> map_Forall (fun k _ => k <> EmptyString /\ validateKeyFormat k = true) (dv_map d) ->
  exists d' es, LatestSnapshotData term d = (Ok (mkSnapshot EmptySequenceId es), d')
    /\ dv_ok d' /\ dv_map d' = dv_map d /\ NoDup es.*1
    /\ forall k v, (k, v) ∈ es <->
         dv_map d !! string_of k = Some v /\ string_of k <> VersionKeyString.
Proof.
  intros Hd Hall. unfold LatestSnapshotData.
  destruct (dv_Keys d Hd) as (ks & d1 & E1 & Hd1 & Hm1 & Hnd & Hks).
  rewrite (bind_ok _ _ _ _ _ E1).
  assert (Hf : Forall (fun k => k <> EmptyString /\ validateKeyFormat k = true) ks).
  { apply Forall_forall. intros k [v Hv]%Hks. by apply (Hall k v). }
  rewrite keyList_all; [|intros He; rewrite Forall_forall in Hf; by destruct (Hf _ He)].
  destruct (snapshot_entries_ok ks d1 Hd1 Hf) as (d2 & E2 & Hd2 & Hm2).
  rewrite (bind_ok _ _ _ _ _ E2). eexists d2, _. split; [done|].
  rewrite Hm2, Hm1. split_and!; [done|done| |].
  - clear -Hnd. induction Hnd as [|k ks Hk Hnd IH]; [constructor|]. cbn [omap list_omap].
    destruct (String.eqb_spec k VersionKeyString); [done|].
    destruct (dv_map d !! k) as [v|]; [|done]. cbn. constructor; [|done].
    intros ([k' v'] & E & Hin)%list_elem_of_fmap. cbn in E. subst k'.
    apply list_elem_of_omap in Hin as (k2 & Hin & E2).
    destruct (String.eqb_spec k2 VersionKeyString); [done|].
    destruct (dv_map d !! k2); [|done]. injection E2 as E2 _. by apply bytes_of_inj in E2 as ->.
  - intros k v. rewrite list_elem_of_omap. split.
    + intros (k2 & Hin & E). destruct (String.eqb_spec k2 VersionKeyString); [done|].
      destruct (dv_map d !! k2) as [v2|] eqn:Em; [|done]. injection E as <- <-.
      by rewrite string_of_bytes_of.
    + intros [Hv Hn]. exists (string_of k). split; [by apply Hks|].
      destruct (String.eqb_spec (string_of k) VersionKeyString); [done|].
      by rewrite Hv; cbn; rewrite bytes_of_string_of.
Qed.

Lemma Put_invalid d k v :
  validateKeyFormat (string_of k) = false -> Put k v d = (Fail ErrKeyFormatInvalid, d).
Proof. intros Hv. unfold Put. by rewrite Hv. Qed.

Lemma Get_invalid d k :
  validateKeyFormat (string_of k) = false -> Get k d = (Fail ErrKeyFormatInvalid, d).
Proof. intros Hv. unfold Get. by rewrite Hv. Qed.

(** [DiskvStorage] keeps the storage contract. *)
#[export] Instance DiskvStorage_laws : KVLaws D := {|
  kv_ok := dv_ok;
  kv_map := dv_map;
  kv_Put_valid := Put_ok;
  kv_Get_valid := Get_ok;
  kv_Put_invalid := Put_invalid;
  kv_Get_invalid := Get_invalid;
  kv_Snapshot_spec := LatestSnapshotData_ok;
|}.
End DiskvLemmas.

(** ** A concrete disk *)

(** The map itself is a [Diskv]: every operation succeeds. *)
Module MapDisk.
Record MapDisk := mkDisk { files : gmap string (list byte) }.

#[export] Instance MapDisk_diskv : Diskv MapDisk := {|
  diskv_Write k v := modify (fun d => mkDisk (<[k := v]> (files d)));
  diskv_Read k := let* d := get in
    match files d !! k with
    | Some v => ret v
    | None => fail (ExtError "file does not exist")
    end;
  diskv_Keys := gets (fun d => (map_to_list (files d)).*1);
  os_IsNotExist e := bool_decide (e = ExtError "file does not exist");
|}.

Lemma MapDisk_read d k :
  exists r d', diskv_Read k d = (r, d') /\ True /\ files d' = files d
    /\ match files d !! k with
       | Some v => r = Ok v
       | None => exists e, r = Fail e /\ os_IsNotExist e = true
       end.
Proof.
  cbn. unfold bind, get. destruct (files d !! k) as [v|]; eexists _, d; split_and!; eauto.
Qed.

Lemma MapDisk_keys d :
  exists ks d', diskv_Keys d = (Ok ks, d') /\ True /\ files d' = files d
    /\ NoDup ks /\ forall k, k ∈ ks <-> is_Some (files d !! k).
Proof.
  eexists _, d. split; [reflexivity|]. split_and!; [done|done|apply NoDup_fst_map_to_list|].
  intros k. rewrite list_elem_of_fmap. split.
  - intros ([k' v] & -> & Hin%elem_of_map_to_list). by eexists.
  - intros [v Hv]. exists (k, v). by rewrite elem_of_map_to_list.
Qed.

#[export] Instance MapDisk_laws : DiskvLaws MapDisk := {|
  dv_ok _ := True;
  dv_map := files;
  dv_Write d k v _ _ := ex_intro _ (mkDisk (<[k := v]> (files d))) (conj eq_refl (conj I eq_refl));
  dv_Read d k _ _ := MapDisk_read d k;
  dv_Keys d _ := MapDisk_keys d;
|}.
(** An empty map, whatever the options; hashing to zeros. *)
Definition new_disk (_ : DiskvOptions) : MapDisk := mkDisk ∅.
Definition zero_hash (_ : list byte) : list byte := replicate 32 (byte_of_Z 0).
End MapDisk.
Export MapDisk.

(** ** Properties *)

(** [validateKeyFormat] decodes the key as UTF-8 and tests every rune; this
    is the test of every byte against [0-9a-zA-Z_]: no multi-byte or malformed
    sequence is ever accepted. *)
Theorem validateKeyFormat_equiv s :
  validateKeyFormat s = key_bytes s.
Proof. apply validateKeyFormat_bytes. Qed.

(** The storage is a map: on a disk that serves, a [Put] of a valid
    non-empty key succeeds, afterwards [Get] of that key returns the value and
    [Get] of any other valid key what it returned before; an invalid key is
    refused by both and changes nothing. *)
Theorem DiskvStorage_put_get {D} `{DL : DiskvLaws D} (d : D) k v :
  dv_ok d -> k <> [] -> validateKeyFormat (string_of k) = true ->
  exists d1, Put k v d = (Ok tt, d1)
    /\ (exists d2, Get k d1 = (Ok (Some v), d2))
    /\ (forall k', k' <> [] -> k' <> k -> validateKeyFormat (string_of k') = true ->
         (Get k' d1).1 = (Get k' d).1)
    /\ (forall k' v' d', validateKeyFormat (string_of k') = false ->
         Put k' v' d' = (Fail ErrKeyFormatInvalid, d')
         /\ Get k' d' = (Fail ErrKeyFormatInvalid, d')).
Proof.
  intros Hd Hk Hv. destruct (Put_ok d k v Hd Hk Hv) as (d1 & E1 & Hd1 & Hm1).
  exists d1. split; [done|]. split_and!.
  - destruct (Get_ok d1 k Hd1 Hk Hv) as (d2 & E2 & _). exists d2.
    by rewrite E2, Hm1, lookup_insert_eq.
  - intros k' Hk' Hne Hv'. destruct (Get_ok d1 k' Hd1 Hk' Hv') as (d2 & E2 & _).
    destruct (Get_ok d k' Hd Hk' Hv') as (d3 & E3 & _). rewrite E2, E3, Hm1. cbn.
    rewrite lookup_insert_ne; [done|]. intros E. apply Hne.
    by rewrite <-(bytes_of_string_of k), E, bytes_of_string_of.
  - intros k' v' d' Hi. by rewrite Put_invalid, Get_invalid.
Qed.

Lemma DiskvStorage_put_get_witness :
  exists d1, Put (bytes_of "key_1") (bytes_of "v") (mkDisk ∅) = (Ok tt, d1)
    /\ (exists d2, Get (bytes_of "key_1") d1 = (Ok (Some (bytes_of "v")), d2)).
Proof.
  destruct (DiskvStorage_put_get (mkDisk ∅) (bytes_of "key_1") (bytes_of "v"))
    as (d1 & E1 & E2 & _); [done|done|reflexivity|]. by exists d1.
Defined.

(** The snapshot of a disk of valid keys holds every key but the version
    key, each once, with its value, and nothing else. *)
Theorem DiskvStorage_snapshot {D} `{DL : DiskvLaws D} (d : D) term :
  dv_ok d -> map_Forall (fun k _ => k <> EmptyString /\ validateKeyFormat k = true) (dv_map d) ->
  exists d' es, LatestSnapshotData term d = (Ok (mkSnapshot EmptySequenceId es), d')
    /\ dv_map d' = dv_map d
    /\ NoDup es.*1
    /\ forall k v, (k, v) ∈ es <-> dv_map d !! string_of k = Some v
                                   /\ string_of k <> VersionKeyString.
Proof.
  intros Hd Hall. destruct (LatestSnapshotData_ok d term Hd Hall) as (d' & es & ? & _ & ?).
  by exists d', es.
Qed.

Lemma DiskvStorage_snapshot_witness :
  (LatestSnapshotData 0 (mkDisk (<["a" := bytes_of "1"]> {[VersionKeyString := bytes_of "0"]}))).1
    = Ok (mkSnapshot EmptySequenceId [(bytes_of "a", bytes_of "1")])
  /\ exists d' es,
    LatestSnapshotData 0 (mkDisk (<["a" := bytes_of "1"]> {[VersionKeyString := bytes_of "0"]}))
      = (Ok (mkSnapshot EmptySequenceId es), d')
    /\ NoDup es.*1.
Proof.
  split; [vm_compute; reflexivity|].
  destruct (DiskvStorage_snapshot
    (mkDisk (<["a" := bytes_of "1"]> {[VersionKeyString := bytes_of "0"]})) 0)
    as (d' & es & E & _ & Hn & _); [exact I| |exists d', es; exact (conj E Hn)].
  intros k v Hk. cbn [dv_map MapDisk_laws files] in Hk.
  apply lookup_insert_Some in Hk as [[<- <-]|[_ [<- <-]%lookup_singleton_Some]];
    (split; [done|vm_compute; reflexivity]).
Defined.
