(* ===== verification/KvStore.v ===== *)
(** * The single-node store (internal/service/solestorage.go)

    [KVStorageAdvImpl]: every [Put] is logged, applied to the key-value storage
    and acknowledged with the version key; [Initialize] replays what the log
    has and the storage may have missed.  The storage is any instance of
    [KVStorageAdv]; the cbor encoding, a library, is the class [Cbor]. *)

From stdpp Require Import base list gmap strings sorting.
From Stdlib Require Import ZArith Lia.
From S2P Require Import Prelude GoStr Bytes Toy SequenceId WalPage Wal WalNames WalLog WalOpen WalReplay Storage.
Local Open Scope Z_scope.
Local Open Scope go_scope.

(** ** Definitions *)

Record WalEntry := mkEntry { K : list byte; V : list byte; D : bool }.

(** [iface.WalLog] (internal/iface/storage.go): an entry with its position. *)
Record WalLog := mkWalLog {
  LogK : list byte;
  LogV : list byte;
  LogD : bool;
  LogSequenceId : SequenceId;
}.

(** cbor.Marshal and cbor.Unmarshal at the two types the source uses. *)
Class Cbor := {
  Marshal_seq : SequenceId -> exec (list byte);
  Unmarshal_seq : list byte -> exec SequenceId;
  Marshal_entry : WalEntry -> exec (list byte);
  Unmarshal_entry : list byte -> exec WalEntry;
}.

Class CborLaws (C : Cbor) : Prop := {
  cbor_seq s : exists dat, Marshal_seq s = Ok dat /\ Unmarshal_seq dat = Ok s;
  cbor_entry e : exists dat, Marshal_entry e = Ok dat /\ Unmarshal_entry dat = Ok e;
}.

Section KVStorageAdvImpl.
Context {KV : Type} `{!KVStorageAdv KV} `{!Cbor}.

(** The fields [wal] (with its folder) and [kv]. *)
Notation Store := (World * KV)%type.

Definition readVersion : M Store (option SequenceId) :=
  let* r := on_snd (kv_Get VersionKey) in
  match r with
  | None => ret None
  | Some dat => let* seq := lift (Unmarshal_seq dat) in ret (Some seq)
  end.

Definition writeVersion (seq : SequenceId) : M Store unit :=
  let* dat := lift (Marshal_seq seq) in
  on_snd (kv_Put VersionKey dat).

Definition recoverFn (buf : list byte) : M KV unit :=
  let* entry := lift (Unmarshal_entry buf) in
  kv_Put (K entry) (V entry).

Definition Initialize : M Store unit :=
  let* _ := on_fst Wal.Initialize in
  let* v := readVersion in
  let seq := match v with None => StartWalSequence | Some seq => seq end in
  let* seq := ReplayIncomplete recoverFn seq in
  writeVersion seq.

Definition writeWalEntry (entry : WalEntry) : M Store SequenceId :=
  let* dat := lift (Marshal_entry entry) in
  on_fst (WriteEntry dat).

Definition Put (key val : list byte) : M Store unit :=
  let entry := mkEntry key val false in
  let* seq := writeWalEntry entry in
  let* _ := on_snd (kv_Put key val) in
  writeVersion seq.

Definition Get (key : list byte) : M Store (option (list byte)) :=
  on_snd (kv_Get key).

Definition LatestSnapshotData (term : Z) : M Store Snapshot :=
  let* r := readVersion in
  let ver := match r with Some seq => seq | None => EmptySequenceId end in
  let* snapshot := on_snd (kv_LatestSnapshotData term) in
  if decide (SnapshotSequenceId snapshot = EmptySequenceId)
  then ret (mkSnapshot ver (Entries snapshot))
  else ret snapshot.

Definition CurrentPosition : M Store SequenceId :=
  let* r := readVersion in
  ret (match r with Some seq => seq | None => EmptySequenceId end).

Definition WalLogs (from : SequenceId) : M Store (list WalLog) := panic "implement me".
Definition Replay (logs : list WalLog) : M Store unit := panic "implement me".
End KVStorageAdvImpl.

(** ** Abstract specification: a list of puts *)

(** The map after the puts [es], the last one of a key winning. *)
Fixpoint apply_all (es : list WalEntry) (m : gmap string (list byte)) : gmap string (list byte) :=
  match es with
  | [] => m
  | e :: es => apply_all es (<[string_of (K e) := V e]> m)
  end.

(** Keys that the storage accepts and that are not the version key. *)
Definition user_key (k : list byte) : Prop :=
  k <> [] /\ validateKeyFormat (string_of k) = true /\ string_of k <> VersionKeyString.

Section Spec.
Context {KV : Type} `{KL : KVLaws KV} `{CL : CborLaws}.

(** An entry fits one page and is accepted by the storage. *)
Definition entry_fits (p : Z) (e : WalEntry) : Prop :=
  user_key (K e) /\ exists dat, Marshal_entry e = Ok dat /\ Z.of_nat (length dat) <= p - 8.

Definition encodes (r : record) (e : WalEntry) : Prop := Marshal_entry e = Ok r.1.

(** The storage holds the puts [es]; the version key, the position [pos]. *)
Record kv_holds (d : KV) (es : list WalEntry) : Prop := {
  kh_ok : kv_ok d;
  kh_map : delete VersionKeyString (kv_map d) = apply_all es ∅;
}.

Definition version_is (d : KV) (pos : SequenceId) : Prop :=
  exists dat, kv_map d !! VersionKeyString = Some dat /\ Unmarshal_seq dat = Ok pos.

(** The running store holds the puts [es]: so does its log [L], and its
    version is the position of the log. *)
Record store_inv (s : World * KV) (L : log) (es : list WalEntry) : Prop := {
  si_wal : wal_inv s.1 L;
  si_faults : faults s.1 = [];
  si_log : Forall2 encodes (all_recs L) es;
  si_fits : Forall (entry_fits (maxPageSize (wal s.1))) es;
  si_kv : kv_holds s.2 es;
  si_ver : match es with
           | [] => kv_map s.2 !! VersionKeyString = None \/ version_is s.2 StartWalSequence
           | _ => version_is s.2 (curPosition (wal s.1))
           end;
}.
End Spec.

(** The process stops and a new one opens the same folders. *)
Definition restart {KV} (s : World * KV) : World * KV :=
  (mkWorld (reopened (wal s.1)) (disk s.1) [], s.2).

(** [n] processes, one after the other, open the store and end. *)
Definition restarts {KV} `{!KVStorageAdv KV} `{!Cbor} (n : nat) (s : World * KV) : World * KV :=
  Nat.iter n (fun s => (Initialize (restart s)).2) s.

(** ** Lemmas *)

Lemma restarts_S {KV} `{!KVStorageAdv KV} `{!Cbor} n (s : World * KV) :
  restarts (S n) s = (Initialize (restart (restarts n s))).2.
Proof. done. Qed.

Lemma apply_all_app es1 es2 m : apply_all (es1 ++ es2) m = apply_all es2 (apply_all es1 m).
Proof. revert m. induction es1 as [|e es1 IH]; intros m; [done|]. cbn. apply IH. Qed.

(** A key bound by [es] has a value that does not depend on the start. *)
Lemma apply_all_lookup es k :
  (exists v, forall m, apply_all es m !! k = Some v) \/ (forall m, apply_all es m !! k = m !! k).
Proof.
  induction es as [|e es IH]; [by right|]. cbn. destruct IH as [[v Hv]|Hn].
  - left. exists v. intros m. apply Hv.
  - destruct (decide (string_of (K e) = k)) as [<-|Hk].
    + left. exists (V e). intros m. rewrite Hn. apply lookup_insert_eq.
    + right. intros m. rewrite Hn. by apply lookup_insert_ne.
Qed.

Lemma apply_all_idem es m : apply_all es (apply_all es m) = apply_all es m.
Proof.
  apply map_eq. intros k. destruct (apply_all_lookup es k) as [[v Hv]|Hn]; [by rewrite !Hv|].
  by rewrite !Hn.
Qed.

(** Replaying a suffix that was already applied changes nothing. *)
Lemma apply_all_suffix es1 es2 es3 m :
  apply_all (es2 ++ es3) (apply_all (es1 ++ es2) m) = apply_all (es1 ++ es2 ++ es3) m.
Proof. by rewrite !apply_all_app, apply_all_idem. Qed.

Lemma apply_all_delete es m :
  Forall (fun e => user_key (K e)) es ->
  delete VersionKeyString (apply_all es m) = apply_all es (delete VersionKeyString m).
Proof.
  intros H. revert m. induction H as [|e es (_ & _ & He) _ IH]; intros m; [done|].
  cbn. rewrite IH. f_equal. by rewrite delete_insert_ne.
Qed.

Lemma apply_all_version es m :
  Forall (fun e => user_key (K e)) es ->
  apply_all es m !! VersionKeyString = m !! VersionKeyString.
Proof.
  intros Hes. revert m. induction Hes as [|e es (_ & _ & He) _ IH]; intros m; [done|].
  cbn. rewrite IH. by apply lookup_insert_ne.
Qed.

Lemma VersionKey_valid : VersionKey <> [] /\ validateKeyFormat (string_of VersionKey) = true.
Proof. split; [done|reflexivity]. Qed.

Lemma VersionKey_string : string_of VersionKey = VersionKeyString.
Proof. apply string_of_bytes_of. Qed.

Section Lemmas.
Context {KV : Type} `{KL : KVLaws KV} `{CL : CborLaws}.

Lemma writeVersion_ok w d pos :
  kv_ok d ->
  exists d', writeVersion pos (w, d) = (Ok tt, (w, d')) /\ kv_ok d' /\ version_is d' pos
    /\ delete VersionKeyString (kv_map d') = delete VersionKeyString (kv_map d).
Proof.
  intros Hd. destruct (cbor_seq pos) as (dat & Em & Eu).
  destruct (kv_Put_valid d VersionKey dat Hd (proj1 VersionKey_valid) (proj2 VersionKey_valid))
    as (d' & Ep & Hd' & Hm). rewrite VersionKey_string in Hm.
  exists d'. unfold writeVersion, bind, lift, on_snd. rewrite Em. cbn [fst snd]. rewrite Ep.
  split_and!; [done|done| |by rewrite Hm, delete_insert_eq].
  exists dat. by rewrite Hm, lookup_insert_eq.
Qed.

Lemma readVersion_none w d :
  kv_ok d -> kv_map d !! VersionKeyString = None ->
  exists d', readVersion (w, d) = (Ok None, (w, d')) /\ kv_ok d' /\ kv_map d' = kv_map d.
Proof.
  intros Hd Hn. destruct (kv_Get_valid d VersionKey Hd (proj1 VersionKey_valid)
    (proj2 VersionKey_valid)) as (d' & Eg & Hd' & Hm). rewrite VersionKey_string, Hn in Eg.
  exists d'. unfold readVersion, bind, on_snd. cbn [fst snd]. by rewrite Eg.
Qed.

Lemma readVersion_some w d pos :
  kv_ok d -> version_is d pos ->
  exists d', readVersion (w, d) = (Ok (Some pos), (w, d')) /\ kv_ok d' /\ kv_map d' = kv_map d.
Proof.
  intros Hd (dat & Hv & Hu). destruct (kv_Get_valid d VersionKey Hd (proj1 VersionKey_valid)
    (proj2 VersionKey_valid)) as (d' & Eg & Hd' & Hm). rewrite VersionKey_string, Hv in Eg.
  exists d'. unfold readVersion, bind, on_snd, lift. cbn [fst snd]. by rewrite Eg, Hu.
Qed.

(** Replaying encoded entries applies them. *)
Lemma feed_recover (recs : list record) es d :
  kv_ok d -> Forall2 encodes recs es -> Forall (fun e => user_key (K e)) es ->
  exists d', feed recoverFn recs.*1 d = (Ok tt, d') /\ kv_ok d'
    /\ kv_map d' = apply_all es (kv_map d).
Proof.
  intros Hd Hr. revert d Hd. induction Hr as [|r e recs es Hre Hr IH]; intros d Hd Hk;
    [by exists d|].
  inversion Hk as [|? ? (Hne & Hv & _) Hk']; subst.
  destruct (cbor_entry e) as (dat & Em & Eu). unfold encodes in Hre. rewrite Em in Hre.
  injection Hre as ->.
  destruct (kv_Put_valid d (K e) (V e) Hd Hne Hv) as (d1 & Ep & Hd1 & Hm1).
  destruct (IH d1 Hd1 Hk') as (d2 & E2 & Hd2 & Hm2).
  exists d2. cbn [fmap list_fmap feed apply_all]. rewrite <-Hm1. split_and!; [|done|done].
  rewrite (bind_ok _ _ _ tt d1); [done|].
  unfold recoverFn, bind, lift. by rewrite Eu.
Qed.

(** [Initialize] once the log is open and the replay of the version succeeds. *)
Lemma Initialize_steps w w2 d seq pos cur (Q : KV -> Prop) :
  Wal.Initialize w = (Ok seq, w2) -> kv_ok d ->
  (kv_map d !! VersionKeyString = None /\ pos = StartWalSequence \/ version_is d pos) ->
  (forall d1, kv_ok d1 -> kv_map d1 = kv_map d -> exists d2,
     ReplayIncomplete recoverFn pos (w2, d1) = (Ok cur, (w2, d2)) /\ kv_ok d2 /\ Q d2) ->
  exists d2 d3, Initialize (w, d) = (Ok tt, (w2, d3)) /\ kv_ok d3 /\ Q d2 /\ version_is d3 cur
    /\ delete VersionKeyString (kv_map d3) = delete VersionKeyString (kv_map d2).
Proof.
  intros Ei Hd Hv Hrep.
  assert (Hr : exists v d1, readVersion (w2, d) = (Ok v, (w2, d1)) /\ kv_ok d1
      /\ kv_map d1 = kv_map d
      /\ match v with None => StartWalSequence | Some seq => seq end = pos).
  { destruct Hv as [[Hn ->]|Hv].
    - destruct (readVersion_none w2 d Hd Hn) as (d1 & E & ? & ?). by exists None, d1.
    - destruct (readVersion_some w2 d pos Hd Hv) as (d1 & E & ? & ?). by exists (Some pos), d1. }
  destruct Hr as (v & d1 & Ev & Hd1 & Hm1 & Hpos).
  destruct (Hrep d1 Hd1 Hm1) as (d2 & Er & Hd2 & HQ).
  destruct (writeVersion_ok w2 d2 cur Hd2) as (d3 & Ew & Hd3 & Hv3 & Hm3).
  exists d2, d3. split_and!; try done. unfold Initialize.
  unfold bind at 1, on_fst. cbn [fst snd]. rewrite Ei.
  rewrite (bind_ok _ _ _ _ _ Ev). cbn zeta. rewrite Hpos.
  by rewrite (bind_ok _ _ _ _ _ Er).
Qed.

(** The log write of a fitting entry appends one [Whole] record. *)
Lemma writeWalEntry_ok w (d : KV) L e :
  wal_inv w L -> faults w = [] -> entry_fits (maxPageSize (wal w)) e ->
  curCollection (wal w) + 2 ^ 16 < 2 ^ 63 ->
  exists w1 L' dat, writeWalEntry e (w, d) = (Ok (curPosition (wal w1)), (w1, d))
    /\ wal_inv w1 L' /\ Marshal_entry e = Ok dat
    /\ entry_recs (Z.to_nat (maxPageSize (wal w) - 8)) dat = [(dat, EntryTypeWhole)]
    /\ grown w w1 L L' [(dat, EntryTypeWhole)].
Proof.
  intros Hinv Hf (Hk & dat & Em & Hl) Hc. destruct (wi_params _ _ Hinv) as [Hp _].
  destruct (WriteEntry_ok w L dat Hinv Hf) as (w1 & L' & E & Hinv1 & Hg & _); [lia|].
  assert (Hone : entry_recs (Z.to_nat (maxPageSize (wal w) - 8)) dat = [(dat, EntryTypeWhole)]).
  { unfold entry_recs. by destruct (Nat.leb_spec (length dat) (Z.to_nat (maxPageSize (wal w) - 8)));
      [|lia]. }
  exists w1, L', dat. rewrite Hone in Hg. split_and!; try done.
  unfold writeWalEntry, bind, lift, on_fst. rewrite Em. cbn [fst snd]. by rewrite E.
Qed.

Lemma fits_keys p es : Forall (entry_fits p) es -> Forall (fun e => user_key (K e)) es.
Proof. intros Hf. eapply Forall_impl; [exact Hf|]. by intros e [? _]. Qed.

(** One [Put], with the storage states a crash can leave behind. *)
Lemma Put_steps w d L es k v :
  store_inv (w, d) L es -> entry_fits (maxPageSize (wal w)) (mkEntry k v false) ->
  curCollection (wal w) + 2 ^ 16 < 2 ^ 63 ->
  exists w1 L' dat d1 d2,
    writeWalEntry (mkEntry k v false) (w, d) = (Ok (curPosition (wal w1)), (w1, d))
    /\ kv_Put k v d = (Ok tt, d1)
    /\ Put k v (w, d) = (Ok tt, (w1, d2))
    /\ kv_holds d1 (es ++ [mkEntry k v false])
    /\ kv_map d1 !! VersionKeyString = kv_map d !! VersionKeyString
    /\ entry_recs (Z.to_nat (maxPageSize (wal w) - 8)) dat = [(dat, EntryTypeWhole)]
    /\ grown w w1 L L' [(dat, EntryTypeWhole)]
    /\ Forall2 encodes (all_recs L') (es ++ [mkEntry k v false])
    /\ store_inv (w1, d2) L' (es ++ [mkEntry k v false]).
Proof.
  intros [Hinv Hf Hlog Hfits [Hd Hm] Hver] He Hc. cbn [fst snd] in *.
  destruct (writeWalEntry_ok w d L _ Hinv Hf He Hc) as (w1 & L' & dat & Ew & Hinv1 & Em & Hone & Hg).
  destruct He as (Huk & He). destruct Huk as (Hne & Hv & Hnv). cbn [K V] in *.
  destruct (kv_Put_valid d k v Hd Hne Hv) as (d1 & Ep & Hd1 & Hm1).
  destruct (writeVersion_ok w1 d1 (curPosition (wal w1)) Hd1) as (d2 & Ev & Hd2 & Hv2 & Hm2).
  assert (Hmap : delete VersionKeyString (kv_map d1) = apply_all (es ++ [mkEntry k v false]) ∅).
  { rewrite Hm1, delete_insert_ne, Hm, apply_all_app by done. done. }
  assert (Hlog' : Forall2 encodes (all_recs L') (es ++ [mkEntry k v false])).
  { rewrite (gr_recs _ _ _ _ _ Hg). apply Forall2_app; [done|]. by constructor. }
  exists w1, L', dat, d1, d2. split_and!; try done.
  - unfold Put. rewrite (bind_ok _ _ _ _ _ Ew). unfold bind, on_snd. cbn [fst snd]. by rewrite Ep.
  - rewrite Hm1. by apply lookup_insert_ne.
  - split; cbn [fst snd]; [done|apply Hg|done| |split; [done|by rewrite Hm2]|by destruct es].
    rewrite (gr_page _ _ _ _ _ Hg). apply Forall_app; split; [done|]. repeat constructor; done.
Qed.
End Lemmas.

(** ** Crashes *)

Section CrashLemmas.
Context {KV : Type} `{KL : KVLaws KV} `{CL : CborLaws}.

Lemma ReplayIncomplete_current {R} (fn : list byte -> M R unit) w r :
  ReplayIncomplete fn (curPosition (wal w)) (w, r) = (Ok (curPosition (wal w)), (w, r)).
Proof. unfold ReplayIncomplete, bind at 1, curPosition. cbn. by rewrite !Z.eqb_refl. Qed.

(** The newest file of a log in use, and the position in it. *)
Lemma wal_inv_newest w L :
  wal_inv w L -> L <> [] ->
  exists L0 k recs, L = L0 ++ [(k, recs)]
    /\ curPosition (wal w) = mkSeq k.1 k.2 (Z.of_nat (length recs)).
Proof.
  intros Hinv Hne. pose proof (wi_cur _ _ Hinv) as Hc. destruct (curFile (wal w)).
  - destruct Hc as (L0 & recs & -> & _ & HS & _). eexists L0, _, recs. split; [done|].
    unfold curPosition. by rewrite HS.
  - by destruct Hc as [-> _].
Qed.

(** The replay after a crash that lost nothing but the last version. *)
Lemma replay_after_crash w w1 w2 L L' (rs : list record) es d :
  wal_inv w L -> L <> [] -> grown w w1 L L' rs -> rs <> [] -> wal_inv w2 L' -> faults w2 = [] ->
  curPosition (wal w2) = curPosition (wal w1) -> Forall2 encodes (all_recs L) es ->
  exists es1 es2, es = es1 ++ es2 /\
    ReplayIncomplete recoverFn (curPosition (wal w)) (w2, d)
    = (let* _ := on_snd (feed recoverFn (take (length es2) (drop (length es1) (all_recs L')) ++ rs).*1) in
       ret (curPosition (wal w2))) (w2, d)
    /\ Forall2 encodes (take (length es2) (drop (length es1) (all_recs L'))) es2.
Proof.
  intros Hinv Hne Hg Hrs Hinv2 Hf2 Hpos Hlog.
  destruct (wal_inv_newest w L Hinv Hne) as (L0 & k & recs & -> & Hcur).
  destruct (gr_ext _ _ _ _ _ Hg _ _ _ eq_refl) as (recs' & L2 & ->).
  pose proof (gr_pos _ _ _ _ _ Hg Hrs) as Hlt. rewrite Hcur, <-Hpos in Hlt.
  pose proof (gr_recs _ _ _ _ _ Hg) as Hall. rewrite (all_recs_app L0 [_]), all_recs_one in Hall, Hlog.
  rewrite Hall.
  apply Forall2_app_inv_l in Hlog as (es1 & es2 & H1 & H2 & ->).
  exists es1, es2. split; [done|].
  rewrite <-(Forall2_length _ _ _ H1), <-(Forall2_length _ _ _ H2), <-app_assoc, drop_app_length,
    take_app_length.
  split; [|done]. rewrite Hcur, (ReplayIncomplete_inside _ _ _ _ _ _ _ _ Hinv2 Hf2 Hlt).
  by rewrite (gr_suffix _ _ _ _ _ _ _ _ _ Hg eq_refl).
Qed.

Lemma all_recs_nonempty L (es : list WalEntry) :
  Forall2 encodes (all_recs L) es -> es <> [] -> L <> [].
Proof. intros Hl Hne ->. inversion Hl. by subst. Qed.
End CrashLemmas.

Lemma entry_recs_whole M bs : entry_recs M bs = [(bs, EntryTypeWhole)] -> (length bs <= M)%nat.
Proof.
  unfold entry_recs. destruct (Nat.leb_spec (length bs) M) as [|Hl]; [done|].
  destruct (length bs) as [|n]; [lia|]. cbn [split_recs]. by destruct (_ <=? _)%nat.
Qed.

Section Recovery.
Context {KV : Type} `{KL : KVLaws KV} `{CL : CborLaws}.

(** The new process, up to the replay: [w2] is its open log. *)
Lemma recover_with (w1 w2 : World) (d : KV) L' es' pos :
  Wal.Initialize (mkWorld (reopened (wal w1)) (disk w1) []) = (Ok (curPosition (wal w1)), w2) ->
  wal_inv w2 L' -> faults w2 = [] -> Forall2 encodes (all_recs L') es' ->
  Forall (entry_fits (maxPageSize (wal w2))) es' -> es' <> [] ->
  kv_ok d -> version_is d pos ->
  (forall d1, kv_ok d1 -> kv_map d1 = kv_map d -> exists d2,
     ReplayIncomplete recoverFn pos (w2, d1) = (Ok (curPosition (wal w2)), (w2, d2))
     /\ kv_ok d2 /\ delete VersionKeyString (kv_map d2) = apply_all es' ∅) ->
  exists s', Initialize (restart (w1, d)) = (Ok tt, s') /\ store_inv s' L' es' /\ s'.1 = w2.
Proof.
  intros Ei Hi2 Hf2 Hlog Hfit Hne Hok Hv Hrep.
  destruct (Initialize_steps _ w2 d _ pos _ _ Ei Hok (or_intror Hv) Hrep)
    as (d2 & d3 & E & Hok3 & HQ & Hv3 & Hm3).
  exists (w2, d3). split; [exact E|]. split; [|done]. split; cbn [fst snd]; try done.
  - split; [done|]. by rewrite Hm3.
  - by destruct es'.
Qed.

(** The storage holds the old puts or all of them, the version is the old one. *)
Lemma recover_old_version w w1 L L' r e es (d : KV) dx :
  store_inv (w, d) L es -> es <> [] -> grown w w1 L L' [r] ->
  r = (r.1, EntryTypeWhole) -> (length r.1 <= Z.to_nat (maxPageSize (wal w) - 8))%nat ->
  wal_inv w1 L' -> Forall2 encodes (all_recs L') (es ++ [e]) ->
  Forall (entry_fits (maxPageSize (wal w))) (es ++ [e]) ->
  (kv_holds dx es \/ kv_holds dx (es ++ [e])) ->
  version_is dx (curPosition (wal w)) ->
  exists s', Initialize (restart (w1, dx)) = (Ok tt, s') /\ store_inv s' L' (es ++ [e])
    /\ curPosition (wal s'.1) = curPosition (wal w1) /\ maxPageSize (wal s'.1) = maxPageSize (wal w).
Proof.
  intros Hs Hne Hg Hr Hlen Hi1 Hlog Hfit Hdx Hv.
  pose proof Hs as [Hi _ Hlog0 _ _ _]. cbn [fst snd] in *.
  destruct (wi_params _ _ Hi) as [Hp _].
  assert (Hone : entry_recs (Z.to_nat (maxPageSize (wal w) - 8)) r.1 = [r]).
  { unfold entry_recs. apply Nat.leb_le in Hlen as ->. by rewrite <-Hr. }
  pose proof Hg as Hg'. rewrite <-Hone in Hg'.
  destruct (Initialize_written _ _ _ _ (Z.to_nat (maxPageSize (wal w) - 8)) _ Hi1 ltac:(lia) Hg')
    as (w2 & Ei & Hi2 & Hd2 & Hf2 & Hcur2 & Hsy & [_ Hmp]%reopened_sizes).
  rewrite <-(gr_page _ _ _ _ _ Hg), <-Hmp in Hfit.
  assert (Hok : kv_ok dx) by by destruct Hdx as [[]|[]].
  cut (exists s', Initialize (restart (w1, dx)) = (Ok tt, s') /\ store_inv s' L' (es ++ [e]) /\ s'.1 = w2).
  { intros (s' & E & Hs' & Hw). exists s'. by rewrite Hw, Hmp, (gr_page _ _ _ _ _ Hg). }
  eapply recover_with; [exact Ei|done..|by destruct es|done|exact Hv|].
  intros d1 Hok1 Hm1.
  destruct (replay_after_crash w w1 w2 L L' [r] es d1 Hi (all_recs_nonempty _ _ Hlog0 Hne) Hg
    ltac:(done) Hi2 Hf2 Hcur2 Hlog0) as (es1 & es2 & -> & Er & H2).
  assert (Hk : Forall (fun e => user_key (K e)) (es2 ++ [e])).
  { apply fits_keys in Hfit. rewrite <-app_assoc in Hfit. by apply Forall_app in Hfit as [_ ?]. }
  destruct (feed_recover (take (length es2) (drop (length es1) (all_recs L')) ++ [r]) (es2 ++ [e]) d1)
    as (d2 & Ef & Hok2 & Hm2); [done| |done|].
  { apply Forall2_app; [done|]. rewrite (gr_recs _ _ _ _ _ Hg) in Hlog.
    apply Forall2_app_inv in Hlog as [_ ?]; [done|]. by apply Forall2_length in Hlog0. }
  exists d2. rewrite Er. split; [|split; [done|]].
  - unfold bind, on_snd. cbn [fst snd]. by rewrite Ef.
  - rewrite Hm2, apply_all_delete, Hm1, <-app_assoc by done.
    destruct Hdx as [[_ ->]|[_ ->]]; [apply apply_all_suffix|].
    by rewrite <-app_assoc, (apply_all_app es1 (es2 ++ [e])), apply_all_idem.
Qed.
(** A process that stops during a [Put], after the log write. *)
Lemma Put_crash w (d : KV) L es k v seq w1 dx :
  store_inv (w, d) L es -> es <> [] ->
  entry_fits (maxPageSize (wal w)) (mkEntry k v false) -> curCollection (wal w) + 2 ^ 16 < 2 ^ 63 ->
  writeWalEntry (mkEntry k v false) (w, d) = (Ok seq, (w1, d)) ->
  (dx = d \/ dx = (kv_Put k v d).2 \/ dx = (Put k v (w, d)).2.2) ->
  exists s' L' dat, Initialize (restart (w1, dx)) = (Ok tt, s')
    /\ store_inv s' L' (es ++ [mkEntry k v false])
    /\ grown w w1 L L' [(dat, EntryTypeWhole)] /\ curPosition (wal s'.1) = curPosition (wal w1)
    /\ maxPageSize (wal s'.1) = maxPageSize (wal w).
Proof.
  intros Hs Hne He Hc Ew1 Hdx. destruct (wi_params _ _ (si_wal _ _ _ Hs)) as [Hp _].
  destruct (Put_steps w d L es k v Hs He Hc)
    as (w1' & L' & dat & d1 & d2 & Ew & Ep1 & Ep & Hh & Hver1 & Hone & Hg & Hlog & Hs2).
  rewrite Ew1 in Ew. injection Ew as -> <-. rewrite Ep1, Ep in Hdx. cbn [fst snd] in Hdx.
  pose proof Hs2 as [Hi1 Hf1 _ Hfit1 Hh2 Hver2]. cbn [fst snd] in *.
  pose proof (entry_recs_whole _ _ Hone) as Hl.
  pose proof (si_ver _ _ _ Hs) as Hver. cbn [fst snd] in Hver.
  assert (Hver' : version_is d (curPosition (wal w))) by by destruct es.
  rewrite (gr_page _ _ _ _ _ Hg) in Hfit1.
  destruct Hdx as [-> | [-> | ->]].
  - edestruct (recover_old_version w w1 L L' _ (mkEntry k v false) es d d Hs Hne Hg) as (s' & E & Hs' & Hpos'); try done; [|by exists s', L', dat].
    left. apply (si_kv _ _ _ Hs).
  - edestruct (recover_old_version w w1 L L' _ (mkEntry k v false) es d d1 Hs Hne Hg) as (s' & E & Hs' & Hpos'); try done; [|..|by exists s', L', dat].
    + by right.
    + destruct Hver' as (b & ? & ?). exists b. by rewrite Hver1.
  - pose proof Hg as Hg'. rewrite <-Hone in Hg.
    destruct (Initialize_written _ _ _ _ (Z.to_nat (maxPageSize (wal w) - 8)) _ Hi1 ltac:(lia) Hg)
      as (w2 & Ei & Hi2 & Hd2 & Hf2 & Hcur2 & Hsy & [_ Hmp]%reopened_sizes).
    rewrite <-(gr_page _ _ _ _ _ Hg), <-Hmp in Hfit1.
    edestruct (recover_with w1 w2 d2 L' _ (curPosition (wal w2)) Ei Hi2 Hf2 Hlog Hfit1)
      as (s' & E & Hs' & Hw); [by destruct es|apply Hh2| |..].
    + rewrite Hcur2. by destruct es.
    + intros d3 Hok3 Hm3. exists d3. rewrite ReplayIncomplete_current.
      split_and!; [done|done|]. by rewrite Hm3, (kh_map _ _ Hh2).
    + exists s', L', dat. rewrite Hw, Hmp, (gr_page _ _ _ _ _ Hg). by split_and!.
Qed.
End Recovery.

(** A process that stopped after the log write, and whose replay fails at the
    first new record, does not start again. *)
Section Stuck.
Context {KV : Type} `{KL : KVLaws KV} `{CL : CborLaws}.

Lemma Initialize_stuck w w1 (d : KV) L L' es M dat bs t rest err :
  wal_inv w L -> Forall2 encodes (all_recs L) es -> Forall (fun e => user_key (K e)) es ->
  es <> [] -> wal_inv w1 L' -> (0 < M)%nat ->
  grown w w1 L L' (entry_recs M dat) -> entry_recs M dat = (bs, t) :: rest ->
  (forall d, kv_ok d -> recoverFn bs d = (Fail err, d)) ->
  kv_ok d -> version_is d (curPosition (wal w)) ->
  exists w2 d', Initialize (restart (w1, d)) = (Fail err, (w2, d'))
    /\ restart (w2, d') = restart (w1, d') /\ kv_ok d' /\ version_is d' (curPosition (wal w)).
Proof.
  intros Hi Hlog Hk Hne Hi1 HM Hg Er Hbad Hok Hver.
  destruct (Initialize_written _ _ _ _ M _ Hi1 HM Hg) as (w2 & Ei & Hi2 & Hd2 & Hf2 & Hcur2 & _ & Hre).
  rewrite Er in Hg.
  destruct (readVersion_some w2 d _ Hok Hver) as (d1 & Erd & Hok1 & Hm1).
  destruct (replay_after_crash w w1 w2 L L' _ es d1 Hi (all_recs_nonempty _ _ Hlog Hne) Hg
    ltac:(done) Hi2 Hf2 Hcur2 Hlog) as (es1 & es2 & -> & Erp & H2).
  apply Forall_app in Hk as [_ Hk2].
  destruct (feed_recover _ es2 d1 Hok1 H2 Hk2) as (d2 & Ef & Hok2 & Hm2).
  exists w2, d2. split_and!; [|unfold restart; cbn; by rewrite Hre, Hd2|done|].
  - unfold Initialize, restart. unfold bind at 1, on_fst. cbn [fst snd]. rewrite Ei.
    rewrite (bind_ok _ _ _ _ _ Erd). cbn zeta. unfold bind at 1. rewrite Erp.
    unfold bind at 1, on_snd at 1. cbn [fst snd]. rewrite fmap_app, feed_app.
    rewrite (bind_ok _ _ _ _ _ Ef). cbn [fmap list_fmap fst feed].
    unfold bind at 1. by rewrite (Hbad d2 Hok2).
  - destruct Hver as (b & Hb & Hu). exists b. by rewrite Hm2, apply_all_version, Hm1.
Qed.

(** However many processes try, each fails in the same way. *)
Lemma restarts_stuck w w1 (d : KV) L L' es M dat bs t rest err n :
  store_inv (w, d) L es -> es <> [] -> wal_inv w1 L' -> (0 < M)%nat ->
  grown w w1 L L' (entry_recs M dat) -> entry_recs M dat = (bs, t) :: rest ->
  (forall d, kv_ok d -> recoverFn bs d = (Fail err, d)) ->
  (Initialize (restart (restarts n (w1, d)))).1 = Fail err.
Proof.
  intros [Hi _ Hlog Hfit [Hok _] Hver] Hne Hi1 HM Hg Er Hbad. cbn [fst snd] in *.
  apply fits_keys in Hfit. assert (Hver' : version_is d (curPosition (wal w))) by by destruct es.
  assert (Hn : exists d', restart (restarts n (w1, d)) = restart (w1, d') /\ kv_ok d'
    /\ version_is d' (curPosition (wal w))).
  { induction n as [|n (d' & En & Hok' & Hver'')]; [by exists d|].
    destruct (Initialize_stuck w w1 d' L L' es M dat bs t rest err) as (w2 & d2 & E & Ere & ? & ?); try done.
    exists d2. by rewrite restarts_S, En, E. }
  destruct Hn as (d' & -> & Hok' & Hver'').
  by destruct (Initialize_stuck w w1 d' L L' es M dat bs t rest err) as (w2 & d2 & -> & _).
Qed.

End Stuck.

(** ** A concrete encoding *)

(** Not cbor, but an encoding with the same laws, so that the theorems can be
    run: a flag, the key with every byte marked, a terminator, the value. *)
Module ToyCbor.
Fixpoint enc_key (k v : list byte) : list byte :=
  match k with
  | [] => x00 :: v
  | b :: k => x01 :: b :: enc_key k v
  end.
Fixpoint dec_key (bs : list byte) : option (list byte * list byte) :=
  match bs with
  | x00 :: v => Some ([], v)
  | x01 :: b :: bs => p ← dec_key bs; Some (b :: p.1, p.2)
  | _ => None
  end.

Definition seq_triple (s : SequenceId) := (Term s, Collection s, Seq s).

#[export] Instance toy_cbor : Cbor := {|
  Marshal_seq s := Ok (toy_enc (seq_triple s));
  Unmarshal_seq bs := match toy_dec (A := Z * Z * Z) bs with
                      | Ok t => Ok (mkSeq t.1.1 t.1.2 t.2)
                      | _ => Fail (ExtError "malformed")
                      end;
  Marshal_entry e := Ok ((if D e then x01 else x00) :: enc_key (K e) (V e));
  Unmarshal_entry bs := of_option
    match bs with
    | b :: bs => p ← dec_key bs; Some (mkEntry p.1 p.2 (bool_decide (b = x01)))
    | [] => None
    end;
|}.

Lemma dec_enc_key k v : dec_key (enc_key k v) = Some (k, v).
Proof. induction k as [|b k IH]; [done|]. cbn. by rewrite IH. Qed.

#[export] Instance toy_cbor_laws : CborLaws toy_cbor.
Proof.
  split.
  - intros s. eexists. split; [reflexivity|]. cbn. rewrite toy_dec_enc. by destruct s.
  - intros [k v del]. eexists. split; [reflexivity|]. cbn. rewrite dec_enc_key. by destruct del.
Qed.
End ToyCbor.
Export ToyCbor.

(** ** Properties *)

(** C7. [Put] refines appending to the list of puts: on a store that holds the
    puts [es] (log, storage and version key agree) a [Put] of a user key whose
    entry fits a page succeeds, the store then holds [es] and the new put, and
    [Get] of the key returns the value. *)
Theorem Put_refines {KV} `{KL : KVLaws KV} `{CL : CborLaws} (s : World * KV) L es k v :
  store_inv s L es -> entry_fits (maxPageSize (wal s.1)) (mkEntry k v false) ->
  curCollection (wal s.1) + 2 ^ 16 < 2 ^ 63 ->
  exists s' L',
    Put k v s = (Ok tt, s') /\ store_inv s' L' (es ++ [mkEntry k v false])
    /\ exists s2, Get k s' = (Ok (Some v), s2) /\ store_inv s2 L' (es ++ [mkEntry k v false]).
Proof.
  destruct s as [w d]. intros Hs He Hc. cbn [fst] in *.
  destruct (Put_steps w d L es k v Hs He Hc)
    as (w1 & L' & dat & d1 & d2 & _ & _ & Ep & Hh & _ & _ & _ & _ & Hs').
  exists (w1, d2), L'. split; [done|]. split; [done|].
  destruct He as ((Hne & Hv & Hnv) & _). cbn [K] in *.
  destruct Hs' as [Hi Hf Hl Hfit [Hok Hm] Hver]. cbn [fst snd] in *.
  destruct (kv_Get_valid d2 k Hok Hne Hv) as (d3 & Eg & Hok3 & Hm3).
  exists (w1, d3). split.
  - unfold Get, on_snd. cbn [fst snd]. rewrite Eg.
    rewrite <-(lookup_delete_ne _ VersionKeyString) by done.
    rewrite Hm, apply_all_app. cbn. by rewrite lookup_insert_eq.
  - split; cbn [fst snd]; [done..|split; [done|by rewrite Hm3]|].
    unfold version_is in *. by rewrite Hm3.
Qed.

Definition big_wal : DiskWal := mkWal 1 0 0 0 256 64 "wal" None 0 0.
Definition big_store : World * MapDisk := (mkWorld big_wal ∅ [], mkDisk ∅).

Lemma big_store_inv : store_inv big_store [] [].
Proof.
  split; try done.
  - by apply wal_inv_fresh.
  - by left.
Qed.

Lemma big_fits k v :
  user_key k -> Z.of_nat (length (enc_key k v)) < 56 -> entry_fits 64 (mkEntry k v false).
Proof. intros Hk Hl. split; [done|]. eexists. split; [reflexivity|]. cbn [length D K V]. lia. Qed.

Lemma user_key_a : user_key (bytes_of "a").
Proof. split_and!; [done|reflexivity|done]. Qed.

Lemma Put_refines_witness :
  exists s' L',
    Put (bytes_of "a") (bytes_of "1") big_store = (Ok tt, s')
    /\ store_inv s' L' [mkEntry (bytes_of "a") (bytes_of "1") false]
    /\ exists s2, Get (bytes_of "a") s' = (Ok (Some (bytes_of "1")), s2)
       /\ store_inv s2 L' [mkEntry (bytes_of "a") (bytes_of "1") false].
Proof.
  apply (Put_refines big_store [] [] (bytes_of "a") (bytes_of "1"));
    [apply big_store_inv|apply big_fits; [apply user_key_a|done]|done].
Defined.

(** C18. Reading refines the list of puts: on a store that holds the puts [es],
    [Get] returns the last value put for the key, [CurrentPosition] the
    position of the log, and [LatestSnapshotData] that position with exactly
    the current values of all keys, each key once. *)
Theorem reads_refine {KV} `{KL : KVLaws KV} `{CL : CborLaws} (s : World * KV) L es k term :
  store_inv s L es -> es <> [] -> user_key k ->
  (Get k s).1 = Ok (apply_all es ∅ !! string_of k)
  /\ (CurrentPosition s).1 = Ok (curPosition (wal s.1))
  /\ exists entries,
       (LatestSnapshotData term s).1 = Ok (mkSnapshot (curPosition (wal s.1)) entries)
       /\ NoDup entries.*1
       /\ forall k' v', (k', v') ∈ entries <-> apply_all es ∅ !! string_of k' = Some v'.
Proof.
  destruct s as [w d]. intros [Hi Hf Hl Hfit [Hok Hm] Hver] Hne (Hk & Hv & Hnv).
  cbn [fst snd] in *. rewrite <-Hm.
  assert (Hver' : version_is d (curPosition (wal w))) by by destruct es.
  destruct (readVersion_some w d _ Hok Hver') as (d1 & Er & Hok1 & Hm1).
  split_and!.
  - destruct (kv_Get_valid d k Hok Hk Hv) as (d2 & Eg & _).
    unfold Get, on_snd. cbn [fst snd]. rewrite Eg. cbn. by rewrite lookup_delete_ne.
  - unfold CurrentPosition. by rewrite (bind_ok _ _ _ _ _ Er).
  - destruct (kv_Snapshot_spec d1 term Hok1) as (d2 & entries & Es & _ & _ & Hnd & Hin).
    { rewrite Hm1. intros k' v' Hk'.
      destruct (decide (k' = VersionKeyString)) as [->|Hn]; [split; [done|reflexivity]|].
      assert (Hin : apply_all es ∅ !! k' = Some v') by by rewrite <-Hm, lookup_delete_ne.
      pose proof (fits_keys _ _ Hfit) as Hkeys. clear -Hin Hkeys.
      assert (Hgen : forall m, map_Forall (fun k (_ : list byte) =>
          k <> EmptyString /\ validateKeyFormat k = true) m ->
        map_Forall (fun k _ => k <> EmptyString /\ validateKeyFormat k = true) (apply_all es m)).
      { clear Hin. induction Hkeys as [|e es (Hne & Hv & _) _ IH]; intros m Hm; [done|]. cbn.
        apply IH. apply map_Forall_insert_2; [|done]. split; [by apply string_of_nil|done]. }
      by apply (Hgen ∅ (map_Forall_empty _) k' v'). }
    exists entries. split_and!; [|done|].
    + unfold LatestSnapshotData. rewrite (bind_ok _ _ _ _ _ Er).
      unfold bind, on_snd. cbn [fst snd]. by rewrite Es.
    + intros k' v'. rewrite Hin, Hm1. rewrite lookup_delete_Some. naive_solver.
Qed.

Definition one_put : World * MapDisk := (Put (bytes_of "a") (bytes_of "1") big_store).2.

Lemma one_put_inv : exists L, store_inv one_put L [mkEntry (bytes_of "a") (bytes_of "1") false].
Proof.
  destruct (Put_steps (mkWorld big_wal ∅ []) (mkDisk ∅) [] [] (bytes_of "a") (bytes_of "1"))
    as (w1 & L' & dat & d1 & d2 & _ & _ & Ep & _ & _ & _ & _ & _ & Hs');
    [apply big_store_inv|apply big_fits; [apply user_key_a|done]|done|].
  exists L'. unfold one_put, big_store. by rewrite Ep.
Qed.

Lemma reads_refine_witness :
  (Get (bytes_of "a") one_put).1 = Ok (Some (bytes_of "1"))
  /\ (CurrentPosition one_put).1 = Ok (mkSeq 1 1 1).
Proof.
  destruct one_put_inv as [L HL].
  destruct (reads_refine one_put L _ (bytes_of "a") 0 HL) as (H1 & H2 & _);
    [done|apply user_key_a|]. exact (conj H1 H2).
Defined.

(** Crash recovery: let the store hold at least one put, and the process
    stop during a [Put], at any point after the log write - before the storage
    write, after it, or after the version write.  Then [Initialize] of a new
    process succeeds and the store holds all the puts, the interrupted one
    included. *)
Theorem Put_crash_recovers {KV} `{KL : KVLaws KV} `{CL : CborLaws} w (d : KV) L es k v seq w1 dx :
  store_inv (w, d) L es -> es <> [] ->
  entry_fits (maxPageSize (wal w)) (mkEntry k v false) -> curCollection (wal w) + 2 ^ 16 < 2 ^ 63 ->
  writeWalEntry (mkEntry k v false) (w, d) = (Ok seq, (w1, d)) ->
  (dx = d \/ dx = (kv_Put k v d).2 \/ dx = (Put k v (w, d)).2.2) ->
  exists s' L', Initialize (restart (w1, dx)) = (Ok tt, s')
    /\ store_inv s' L' (es ++ [mkEntry k v false]).
Proof.
  intros Hs Hne He Hc Ew1 Hdx. destruct (Put_crash w d L es k v seq w1 dx Hs Hne He Hc Ew1 Hdx)
    as (s' & L' & dat & E & Hs' & _). by exists s', L'.
Qed.

Lemma Put_crash_recovers_witness :
  let e := mkEntry (bytes_of "b") (bytes_of "2") false in
  let w1 := (writeWalEntry e one_put).2.1 in
  exists s' L', Initialize (restart (w1, one_put.2)) = (Ok tt, s')
    /\ store_inv s' L' ([mkEntry (bytes_of "a") (bytes_of "1") false] ++ [e]).
Proof.
  destruct one_put_inv as [L HL].
  apply (Put_crash_recovers one_put.1 one_put.2 L _ (bytes_of "b") (bytes_of "2") (mkSeq 1 1 2)
    (writeWalEntry (mkEntry (bytes_of "b") (bytes_of "2") false) one_put).2.1 one_put.2 HL);
    [done|apply big_fits; [split_and!; [done|reflexivity|done]|done]|done|vm_compute; reflexivity|
     by left].
Defined.

(** The store after that recovery, computed. *)
Example crash_example :
  let e := mkEntry (bytes_of "b") (bytes_of "2") false in
  let s := restart ((writeWalEntry e one_put).2.1, one_put.2) in
  (Get (bytes_of "b") s).1 = Ok None
  /\ ((let* _ := Initialize in Get (bytes_of "b")) s).1 = Ok (Some (bytes_of "2")).
Proof. vm_compute. done. Qed.



(** A second put that stops after its log write starts the next replay at
    (1, 1, 1), and the file of that position holds the first entry. *)
Example first_put_applied_later :
  let w1 := (writeWalEntry (mkEntry (bytes_of "a") (bytes_of "1") false) big_store).2.1 in
  let s1 := (Initialize (restart (w1, mkDisk ∅))).2 in
  let w2 := (writeWalEntry (mkEntry (bytes_of "b") (bytes_of "2") false) s1).2.1 in
  let s2 := Initialize (restart (w2, s1.2)) in
  (Get (bytes_of "a") s1).1 = Ok None
  /\ s2.1 = Ok tt /\ (Get (bytes_of "a") s2.2).1 = Ok (Some (bytes_of "1")).
Proof. vm_compute. done. Qed.

(** C36. An invalid key keeps the store from starting: [Put] logs the entry before
    the storage checks the key, so on a store with at least one put it returns
    [ErrKeyFormatInvalid] but leaves the entry in the log; when the process ends
    then, every later process - however many try - replays the entry at its
    [Initialize] and fails with the same error.  (The way out is a valid [Put]
    in the process that is still running: [valid_put_unblocks].) *)
Theorem invalid_key_blocks_restart {KV} `{KL : KVLaws KV} `{CL : CborLaws} w (d : KV) L es k v dat :
  store_inv (w, d) L es -> es <> [] -> validateKeyFormat (string_of k) = false ->
  Marshal_entry (mkEntry k v false) = Ok dat -> Z.of_nat (length dat) <= maxPageSize (wal w) - 8 ->
  curCollection (wal w) + 2 ^ 16 < 2 ^ 63 ->
  exists s', Put k v (w, d) = (Fail ErrKeyFormatInvalid, s')
    /\ forall n, (Initialize (restart (restarts n s'))).1 = Fail ErrKeyFormatInvalid.
Proof.
  intros Hs Hne Hv Em Hl Hc. pose proof Hs as [Hi Hf Hlog Hfit [Hok Hm] Hver]. cbn [fst snd] in *.
  destruct (wi_params _ _ Hi) as [Hp _].
  destruct (WriteEntry_ok w L dat Hi Hf) as (w1 & L' & E & Hi1 & Hg & _); [lia|].
  exists (w1, d). split.
  { unfold Put, writeWalEntry, bind, lift, on_fst, on_snd. rewrite Em. cbn [fst snd].
    rewrite E. cbn [fst snd K V]. by rewrite (kv_Put_invalid d k v Hv). }
  intros n. eapply (restarts_stuck w w1 d L L' es (Z.to_nat (maxPageSize (wal w) - 8))); [done..|lia|exact Hg| |].
  - unfold entry_recs. by destruct (Nat.leb_spec (length dat) (Z.to_nat (maxPageSize (wal w) - 8))); [|lia].
  - intros d' _. destruct (cbor_entry (mkEntry k v false)) as (dat' & Em' & Eu). rewrite Em in Em'.
    injection Em' as <-. unfold recoverFn, bind, lift. rewrite Eu. cbn [K V].
    by rewrite (kv_Put_invalid d' k v Hv).
Qed.

Lemma invalid_key_blocks_restart_witness :
  exists s', Put (bytes_of "a.b") (bytes_of "1") one_put = (Fail ErrKeyFormatInvalid, s')
    /\ forall n, (Initialize (restart (restarts n s'))).1 = Fail ErrKeyFormatInvalid.
Proof.
  destruct one_put_inv as [L HL].
  eapply (invalid_key_blocks_restart one_put.1 one_put.2 L _ (bytes_of "a.b") (bytes_of "1") _ HL);
    [done|reflexivity|reflexivity|done|done].
Defined.

(** The same process may still put a valid key: then the version is past the
    entry and the next process starts. *)
Example valid_put_unblocks :
  let s := (Put (bytes_of "a.b") (bytes_of "1") one_put).2 in
  (Initialize (restart s)).1 = Fail ErrKeyFormatInvalid
  /\ (Initialize (restart (Put (bytes_of "b") (bytes_of "2") s).2)).1 = Ok tt.
Proof. vm_compute. done. Qed.

(** The version key is not reserved: a [Put] of it succeeds, but a [Get] gives
    back the encoded position of the log instead of the value; and if the
    process stops between the two storage writes, the next [Initialize] fails
    whenever the value is no encoded position. *)
Theorem version_key_not_reserved {KV} `{KL : KVLaws KV} `{CL : CborLaws} w (d : KV) L es v dat :
  store_inv (w, d) L es ->
  Marshal_entry (mkEntry VersionKey v false) = Ok dat -> Z.of_nat (length dat) <= maxPageSize (wal w) - 8 ->
  curCollection (wal w) + 2 ^ 16 < 2 ^ 63 ->
  exists w1 d1 s' dat',
    writeWalEntry (mkEntry VersionKey v false) (w, d) = (Ok (curPosition (wal w1)), (w1, d))
    /\ kv_Put VersionKey v d = (Ok tt, d1)
    /\ Put VersionKey v (w, d) = (Ok tt, s')
    /\ (Get VersionKey s').1 = Ok (Some dat') /\ Unmarshal_seq dat' = Ok (curPosition (wal w1))
    /\ forall e, Unmarshal_seq v = Fail e -> (Initialize (restart (w1, d1))).1 = Fail e.
Proof.
  intros Hs Em Hl Hc. pose proof Hs as [Hi Hf _ _ [Hok _] _]. cbn [fst snd] in *.
  destruct (wi_params _ _ Hi) as [Hp _].
  destruct (WriteEntry_ok w L dat Hi Hf) as (w1 & L' & E & Hi1 & Hg & _); [lia|].
  assert (Ew : writeWalEntry (mkEntry VersionKey v false) (w, d) = (Ok (curPosition (wal w1)), (w1, d))).
  { unfold writeWalEntry, bind, lift, on_fst. rewrite Em. cbn [fst snd]. by rewrite E. }
  pose proof (kv_Put_valid d VersionKey v Hok (proj1 VersionKey_valid) (proj2 VersionKey_valid)) as (d1 & Ep & Hok1 & Hm1).
  rewrite VersionKey_string in Hm1.
  destruct (writeVersion_ok w1 d1 (curPosition (wal w1)) Hok1) as (d2 & Ev & Hok2 & (dat' & Hv2 & Hu2) & _).
  exists w1, d1, (w1, d2), dat'. split; [done|]. split; [done|]. split.
  { unfold Put. rewrite (bind_ok _ _ _ _ _ Ew). unfold bind, on_snd. cbn [fst snd]. by rewrite Ep. }
  split.
  { unfold Get, on_snd. cbn [fst snd].
    destruct (kv_Get_valid d2 VersionKey Hok2 (proj1 VersionKey_valid) (proj2 VersionKey_valid)) as (d3 & -> & _).
    by rewrite VersionKey_string, Hv2. }
  split; [done|]. intros e He.
  destruct (Initialize_written _ _ _ _ (Z.to_nat (maxPageSize (wal w) - 8)) _ Hi1 ltac:(lia) Hg)
    as (w2 & Ei & _).
  destruct (kv_Get_valid d1 VersionKey Hok1 (proj1 VersionKey_valid) (proj2 VersionKey_valid)) as (d3 & Eg & _).
  rewrite VersionKey_string, Hm1, lookup_insert_eq in Eg.
  unfold Initialize, restart. unfold bind at 1, on_fst. cbn [fst snd]. rewrite Ei.
  unfold readVersion, bind, on_snd, lift. cbn [fst snd]. by rewrite Eg, He.
Qed.

(** C31. A large entry stops the store at the wrong moment: an entry longer than
    a page is written as several records, and the replay hands each of them to
    the decoder.  When the process stops between the log write and the storage
    write of such a [Put], and the first page alone is no encoded entry, the
    [Initialize] of every later process - however many try - fails with the
    decoder's error, while the same [Put], undisturbed, succeeds. *)
Theorem large_entry_blocks_restart {KV} `{KL : KVLaws KV} `{CL : CborLaws} w (d : KV) L es k v dat err :
  store_inv (w, d) L es -> es <> [] -> user_key k ->
  Marshal_entry (mkEntry k v false) = Ok dat -> maxPageSize (wal w) - 8 < Z.of_nat (length dat) ->
  curCollection (wal w) + Z.of_nat (length dat) + 1 < 2 ^ 63 ->
  Unmarshal_entry (take (Z.to_nat (maxPageSize (wal w) - 8)) dat) = Fail err ->
  exists w1 s', writeWalEntry (mkEntry k v false) (w, d) = (Ok (curPosition (wal w1)), (w1, d))
    /\ Put k v (w, d) = (Ok tt, s')
    /\ forall n, (Initialize (restart (restarts n (w1, d)))).1 = Fail err.
Proof.
  intros Hs Hne (Hkn & Hkv & _) Em Hl Hc Hfrag. pose proof Hs as [Hi Hf Hlog Hfit [Hok _] Hver]. cbn [fst snd] in *.
  destruct (wi_params _ _ Hi) as [Hp _]. set (M := Z.to_nat (maxPageSize (wal w) - 8)) in *.
  destruct (WriteEntry_ok w L dat Hi Hf Hc) as (w1 & L' & E & Hi1 & Hg & _). fold M in Hg.
  assert (Ew : writeWalEntry (mkEntry k v false) (w, d) = (Ok (curPosition (wal w1)), (w1, d)))
    by (unfold writeWalEntry, bind, lift, on_fst; rewrite Em; cbn [fst snd]; by rewrite E).
  destruct (kv_Put_valid d k v Hok Hkn Hkv) as (d1 & Ep & Hok1 & _).
  destruct (writeVersion_ok w1 d1 (curPosition (wal w1)) Hok1) as (d2 & Ev & _).
  exists w1, (w1, d2). split; [done|]. split.
  { unfold Put. rewrite (bind_ok _ _ _ _ _ Ew). unfold bind, on_snd. cbn [fst snd]. by rewrite Ep. }
  assert (Hrecs : exists rest, entry_recs M dat = (take M dat, EntryTypeStart) :: rest).
  { unfold entry_recs. destruct (Nat.leb_spec (length dat) M); [lia|].
    destruct (length dat) as [|n] eqn:En; [lia|]. cbn [split_recs].
    destruct (Nat.leb_spec (length dat) M); [lia|]. by eexists. }
  destruct Hrecs as (rest & Er).
  intros n. eapply (restarts_stuck w w1 d L L' es M); [done..|lia|exact Hg|exact Er|].
  intros d' _. unfold recoverFn, bind, lift. by rewrite Hfrag.
Qed.

Definition long_key : list byte := bytes_of "a_key_of_forty_bytes_____________________".

Lemma large_entry_blocks_restart_witness :
  exists w1 s', writeWalEntry (mkEntry long_key (bytes_of "1") false) one_put
      = (Ok (curPosition (wal w1)), (w1, one_put.2))
    /\ Put long_key (bytes_of "1") one_put = (Ok tt, s')
    /\ forall n, (Initialize (restart (restarts n (w1, one_put.2)))).1 = Fail (ExtError "malformed").
Proof.
  destruct one_put_inv as [L HL].
  eapply (large_entry_blocks_restart one_put.1 one_put.2 L _ long_key (bytes_of "1") _ _ HL);
    [done|split_and!; [done|reflexivity|done]|reflexivity|reflexivity|vm_compute; reflexivity|vm_compute; reflexivity].
Defined.
