(* ===== verification/KvSession.v ===== *)
(** * The life of a key-value store (internal/service/solestorage.go)

    A store is made over empty folders and initialised; then it serves puts, is
    stopped and started again, and sometimes its process stops in the middle of
    a put.  What it holds at the end is the list of the puts. *)

From stdpp Require Import base list gmap strings.
From Stdlib Require Import ZArith Lia.
From S2P Require Import Prelude GoStr Bytes SequenceId Storage WalPage Wal WalLog WalOpen WalReplay KvStore.
Local Open Scope Z_scope.
Local Open Scope go_scope.

(** ** Definitions *)

Record KVStorageAdvConfig := mkKvConfig { DataFolder : string; WalFolder : string }.

(** [dk] are the files of the log folder. *)
Definition NewKVStorageAdv {D} (Abs : string -> exec string) (sha256 : list byte -> list byte)
    (diskv_New : DiskvOptions -> D) (dk : gmap string File) (config : KVStorageAdvConfig) : exec (World * D) :=
  let! kv := NewDiskvStroage Abs sha256 diskv_New (DataFolder config) in
  let w := NewDiskWal (WalFolder config) in
  Ok (mkWorld w dk [], kv).

(** Where a process stops in a [Put]: after the log write, after the storage
    write, or after the version write. *)
Inductive stop := AfterLog | AfterStorage | AfterVersion.

Inductive event :=
| Do (key val : list byte)
| Restart
| Crash (at_ : stop) (key val : list byte).

Section Session.
Context {KV : Type} `{!KVStorageAdv KV} `{!Cbor}.

(** [Put], cut off. *)
Definition Put_until (at_ : stop) (key val : list byte) : M (World * KV) unit :=
  match at_ with
  | AfterLog => let* _ := writeWalEntry (mkEntry key val false) in ret tt
  | AfterStorage =>
      let* _ := writeWalEntry (mkEntry key val false) in on_snd (kv_Put key val)
  | AfterVersion => Put key val
  end.

(** The next process over what the last one left. *)
Definition new_process : M (World * KV) unit := fun s => Initialize (restart s).

Definition handle (e : event) : M (World * KV) unit :=
  match e with
  | Do key val => Put key val
  | Restart => new_process
  | Crash at_ key val => let* _ := Put_until at_ key val in new_process
  end.

Fixpoint run (evs : list event) : M (World * KV) unit :=
  match evs with
  | [] => ret tt
  | e :: evs => let* _ := handle e in run evs
  end.
End Session.

Definition entry_of (e : event) : option WalEntry :=
  match e with
  | Do key val | Crash _ key val => Some (mkEntry key val false)
  | Restart => None
  end.

Definition puts (evs : list event) : list WalEntry := omap entry_of evs.

(** The entries fit a page, and the first of them is not cut off. *)
Fixpoint sound `{Cbor} (page : Z) (some : bool) (evs : list event) : Prop :=
  match evs with
  | [] => True
  | Do key val :: evs => entry_fits page (mkEntry key val false) /\ sound page true evs
  | Restart :: evs => sound page some evs
  | Crash _ key val :: evs => some = true /\ entry_fits page (mkEntry key val false) /\ sound page true evs
  end.

(** ** Lemmas *)

Section Lemmas.
Context {KV : Type} `{KL : KVLaws KV} `{CL : CborLaws}.

(** The store between two events: its log has whole records only and no empty
    newest file, and has made at most [n] files. *)
Record session_inv (s : World * KV) (L : log) (es : list WalEntry) (n : Z) : Prop := {
  ses_store : store_inv s L es;
  ses_whole : Forall (fun r : record => r.2 = EntryTypeWhole) (all_recs L);
  ses_newest : L = [] \/ exists L0 k recs, L = L0 ++ [(k, recs)] /\ recs <> [];
  ses_files : curCollection (wal s.1) <= n;
}.

Lemma whole_repaired L0 k (recs : list record) :
  Forall (fun r : record => r.2 = EntryTypeWhole) (all_recs (L0 ++ [(k, recs)])) -> repaired recs = recs.
Proof.
  rewrite all_recs_app, all_recs_one. intros [_ Hw]%Forall_app. unfold repaired.
  destruct (last recs) as [[dat t]|] eqn:E; [|done].
  apply last_Some_elem_of in E. rewrite Forall_forall in Hw. specialize (Hw _ E). cbn in Hw. by subst t.
Qed.

(** The log that a write of one whole record leaves, in a world at its position. *)
Lemma grown_settled w w1 w2 L L' dat :
  wal_inv w2 L' -> curPosition (wal w2) = curPosition (wal w1) -> grown w w1 L L' [(dat, EntryTypeWhole)] ->
  Forall (fun r : record => r.2 = EntryTypeWhole) (all_recs L) ->
  Forall (fun r : record => r.2 = EntryTypeWhole) (all_recs L')
  /\ (L' = [] \/ exists L0 k recs, L' = L0 ++ [(k, recs)] /\ recs <> [])
  /\ curCollection (wal w2) <= curCollection (wal w) + 1.
Proof.
  intros Hi Hpos Hg Hw. pose proof (gr_coll _ _ _ _ _ Hg) as Hc. destruct (gr_open _ _ _ _ _ Hg ltac:(done)) as [_ Hs].
  unfold curPosition in Hpos. injection Hpos as _ Hcol Hseq. split; [|split; [|cbn in Hc; lia]].
  - rewrite (gr_recs _ _ _ _ _ Hg). apply Forall_app. split; [done|]. by constructor.
  - pose proof (wi_cur _ _ Hi) as Hcur. destruct (curFile (wal w2)) as [h|]; [|left; apply Hcur].
    right. destruct Hcur as (L0 & recs & -> & _ & HS & _). eexists L0, _, recs. split; [done|].
    intros ->. cbn in HS. lia.
Qed.

Lemma newest_used s L es n : session_inv s L es n -> es = [] -> L = [].
Proof.
  intros [Hs _ Hn _] ->. destruct Hn as [->|(L0 & k & recs & -> & Hne)]; [done|].
  pose proof (si_log _ _ _ Hs) as Hl. inversion Hl as [E|]. rewrite all_recs_app, all_recs_one in E.
  symmetry in E. apply app_eq_nil in E as [_ ->]. done.
Qed.

Lemma session_put s L es n k v :
  session_inv s L es n -> entry_fits (maxPageSize (wal s.1)) (mkEntry k v false) -> n + 2 ^ 16 < 2 ^ 63 ->
  exists s' L', Put k v s = (Ok tt, s') /\ session_inv s' L' (es ++ [mkEntry k v false]) (n + 1)
    /\ maxPageSize (wal s'.1) = maxPageSize (wal s.1).
Proof.
  destruct s as [w d]. intros [Hs Hw Hn Hf] He Hc. cbn [fst] in *.
  destruct (Put_steps w d L es k v Hs He ltac:(lia))
    as (w1 & L' & dat & d1 & d2 & _ & _ & E & _ & _ & _ & Hg & _ & Hs').
  exists (w1, d2), L'. split; [done|]. split; [|apply Hg].
  destruct (grown_settled w w1 w1 L L' dat (si_wal _ _ _ Hs') eq_refl Hg Hw) as (? & ? & ?).
  split; try done. cbn. lia.
Qed.

(** A store that holds nothing starts like a new one. *)
Lemma Initialize_empty w (d : KV) :
  wal_params (wal w) -> curFile (wal w) = None -> curTerm (wal w) = 1 -> curCollection (wal w) = 0 ->
  curSeq (wal w) = 0 -> pageOccupied (wal w) = 0 -> faults w = [] ->
  (forall n, fileMap (disk w) !! n = None) -> kv_holds d [] ->
  kv_map d !! VersionKeyString = None \/ version_is d StartWalSequence ->
  exists s', Initialize (w, d) = (Ok tt, s') /\ session_inv s' [] [] 0
    /\ maxPageSize (wal s'.1) = maxPageSize (wal w).
Proof.
  intros Hp Hc HT HC HS HP Hf Hn [Hok Hm] Hv.
  assert (Ei : Wal.Initialize w = (Ok (mkSeq 1 0 0), w)).
  { destruct w as [[tm co sq po mf mp fo fi di sy] dk fs]. cbn in *. subst.
    assert (sorted_names dk = []) as E.
    { unfold sorted_names. replace (fileMap dk) with (∅ : gmap string SequenceId);
        [by rewrite map_to_list_empty|]. apply map_eq. intros x. by rewrite Hn, lookup_empty. }
    unfold Wal.Initialize, os_call, next_fault. go_simpl. cbn. by rewrite E. }
  destruct (Initialize_steps w w d _ StartWalSequence StartWalSequence (fun d' => kv_map d' = kv_map d) Ei Hok)
    as (d2 & d3 & E & Hok3 & Hm2 & Hv3 & Hm3).
  - destruct Hv as [?|?]; [by left|by right].
  - intros d1 Hok1 Hm1. exists d1. split; [|done]. unfold ReplayIncomplete, bind, get. cbn [fst].
    by rewrite HT, HC, HS.
  - exists (w, d3). split; [done|]. split; [|done]. split; cbn [fst]; [|constructor|by left|by rewrite HC].
    split; cbn [fst snd]; [|done|constructor|constructor| |by right].
    + destruct w. cbn in *. by apply wal_inv_fresh.
    + split; [done|]. by rewrite Hm3, Hm2.
Qed.

(** A clean restart. *)
Lemma session_restart s L es n :
  session_inv s L es n ->
  exists s', new_process s = (Ok tt, s') /\ session_inv s' L es n
    /\ maxPageSize (wal s'.1) = maxPageSize (wal s.1).
Proof.
  destruct s as [w d]. intros Hses. pose proof Hses as [Hs Hw Hn Hf].
  pose proof Hs as [Hi _ Hlog Hfits [Hok Hm] Hver]. cbn [fst snd] in *.
  destruct es as [|e es].
  - assert (HL : L = []) by by eapply newest_used. subst L.
    pose proof (wi_params _ _ Hi) as Hp. pose proof (wi_rep _ _ Hi) as Hrep.
    destruct (Initialize_empty (mkWorld (reopened (wal w)) (disk w) []) d) as (s' & E & Hs' & Hpg); try done.
    + destruct Hp. by split.
    + intros x. apply eq_None_not_Some. rewrite (lr_only _ _ _ Hrep). apply not_elem_of_nil.
    + exists s'. split; [exact E|]. split; [|by rewrite Hpg]. destruct Hs' as [? ? ? ?]. split; [done..|].
      pose proof (wi_cur _ _ Hi) as Hcur. destruct (curFile (wal w)); [|lia].
      destruct Hcur as (L0 & recs & E0 & _). by destruct L0.
  - destruct Hn as [->|(L0 & k & recs & -> & Hne)]; [by inversion Hlog|].
    destruct (Initialize_settled w L0 k recs Hi Hne (whole_repaired _ _ _ Hw))
      as (w2 & Ei & Hi2 & _ & Hf2 & Hcur2 & _ & [_ Hpg]%reopened_sizes).
    destruct (recover_with w w2 d _ (e :: es) (curPosition (wal w)) Ei Hi2 Hf2 Hlog)
      as (s' & E & Hs' & Hw2); [by rewrite Hpg|done|done|done| |].
    + intros d1 Hok1 Hm1. exists d1. rewrite <-Hcur2, ReplayIncomplete_current.
      split; [done|]. split; [done|]. by rewrite Hm1.
    + exists s'. split; [exact E|]. rewrite Hw2. split; [|done]. split; [done..|by right; eexists _, _, _|].
      rewrite Hw2. apply (f_equal Collection) in Hcur2. cbn in *. lia.
Qed.

(** A process that stops in a [Put], and the next one. *)
Lemma session_crash s L es n at_ k v :
  session_inv s L es n -> es <> [] -> entry_fits (maxPageSize (wal s.1)) (mkEntry k v false) ->
  n + 2 ^ 16 < 2 ^ 63 ->
  exists s' L', handle (Crash at_ k v) s = (Ok tt, s') /\ session_inv s' L' (es ++ [mkEntry k v false]) (n + 1)
    /\ maxPageSize (wal s'.1) = maxPageSize (wal s.1).
Proof.
  destruct s as [w d]. intros [Hs Hw Hn Hf] Hne He Hc. cbn [fst] in *.
  destruct (Put_steps w d L es k v Hs He ltac:(lia))
    as (w1 & L1 & dat1 & d1 & d2 & Ew & Ep1 & Ep & _).
  set (dx := match at_ with AfterLog => d | AfterStorage => d1 | AfterVersion => d2 end).
  assert (Eu : Put_until at_ k v (w, d) = (Ok tt, (w1, dx))).
  { unfold Put_until. destruct at_; [..|done]; rewrite (bind_ok _ _ _ _ _ Ew); [done|].
    unfold on_snd. cbn [fst snd]. by rewrite Ep1. }
  destruct (Put_crash w d L es k v _ w1 dx Hs Hne He ltac:(lia) Ew)
    as (s' & L' & dat & E & Hs' & Hg & Hpos & Hpg).
  { rewrite Ep1, Ep. subst dx. destruct at_; auto. }
  exists s', L'. split; [|split].
  - unfold handle. rewrite (bind_ok _ _ _ _ _ Eu). exact E.
  - destruct (grown_settled w w1 s'.1 L L' dat (si_wal _ _ _ Hs') Hpos Hg Hw) as (? & ? & ?).
    split; try done. lia.
  - exact Hpg.
Qed.

Lemma session_run evs s L es n :
  session_inv s L es n -> sound (maxPageSize (wal s.1)) (negb (bool_decide (es = []))) evs ->
  n + Z.of_nat (length evs) + 2 ^ 16 < 2 ^ 63 ->
  exists s' L', run evs s = (Ok tt, s') /\ session_inv s' L' (es ++ puts evs) (n + Z.of_nat (length evs)).
Proof.
  revert s L es n. induction evs as [|e evs IH]; intros s L es n Hs Hev Hn.
  { exists s, L. rewrite app_nil_r, Z.add_0_r. done. }
  assert (Hstep : exists s1 L1, handle e s = (Ok tt, s1)
    /\ session_inv s1 L1 (es ++ puts [e]) (n + 1) /\ maxPageSize (wal s1.1) = maxPageSize (wal s.1)
    /\ sound (maxPageSize (wal s.1)) (negb (bool_decide (es ++ puts [e] = []))) evs).
  { assert (Hsnoc : forall x, negb (bool_decide (es ++ [x] = [] :> list WalEntry)) = true)
      by (intros x; rewrite bool_decide_eq_false_2; [done|by destruct es]).
    destruct e as [k v| |at_ k v]; cbn [sound puts omap list_omap entry_of] in *.
    - destruct Hev as [He Hev]. destruct (session_put s L es n k v Hs He ltac:(cbn in Hn; lia)) as (s1 & L1 & ? & ? & ?).
      exists s1, L1. by rewrite Hsnoc.
    - destruct (session_restart s L es n Hs) as (s1 & E & [? ? ? ?] & Hpg). exists s1, L. rewrite app_nil_r.
      split_and!; try done. split; try done. lia.
    - destruct Hev as (Hsome & He & Hev). destruct (session_crash s L es n at_ k v Hs) as (s1 & L1 & ? & ? & ?);
        [intros ->; done|done|cbn in Hn; lia|]. exists s1, L1. by rewrite Hsnoc. }
  destruct Hstep as (s1 & L1 & E & Hs1 & Hpg & Hev1). rewrite <-Hpg in Hev1.
  destruct (IH s1 L1 _ _ Hs1 Hev1) as (s' & L' & Er & Hs'); [cbn [length] in Hn; lia|].
  exists s', L'. split; [cbn [run]; by rewrite (bind_ok _ _ _ _ _ E)|].
  change (puts (e :: evs)) with (puts ([e] ++ evs)). unfold puts in *. rewrite omap_app, app_assoc.
  cbn [length]. by replace (n + Z.of_nat (S (length evs))) with (n + 1 + Z.of_nat (length evs)) by lia.
Qed.

Lemma session_get s L es n k :
  session_inv s L es n -> user_key k -> (Get k s).1 = Ok (apply_all es ∅ !! string_of k).
Proof.
  destruct s as [w d]. intros [Hs _ _ _] (Hne & Hv & Hnv). pose proof (si_kv _ _ _ Hs) as [Hok Hm].
  cbn [snd] in *. destruct (kv_Get_valid d k Hok Hne Hv) as (d' & E & _).
  unfold Get, on_snd. cbn [fst snd]. rewrite E. cbn [fst].
  by rewrite <-Hm, lookup_delete_ne.
Qed.
End Lemmas.

(** ** Properties *)

(** C1. Nothing is lost: a store made over empty folders and initialised goes
    through any history of puts of user keys whose entries fit a page, clean
    restarts, and processes that stop inside a put once its log write is done -
    before the storage write, before the version write, or after it - without
    ever failing, and at the end every user key has the last value put for it,
    the cut off puts included; provided the very first put is not one that is
    cut off.  Each condition is needed: an entry longer than a page
    ([large_entry_blocks_restart]), an invalid key
    ([invalid_key_blocks_restart]), the version key ([version_key_not_reserved]),
    a first put that is cut off ([first_put_not_replayed]) and a log write that
    is ([Initialize_torn_page], [Initialize_empty_file_panics]) lose or block
    the store. *)
Theorem nothing_lost {D} `{DL : DiskvLaws D} `{CL : CborLaws} Abs sha256 diskv_New dk config (d : D) evs :
  NewDiskvStroage Abs sha256 diskv_New (DataFolder config) = Ok d -> dv_ok d -> dv_map d = ∅ ->
  (forall n, fileMap dk !! n = None) ->
  sound 4096 false evs -> Z.of_nat (length evs) < 2 ^ 62 ->
  exists s0 s', NewKVStorageAdv Abs sha256 diskv_New dk config = Ok s0
    /\ (let* _ := Initialize in run evs) s0 = (Ok tt, s')
    /\ forall k, user_key k -> (Get k s').1 = Ok (apply_all (puts evs) ∅ !! string_of k).
Proof.
  intros Ho Hok Hm Hdk Hev Hn.
  destruct (Initialize_empty (mkWorld (NewDiskWal (WalFolder config)) dk []) d) as (s1 & E & Hs & Hpg); try done.
  - split; [done|]. change (kv_map d) with (dv_map d). by rewrite Hm, delete_empty.
  - left. change (kv_map d) with (dv_map d). by rewrite Hm, lookup_empty.
  - destruct (session_run evs s1 [] [] 0 Hs) as (s' & L' & Er & Hs'); [by rewrite Hpg|lia|].
    eexists _, s'. split; [unfold NewKVStorageAdv; rewrite Ho; reflexivity|].
    split; [by rewrite (bind_ok _ _ _ _ _ E)|]. intros k Hk. by apply (session_get s' L' _ _ k Hs').
Qed.

(** A history with every kind of event. *)
Definition history : list event :=
  [Restart; Do (bytes_of "a") (bytes_of "1"); Crash AfterLog (bytes_of "b") (bytes_of "2");
   Restart; Do (bytes_of "a") (bytes_of "3"); Crash AfterStorage (bytes_of "c") (bytes_of "4");
   Crash AfterVersion (bytes_of "b") (bytes_of "5")].

Lemma history_sound : sound 4096 false history.
Proof.
  assert (Hfit : forall k v, user_key k -> Z.of_nat (length (enc_key k v)) < 4087 -> entry_fits 4096 (mkEntry k v false)).
  { intros k v Hk Hl. split; [done|]. eexists. split; [reflexivity|]. cbn [length D K V]. lia. }
  cbn [sound history]. split_and!; try done; (apply Hfit; [split_and!; [done|reflexivity|done]|done]).
Qed.

Lemma nothing_lost_witness :
  exists s0 s', NewKVStorageAdv (fun f => Ok ("/srv/" +:+ f)) zero_hash new_disk ∅ (mkKvConfig "data" "wal") = Ok s0
    /\ (let* _ := Initialize in run history) s0 = (Ok tt, s')
    /\ forall k, user_key k -> (Get k s').1 = Ok (apply_all (puts history) ∅ !! string_of k).
Proof.
  apply (nothing_lost (fun f => Ok ("/srv/" +:+ f)) zero_hash new_disk ∅ (mkKvConfig "data" "wal") (mkDisk ∅) history).
  - reflexivity.
  - exact I.
  - reflexivity.
  - intros n. rewrite fileMap_lookup. by rewrite lookup_empty.
  - apply history_sound.
  - reflexivity.
Defined.
