(* ===== verification/MemStore.v ===== *)
(** * The in-memory service and domain store (storage.mem.go)

    [MemStore] serves the services published on this node merged with what its
    peers sent, and collects for every watching peer the changes since its last
    fetch.  The peers' payloads are JSON; the encoder is the class [Json].
    Go visits a map in an unspecified order: the class [MapRange] is any such
    order. *)

From stdpp Require Import base list gmap strings.
From Stdlib Require Import ZArith Lia.
From S2P Require Import Prelude GoStr Bytes Toy.
Local Open Scope Z_scope.
Local Open Scope go_scope.

(** ** Data *)

(** service -> node id -> address. *)
Notation service_map := (gmap string (gmap string string)).

Record ServiceItem := mkItem { Addr : string; NodeId : string }.

Record dataTransferNodeData := mkTransfer {
  ServiceName : string;
  NodeName : string;
  Info : string;   (* the struct's only field, Addr *)
}.

(** A decoded mapping: [None] is a nil map, outside or inside. *)
Record memNodeData := mkNode { ServiceMapping : option (gmap string (option (gmap string string))) }.

Record pendingData := mkPending {
  Add : list dataTransferNodeData;
  Del : list dataTransferNodeData;
}.

(** [shared.DomainType], and a nested [dnscore.DnsStorage]. *)
Definition DomainTypeA : Z := 1.
Definition DomainTypeTxt : Z := 2.
Definition DomainTypeSrv : Z := 3.
Definition DomainTypePtr : Z := 4.
Definition DomainTypeAAAA : Z := 5.

Definition DnsStorage : Type := string -> Z -> exec string.

Record MemStore := mkStore {
  staticDomainMapping : gmap Z (gmap string string);
  services : service_map;
  currentServices : service_map;
  dataFrom : gmap string memNodeData;
  dataTo : gmap string pendingData;
  dnsStores : list DnsStorage;
}.

Definition with_static m (s : MemStore) : MemStore :=
  mkStore m (services s) (currentServices s) (dataFrom s) (dataTo s) (dnsStores s).
Definition with_services m (s : MemStore) : MemStore :=
  mkStore (staticDomainMapping s) m (currentServices s) (dataFrom s) (dataTo s) (dnsStores s).
Definition with_current m (s : MemStore) : MemStore :=
  mkStore (staticDomainMapping s) (services s) m (dataFrom s) (dataTo s) (dnsStores s).
Definition with_from m (s : MemStore) : MemStore :=
  mkStore (staticDomainMapping s) (services s) (currentServices s) m (dataTo s) (dnsStores s).
Definition with_to m (s : MemStore) : MemStore :=
  mkStore (staticDomainMapping s) (services s) (currentServices s) (dataFrom s) m (dnsStores s).

(** ** Interfaces of the libraries *)

(** The order in which [range] visits a map. *)
Class MapRange := {
  range {V} : gmap string V -> list (string * V);
  range_perm {V} (m : gmap string V) : range m ≡ₚ map_to_list m;
}.

(** encoding/json at the types of the payloads. *)
Class Json := {
  Marshal_node : memNodeData -> exec (list byte);
  memNodeDataUnmarshall : list byte -> exec memNodeData;
  Marshal_list : list dataTransferNodeData -> exec (list byte);
  dataTransferNodeDataList : list byte -> exec (list (option dataTransferNodeData));
}.

(** github.com/miekg/dns, [dns.Fqdn]. *)
Class DnsNames := { Fqdn : string -> string }.

(** ** Operations *)

Definition DefaultDataKey : string := "__default__".

Definition NewMemStore (nested : list DnsStorage) : MemStore := mkStore ∅ ∅ ∅ ∅ ∅ nested.

(** [m[service][node] = addr], making the inner map if it is missing. *)
Definition put2 (service node addr : string) (m : service_map) : service_map :=
  <[service := <[node := addr]> (default ∅ (m !! service))]> m.

(** [delete(m[service], node)], dropping the inner map when it gets empty. *)
Definition del2 (service node : string) (m : service_map) : service_map :=
  match m !! service with
  | None => m
  | Some p =>
      let p := delete node p in
      if decide (size p = 0%nat) then delete service m else <[service := p]> m
  end.

(** Keep what is not about this service and node. *)
Definition rebuildServiceItemList (l : list dataTransferNodeData) (service : string)
    (item : ServiceItem) : list dataTransferNodeData :=
  filter (fun v => ~ (ServiceName v = service /\ NodeName v = NodeId item)) l.

Definition PublishService (service : string) (item : ServiceItem) : M MemStore unit :=
  let* _ := modify (fun s => with_services (put2 service (NodeId item) (Addr item) (services s)) s) in
  let* _ := modify (fun s =>
    with_current (put2 service (NodeId item) (Addr item) (currentServices s)) s) in
  modify (fun s => with_to ((fun v =>
    mkPending (Add v ++ [mkTransfer service (NodeId item) (Addr item)])
      (rebuildServiceItemList (Del v) service item)) <$> dataTo s) s).

Definition DeleteService (service : string) (item : ServiceItem) : M MemStore unit :=
  let* _ := modify (fun s => with_services (del2 service (NodeId item) (services s)) s) in
  let* _ := modify (fun s => with_current (del2 service (NodeId item) (currentServices s)) s) in
  modify (fun s => with_to ((fun v =>
    mkPending (rebuildServiceItemList (Add v) service item)
      (Del v ++ [mkTransfer service (NodeId item) (Addr item)])) <$> dataTo s) s).

Section Operations.
Context `{!MapRange, !Json, !DnsNames, !UnicodeData}.

Definition GetServiceList (service : string) : M MemStore (list ServiceItem) :=
  gets (fun s =>
    match services s !! service with
    | None => []
    | Some li => (fun kv => mkItem kv.2 kv.1) <$> range li
    end).

(** Merge one service of the source into the destination. *)
Definition copy_service (dst : service_map) (kv : string * option (gmap string string))
    : service_map :=
  let sub := default ∅ (dst !! kv.1) in
  <[kv.1 := foldl (fun sub ij => <[ij.1 := ij.2]> sub) sub (range (default ∅ kv.2))]> dst.

Definition copyMap (src : gmap string (option (gmap string string))) (dst : service_map)
    : service_map :=
  foldl copy_service dst (range src).

Definition buildMemData : M MemStore unit :=
  modify (fun s =>
    let newServiceMap := copyMap (Some <$> currentServices s) ∅ in
    with_services
      (foldl (fun m kv => copyMap (default ∅ (ServiceMapping kv.2)) m) newServiceMap
         (range (dataFrom s))) s).

Definition FullFrom (node : string) (data : gmap string (list byte)) : M MemStore unit :=
  match data !! DefaultDataKey with
  | None => fail (NewError "no data found")
  | Some d =>
      let* dat := lift (memNodeDataUnmarshall d) in
      let* _ := modify (fun m => with_from (<[node := dat]> (dataFrom m)) m) in
      buildMemData
  end.

(** One step of the delete loop and of the add loop of [SyncFrom]; a nil
    element is dereferenced, a nil map assigned to. *)
Definition sync_del (v : option dataTransferNodeData) (mapping : memNodeData) : exec memNodeData :=
  match v with
  | None => Panic "nil pointer dereference"
  | Some v =>
      match default ∅ (ServiceMapping mapping) !! ServiceName v with
      | None => Ok mapping
      | Some serviceMap =>
          let serviceMap := delete (NodeName v) <$> serviceMap in
          if decide (size (default ∅ serviceMap) = 0%nat)
          then Ok (mkNode (delete (ServiceName v) <$> ServiceMapping mapping))
          else Ok (mkNode (<[ServiceName v := serviceMap]> <$> ServiceMapping mapping))
      end
  end.

Definition sync_add (v : option dataTransferNodeData) (mapping : memNodeData) : exec memNodeData :=
  match v with
  | None => Panic "nil pointer dereference"
  | Some v =>
      match ServiceMapping mapping with
      | None => Panic "assignment to entry in nil map"
      | Some m =>
          match m !! ServiceName v with
          | None => Ok (mkNode (Some (<[ServiceName v := Some {[NodeName v := Info v]}]> m)))
          | Some None => Panic "assignment to entry in nil map"
          | Some (Some serviceMap) =>
              Ok (mkNode (Some (<[ServiceName v := Some (<[NodeName v := Info v]> serviceMap)]> m)))
          end
      end
  end.

(** The loop over a list mutates the stored mapping as it goes. *)
Fixpoint sync_loop (step : option dataTransferNodeData -> memNodeData -> exec memNodeData)
    (node : string) (l : list (option dataTransferNodeData)) : M MemStore unit :=
  match l with
  | [] => ret tt
  | v :: l =>
      let* m := get in
      match dataFrom m !! node with
      | None => ret tt   (* not reached: the node was looked up before the loop *)
      | Some mapping =>
          let* mapping := lift (step v mapping) in
          let* _ := modify (fun m => with_from (<[node := mapping]> (dataFrom m)) m) in
          sync_loop step node l
      end
  end.

Definition SyncFrom (node origNode : string) (add del : gmap string (list byte))
    : M MemStore unit :=
  match add !! DefaultDataKey with
  | None => fail (NewError "no add data found")
  | Some ad =>
      let* adata := lift (dataTransferNodeDataList ad) in
      match del !! DefaultDataKey with
      | None => fail (NewError "no del data found")
      | Some dd =>
          let* ddata := lift (dataTransferNodeDataList dd) in
          let* m := get in
          match dataFrom m !! node with
          | None => fail (NewError "node not exist")
          | Some _ =>
              let* _ := sync_loop sync_del node ddata in
              let* _ := sync_loop sync_add node adata in
              buildMemData
          end
      end
  end.

Definition Abandon (node : string) : M MemStore unit :=
  let* m := get in
  match dataFrom m !! node with
  | None => ret tt
  | Some _ =>
      let* _ := modify (fun m => with_from (delete node (dataFrom m)) m) in
      buildMemData
  end.

Definition FetchFullAndWatch (node : string) : M MemStore (gmap string (list byte)) :=
  let* _ := modify (fun m =>
    match dataTo m !! node with
    | None => with_to (<[node := mkPending [] []]> (dataTo m)) m
    | Some _ => m
    end) in
  let* m := get in
  let* data := lift (Marshal_node (mkNode (Some (Some <$> currentServices m)))) in
  ret {[DefaultDataKey := data]}.

(** An error of [Marshal] is replaced by the source's own. *)
Definition marshal_pending (l : list dataTransferNodeData) : M MemStore (list byte) :=
  let* r := catch (lift (Marshal_list l)) in
  match r with
  | inl b => ret b
  | inr _ => fail (NewError "marshal failed")
  end.

Definition FetchChangesForPeerNodeRequest (node : string)
    : M MemStore (gmap string (list byte) * gmap string (list byte)) :=
  let* m := get in
  match dataTo m !! node with
  | None => fail (NewError "node not registered")
  | Some s =>
      let* ad := marshal_pending (Add s) in
      let* dd := marshal_pending (Del s) in
      let* _ := modify (fun m => with_to (<[node := mkPending [] []]> (dataTo m)) m) in
      ret ({[DefaultDataKey := ad]}, {[DefaultDataKey := dd]})
  end.

Definition Unwatch (node : string) : M MemStore unit :=
  modify (fun m => with_to (delete node (dataTo m)) m).

Definition PutDomain (domain resolve : string) (domainType : Z) : M MemStore unit :=
  let domain := ToLower domain in
  modify (fun m =>
    let fqdn := Fqdn domain in
    let sub := default ∅ (staticDomainMapping m !! domainType) in
    with_static (<[domainType := <[fqdn := resolve]> sub]> (staticDomainMapping m)) m).

(** The nested stores in order, skipping those that fail. *)
Fixpoint resolve_nested (stores : list DnsStorage) (domain : string) (domainType : Z)
    : exec string :=
  match stores with
  | [] => Fail ErrStorageNotFound
  | store :: stores =>
      match store domain domainType with
      | Fail _ => resolve_nested stores domain domainType
      | r => r
      end
  end.

Definition ResolveDomain (domain : string) (domainType : Z) : M MemStore string :=
  let domain := ToLower domain in
  let* m := get in
  match staticDomainMapping m !! domainType with
  | None => lift (resolve_nested (dnsStores m) domain domainType)
  | Some sub =>
      match sub !! domain with
      | None => lift (resolve_nested (dnsStores m) domain domainType)
      | Some r => ret r
      end
  end.
End Operations.

(** ** Specification *)

(** A string that is valid UTF-8, the only kind JSON can carry. *)
Definition utf8 (s : string) : Prop := runes_str (runes s) = s.

#[export] Instance utf8_dec s : Decision (utf8 s).
Proof. unfold utf8. apply _. Defined.

Definition look (m : service_map) (s n : string) : option string := m !! s ≫= fun p => p !! n.

(** No empty inner map, only valid strings. *)
Definition wf (m : service_map) : Prop :=
  map_Forall (fun s p => utf8 s /\ p <> ∅ /\ map_Forall (fun n a => utf8 n /\ utf8 a) p) m.

Definition transfer_ok (v : dataTransferNodeData) : Prop :=
  utf8 (ServiceName v) /\ utf8 (NodeName v) /\ utf8 (Info v).

(** A received mapping without nil maps. *)
Definition node_of (m : service_map) : memNodeData := mkNode (Some (Some <$> m)).

(** encoding/json gives back what it encoded, strings being valid UTF-8. *)
Class JsonLaws (J : Json) : Prop := {
  json_node m : wf m ->
    exists b, Marshal_node (node_of m) = Ok b /\ memNodeDataUnmarshall b = Ok (node_of m);
  json_list l : Forall transfer_ok l ->
    exists b, Marshal_list l = Ok b /\ dataTransferNodeDataList b = Ok (Some <$> l);
}.

(** What a list of pending changes does to the entry of a service and node:
    set it, remove it, or nothing. *)
Definition about (s n : string) (v : dataTransferNodeData) : Prop :=
  ServiceName v = s /\ NodeName v = n.

Definition effect (p : pendingData) (s n : string) : option (option string) :=
  match last (filter (about s n) (Add p)) with
  | Some v => Some (Some (Info v))
  | None => if decide (Exists (about s n) (Del p)) then Some None else None
  end.

Definition apply_pending (p : pendingData) (m : service_map) : service_map :=
  foldl (fun m v => put2 (ServiceName v) (NodeName v) (Info v) m)
    (foldl (fun m v => del2 (ServiceName v) (NodeName v) m) m (Del p)) (Add p).

(** The pending changes agree with the current services, and cover every
    difference between them and what the peer holds. *)
Record pending_ok (p : pendingData) (cur : service_map) : Prop := {
  po_strings : Forall transfer_ok (Add p) /\ Forall transfer_ok (Del p);
  po_effect : forall s n o, effect p s n = Some o -> look cur s n = o;
}.

Definition covers (p : pendingData) (held cur : service_map) : Prop :=
  forall s n, effect p s n = None -> look held s n = look cur s n.

(** ** Lemmas on nested maps *)

Lemma look_put2 s n a m s' n' :
  look (put2 s n a m) s' n' = if decide (s' = s /\ n' = n) then Some a else look m s' n'.
Proof.
  unfold look, put2. destruct (decide (s' = s)) as [->|Hs].
  - rewrite lookup_insert_eq. cbn [mbind option_bind]. destruct (decide (n' = n)) as [->|Hn].
    + by rewrite lookup_insert_eq, decide_True.
    + rewrite lookup_insert_ne, decide_False by naive_solver.
      destruct (m !! s); [done|]. cbn. apply lookup_empty.
  - rewrite lookup_insert_ne, decide_False by naive_solver. done.
Qed.

Lemma look_del2 s n m s' n' :
  look (del2 s n m) s' n' = if decide (s' = s /\ n' = n) then None else look m s' n'.
Proof.
  unfold look, del2. destruct (m !! s) as [p|] eqn:E.
  - destruct (decide (size (delete n p) = 0%nat)) as [H0|H0].
    + apply map_size_empty_inv in H0. destruct (decide (s' = s)) as [->|Hs].
      * rewrite lookup_delete_eq, E. cbn. destruct (decide (n' = n)) as [->|Hn].
        -- by rewrite decide_True.
        -- rewrite decide_False by naive_solver.
           rewrite <-(lookup_delete_ne p n) by done. by rewrite H0, lookup_empty.
      * rewrite lookup_delete_ne, decide_False by naive_solver. done.
    + destruct (decide (s' = s)) as [->|Hs].
      * rewrite lookup_insert_eq, E. cbn. destruct (decide (n' = n)) as [->|Hn].
        -- by rewrite lookup_delete_eq, decide_True.
        -- rewrite lookup_delete_ne, decide_False by naive_solver. done.
      * rewrite lookup_insert_ne, decide_False by naive_solver. done.
  - case_decide as H; [|done]. destruct H as [-> ->]. by rewrite E.
Qed.

Lemma wf_put2 s n a m : utf8 s -> utf8 n -> utf8 a -> wf m -> wf (put2 s n a m).
Proof.
  intros Hs Hn Ha Hm. apply map_Forall_insert_2; [|done]. split; [done|].
  split; [apply insert_non_empty|]. apply map_Forall_insert_2; [done|].
  destruct (m !! s) as [p|] eqn:E; cbn; [by apply (Hm s p E)|apply map_Forall_empty].
Qed.

Lemma wf_del2 s n m : wf m -> wf (del2 s n m).
Proof.
  intros Hm. unfold del2. destruct (m !! s) as [p|] eqn:E; [|done].
  destruct (Hm s p E) as (Hs & Hp & Hf).
  destruct (decide (size (delete n p) = 0%nat)) as [H0|H0].
  - by apply map_Forall_delete.
  - apply map_Forall_insert_2; [|done]. split; [done|]. split; [|by apply map_Forall_delete].
    intros E0. apply H0. by rewrite E0, map_size_empty.
Qed.

Lemma wf_ext m1 m2 : wf m1 -> wf m2 -> (forall s n, look m1 s n = look m2 s n) -> m1 = m2.
Proof.
  assert (Hsub : forall m1 m2 s p, wf m1 -> (forall s n, look m1 s n = look m2 s n) ->
      m1 !! s = Some p -> is_Some (m2 !! s)).
  { clear. intros m1 m2 s p H1 H E. destruct (H1 s p E) as (_ & Hp & _).
    apply map_choose in Hp as (n & a & Hn). specialize (H s n). unfold look in H.
    rewrite E in H. cbn in H. rewrite Hn in H. destruct (m2 !! s); [by eexists|done]. }
  intros H1 H2 H. apply map_eq. intros s.
  destruct (m1 !! s) as [p1|] eqn:E1, (m2 !! s) as [p2|] eqn:E2; [| | |done].
  - f_equal. apply map_eq. intros n. specialize (H s n). unfold look in H. by rewrite E1, E2 in H.
  - destruct (Hsub _ _ _ _ H1 H E1) as [? ?]. congruence.
  - destruct (Hsub _ _ _ _ H2 (fun s n => eq_sym (H s n)) E2) as [? ?]. congruence.
Qed.

(** ** Pending changes *)

Lemma look_foldl_put2 l m s n :
  look (foldl (fun m v => put2 (ServiceName v) (NodeName v) (Info v) m) m l) s n
  = match last (filter (about s n) l) with Some v => Some (Info v) | None => look m s n end.
Proof.
  induction l as [|v l IH] using rev_ind; [done|].
  rewrite foldl_app, filter_app, last_app. cbn [foldl]. rewrite look_put2, IH.
  rewrite filter_cons. destruct (decide (about s n v)) as [H|H].
  - by rewrite decide_True by by destruct H.
  - by rewrite decide_False by (intros [-> ->]; by apply H).
Qed.

Lemma look_foldl_del2 l m s n :
  look (foldl (fun m v => del2 (ServiceName v) (NodeName v) m) m l) s n
  = if decide (Exists (about s n) l) then None else look m s n.
Proof.
  induction l as [|v l IH] using rev_ind.
  - rewrite decide_False by by intros ?%Exists_nil. done.
  - rewrite foldl_app. cbn [foldl]. rewrite look_del2, IH.
    destruct (decide (s = ServiceName v /\ n = NodeName v)) as [[-> ->]|H].
    + rewrite decide_True; [done|]. apply Exists_app. right. by constructor.
    + destruct (decide (Exists (about s n) l)) as [He|He].
      * rewrite decide_True; [done|]. apply Exists_app. by left.
      * rewrite decide_False; [done|]. rewrite Exists_app, Exists_cons, Exists_nil. unfold about.
        naive_solver.
Qed.

Lemma look_apply_pending p m s n :
  look (apply_pending p m) s n = match effect p s n with Some o => o | None => look m s n end.
Proof.
  unfold apply_pending, effect. rewrite look_foldl_put2, look_foldl_del2.
  destruct (last _); [done|]. by destruct (decide _).
Qed.

Lemma wf_apply_pending p m :
  Forall transfer_ok (Add p) -> wf m -> wf (apply_pending p m).
Proof.
  intros Ha Hm. unfold apply_pending.
  assert (Hd : wf (foldl (fun m v => del2 (ServiceName v) (NodeName v) m) m (Del p))).
  { revert m Hm. induction (Del p) as [|v l IH]; intros m Hm; [done|]. by apply IH, wf_del2. }
  revert Hd. generalize (foldl (fun m v => del2 (ServiceName v) (NodeName v) m) m (Del p)).
  induction Ha as [|v l (? & ? & ?) _ IH]; intros m' Hm'; [done|]. cbn. apply IH.
  by apply wf_put2.
Qed.

(** Applying pending changes that cover the difference gives the current map. *)
Lemma apply_pending_covers p held cur :
  pending_ok p cur -> covers p held cur -> wf held -> wf cur -> apply_pending p held = cur.
Proof.
  intros [[Ha _] He] Hc Hh Hw. apply wf_ext; [by apply wf_apply_pending|done|].
  intros s n. rewrite look_apply_pending. destruct (effect p s n) as [o|] eqn:E.
  - by rewrite (He _ _ _ E).
  - by apply Hc.
Qed.

Definition published (p : pendingData) (s : string) (item : ServiceItem) : pendingData :=
  mkPending (Add p ++ [mkTransfer s (NodeId item) (Addr item)])
    (rebuildServiceItemList (Del p) s item).
Definition deleted (p : pendingData) (s : string) (item : ServiceItem) : pendingData :=
  mkPending (rebuildServiceItemList (Add p) s item)
    (Del p ++ [mkTransfer s (NodeId item) (Addr item)]).

Lemma rebuild_other l s item s' n' :
  ~ (s' = s /\ n' = NodeId item) ->
  filter (about s' n') (rebuildServiceItemList l s item) = filter (about s' n') l.
Proof.
  intros H. unfold rebuildServiceItemList. rewrite list_filter_filter_l; [done|].
  intros v [<- <-] [H1 H2]. by apply H.
Qed.

Lemma rebuild_same l s item : filter (about s (NodeId item)) (rebuildServiceItemList l s item) = [].
Proof.
  apply filter_none, Forall_forall. intros v Hv Ha.
  unfold rebuildServiceItemList in Hv. apply list_elem_of_filter in Hv as [Hv _]. by apply Hv.
Qed.

Lemma Exists_filter_nil {A} (P : A -> Prop) `{!forall x, Decision (P x)} (l : list A) :
  Exists P l <-> filter P l <> [].
Proof.
  rewrite Exists_exists. split.
  - intros (x & Hx & HP) E. assert (Hin : x ∈ filter P l) by by apply list_elem_of_filter.
    rewrite E in Hin. by apply elem_of_nil in Hin.
  - intros Hne. destruct (filter P l) as [|x l'] eqn:E; [done|].
    assert (Hin : x ∈ filter P l) by (rewrite E; set_solver).
    apply list_elem_of_filter in Hin as [? ?]. by exists x.
Qed.

Lemma Exists_about_eq l1 l2 s n :
  filter (about s n) l1 = filter (about s n) l2 -> Exists (about s n) l1 <-> Exists (about s n) l2.
Proof. intros E. by rewrite !Exists_filter_nil, E. Qed.

Lemma effect_published p s item s' n' :
  effect (published p s item) s' n'
  = if decide (s' = s /\ n' = NodeId item) then Some (Some (Addr item)) else effect p s' n'.
Proof.
  unfold effect, published. cbn [Add Del]. rewrite filter_app, last_app, filter_cons.
  destruct (decide (s' = s /\ n' = NodeId item)) as [[-> ->]|H].
  - by rewrite decide_True by by split.
  - rewrite decide_False by (intros [<- <-]; by apply H). cbn [filter list_filter last].
    destruct (last (filter (about s' n') (Add p))); [done|].
    by rewrite (decide_ext _ _ _ _ (Exists_about_eq _ _ _ _ (rebuild_other (Del p) s item s' n' H))).
Qed.

Lemma effect_deleted p s item s' n' :
  effect (deleted p s item) s' n'
  = if decide (s' = s /\ n' = NodeId item) then Some None else effect p s' n'.
Proof.
  unfold effect, deleted. cbn [Add Del].
  destruct (decide (s' = s /\ n' = NodeId item)) as [[-> ->]|H].
  - rewrite rebuild_same. cbn [last]. rewrite decide_True; [done|].
    apply Exists_app. right. by constructor.
  - rewrite rebuild_other by done. destruct (last (filter (about s' n') (Add p))); [done|].
    apply decide_ext. rewrite Exists_app, Exists_cons, Exists_nil. unfold about. cbn. naive_solver.
Qed.

Definition item_ok (s : string) (item : ServiceItem) : Prop :=
  utf8 s /\ utf8 (NodeId item) /\ utf8 (Addr item).

Lemma rebuild_Forall (P : dataTransferNodeData -> Prop) l s item : Forall P l -> Forall P (rebuildServiceItemList l s item).
Proof.
  rewrite !Forall_forall. intros H v [_ Hv]%list_elem_of_filter. by apply H.
Qed.

Lemma pending_ok_published p cur s item :
  item_ok s item -> pending_ok p cur ->
  pending_ok (published p s item) (put2 s (NodeId item) (Addr item) cur).
Proof.
  intros (? & ? & ?) [[Ha Hd] He]. split; cbn.
  - split; [|by apply rebuild_Forall]. apply Forall_app. by repeat constructor.
  - intros s' n' o. rewrite effect_published, look_put2. destruct (decide _); [congruence|auto].
Qed.

Lemma pending_ok_deleted p cur s item :
  item_ok s item -> pending_ok p cur ->
  pending_ok (deleted p s item) (del2 s (NodeId item) cur).
Proof.
  intros (? & ? & ?) [[Ha Hd] He]. split; cbn.
  - split; [by apply rebuild_Forall|]. apply Forall_app. by repeat constructor.
  - intros s' n' o. rewrite effect_deleted, look_del2. destruct (decide _); [congruence|auto].
Qed.

Lemma covers_published p held cur s item :
  covers p held cur -> covers (published p s item) held (put2 s (NodeId item) (Addr item) cur).
Proof.
  intros Hc s' n'. rewrite effect_published, look_put2. destruct (decide _); [done|auto].
Qed.

Lemma covers_deleted p held cur s item :
  covers p held cur -> covers (deleted p s item) held (del2 s (NodeId item) cur).
Proof.
  intros Hc s' n'. rewrite effect_deleted, look_del2. destruct (decide _); [done|auto].
Qed.

Lemma pending_ok_empty cur : pending_ok (mkPending [] []) cur.
Proof.
  split; [by repeat constructor|]. intros s n o. unfold effect. cbn [filter list_filter last Add Del].
  by rewrite decide_False by by intros ?%Exists_nil.
Qed.

(** ** Merging *)

Lemma foldl_insert_lookup {V} (l : list (string * V)) (m : gmap string V) k :
  NoDup l.*1 ->
  foldl (fun m ij => <[ij.1 := ij.2]> m) m l !! k
  = match (list_to_map l : gmap string V) !! k with Some v => Some v | None => m !! k end.
Proof.
  revert m. induction l as [|[i v] l IH]; intros m Hnd; [cbn; by rewrite lookup_empty|].
  apply NoDup_cons in Hnd as [Hi Hnd]. cbn [foldl fst snd list_to_map foldr uncurry].
  rewrite IH by done. destruct (decide (k = i)) as [->|Hk].
  - rewrite (not_elem_of_list_to_map_1 l i) by done. by rewrite !lookup_insert_eq.
  - by rewrite !lookup_insert_ne by done.
Qed.

(** The entry of a received mapping, nil maps being empty. *)
Definition nlook (m : gmap string (option (gmap string string))) (s n : string) : option string :=
  m !! s ≫= fun p => default ∅ p !! n.

Lemma nlook_some m s n : nlook (Some <$> m) s n = look m s n.
Proof. unfold nlook, look. rewrite lookup_fmap. by destruct (m !! s). Qed.

Section Merge.
Context `{!MapRange, !Json, !DnsNames, !UnicodeData}.

Lemma range_NoDup {V} (m : gmap string V) : NoDup (range m).*1.
Proof. rewrite range_perm. apply NoDup_fst_map_to_list. Qed.

Lemma range_to_map {V} (m : gmap string V) : list_to_map (range m) = m.
Proof.
  rewrite (list_to_map_proper (range m) (map_to_list m) (range_NoDup m) (range_perm m)).
  apply list_to_map_to_list.
Qed.

Lemma elem_of_range {V} (m : gmap string V) k v : (k, v) ∈ range m <-> m !! k = Some v.
Proof. rewrite range_perm. apply elem_of_map_to_list. Qed.

Lemma look_copy_service dst kv s n :
  look (copy_service dst kv) s n
  = match (if decide (s = kv.1) then default ∅ kv.2 !! n else None) with
    | Some a => Some a
    | None => look dst s n
    end.
Proof.
  unfold look, copy_service. destruct (decide (s = kv.1)) as [->|Hs].
  - rewrite lookup_insert_eq. cbn [mbind option_bind].
    rewrite foldl_insert_lookup by apply range_NoDup. rewrite range_to_map.
    destruct (default ∅ kv.2 !! n); [done|]. by destruct (dst !! kv.1).
  - by rewrite lookup_insert_ne by done.
Qed.

Lemma look_foldl_copy l dst s n :
  NoDup l.*1 ->
  look (foldl copy_service dst l) s n
  = match nlook (list_to_map l) s n with Some a => Some a | None => look dst s n end.
Proof.
  revert dst. induction l as [|[k v] l IH]; intros dst Hnd.
  - unfold nlook. cbn. by rewrite lookup_empty.
  - apply NoDup_cons in Hnd as [Hk Hnd]. cbn [foldl]. rewrite IH, look_copy_service by done.
    unfold nlook. cbn [list_to_map foldr uncurry fst snd].
    destruct (decide (s = k)) as [->|Hs].
    + rewrite (not_elem_of_list_to_map_1 l k) by done. by rewrite lookup_insert_eq.
    + by rewrite lookup_insert_ne by done.
Qed.

(** [copyMap]: the source wins, the destination keeps the rest. *)
Lemma look_copyMap src dst s n :
  look (copyMap src dst) s n
  = match nlook src s n with Some a => Some a | None => look dst s n end.
Proof. unfold copyMap. by rewrite look_foldl_copy, range_to_map by apply range_NoDup. Qed.

(** What the peers hold for a service and node, the last one winning. *)
Definition held_by (l : list (string * memNodeData)) (s n : string) : list string :=
  omap (fun kv => nlook (default ∅ (ServiceMapping kv.2)) s n) l.

Lemma look_merge l m s n :
  look (foldl (fun m (kv : string * memNodeData) =>
          copyMap (default ∅ (ServiceMapping kv.2)) m) m l) s n
  = match last (held_by l s n) with Some a => Some a | None => look m s n end.
Proof.
  induction l as [|kv l IH] using rev_ind; [done|].
  rewrite foldl_app. cbn [foldl]. rewrite look_copyMap, IH.
  unfold held_by. rewrite omap_app, last_app. cbn [omap list_omap].
  by destruct (nlook (default ∅ (ServiceMapping kv.2)) s n).
Qed.

(** The served map after [buildMemData]. *)
Lemma look_buildMemData m s n :
  look (services (buildMemData m).2) s n
  = match last (held_by (range (dataFrom m)) s n) with
    | Some a => Some a
    | None => look (currentServices m) s n
    end.
Proof.
  unfold buildMemData, modify. cbn [snd services with_services].
  rewrite look_merge, look_copyMap, nlook_some.
  destruct (last _); [done|]. destruct (look (currentServices m) s n); [done|].
  unfold look. by rewrite lookup_empty.
Qed.

Lemma elem_of_held m s n a :
  a ∈ held_by (range (dataFrom m)) s n <->
  exists peer nd, dataFrom m !! peer = Some nd /\ nlook (default ∅ (ServiceMapping nd)) s n = Some a.
Proof.
  unfold held_by. rewrite list_elem_of_omap. split.
  - intros ([peer nd] & Hin & E). exists peer, nd. by rewrite <-elem_of_range.
  - intros (peer & nd & Hp & E). exists (peer, nd). by rewrite elem_of_range.
Qed.
End Merge.

(** ** Concrete libraries *)

(** Instances that satisfy the laws, so that the theorems can be run: visits in
    the order of stdpp, a generic encoding in place of JSON, a plain [Fqdn], and
    lower case on ASCII letters only. *)
Module ToyLibs.
#[export] Instance toy_range : MapRange := {|
  range V m := map_to_list m;
  range_perm V m := Permutation_refl (map_to_list m);
|}.

Definition triple_of (v : dataTransferNodeData) : string * string * string :=
  (ServiceName v, NodeName v, Info v).
Definition of_triple (t : string * string * string) : dataTransferNodeData :=
  mkTransfer t.1.1 t.1.2 t.2.

#[export] Instance toy_json : Json := {|
  Marshal_node n := Ok (toy_enc (ServiceMapping n));
  memNodeDataUnmarshall bs :=
    match toy_dec bs with Ok m => Ok (mkNode m) | _ => Fail (ExtError "malformed") end;
  Marshal_list l := Ok (toy_enc (triple_of <$> l));
  dataTransferNodeDataList bs :=
    match toy_dec bs with
    | Ok l => Ok (Some <$> (of_triple <$> l))
    | _ => Fail (ExtError "malformed")
    end;
|}.

#[export] Instance toy_json_laws : JsonLaws toy_json.
Proof.
  split.
  - intros m _. eexists. split; [reflexivity|]. cbn. by rewrite toy_dec_enc.
  - intros l _. eexists. split; [reflexivity|]. cbn. rewrite toy_dec_enc.
    assert (of_triple <$> (triple_of <$> l) = l) as ->; [|done].
    induction l as [|[] l IH]; [done|]. cbn. by rewrite IH.
Qed.

#[export] Instance toy_names : DnsNames := {|
  Fqdn s := if HasSuffix s "." then s else s +:+ ".";
|}.

#[export] Instance toy_unicode : UnicodeData := {| unicode_ToLower := lower_byte |}.
#[export] Instance toy_unicode_laws : UnicodeLaws toy_unicode.
Proof.
  split; [done|apply lower_byte_idem|]. intros r. cbn. unfold lower_byte, valid_rune, between.
  destruct (_ && (r <=? 90)) eqn:E; [|done]. apply andb_true_iff in E as [?%Z.leb_le ?%Z.leb_le].
  intros _. rewrite orb_true_iff, !andb_true_iff. lia.
Qed.
End ToyLibs.
Export ToyLibs.

(** ** Properties *)

(** C19. The served services are the union of this node's and its peers': after a
    merge, [GetServiceList] returns an item exactly when some source holds it
    and no peer visited later overrides it; hence every item comes from a
    source, every service instance known to a source is listed once, and when
    the sources that know it agree on its address the answer does not depend
    on the order of visiting. *)
Theorem GetServiceList_union `{!MapRange, !Json, !DnsNames, !UnicodeData} m service l :
  GetServiceList service (buildMemData m).2 = (Ok l, (buildMemData m).2) ->
  let source n a := look (currentServices m) service n = Some a
    \/ exists peer nd, dataFrom m !! peer = Some nd
         /\ nlook (default ∅ (ServiceMapping nd)) service n = Some a in
  NoDup (NodeId <$> l)
  /\ (forall n a, mkItem a n ∈ l -> source n a)
  /\ (forall n a, source n a -> exists a', mkItem a' n ∈ l)
  /\ (forall n a, source n a -> (forall a', source n a' -> a' = a) -> mkItem a n ∈ l).
Proof.
  intros E source. set (sv := (buildMemData m).2) in *.
  assert (El : l = match services sv !! service with
                   | None => []
                   | Some li => (fun kv => mkItem kv.2 kv.1) <$> range li
                   end) by (unfold GetServiceList, gets in E; congruence).
  assert (Hl : forall n a, mkItem a n ∈ l <-> look (services sv) service n = Some a).
  { intros n a. rewrite El. unfold look. destruct (services sv !! service) as [li|]; cbn [mbind option_bind];
      [|by split; [intros ?%elem_of_nil|]].
    rewrite list_elem_of_fmap. rewrite <-elem_of_range. split.
    - intros ([k v] & [= -> ->] & Hin). done.
    - intros Hin. by exists (n, a). }
  assert (Hin : forall n a, mkItem a n ∈ l -> source n a).
  { intros n a. rewrite Hl. unfold sv. rewrite look_buildMemData.
    destruct (last _) as [a'|] eqn:Eh; [|by left]. intros [= ->]. right.
    apply elem_of_held. by apply last_Some_elem_of. }
  assert (Hall : forall n a, source n a -> exists a', mkItem a' n ∈ l).
  { intros n a Hs. setoid_rewrite Hl. unfold sv. rewrite look_buildMemData.
    destruct (last _) as [a'|] eqn:Eh; [by exists a'|]. destruct Hs as [Hs|Hs]; [by exists a|].
    apply last_None in Eh. apply elem_of_held in Hs. rewrite Eh in Hs. by apply elem_of_nil in Hs. }
  split_and!; [|done|done|].
  - rewrite El. destruct (services sv !! service) as [li|]; [|constructor].
    rewrite <-list_fmap_compose. apply range_NoDup.
  - intros n a Hs Hu. destruct (Hall n a Hs) as [a' Ha']. by rewrite <-(Hu a' (Hin _ _ Ha')).
Qed.

Definition two_sources : MemStore :=
  mkStore ∅ ∅ {["web" := {["n1" := "10.0.0.1:80"]}]}
    {["peer" := node_of {["web" := {["n2" := "10.0.0.2:80"]}]}]} ∅ [].

Lemma GetServiceList_union_witness :
  let l := [mkItem "10.0.0.1:80" "n1"; mkItem "10.0.0.2:80" "n2"] in
  NoDup (NodeId <$> l) /\ forall n a, mkItem a n ∈ l ->
    look (currentServices two_sources) "web" n = Some a
    \/ exists peer nd, dataFrom two_sources !! peer = Some nd
         /\ nlook (default ∅ (ServiceMapping nd)) "web" n = Some a.
Proof.
  destruct (GetServiceList_union two_sources "web"
    [mkItem "10.0.0.1:80" "n1"; mkItem "10.0.0.2:80" "n2"]) as (H1 & H2 & _);
    [vm_compute; reflexivity|exact (conj H1 H2)].
Defined.

(** Static domains are case-insensitive: after [PutDomain d r t] the lookup
    of any spelling of the qualified name with type [t] answers [r], and every
    other lookup is unchanged. *)
Theorem PutDomain_ResolveDomain `{!DnsNames, !UnicodeData} d r t m :
  exists m', PutDomain d r t m = (Ok tt, m')
    /\ (forall x, ToLower x = Fqdn (ToLower d) -> ResolveDomain x t m' = (Ok r, m'))
    /\ (forall x t', ~ (ToLower x = Fqdn (ToLower d) /\ t' = t) ->
          (ResolveDomain x t' m').1 = (ResolveDomain x t' m).1).
Proof.
  eexists. split; [reflexivity|]. split.
  - intros x Hx. unfold ResolveDomain, bind, get. cbn [staticDomainMapping with_static].
    by rewrite lookup_insert_eq, Hx, lookup_insert_eq.
  - intros x t' Hne. unfold ResolveDomain, bind, get. cbn [staticDomainMapping with_static dnsStores].
    destruct (decide (t' = t)) as [->|Ht].
    + rewrite lookup_insert_eq, lookup_insert_ne by naive_solver.
      destruct (staticDomainMapping m !! t) as [sub|]; cbn [default from_option id].
      * by destruct (sub !! ToLower x).
      * by rewrite lookup_empty.
    + rewrite lookup_insert_ne by done. by repeat case_match.
Qed.

(** Nested stores: when no static record answers, the first nested store that
    succeeds does, whatever errors the stores before it return; when all fail
    the result is [ErrStorageNotFound]. *)
Theorem ResolveDomain_nested `{!UnicodeData} domain t m before store after r :
  staticDomainMapping m !! t ≫= (fun sub => sub !! ToLower domain) = None ->
  Forall (fun s : DnsStorage => exists e, s (ToLower domain) t = Fail e) before ->
  (dnsStores m = before /\ r = Fail ErrStorageNotFound
   \/ dnsStores m = before ++ store :: after /\ (exists v, r = Ok v)
      /\ store (ToLower domain) t = r) ->
  ResolveDomain domain t m = (r, m).
Proof.
  intros Hs Hb Hr. unfold ResolveDomain, bind, get, lift.
  assert (E : resolve_nested (dnsStores m) (ToLower domain) t = r).
  { assert (Hskip : forall l, resolve_nested (before ++ l) (ToLower domain) t
                              = resolve_nested l (ToLower domain) t).
    { intros l. clear Hr. induction Hb as [|s b [e He] _ IH]; [done|]. cbn. by rewrite He. }
    destruct Hr as [[-> ->]|(-> & [v ->] & Ev)].
    - rewrite <-(app_nil_r before), Hskip. done.
    - rewrite Hskip. cbn. by rewrite Ev. }
  destruct (staticDomainMapping m !! t) as [sub|]; [|by rewrite E].
  cbn in Hs. by rewrite Hs, E.
Qed.

Lemma ResolveDomain_nested_witness :
  let stores := [fun _ _ => Fail (ExtError "broken"); fun _ _ => Ok "10.0.0.1"] : list DnsStorage in
  ResolveDomain "WWW.Example." DomainTypeA (NewMemStore stores) = (Ok "10.0.0.1", NewMemStore stores).
Proof.
  apply (ResolveDomain_nested "WWW.Example." DomainTypeA
    (NewMemStore [fun _ _ => Fail (ExtError "broken"); fun _ _ => Ok "10.0.0.1"])
    [fun _ _ => Fail (ExtError "broken")] (fun _ _ => Ok "10.0.0.1") [] (Ok "10.0.0.1"));
    [done|constructor; [by eexists|constructor]|right; split; [done|]; split; [by eexists|done]].
Defined.
