(* ===== verification/MemSync.v ===== *)
(** * Synchronising two stores

    A source node [a] and a peer [b] that copies its services.  An answer of the
    source travels: it is made at one step and installed, or lost, at a later
    one, and anything else may happen on both nodes in between.  The invariants
    are that what travels and what the peer holds are well-formed, and - as
    long as no answer is lost - that the changes pending for the peer cover
    every difference between what it will hold and what the source publishes. *)

From stdpp Require Import base list gmap strings relations.
From Stdlib Require Import ZArith Lia.
From S2P Require Import Prelude GoStr Bytes Toy MemStore.
Local Open Scope Z_scope.
Local Open Scope go_scope.

(** ** Definitions *)

Section Steps.
Context `{!MapRange, !Json, !DnsNames, !UnicodeData}.
Variables a b : string.   (* the node ids of the source and of the peer *)

(** One full fetch and one incremental fetch, request to installed answer. *)
Definition full_fetch (A B : MemStore) : exec unit * (MemStore * MemStore) :=
  match FetchFullAndWatch b A with
  | (Ok data, A') => let '(r, B') := FullFrom a data B in (r, (A', B'))
  | (Fail e, A') => (Fail e, (A', B))
  | (Panic msg, A') => (Panic msg, (A', B))
  | (NoFuel, A') => (NoFuel, (A', B))
  end.

Definition incremental_fetch (A B : MemStore) : exec unit * (MemStore * MemStore) :=
  match FetchChangesForPeerNodeRequest b A with
  | (Ok (add, del), A') => let '(r, B') := SyncFrom a a add del B in (r, (A', B'))
  | (Fail e, A') => (Fail e, (A', B))
  | (Panic msg, A') => (Panic msg, (A', B))
  | (NoFuel, A') => (NoFuel, (A', B))
  end.

(** An answer of the source, on its way to the peer. *)
Inductive answer :=
| AFull (data : gmap string (list byte))
| AChanges (add del : gmap string (list byte)).

Record Net := mkNet {
  source : MemStore;
  replica : MemStore;
  flight : option answer;   (* the worker of the peer has one request at a time *)
}.

(** What [ProcessSyncWorker] of the peer does with an answer. *)
Definition install (ans : answer) : M MemStore unit :=
  match ans with
  | AFull data => FullFrom a data
  | AChanges add del => SyncFrom a a add del
  end.

(** A request is served at the source; an error answer carries nothing. *)
Definition ask_full (A B : MemStore) : Net :=
  match FetchFullAndWatch b A with
  | (Ok data, A') => mkNet A' B (Some (AFull data))
  | (_, A') => mkNet A' B None
  end.

Definition ask_changes (A B : MemStore) : Net :=
  match FetchChangesForPeerNodeRequest b A with
  | (Ok (add, del), A') => mkNet A' B (Some (AChanges add del))
  | (_, A') => mkNet A' B None
  end.

(** What can happen between the nodes and on each of them, no answer lost. *)
Inductive served_step : Net -> Net -> Prop :=
| ss_publish s item A B fl :
    item_ok s item -> served_step (mkNet A B fl) (mkNet (PublishService s item A).2 B fl)
| ss_delete s item A B fl :
    item_ok s item -> served_step (mkNet A B fl) (mkNet (DeleteService s item A).2 B fl)
| ss_put_domain d r t A B fl : served_step (mkNet A B fl) (mkNet (PutDomain d r t A).2 B fl)
| ss_unwatch c A B fl : served_step (mkNet A B fl) (mkNet (Unwatch c A).2 B fl)
| ss_other_full c A B fl :
    c <> b -> served_step (mkNet A B fl) (mkNet (FetchFullAndWatch c A).2 B fl)
| ss_other_changes c A B fl :
    c <> b -> served_step (mkNet A B fl) (mkNet (FetchChangesForPeerNodeRequest c A).2 B fl)
| ss_ask_full A B : served_step (mkNet A B None) (ask_full A B)
| ss_ask_changes A B : served_step (mkNet A B None) (ask_changes A B)
| ss_deliver ans A B :
    served_step (mkNet A B (Some ans)) (mkNet A (install ans B).2 None)
| ss_abandon A B fl : served_step (mkNet A B fl) (mkNet A (Abandon a B).2 fl)
| ss_peer A B B' fl :   (* anything at the peer that keeps what it got from [a] *)
    dataFrom B' !! a = dataFrom B !! a -> served_step (mkNet A B fl) (mkNet A B' fl).

(** Everything that can happen: an answer may be lost on its way. *)
Inductive sync_step : Net -> Net -> Prop :=
| sy_served N N' : served_step N N' -> sync_step N N'
| sy_lost ans A B : sync_step (mkNet A B (Some ans)) (mkNet A B None).

Definition initial (nested nested' : list DnsStorage) : Net :=
  mkNet (NewMemStore nested) (NewMemStore nested') None.

(** A reachable state between two requests. *)
Definition reachable (nested nested' : list DnsStorage) (A B : MemStore) : Prop :=
  rtc sync_step (initial nested nested') (mkNet A B None).

(** One in which no answer was lost since the last full request. *)
Definition kept_up (nested nested' : list DnsStorage) (A B : MemStore) : Prop :=
  exists A0 B0, reachable nested nested' A0 B0 /\ rtc served_step (ask_full A0 B0) (mkNet A B None).

(** *** The invariant *)

Record source_ok (A : MemStore) : Prop := {
  so_cur : wf (currentServices A);
  so_pending : map_Forall (fun _ p => pending_ok p (currentServices A)) (dataTo A);
}.

(** What is pending for the peer covers all that it lacks, if it holds [held]. *)
Definition covered (held : service_map) (A : MemStore) : Prop :=
  forall p, dataTo A !! b = Some p -> covers p held (currentServices A).

Definition linked (A B : MemStore) : Prop :=
  forall p nd, dataTo A !! b = Some p -> dataFrom B !! a = Some nd ->
  exists held, nd = node_of held /\ wf held /\ covers p held (currentServices A).

Definition holds_wf (B : MemStore) : Prop :=
  forall nd, dataFrom B !! a = Some nd -> exists held, nd = node_of held /\ wf held.

Definition flight_ok (fl : option answer) : Prop :=
  match fl with
  | None => True
  | Some (AFull data) => exists d m, data = {[DefaultDataKey := d]}
      /\ memNodeDataUnmarshall d = Ok (node_of m) /\ wf m
  | Some (AChanges add del) => exists ab db p,
      add = {[DefaultDataKey := ab]} /\ del = {[DefaultDataKey := db]}
      /\ dataTransferNodeDataList ab = Ok (Some <$> Add p)
      /\ dataTransferNodeDataList db = Ok (Some <$> Del p) /\ Forall transfer_ok (Add p)
  end.

(** In every reachable state. *)
Record net_ok (N : Net) : Prop := {
  no_source : source_ok (source N);
  no_holds : holds_wf (replica N);
  no_flight : flight_ok (flight N);
}.

(** The peer once the answer under way has arrived. *)
Definition landed (N : Net) : MemStore :=
  match flight N with None => replica N | Some ans => (install ans (replica N)).2 end.

(** While no answer is lost. *)
Definition in_sync (N : Net) : Prop :=
  forall m, dataFrom (landed N) !! a = Some (node_of m) -> covered m (source N).
End Steps.

(** ** Lemmas *)

Section Lemmas.
Context `{!MapRange, !Json, !DnsNames, !UnicodeData}.
Context `{!JsonLaws _}.

Lemma sync_del_node v held :
  sync_del (Some v) (node_of held) = Ok (node_of (del2 (ServiceName v) (NodeName v) held)).
Proof.
  unfold sync_del, node_of, del2. cbn [ServiceMapping default from_option id]. rewrite lookup_fmap.
  destruct (held !! ServiceName v) as [p|]; cbn [fmap option_fmap option_map]; [|done].
  cbn [default from_option id]. destruct (decide (size (delete (NodeName v) p) = 0%nat)).
  - by rewrite fmap_delete.
  - by rewrite fmap_insert.
Qed.

Lemma sync_add_node v held :
  sync_add (Some v) (node_of held) = Ok (node_of (put2 (ServiceName v) (NodeName v) (Info v) held)).
Proof.
  unfold sync_add, node_of, put2. cbn [ServiceMapping]. rewrite lookup_fmap.
  destruct (held !! ServiceName v) as [p|]; cbn [fmap option_fmap option_map default];
    by rewrite fmap_insert.
Qed.

Lemma with_from_twice m1 m2 s : with_from m1 (with_from m2 s) = with_from m1 s.
Proof. done. Qed.

Lemma sync_loop_ok step (f : dataTransferNodeData -> service_map -> service_map) node l held m :
  (forall v held, step (Some v) (node_of held) = Ok (node_of (f v held))) ->
  dataFrom m !! node = Some (node_of held) ->
  sync_loop step node (Some <$> l) m
  = (Ok tt, with_from (<[node := node_of (foldl (fun h v => f v h) held l)]> (dataFrom m)) m).
Proof.
  intros Hstep. revert held m. induction l as [|v l IH]; intros held m Hn; cbn [fmap list_fmap sync_loop foldl].
  - rewrite insert_id by done. by destruct m.
  - unfold bind at 1, get. rewrite Hn. unfold bind at 1, lift. rewrite Hstep.
    unfold bind at 1, modify. rewrite (IH (f v held)).
    + by rewrite with_from_twice; cbn [dataFrom with_from]; rewrite insert_insert_eq.
    + cbn [dataFrom with_from]. by rewrite lookup_insert_eq.
Qed.

Lemma buildMemData_from m : exists sv, buildMemData m = (Ok tt, with_services sv m).
Proof. by eexists. Qed.

(** The peer's side of an incremental fetch. *)
Lemma SyncFrom_ok a held (p : pendingData) ab db m :
  dataFrom m !! a = Some (node_of held) ->
  dataTransferNodeDataList ab = Ok (Some <$> Add p) ->
  dataTransferNodeDataList db = Ok (Some <$> Del p) ->
  exists m', SyncFrom a a {[DefaultDataKey := ab]} {[DefaultDataKey := db]} m = (Ok tt, m')
    /\ dataFrom m' = <[a := node_of (apply_pending p held)]> (dataFrom m)
    /\ dataTo m' = dataTo m /\ currentServices m' = currentServices m.
Proof.
  intros Hn Ha Hd. unfold SyncFrom. rewrite !lookup_singleton_eq.
  unfold bind at 1, lift. rewrite Ha. unfold bind at 1, lift. rewrite Hd.
  unfold bind at 1, get. rewrite Hn.
  rewrite (bind_ok _ _ _ _ _ (sync_loop_ok sync_del _ a (Del p) held m sync_del_node Hn)).
  set (m1 := with_from _ m).
  assert (Hn1 : dataFrom m1 !! a = Some (node_of (foldl (fun h v => del2 (ServiceName v) (NodeName v) h)
    held (Del p)))) by (subst m1; cbn [dataFrom with_from]; by rewrite lookup_insert_eq).
  rewrite (bind_ok _ _ _ _ _ (sync_loop_ok sync_add
    (fun v => put2 (ServiceName v) (NodeName v) (Info v)) a (Add p) _ m1 sync_add_node Hn1)).
  destruct (buildMemData_from (with_from
    (<[a := node_of (foldl (fun h v => put2 (ServiceName v) (NodeName v) (Info v) h)
       (foldl (fun h v => del2 (ServiceName v) (NodeName v) h) held (Del p)) (Add p))]>
       (dataFrom m1)) m1)) as [sv E]. rewrite E.
  eexists. split; [reflexivity|]. subst m1. cbn [dataFrom with_services with_from dataTo currentServices].
  by rewrite insert_insert_eq.
Qed.

Lemma FullFrom_ok a m (data : list byte) nd :
  memNodeDataUnmarshall data = Ok nd ->
  exists m', FullFrom a {[DefaultDataKey := data]} m = (Ok tt, m')
    /\ dataFrom m' = <[a := nd]> (dataFrom m).
Proof.
  intros Hu. unfold FullFrom. rewrite lookup_singleton_eq. unfold bind at 1, lift. rewrite Hu.
  unfold bind, modify.
  destruct (buildMemData_from (with_from (<[a := nd]> (dataFrom m)) m)) as [sv E]. rewrite E.
  by eexists.
Qed.

(** The source's side of both fetches. *)
Lemma FetchFullAndWatch_ok b A :
  source_ok A ->
  exists data A', FetchFullAndWatch b A = (Ok {[DefaultDataKey := data]}, A')
    /\ memNodeDataUnmarshall data = Ok (node_of (currentServices A))
    /\ currentServices A' = currentServices A
    /\ dataTo A' = <[b := default (mkPending [] []) (dataTo A !! b)]> (dataTo A).
Proof.
  intros [Hw _]. destruct (json_node _ Hw) as (data & Em & Eu).
  unfold FetchFullAndWatch, bind, modify, get, lift, ret.
  destruct (dataTo A !! b) as [p|] eqn:E; cbn [currentServices with_to] in *;
    unfold node_of in Em; rewrite Em; eexists data, _; split_and!; try done.
  cbn. by rewrite insert_id.
Qed.

Lemma FetchChanges_ok b A p :
  source_ok A -> dataTo A !! b = Some p ->
  exists ab db, FetchChangesForPeerNodeRequest b A
      = (Ok ({[DefaultDataKey := ab]}, {[DefaultDataKey := db]}),
         with_to (<[b := mkPending [] []]> (dataTo A)) A)
    /\ dataTransferNodeDataList ab = Ok (Some <$> Add p)
    /\ dataTransferNodeDataList db = Ok (Some <$> Del p).
Proof.
  intros [_ Hp] Hb. destruct (po_strings _ _ (Hp b p Hb)) as [Ha Hd].
  destruct (json_list _ Ha) as (ab & Ea & Ua). destruct (json_list _ Hd) as (db & Ed & Ud).
  exists ab, db. split; [|done]. unfold FetchChangesForPeerNodeRequest, bind at 1, get. rewrite Hb.
  unfold marshal_pending, bind, catch, lift, modify, ret. by rewrite Ea, Ed.
Qed.
End Lemmas.

(** ** The invariant is kept by every step *)

Section Invariant.
Context `{!MapRange, !Json, !DnsNames, !UnicodeData}.
Context `{!JsonLaws _}.
Variables a b : string.

Lemma source_ok_publish s item A :
  item_ok s item -> source_ok A -> source_ok (PublishService s item A).2.
Proof.
  intros Hi [Hw Hp]. destruct Hi as (Hs & Hn & Ha). split; cbn.
  - by apply wf_put2.
  - intros c p' Hc. rewrite lookup_fmap in Hc. apply fmap_Some in Hc as (p & Hc & ->).
    apply (pending_ok_published p _ s item); [done|]. by apply (Hp c).
Qed.

Lemma source_ok_delete s item A :
  item_ok s item -> source_ok A -> source_ok (DeleteService s item A).2.
Proof.
  intros Hi [Hw Hp]. split; cbn.
  - by apply wf_del2.
  - intros c p' Hc. rewrite lookup_fmap in Hc. apply fmap_Some in Hc as (p & Hc & ->).
    apply (pending_ok_deleted p _ s item); [done|]. by apply (Hp c).
Qed.

Lemma source_ok_same A A' :
  currentServices A' = currentServices A ->
  (forall c p, dataTo A' !! c = Some p -> dataTo A !! c = Some p \/ p = mkPending [] []) ->
  source_ok A -> source_ok A'.
Proof.
  intros Hc Ht [Hw Hp]. split; rewrite Hc; [done|]. intros c p E.
  destruct (Ht c p E) as [Hc0| ->]; [by apply (Hp c)|apply pending_ok_empty].
Qed.

(** After a full fetch the pair is linked and the peer is up to date. *)
Lemma full_fetch_ok A B :
  source_ok A ->
  exists A' B', full_fetch a b A B = (Ok tt, (A', B'))
    /\ source_ok A' /\ linked a b A' B'
    /\ currentServices A' = currentServices A
    /\ dataFrom B' !! a = Some (node_of (currentServices A)).
Proof.
  intros Hs. destruct (FetchFullAndWatch_ok b A Hs) as (data & A' & E & Eu & Hc & Ht).
  destruct (FullFrom_ok a B data _ Eu) as (B' & E' & Hf).
  exists A', B'. unfold full_fetch. rewrite E, E'. split; [done|].
  assert (Hn : dataFrom B' !! a = Some (node_of (currentServices A)))
    by by rewrite Hf, lookup_insert_eq.
  split; [|split; [|done]].
  - apply (source_ok_same A); [done| |done]. intros c p. rewrite Ht.
    destruct (decide (c = b)) as [->|Hne]; [|rewrite lookup_insert_ne by done; by left].
    rewrite lookup_insert_eq. intros [= <-]. destruct (dataTo A !! b); [by left|by right].
  - intros p nd _ Hnd. rewrite Hn in Hnd. injection Hnd as <-. rewrite Hc.
    eexists. split; [done|]. split; [apply Hs|]. by intros s n _.
Qed.

(** An incremental fetch of a watched, linked source cannot fail and brings
    the peer up to date. *)
Lemma incremental_fetch_ok A B p nd :
  source_ok A -> linked a b A B -> dataTo A !! b = Some p -> dataFrom B !! a = Some nd ->
  exists A' B', incremental_fetch a b A B = (Ok tt, (A', B'))
    /\ source_ok A' /\ linked a b A' B'
    /\ currentServices A' = currentServices A
    /\ dataTo A' !! b = Some (mkPending [] [])
    /\ dataFrom B' !! a = Some (node_of (currentServices A)).
Proof.
  intros Hs Hl Hp Hn. destruct (Hl p nd Hp Hn) as (held & -> & Hh & Hcov).
  destruct (FetchChanges_ok b A p Hs Hp) as (ab & db & E & Ea & Ed).
  destruct (SyncFrom_ok a held p ab db B Hn Ea Ed) as (B' & E' & Hf & _).
  assert (Hcur : apply_pending p held = currentServices A).
  { apply apply_pending_covers; [apply (so_pending _ Hs b p Hp)|done|done|apply Hs]. }
  rewrite Hcur in Hf. eexists _, B'. unfold incremental_fetch. rewrite E, E'.
  split; [done|]. cbn [currentServices dataTo with_to].
  assert (Hn' : dataFrom B' !! a = Some (node_of (currentServices A)))
    by by rewrite Hf, lookup_insert_eq.
  split; [|split; [|by rewrite lookup_insert_eq]].
  - apply (source_ok_same A); [done| |done]. intros c p'. cbn.
    destruct (decide (c = b)) as [->|Hne]; [rewrite lookup_insert_eq; intros [= <-]; by right|].
    rewrite lookup_insert_ne by done. by left.
  - intros p' nd _ Hnd. rewrite Hn' in Hnd. injection Hnd as <-. cbn.
    eexists. split; [done|]. split; [apply Hs|]. by intros s n _.
Qed.

End Invariant.

Section Reachable.
Context `{!MapRange, !Json, !DnsNames, !UnicodeData}.
Context `{!JsonLaws _}.
Variables a b : string.

Lemma Abandon_from B : dataFrom (Abandon a B).2 !! a = None.
Proof.
  unfold Abandon, bind, get. destruct (dataFrom B !! a) eqn:E; [|done]. cbn.
  apply lookup_delete_eq.
Qed.

(** A fetch of another peer changes only the list pending for it. *)
Lemma other_fetch c A A' :
  A' = (FetchFullAndWatch c A).2 \/ A' = (FetchChangesForPeerNodeRequest c A).2 ->
  currentServices A' = currentServices A
  /\ (A' = A \/ dataTo A' = <[c := mkPending [] []]> (dataTo A)).
Proof.
  intros [-> | ->].
  - unfold FetchFullAndWatch, bind, modify, get, lift, ret.
    destruct (dataTo A !! c) eqn:E; cbn [currentServices with_to];
      destruct (Marshal_node _); cbn; auto.
  - unfold FetchChangesForPeerNodeRequest, marshal_pending, bind, catch, get, lift, ret, fail, modify.
    destruct (dataTo A !! c) as [p|]; [|auto].
    destruct (Marshal_list (Add p)); [|by auto..].
    destruct (Marshal_list (Del p)); cbn; auto.
Qed.

Lemma node_of_inj m m' : Some (node_of m) = Some (node_of m') -> m = m'.
Proof.
  unfold node_of. intros [= Hm]. apply map_eq. intros s.
  apply (f_equal (fun x => x !! s)) in Hm. rewrite !lookup_fmap in Hm.
  destruct (m !! s), (m' !! s); naive_solver.
Qed.

(** *** The steps of the source *)

(** They keep its data well-formed and what is pending for the peer complete. *)
Definition source_steps (A A' : MemStore) : Prop :=
  (source_ok A -> source_ok A') /\ forall held, covered b held A -> covered b held A'.

Lemma source_steps_same A A' :
  currentServices A' = currentServices A ->
  (forall c p, dataTo A' !! c = Some p -> dataTo A !! c = Some p \/ p = mkPending [] []) ->
  (forall p, dataTo A' !! b = Some p -> dataTo A !! b = Some p) -> source_steps A A'.
Proof.
  intros Hc Ht Hb. split; [by apply source_ok_same|]. intros held Hl p Hp. rewrite Hc. by apply Hl, Hb.
Qed.

Lemma publish_steps s item A : item_ok s item -> source_steps A (PublishService s item A).2.
Proof.
  intros Hi. split; [by apply source_ok_publish|]. intros held Hl p' Hp. cbn in Hp. rewrite lookup_fmap in Hp.
  apply fmap_Some in Hp as (p & Hp & ->). by apply covers_published, Hl.
Qed.

Lemma delete_steps s item A : item_ok s item -> source_steps A (DeleteService s item A).2.
Proof.
  intros Hi. split; [by apply source_ok_delete|]. intros held Hl p' Hp. cbn in Hp. rewrite lookup_fmap in Hp.
  apply fmap_Some in Hp as (p & Hp & ->). by apply covers_deleted, Hl.
Qed.

Lemma other_steps c A A' :
  c <> b -> A' = (FetchFullAndWatch c A).2 \/ A' = (FetchChangesForPeerNodeRequest c A).2 ->
  source_steps A A'.
Proof.
  intros Hc Ho. apply other_fetch in Ho as [Hcur [-> | Ht]]; [by split|].
  apply source_steps_same; [done|..]; rewrite Ht.
  - intros d p. destruct (decide (d = c)) as [->|Hne]; [rewrite lookup_insert_eq; intros [= <-]; by right|].
    rewrite lookup_insert_ne by done. by left.
  - intros p. by rewrite lookup_insert_ne by done.
Qed.

(** *** Answers *)

Lemma ask_full_ok A B :
  source_ok A ->
  exists d A', ask_full b A B = mkNet A' B (Some (AFull {[DefaultDataKey := d]}))
    /\ memNodeDataUnmarshall d = Ok (node_of (currentServices A))
    /\ source_ok A' /\ currentServices A' = currentServices A.
Proof.
  intros Hs. destruct (FetchFullAndWatch_ok b A Hs) as (d & A' & E & Eu & Hc & Ht).
  exists d, A'. unfold ask_full. rewrite E. split_and!; try done.
  apply (source_ok_same A); [done| |done]. intros c p. rewrite Ht.
  destruct (decide (c = b)) as [->|Hne]; [|rewrite lookup_insert_ne by done; by left].
  rewrite lookup_insert_eq. intros [= <-]. destruct (dataTo A !! b); [by left|by right].
Qed.

Lemma ask_changes_ok A B :
  source_ok A ->
  match dataTo A !! b with
  | None => ask_changes b A B = mkNet A B None
  | Some p => exists ab db,
      ask_changes b A B = mkNet (with_to (<[b := mkPending [] []]> (dataTo A)) A) B
        (Some (AChanges {[DefaultDataKey := ab]} {[DefaultDataKey := db]}))
      /\ dataTransferNodeDataList ab = Ok (Some <$> Add p)
      /\ dataTransferNodeDataList db = Ok (Some <$> Del p) /\ Forall transfer_ok (Add p)
  end.
Proof.
  intros Hs. unfold ask_changes. destruct (dataTo A !! b) as [p|] eqn:Hp.
  - destruct (FetchChanges_ok b A p Hs Hp) as (ab & db & E & Ea & Ed). exists ab, db. rewrite E.
    split_and!; try done. by destruct (po_strings _ _ (so_pending _ Hs b p Hp)).
  - unfold FetchChangesForPeerNodeRequest, bind, get. by rewrite Hp.
Qed.

Lemma drained_ok A : source_ok A -> source_ok (with_to (<[b := mkPending [] []]> (dataTo A)) A).
Proof.
  intros Hs. apply (source_ok_same A); [done| |done]. intros c p. cbn.
  destruct (decide (c = b)) as [->|Hne]; [rewrite lookup_insert_eq; intros [= <-]; by right|].
  rewrite lookup_insert_ne by done. by left.
Qed.

(** What installing a well-formed answer makes of the peer's data of [a]. *)
Lemma install_from ans B :
  flight_ok (Some ans) -> holds_wf a B ->
  match ans with
  | AFull data => exists m, wf m
      /\ forall B', dataFrom (install a ans B').2 !! a = Some (node_of m)
  | AChanges add del => exists f, (forall held, wf held -> wf (f held))
      /\ forall B', holds_wf a B' -> dataFrom B' !! a = dataFrom B !! a ->
         match dataFrom B !! a with
         | None => dataFrom (install a ans B').2 !! a = None
         | Some _ => exists held, dataFrom B !! a = Some (node_of held) /\ wf held
             /\ dataFrom (install a ans B').2 !! a = Some (node_of (f held))
         end
  end.
Proof.
  destruct ans as [data|add del]; intros Hf Hh.
  - destruct Hf as (d & m & -> & Hu & Hm). exists m. split; [done|]. intros B'.
    destruct (FullFrom_ok a B' d _ Hu) as (B2 & E & Hd). cbn [install]. rewrite E. cbn.
    by rewrite Hd, lookup_insert_eq.
  - destruct Hf as (ab & db & p & -> & -> & Ea & Ed & Hp). exists (apply_pending p).
    split; [intros held; by apply wf_apply_pending|]. intros B' _ Hsame.
    destruct (dataFrom B !! a) as [nd|] eqn:E.
    + destruct (Hh nd E) as (held & -> & Hw). exists held. split; [done|]. split; [done|].
      destruct (SyncFrom_ok a held p ab db B' Hsame Ea Ed) as (B2 & E2 & Hd & _). cbn [install]. rewrite E2. cbn.
      by rewrite Hd, lookup_insert_eq.
    + cbn [install]. unfold SyncFrom. rewrite !lookup_singleton_eq. unfold bind, lift, get.
      by rewrite Ea, Ed, Hsame.
Qed.

Lemma install_holds ans B : flight_ok (Some ans) -> holds_wf a B -> holds_wf a (install a ans B).2.
Proof.
  intros Hf Hh nd. pose proof (install_from ans B Hf Hh) as Hi. destruct ans as [data|add del].
  - destruct Hi as (m & Hm & ->). intros [= <-]. by exists m.
  - destruct Hi as (f & Hwf & Hi). specialize (Hi B Hh eq_refl). destruct (dataFrom B !! a).
    + destruct Hi as (held & _ & Hw & ->). intros [= <-]. exists (f held). eauto.
    + by rewrite Hi.
Qed.

(** The peer's other data does not matter to what it will hold of [a]. *)
Lemma landed_same A B B' fl :
  flight_ok fl -> holds_wf a B -> dataFrom B' !! a = dataFrom B !! a ->
  dataFrom (landed a (mkNet A B' fl)) !! a = dataFrom (landed a (mkNet A B fl)) !! a.
Proof.
  intros Hf Hh Hs. destruct fl as [ans|]; [|done]. unfold landed. cbn [flight replica].
  assert (Hh' : holds_wf a B') by (intros nd; rewrite Hs; apply Hh).
  pose proof (install_from ans B Hf Hh) as Hi. destruct ans as [data|add del].
  - destruct Hi as (m & _ & Hi). by rewrite !Hi.
  - destruct Hi as (f & _ & Hi). pose proof (Hi B Hh eq_refl) as Hi1. pose proof (Hi B' Hh' Hs) as Hi2.
    destruct (dataFrom B !! a); [|by rewrite Hi1, Hi2].
    destruct Hi1 as (h1 & E1 & _ & ->), Hi2 as (h2 & E2 & _ & ->).
    assert (h1 = h2) as -> by (apply node_of_inj; congruence). done.
Qed.

(** *** The invariants *)

Lemma served_step_ok N N' :
  served_step a b N N' -> net_ok a N -> net_ok a N' /\ (in_sync a b N -> in_sync a b N').
Proof.
  assert (Hsrc : forall A A' B fl, source_steps A A' -> net_ok a (mkNet A B fl) ->
    net_ok a (mkNet A' B fl) /\ (in_sync a b (mkNet A B fl) -> in_sync a b (mkNet A' B fl))).
  { intros A A' B fl [Hs Hc] [? ? ?]. split; [split; cbn in *; auto|]. intros Hi m Hm. apply Hc. by apply Hi. }
  intros Hstep Hok. destruct Hstep as [s item A B fl Hi|s item A B fl Hi|d r t A B fl|c A B fl|c A B fl Hc|c A B fl Hc
    |A B|A B|ans A B|A B fl|A B B' fl Hsame].
  - apply Hsrc; [by apply publish_steps|done].
  - apply Hsrc; [by apply delete_steps|done].
  - apply (Hsrc A); [|done]. apply source_steps_same; [done| |done]. by left.
  - apply (Hsrc A); [|done]. apply source_steps_same; [done|..]; cbn; intros *; rewrite lookup_delete_Some; intros []; auto.
  - apply (Hsrc A); [|done]. apply (other_steps c); auto.
  - apply (Hsrc A); [|done]. apply (other_steps c); auto.
  - destruct Hok as [Hs Hh _]. cbn [source replica flight] in *.
    destruct (ask_full_ok A B Hs) as (d & A' & -> & Hu & Hs' & Hcur). split.
    + split; cbn; [done|done|]. exists d, (currentServices A). split_and!; [done|done|apply Hs].
    + intros _ m Hm p _. unfold landed in Hm. cbn [flight replica install] in Hm.
      destruct (FullFrom_ok a B d _ Hu) as (B2 & E & Hd). rewrite E in Hm. cbn [snd] in Hm.
      rewrite Hd, lookup_insert_eq in Hm. apply node_of_inj in Hm as <-. cbn [source].
      rewrite Hcur. by intros s n _.
  - destruct Hok as [Hs Hh _]. cbn [source replica flight] in *. pose proof (ask_changes_ok A B Hs) as Ha.
    destruct (dataTo A !! b) as [p|] eqn:Hp; [|rewrite Ha; by split].
    destruct Ha as (ab & db & -> & Ea & Ed & Hta). split.
    + split; cbn; [by apply drained_ok|done|]. by exists ab, db, p.
    + intros Hi m Hm p' _. unfold landed in Hm. cbn [flight replica install] in Hm. cbn [source].
      destruct (dataFrom B !! a) as [nd|] eqn:En.
      * destruct (Hh nd En) as (held & -> & Hw).
        destruct (SyncFrom_ok a held p ab db B En Ea Ed) as (B2 & E2 & Hd & _). rewrite E2 in Hm. cbn [snd] in Hm.
        rewrite Hd, lookup_insert_eq in Hm. apply node_of_inj in Hm as <-.
        rewrite (apply_pending_covers p held (currentServices A)); [by intros s n _|apply (so_pending _ Hs b p Hp)| |done|apply Hs].
        by apply (Hi held).
      * unfold SyncFrom in Hm. rewrite !lookup_singleton_eq in Hm. unfold bind, lift, get in Hm.
        rewrite Ea, Ed, En in Hm. cbn in Hm. congruence.
  - destruct Hok as [Hs Hh Hf]. split; [|done]. split; [done|by apply install_holds|done].
  - destruct Hok as [Hs Hh Hf]. cbn [source replica flight] in *. assert (Hh' : holds_wf a (Abandon a B).2)
      by (intros nd; by rewrite Abandon_from). split; [by split|].
    intros Hi m Hm. destruct fl as [[data|add del]|]; unfold landed in Hm; cbn [flight replica] in Hm.
    + apply Hi. unfold landed. cbn [flight replica]. destruct (install_from (AFull data) B Hf Hh) as (m' & _ & Hm').
      by rewrite Hm' in Hm |- *.
    + destruct (install_from (AChanges add del) (Abandon a B).2 Hf Hh') as (f & _ & Hi1).
      specialize (Hi1 _ Hh' eq_refl). rewrite Abandon_from in Hi1. by rewrite Hi1 in Hm.
    + by rewrite Abandon_from in Hm.
  - destruct Hok as [Hs Hh Hf]. cbn [source replica flight] in *. split.
    + split; [done| |done]. cbn. intros nd. rewrite Hsame. apply Hh.
    + intros Hi m. rewrite (landed_same A B B' fl) by done. apply Hi.
Qed.

Lemma sync_step_ok N N' : sync_step a b N N' -> net_ok a N -> net_ok a N'.
Proof. intros [? ? Hs|ans A B] Hok; [by apply (served_step_ok _ _ Hs)|]. destruct Hok. by split. Qed.

Lemma net_reachable_ok nested nested' A B : reachable a b nested nested' A B -> net_ok a (mkNet A B None).
Proof.
  intros Hr. assert (Hi : net_ok a (initial nested nested')).
  { split; [split; apply map_Forall_empty| |done]. intros nd. cbn. by rewrite lookup_empty. }
  revert Hi. unfold reachable in Hr. induction Hr as [|x y z Hs _ IH]; [done|]. intros Hx.
  apply IH. by eapply sync_step_ok.
Qed.

Lemma kept_up_linked nested nested' A B : kept_up a b nested nested' A B -> linked a b A B.
Proof.
  intros (A0 & B0 & Hi0%net_reachable_ok & Hr).
  assert (Hi1 : net_ok a (ask_full b A0 B0) /\ in_sync a b (ask_full b A0 B0)).
  { destruct (served_step_ok _ _ (ss_ask_full a b A0 B0) Hi0) as [Hok _]. split; [done|].
    destruct (ask_full_ok A0 B0 (no_source _ _ Hi0)) as (d & A' & E & Hu & _ & Hcur). rewrite E.
    intros m Hm p _. unfold landed in Hm. cbn [flight replica install] in Hm.
    destruct (FullFrom_ok a B0 d _ Hu) as (B2 & E2 & Hd). rewrite E2 in Hm. cbn [snd] in Hm.
    rewrite Hd, lookup_insert_eq in Hm. apply node_of_inj in Hm as <-. cbn [source].
    rewrite Hcur. by intros s n _. }
  assert (Hi2 : net_ok a (mkNet A B None) /\ in_sync a b (mkNet A B None)).
  { revert Hi1. induction Hr as [|x y z Hs _ IH]; [done|]. intros [Hx Hi]. apply IH.
    destruct (served_step_ok _ _ Hs Hx). auto. }
  destruct Hi2 as [[_ Hh _] Hi]. intros p nd Hp Hn. destruct (Hh nd Hn) as (held & -> & Hw).
  exists held. split; [done|]. split; [done|]. by apply (Hi held).
Qed.
End Reachable.

(** ** Properties *)

(** C2. Replicas converge: in every state two nodes can reach between two
    requests - publishing, deleting, requests of this and other peers, answers
    that travel while all this goes on or are lost, dropped watches, abandoned
    data - a full fetch succeeds and makes the peer hold exactly the current
    services of the source; and if no answer was lost since some earlier full
    request, so does an incremental fetch by a peer that is watched and holds
    data of the source.  (After a lost increment it does not:
    [lost_increment_stays_lost].) *)
Theorem replica_converges `{!MapRange, !Json, !DnsNames, !UnicodeData} `{!JsonLaws _}
    a b nested nested' A B :
  reachable a b nested nested' A B ->
  (exists A' B', full_fetch a b A B = (Ok tt, (A', B'))
     /\ dataFrom B' !! a = Some (node_of (currentServices A))
     /\ currentServices A' = currentServices A)
  /\ (kept_up a b nested nested' A B -> is_Some (dataTo A !! b) -> is_Some (dataFrom B !! a) ->
      exists A' B', incremental_fetch a b A B = (Ok tt, (A', B'))
        /\ dataFrom B' !! a = Some (node_of (currentServices A))
        /\ currentServices A' = currentServices A
        /\ dataTo A' !! b = Some (mkPending [] [])).
Proof.
  intros Hr. destruct (net_reachable_ok a b _ _ _ _ Hr) as [Hs _ _]. cbn in Hs. split.
  - destruct (full_fetch_ok a b A B Hs) as (A' & B' & E & _ & _ & Hc & Hn). by exists A', B'.
  - intros Hl%kept_up_linked [p Hp] [nd Hn].
    destruct (incremental_fetch_ok a b A B p nd Hs Hl Hp Hn) as (A' & B' & E & _ & _ & Hc & Ht & Hn').
    by exists A', B'.
Qed.

Definition web1 : ServiceItem := mkItem "10.0.0.1:80" "n1".
Definition watched_pair : MemStore * MemStore :=
  (full_fetch "a" "b" (PublishService "web" web1 (NewMemStore [])).2 (NewMemStore [])).2.

(** The answer of the first full request travels while the service is deleted. *)
Definition deleted_pair : MemStore * MemStore :=
  ((DeleteService "web" web1 watched_pair.1).2, watched_pair.2).

Lemma published_reachable : reachable "a" "b" [] [] (PublishService "web" web1 (NewMemStore [])).2 (NewMemStore []).
Proof. apply rtc_once, sy_served, ss_publish. split_and!; vm_compute; reflexivity. Qed.

Lemma deleted_kept_up : kept_up "a" "b" [] [] deleted_pair.1 deleted_pair.2.
Proof.
  eexists _, _. split; [exact published_reachable|].
  set (N := ask_full _ _ _). assert (HN : exists ans, N = mkNet watched_pair.1 (NewMemStore []) (Some ans)
    /\ (install "a" ans (NewMemStore [])).2 = watched_pair.2) by (eexists; split; [vm_compute; reflexivity|vm_compute; reflexivity]).
  destruct HN as (ans & -> & E). eapply rtc_l; [apply (ss_delete "a" "b" "web" web1)|].
  { split_and!; vm_compute; reflexivity. }
  eapply rtc_l; [apply ss_deliver|]. rewrite E. apply rtc_refl.
Qed.

Lemma kept_up_reachable `{!MapRange, !Json, !DnsNames, !UnicodeData} a b nested nested' A B :
  kept_up a b nested nested' A B -> reachable a b nested nested' A B.
Proof.
  intros (A0 & B0 & Hq & Hr). unfold reachable in *. etrans; [exact Hq|].
  eapply rtc_l; [apply sy_served, ss_ask_full|]. clear Hq.
  induction Hr as [|x y z Hs _ IH]; [apply rtc_refl|]. eapply rtc_l; [by apply sy_served|done].
Qed.

Lemma replica_converges_witness :
  exists A' B',
    incremental_fetch "a" "b" deleted_pair.1 deleted_pair.2 = (Ok tt, (A', B'))
    /\ dataFrom B' !! "a" = Some (node_of ∅).
Proof.
  destruct (replica_converges "a" "b" [] [] deleted_pair.1 deleted_pair.2) as [_ H];
    [apply kept_up_reachable, deleted_kept_up|].
  destruct (H deleted_kept_up) as (A' & B' & E & Hn & _); [vm_compute; by eexists|vm_compute; by eexists|].
  exists A', B'. split; [exact E|]. rewrite Hn. vm_compute. reflexivity.
Defined.

(** [n] incremental fetches one after the other. *)
Definition increments `{!MapRange, !Json} (a b : string) (n : nat) (AB : MemStore * MemStore) : MemStore * MemStore :=
  Nat.iter n (fun AB => (incremental_fetch a b AB.1 AB.2).2) AB.

(** An increment without pending changes moves nothing. *)
Lemma idle_increment `{!MapRange, !Json, !DnsNames, !UnicodeData} `{!JsonLaws _} a b A B held :
  source_ok A -> dataTo A !! b = Some (mkPending [] []) -> dataFrom B !! a = Some (node_of held) ->
  exists A' B', incremental_fetch a b A B = (Ok tt, (A', B'))
    /\ source_ok A' /\ dataTo A' !! b = Some (mkPending [] [])
    /\ dataFrom B' !! a = Some (node_of held) /\ currentServices A' = currentServices A.
Proof.
  intros Hs Hp Hn. destruct (FetchChanges_ok b A _ Hs Hp) as (ab & db & E & Ea & Ed).
  destruct (SyncFrom_ok a held (mkPending [] []) ab db B Hn Ea Ed) as (B' & E2 & Hf & _).
  eexists _, B'. unfold incremental_fetch. rewrite E, E2. split; [done|].
  split; [by apply drained_ok|]. split; [cbn; by rewrite lookup_insert_eq|]. split; [|done].
  by rewrite Hf, lookup_insert_eq.
Qed.

(** C38. A lost answer is not repaired by later increments: from any reachable state
    with a watched peer that holds data, if the answer to an incremental request
    is lost, the source has already dropped the changes; however many incremental
    fetches follow, each succeeds and leaves the peer with the services it held
    before, whatever the source had published - until something new changes or a
    full fetch is made. *)
Theorem lost_increment_stays_lost `{!MapRange, !Json, !DnsNames, !UnicodeData} `{!JsonLaws _}
    a b nested nested' A B :
  reachable a b nested nested' A B -> is_Some (dataTo A !! b) -> is_Some (dataFrom B !! a) ->
  let A1 := (FetchChangesForPeerNodeRequest b A).2 in
  reachable a b nested nested' A1 B
  /\ forall n A2 B2, increments a b n (A1, B) = (A2, B2) ->
       (incremental_fetch a b A2 B2).1 = Ok tt
       /\ dataFrom B2 !! a = dataFrom B !! a
       /\ currentServices A2 = currentServices A.
Proof.
  intros Hr [p Hp] [nd Hn] A1. destruct (net_reachable_ok a b _ _ _ _ Hr) as [Hs Hh _]. cbn in Hs, Hh.
  destruct (Hh nd Hn) as (held & -> & Hw). subst A1.
  destruct (FetchChanges_ok b A p Hs Hp) as (ab & db & E & _). rewrite E. cbn [snd].
  set (A' := with_to _ A). split.
  { eapply rtc_r; [eapply rtc_r; [exact Hr|apply sy_served, ss_ask_changes]|].
    unfold ask_changes. rewrite E. apply sy_lost. }
  assert (Hinv : forall n, exists A2 B2, increments a b n (A', B) = (A2, B2)
    /\ source_ok A2 /\ dataTo A2 !! b = Some (mkPending [] [])
    /\ dataFrom B2 !! a = Some (node_of held) /\ currentServices A2 = currentServices A).
  { induction n as [|n (A2 & B2 & En & Hs2 & Hp2 & Hn2 & Hc2)].
    - exists A', B. split_and!; try done; [by apply drained_ok|]. subst A'. cbn. by rewrite lookup_insert_eq.
    - destruct (idle_increment a b A2 B2 held Hs2 Hp2 Hn2) as (A3 & B3 & E3 & ? & ? & ? & Hc3).
      exists A3, B3. split_and!; [|done..|by rewrite Hc3].
      unfold increments in *. cbn [Nat.iter nat_rect]. change (nat_rect _ _ _ n) with (Nat.iter n (fun AB => (incremental_fetch a b AB.1 AB.2).2) (A', B)).
      rewrite En. cbn [fst snd]. by rewrite E3. }
  intros n A2 B2 En. destruct (Hinv n) as (A3 & B3 & En' & Hs3 & Hp3 & Hn3 & Hc3).
  rewrite En in En'. injection En' as -> ->. rewrite Hn, Hn3. split; [|done].
  by destruct (idle_increment a b A3 B3 held Hs3 Hp3 Hn3) as (A4 & B4 & -> & _).
Qed.

(** The peer of the witness keeps an instance the source has deleted. *)
Lemma lost_increment_stays_lost_witness :
  exists A2 B2, increments "a" "b" 10 ((FetchChangesForPeerNodeRequest "b" deleted_pair.1).2, deleted_pair.2) = (A2, B2)
    /\ dataFrom B2 !! "a" = Some (node_of {["web" := {["n1" := "10.0.0.1:80"]}]})
    /\ currentServices A2 = ∅.
Proof.
  destruct (lost_increment_stays_lost "a" "b" [] [] deleted_pair.1 deleted_pair.2) as [_ Hn].
  - apply kept_up_reachable, deleted_kept_up.
  - vm_compute. by eexists.
  - vm_compute. by eexists.
  - destruct (increments "a" "b" 10 ((FetchChangesForPeerNodeRequest "b" deleted_pair.1).2, deleted_pair.2))
      as [A2 B2] eqn:E.
    destruct (Hn 10%nat A2 B2 E) as (_ & Hb & Ha). exists A2, B2. split; [done|].
    rewrite Hb, Ha. split; vm_compute; reflexivity.
Defined.

(** A full answer whose mapping is JSON [null] is accepted, and the next
    incremental answer that adds a service panics the peer: the nil map is
    assigned to. *)
Theorem null_mapping_panics `{!MapRange, !Json, !DnsNames, !UnicodeData} a data m ab db v adds :
  memNodeDataUnmarshall data = Ok (mkNode None) ->
  dataTransferNodeDataList ab = Ok (Some v :: adds) -> dataTransferNodeDataList db = Ok [] ->
  exists m', FullFrom a {[DefaultDataKey := data]} m = (Ok tt, m')
    /\ (SyncFrom a a {[DefaultDataKey := ab]} {[DefaultDataKey := db]} m').1
       = Panic "assignment to entry in nil map".
Proof.
  intros Hu Ha Hd. destruct (FullFrom_ok a m data _ Hu) as (m' & E & Hf). exists m'.
  split; [exact E|].
  assert (Hn : dataFrom m' !! a = Some (mkNode None)) by by rewrite Hf, lookup_insert_eq.
  unfold SyncFrom. rewrite !lookup_singleton_eq. unfold bind at 1, lift. rewrite Ha.
  unfold bind at 1, lift. rewrite Hd. unfold bind at 1, get. rewrite Hn.
  cbn [sync_loop]. unfold bind at 1, ret. unfold bind, get, lift. by rewrite Hn.
Qed.

Lemma null_mapping_panics_witness :
  exists m', FullFrom "a" {[DefaultDataKey := toy_enc (None : option (gmap string (option (gmap string string))))]}
               (NewMemStore []) = (Ok tt, m')
    /\ (SyncFrom "a" "a"
          {[DefaultDataKey := toy_enc [("web", "n1", "10.0.0.1:80")]]}
          {[DefaultDataKey := toy_enc ([] : list (string * string * string))]} m').1
       = Panic "assignment to entry in nil map".
Proof.
  apply (null_mapping_panics "a" _ (NewMemStore []) _ _ (mkTransfer "web" "n1" "10.0.0.1:80") []);
    vm_compute; reflexivity.
Defined.
