(* ===== verification/Ha.v ===== *)
(** * The high-availability module (core.ha.go, core.ha.peertalk.go)

    The three cluster endpoints, the health check that drops silent peers, the
    worker that installs what peers sent, the client calls, and the loop that
    keeps one peer's data in step as a state machine.  A request is the values
    the handlers read of it; the transport of the client is a function from the
    URL it calls to the answer; the JSON of the answers is the class [HaJson]. *)

From stdpp Require Import base list gmap strings.
From Stdlib Require Import ZArith Lia.
From S2P Require Import Prelude GoStr Bytes Toy NetUrl MemStore MemSync.
Local Open Scope Z_scope.
Local Open Scope go_scope.

(** ** Data *)

(** The payload of an answer; [None] is a nil map. *)
Notation payload := (gmap string (list byte)).

Record SyncReq := mkSyncReq {
  SyncNodeId : string;
  SyncFull : option payload;
  SyncAdd : option payload;
  SyncDel : option payload;
}.

Record HaModule := mkHa {
  HaNodeId : string;
  Storage : MemStore;
  NodePeerMapping : gmap string string;
  ClientPeerMapping : gmap string Z;   (* node -> LastUpdate, in milliseconds *)
  ClusterName : string;
  ClusterSecret : string;
}.

Definition with_storage st (h : HaModule) : HaModule :=
  mkHa (HaNodeId h) st (NodePeerMapping h) (ClientPeerMapping h) (ClusterName h) (ClusterSecret h).
Definition with_clients cm (h : HaModule) : HaModule :=
  mkHa (HaNodeId h) (Storage h) (NodePeerMapping h) cm (ClusterName h) (ClusterSecret h).

(** What the handlers read of a request, and what they write. *)
Record Request := mkRequest {
  from : string;          (* FormValue("from") *)
  X_Cluster_Name : string;
  X_Cluster_Secret : string;
}.

Record Response := mkResponse {
  status : Z;
  content_type : option string;
  body : list byte;
}.

(** encoding/json at the types of the answers. *)
Class HaJson := {
  Marshal_data : payload -> exec (list byte);
  Unmarshal_data : list byte -> exec (option payload);
  Marshal_changes : payload -> payload -> exec (list byte);
  Unmarshal_changes : list byte -> exec (option payload * option payload);
}.

(** A map whose only key is ASCII, the only kind the module sends, survives. *)
Class HaJsonLaws (J : HaJson) : Prop := {
  ha_data d : exists b, Marshal_data {[DefaultDataKey := d]} = Ok b
    /\ Unmarshal_data b = Ok (Some {[DefaultDataKey := d]});
  ha_changes a d : exists b,
    Marshal_changes {[DefaultDataKey := a]} {[DefaultDataKey := d]} = Ok b
    /\ Unmarshal_changes b
       = Ok (Some {[DefaultDataKey := a]}, Some {[DefaultDataKey := d]});
}.

Definition StatusOK : Z := 200.
Definition StatusBadRequest : Z := 400.
Definition StatusUnauthorized : Z := 401.
Definition StatusInternalServerError : Z := 500.

Definition HttpAuth : string := "/cluster/auth".
Definition HttpFull : string := "/cluster/full".
Definition HttpIncremental : string := "/cluster/incremental".

Definition only_status (code : Z) (ct : option string) : Response := mkResponse code ct [].

(** ** Operations *)

Definition NewHaModule (node clusterName clusterSecret : string)
    (peerMapping : gmap string string) (storage : MemStore) : HaModule :=
  mkHa node storage (delete node peerMapping) ∅ clusterName clusterSecret.

Section Ha.
Context `{!MapRange, !Json, !HaJson, !DnsNames, !UnicodeData}.

(** A call of the storage. *)
Definition on_storage {A} (m : M MemStore A) : M HaModule A :=
  fun h => let '(r, st) := m (Storage h) in (r, with_storage st h).

(** [now] is [time.Now().UnixMilli()]. *)
Definition updateClientTime (now : Z) (nodeId : string) (failure : bool) : M HaModule unit :=
  let* h := get in
  match ClientPeerMapping h !! nodeId with
  | None =>
      if failure then fail (NewError "node not exist")
      else modify (fun h => with_clients (<[nodeId := now]> (ClientPeerMapping h)) h)
  | Some _ => modify (fun h => with_clients (<[nodeId := now]> (ClientPeerMapping h)) h)
  end.

(** The checks shared by the handlers, then [serve]. *)
Definition guarded (now : Z) (failure : bool) (r : Request) (serve : M HaModule Response)
    : M HaModule Response :=
  if String.eqb (from r) "" then ret (only_status StatusBadRequest None)
  else
    let* e := catch (updateClientTime now (from r) failure) in
    match e with
    | inr _ => ret (only_status StatusInternalServerError None)
    | inl _ =>
        let* h := get in
        if negb (String.eqb (X_Cluster_Name r) (ClusterName h))
           || negb (String.eqb (X_Cluster_Secret r) (ClusterSecret h))
        then ret (only_status StatusUnauthorized (Some "application/json"))
        else serve
    end.

Definition httpClusterAuth (now : Z) (r : Request) : M HaModule Response :=
  guarded now false r (ret (only_status StatusOK (Some "application/json"))).

Definition httpClusterFull (now : Z) (r : Request) : M HaModule Response :=
  guarded now false r
    (let* d := catch (on_storage (FetchFullAndWatch (from r))) in
     match d with
     | inr _ => ret (only_status StatusInternalServerError (Some "application/json"))
     | inl dat =>
         match Marshal_data dat with
         | Ok data => ret (mkResponse StatusOK (Some "application/json") data)
         | Fail _ => ret (only_status StatusInternalServerError (Some "application/json"))
         | Panic msg => panic msg
         | NoFuel => nofuel
         end
     end).

Definition httpClusterIncremental (now : Z) (r : Request) : M HaModule Response :=
  guarded now true r
    (let* d := catch (on_storage (FetchChangesForPeerNodeRequest (from r))) in
     match d with
     | inr _ => ret (only_status StatusInternalServerError (Some "application/json"))
     | inl (add, del) =>
         match Marshal_changes add del with
         | Ok data => ret (mkResponse StatusOK (Some "application/json") data)
         | Fail _ => ret (only_status StatusInternalServerError (Some "application/json"))
         | Panic msg => panic msg
         | NoFuel => nofuel
         end
     end).

(** One round of the health check. *)
Definition CheckPeerHealth (now : Z) : M HaModule unit :=
  let barrier := now - 20 * 1000 in
  let* h := get in
  let rlist := fst <$> filter (fun kv => kv.2 < barrier) (range (ClientPeerMapping h)) in
  let* _ := on_storage (fun st => (Ok tt, foldl (fun st node => (Unwatch node st).2) st rlist)) in
  modify (fun h => with_clients (foldl (fun cm v => delete v cm) (ClientPeerMapping h) rlist) h).

(** One request taken from the queue: the value sent on its error channel,
    or nothing when neither branch is taken. *)
Definition ProcessSyncWorker (req : SyncReq) : M MemStore (option (unit + error)) :=
  match SyncFull req with
  | Some full =>
      let* r := catch (FullFrom (SyncNodeId req) full) in ret (Some r)
  | None =>
      match SyncAdd req, SyncDel req with
      | None, None => ret None
      | add, del =>
          let* r := catch (SyncFrom (SyncNodeId req) (SyncNodeId req)
                             (default ∅ add) (default ∅ del)) in
          ret (Some r)
      end
  end.

(** *** The client side *)

(** The address a peer is called at: its host name is looked up in the store; an
    address that does not parse panics. *)
Definition innerUrlResolve (addr : string) : M MemStore string :=
  match NetUrl.Parse addr with
  | Ok u =>
      let* x := catch (ResolveDomain (Fqdn (Hostname u)) DomainTypeA) in
      match x with
      | inl r => ret (URL_String (with_host (codes (r +:+ (":" +:+ NetUrl.Port u))) u))
      | inr _ => ret (URL_String u)
      end
  | Fail e => panic (error_text e)
  | Panic msg => panic msg
  | NoFuel => nofuel
  end.

(** What the calls make of the answer of the transport. *)
Definition auth_answer (resp : exec Response) : exec unit :=
  match resp with
  | Ok resp => if negb (status resp =? 200) then Fail (NewError "cluster auth failed") else Ok tt
  | Fail e => Fail e
  | Panic msg => Panic msg
  | NoFuel => NoFuel
  end.

Definition full_answer (resp : exec Response) : exec (option payload) :=
  match resp with
  | Ok resp =>
      if negb (status resp =? 200) then Fail (NewError "cluster full failed")
      else Unmarshal_data (body resp)
  | Fail e => Fail e
  | Panic msg => Panic msg
  | NoFuel => NoFuel
  end.

Definition incremental_answer (resp : exec Response) : exec (option payload * option payload) :=
  match resp with
  | Ok resp =>
      if negb (status resp =? 200) then Fail (NewError "cluster incremental failed")
      else Unmarshal_changes (body resp)
  | Fail e => Fail e
  | Panic msg => Panic msg
  | NoFuel => NoFuel
  end.

(** The transport: the answer to the request for a URL. *)
Notation transport := (string -> exec Response).

Definition connectRemote (host : string) (post : transport) : M MemStore unit :=
  let* u := innerUrlResolve host in lift (auth_answer (post (u +:+ HttpAuth))).

Definition queryFullDataSet (addr : string) (get_ : transport) : M MemStore (option payload) :=
  let* u := innerUrlResolve addr in lift (full_answer (get_ (u +:+ HttpFull))).

Definition queryIncrementalData (addr : string) (get_ : transport)
    : M MemStore (option payload * option payload) :=
  let* u := innerUrlResolve addr in lift (incremental_answer (get_ (u +:+ HttpIncremental))).

(** The request the client builds. *)
Definition client_request (h : HaModule) : Request :=
  mkRequest (HaNodeId h) (ClusterName h) (ClusterSecret h).

(** *** The peer loop *)

(** Where [PeerSyncWorker] is at the top of an iteration: about to start over,
    inside the inner loop with its two counters, or waiting for a reply. *)
Inductive Phase :=
| MainLoop
| NextTrigger (queryCount retryCnt : Z)
| Waiting.

(** The answers to the three requests of one iteration, and [rand.Intn(20)]. *)
Record Answers := mkAnswers {
  a_auth : transport;
  a_full : transport;
  a_incremental : transport;
  a_rand : Z;
}.

(** Queue a request and wait for the reply. *)
Definition submit (req : SyncReq) (ok : Phase) : M MemStore Phase :=
  let* reply := ProcessSyncWorker req in
  match reply with
  | None => ret Waiting
  | Some (inr _) => ret MainLoop
  | Some (inl _) => ret ok
  end.

Definition full_round (addr peerNodeId : string) (get_ : transport) (ok : Phase)
    : M MemStore Phase :=
  let* d := catch (queryFullDataSet addr get_) in
  match d with
  | inr _ => ret MainLoop
  | inl data => submit (mkSyncReq peerNodeId data None None) ok
  end.

Definition PeerSyncWorker (addr peerNodeId : string) (env : Answers) (ph : Phase) : M MemStore Phase :=
  match ph with
  | Waiting => ret Waiting
  | MainLoop =>
      let* r := catch (Abandon peerNodeId) in
      match r with
      | inr _ => ret MainLoop
      | inl _ =>
          let* c := catch (connectRemote addr (a_auth env)) in
          match c with
          | inr _ => ret MainLoop
          | inl _ => full_round addr peerNodeId (a_full env) (NextTrigger 0 0)
          end
      end
  | NextTrigger queryCount retryCnt =>
      if queryCount <? a_rand env + 590 then
        let* d := catch (queryIncrementalData addr (a_incremental env)) in
        match d with
        | inr _ =>
            if retryCnt + 1 >? 10 then ret MainLoop else ret (NextTrigger queryCount (retryCnt + 1))
        | inl (add, del) =>
            submit (mkSyncReq peerNodeId None add del) (NextTrigger (queryCount + 1) 0)
        end
      else full_round addr peerNodeId (a_full env) (NextTrigger 0 retryCnt)
  end.
End Ha.

(** ** The module as a step relation *)

Section Steps.
Context `{!MapRange, !Json, !HaJson, !DnsNames, !UnicodeData}.

(** What the threads of the module and of the server do to its state. *)
Inductive ha_step : HaModule -> HaModule -> Prop :=
| hs_auth now r h : ha_step h (httpClusterAuth now r h).2
| hs_full now r h : ha_step h (httpClusterFull now r h).2
| hs_incremental now r h : ha_step h (httpClusterIncremental now r h).2
| hs_health now h : ha_step h (CheckPeerHealth now h).2
| hs_worker req h : ha_step h (on_storage (ProcessSyncWorker req) h).2
| hs_abandon node h : ha_step h (on_storage (Abandon node) h).2
| hs_publish s item h : ha_step h (on_storage (PublishService s item) h).2
| hs_delete s item h : ha_step h (on_storage (DeleteService s item) h).2
| hs_domain d r t h : ha_step h (on_storage (PutDomain d r t) h).2.

(** Every peer with pending changes is a client whose silence is noticed. *)
Definition watches_tracked (h : HaModule) : Prop :=
  forall node, is_Some (dataTo (Storage h) !! node) -> is_Some (ClientPeerMapping h !! node).
End Steps.

(** The counters of the peer loop stay in their bounds. *)
Definition phase_ok (ph : Phase) : Prop :=
  match ph with
  | NextTrigger q r => 0 <= q <= 609 /\ 0 <= r <= 10
  | _ => True
  end.

(** ** Lemmas *)

Definition authorised (h : HaModule) (r : Request) : Prop :=
  X_Cluster_Name r = ClusterName h /\ X_Cluster_Secret r = ClusterSecret h.

(** The node is named, and known when the handler requires it. *)
Definition admitted (failure : bool) (h : HaModule) (r : Request) : Prop :=
  from r <> "" /\ (failure = true -> is_Some (ClientPeerMapping h !! from r)).

Definition touched (now : Z) (r : Request) (h : HaModule) : HaModule :=
  with_clients (<[from r := now]> (ClientPeerMapping h)) h.

Section Lemmas.
Context `{!MapRange, !Json, !HaJson, !DnsNames, !UnicodeData}.

Lemma guarded_admitted now failure r serve h :
  admitted failure h r ->
  guarded now failure r serve h
  = (let* h := get in
     if negb (String.eqb (X_Cluster_Name r) (ClusterName h))
        || negb (String.eqb (X_Cluster_Secret r) (ClusterSecret h))
     then ret (only_status StatusUnauthorized (Some "application/json"))
     else serve) (touched now r h).
Proof.
  intros [Hn Hf]. unfold guarded. destruct (String.eqb_spec (from r) "") as [|_]; [done|].
  assert (E : updateClientTime now (from r) failure h = (Ok tt, touched now r h)).
  { unfold updateClientTime, bind, get. destruct (ClientPeerMapping h !! from r) eqn:Ec; [done|].
    destruct failure; [|done]. destruct (Hf eq_refl) as [? ?]. congruence. }
  by rewrite (bind_ok _ _ _ _ _ (catch_ok _ _ _ _ E)).
Qed.

Lemma guarded_authorised now failure r serve h :
  admitted failure h r -> authorised h r -> guarded now failure r serve h = serve (touched now r h).
Proof.
  intros Ha [Hn Hs]. rewrite guarded_admitted by done. unfold bind, get. cbn [ClusterName ClusterSecret touched with_clients].
  by rewrite Hn, Hs, !String.eqb_refl.
Qed.

Lemma guarded_refused now failure r serve h :
  ~ (admitted failure h r /\ authorised h r) ->
  exists code ct, guarded now failure r serve h
      = (Ok (only_status code ct), if decide (admitted failure h r) then touched now r h else h)
    /\ code ∈ [StatusBadRequest; StatusUnauthorized; StatusInternalServerError].
Proof.
  intros Hn. destruct (decide (admitted failure h r)) as [Ha|Ha].
  - exists StatusUnauthorized, (Some "application/json"). split; [|set_solver].
    rewrite guarded_admitted by done. unfold bind, get.
    cbn [ClusterName ClusterSecret touched with_clients].
    assert (negb (String.eqb (X_Cluster_Name r) (ClusterName h))
      || negb (String.eqb (X_Cluster_Secret r) (ClusterSecret h)) = true) as ->; [|done].
    apply not_false_is_true. intros [Hx1 Hx2]%orb_false_iff. apply Hn. split; [done|].
    apply negb_false_iff, String.eqb_eq in Hx1, Hx2. by split.
  - unfold guarded. destruct (String.eqb_spec (from r) "") as [He|He].
    { exists StatusBadRequest, None. split; [done|set_solver]. }
    exists StatusInternalServerError, None. split; [|set_solver].
    assert (E : updateClientTime now (from r) failure h = (Fail (NewError "node not exist"), h)).
    { unfold updateClientTime, bind, get. destruct (ClientPeerMapping h !! from r) eqn:Ec.
      - destruct Ha. split; [done|]. by rewrite Ec.
      - destruct failure; [done|]. destruct Ha. by split. }
    by rewrite (bind_ok _ _ _ _ _ (catch_fail _ _ _ _ E)).
Qed.

(** The handlers, admitted and authorised. *)
Lemma httpClusterFull_ok now r h `{!JsonLaws _} `{!HaJsonLaws _} :
  from r <> "" -> authorised h r -> source_ok (Storage h) ->
  exists data resp h' st', httpClusterFull now r h = (Ok resp, h')
    /\ h' = with_storage st' (touched now r h)
    /\ FetchFullAndWatch (from r) (Storage h) = (Ok {[DefaultDataKey := data]}, st')
    /\ status resp = StatusOK
    /\ Unmarshal_data (body resp) = Ok (Some {[DefaultDataKey := data]}).
Proof.
  intros Hf Ha Hs. destruct (FetchFullAndWatch_ok (from r) (Storage h) Hs) as (data & st' & E & _).
  destruct (ha_data data) as (bs & Em & Eu).
  exists data, (mkResponse StatusOK (Some "application/json") bs),
    (with_storage st' (touched now r h)), st'. split; [|done].
  assert (Had : admitted false h r) by (split; [done|discriminate]).
  unfold httpClusterFull. rewrite guarded_authorised by done.
  unfold bind, catch, on_storage. cbn [Storage touched with_clients]. rewrite E. by rewrite Em.
Qed.

Lemma httpClusterIncremental_ok now r h p `{!JsonLaws _} `{!HaJsonLaws _} :
  admitted true h r -> authorised h r -> source_ok (Storage h) ->
  dataTo (Storage h) !! from r = Some p ->
  exists ab db resp h' st', httpClusterIncremental now r h = (Ok resp, h')
    /\ h' = with_storage st' (touched now r h)
    /\ FetchChangesForPeerNodeRequest (from r) (Storage h)
       = (Ok ({[DefaultDataKey := ab]}, {[DefaultDataKey := db]}), st')
    /\ status resp = StatusOK
    /\ Unmarshal_changes (body resp)
       = Ok (Some {[DefaultDataKey := ab]}, Some {[DefaultDataKey := db]}).
Proof.
  intros Hf Ha Hs Hp. destruct (FetchChanges_ok (from r) (Storage h) p Hs Hp) as (ab & db & E & _).
  destruct (ha_changes ab db) as (bs & Em & Eu).
  eexists ab, db, (mkResponse StatusOK (Some "application/json") bs), _, _.
  split; [|split_and!; [reflexivity|exact E|done|done]].
  unfold httpClusterIncremental. rewrite guarded_authorised by done.
  unfold bind, catch, on_storage. cbn [Storage touched with_clients]. rewrite E. by rewrite Em.
Qed.

(** *** The address of a peer *)

Lemma ResolveDomain_state x t m : (ResolveDomain x t m).2 = m.
Proof. unfold ResolveDomain, bind, get, lift. by repeat case_match. Qed.

Lemma innerUrlResolve_state addr m : (innerUrlResolve addr m).2 = m.
Proof.
  unfold innerUrlResolve. destruct (NetUrl.Parse addr) as [u| | |]; try done.
  pose proof (ResolveDomain_state (Fqdn (Hostname u)) DomainTypeA m) as Hs.
  unfold bind, catch. by destruct (ResolveDomain _ _ m) as [[] ?].
Qed.

(** It depends on the static domains and the nested stores only. *)
Lemma innerUrlResolve_same addr m m' :
  staticDomainMapping m' = staticDomainMapping m -> dnsStores m' = dnsStores m ->
  (innerUrlResolve addr m').1 = (innerUrlResolve addr m).1.
Proof.
  intros Hs Hn. unfold innerUrlResolve. destruct (NetUrl.Parse addr) as [u| | |]; try done.
  assert (E : (ResolveDomain (Fqdn (Hostname u)) DomainTypeA m').1 = (ResolveDomain (Fqdn (Hostname u)) DomainTypeA m).1).
  { unfold ResolveDomain, bind, get, lift. rewrite Hs, Hn. by repeat case_match. }
  unfold bind, catch. destruct (ResolveDomain _ _ m') as [[] ?], (ResolveDomain _ _ m) as [[] ?]; cbn in *; by simplify_eq.
Qed.

Lemma innerUrlResolve_ok addr m url :
  (innerUrlResolve addr m).1 = Ok url -> innerUrlResolve addr m = (Ok url, m).
Proof. intros <-. rewrite <-(innerUrlResolve_state addr m) at 3. apply surjective_pairing. Qed.

Lemma innerUrlResolve_unparsable addr m :
  (forall u, NetUrl.Parse addr <> Ok u) -> exists msg, innerUrlResolve addr m = (Panic msg, m).
Proof.
  intros Hp. unfold innerUrlResolve. pose proof (Parse_returns addr) as Hr.
  destruct (NetUrl.Parse addr) as [u|e| |]; [by destruct (Hp u)|by eexists|done..].
Qed.

Lemma Abandon_outcome peer m :
  exists m', Abandon peer m = (Ok tt, m')
    /\ staticDomainMapping m' = staticDomainMapping m /\ dnsStores m' = dnsStores m.
Proof. unfold Abandon, bind, get. destruct (dataFrom m !! peer); by eexists. Qed.

(** Nested stores that return an answer or an error. *)
Lemma resolve_nested_outcome stores domain t :
  Forall (fun f : DnsStorage => forall d t, (exists r, f d t = Ok r) \/ exists e, f d t = Fail e) stores ->
  (exists r, resolve_nested stores domain t = Ok r) \/ (exists e, resolve_nested stores domain t = Fail e).
Proof.
  induction 1 as [|f stores Hf _ IH]; [right; by eexists|]. cbn [resolve_nested].
  destruct (Hf domain t) as [[r ->]|[e ->]]; [left; by eexists|exact IH].
Qed.

(** [Abandon] keeps what the address depends on. *)
Lemma Abandon_resolves addr peer m url :
  (innerUrlResolve addr m).1 = Ok url ->
  exists m', Abandon peer m = (Ok tt, m') /\ innerUrlResolve addr m' = (Ok url, m').
Proof.
  intros E. destruct (Abandon_outcome peer m) as (m' & Ea & Hs & Hn). exists m'. split; [done|].
  apply innerUrlResolve_ok. by rewrite (innerUrlResolve_same addr m m').
Qed.

(** Installing a received full answer, as the peer loop does. *)
Lemma full_round_installs addr url a get_ resp data ok B B' :
  (innerUrlResolve addr B).1 = Ok url -> get_ (url +:+ HttpFull) = Ok resp ->
  status resp = StatusOK -> Unmarshal_data (body resp) = Ok (Some data) ->
  FullFrom a data B = (Ok tt, B') -> full_round addr a get_ ok B = (Ok ok, B').
Proof.
  intros Hurl Hg Hs Hu E. assert (Eq : queryFullDataSet addr get_ B = (Ok (Some data), B)).
  { unfold queryFullDataSet. rewrite (bind_ok _ _ _ _ _ (innerUrlResolve_ok _ _ _ Hurl)). unfold lift.
    rewrite Hg. unfold full_answer. by rewrite Hs, Hu. }
  unfold full_round. rewrite (bind_ok _ _ _ _ _ (catch_ok _ _ _ _ Eq)).
  unfold submit, ProcessSyncWorker, bind, catch. cbn. by rewrite E.
Qed.

Lemma incremental_installs addr url a resp ad dl B B' env q rc :
  (innerUrlResolve addr B).1 = Ok url -> a_incremental env (url +:+ HttpIncremental) = Ok resp ->
  status resp = StatusOK -> Unmarshal_changes (body resp) = Ok (Some ad, Some dl) ->
  SyncFrom a a ad dl B = (Ok tt, B') -> q < a_rand env + 590 ->
  PeerSyncWorker addr a env (NextTrigger q rc) B = (Ok (NextTrigger (q + 1) 0), B').
Proof.
  intros Hurl Hg Hs Hu E Hq. assert (Eq : queryIncrementalData addr (a_incremental env) B = (Ok (Some ad, Some dl), B)).
  { unfold queryIncrementalData. rewrite (bind_ok _ _ _ _ _ (innerUrlResolve_ok _ _ _ Hurl)). unfold lift.
    rewrite Hg. unfold incremental_answer. by rewrite Hs, Hu. }
  unfold PeerSyncWorker. apply Z.ltb_lt in Hq as ->. rewrite (bind_ok _ _ _ _ _ (catch_ok _ _ _ _ Eq)).
  unfold submit, ProcessSyncWorker, bind, catch. cbn. by rewrite E.
Qed.
End Lemmas.

Section Tracking.
Context `{!MapRange, !Json, !HaJson, !DnsNames, !UnicodeData}.

(** The storage operations, by what they do to the set of watching peers. *)
Lemma on_storage_eq {A} (m : M MemStore A) h :
  (on_storage m h).2 = with_storage (m (Storage h)).2 h.
Proof. unfold on_storage. by destruct (m (Storage h)). Qed.

Lemma catch_snd {S A} (m : M S A) s : (catch m s).2 = (m s).2.
Proof. unfold catch. by destruct (m s) as [[]]. Qed.

Lemma sync_loop_to step node l m : dataTo (sync_loop step node l m).2 = dataTo m.
Proof.
  revert m. induction l as [|v l IH]; intros m; [done|]. cbn [sync_loop].
  unfold bind at 1, get. destruct (dataFrom m !! node); [|done].
  unfold bind at 1, lift. destruct (step v _); [|done..]. unfold bind, modify. by rewrite IH.
Qed.

Lemma SyncFrom_to node orig add del m : dataTo (SyncFrom node orig add del m).2 = dataTo m.
Proof.
  unfold SyncFrom. destruct (add !! DefaultDataKey) as [ad|]; [|done].
  unfold bind at 1, lift. destruct (dataTransferNodeDataList ad) as [adata| | |]; [|done..].
  destruct (del !! DefaultDataKey) as [dd|]; [|done].
  unfold bind at 1, lift. destruct (dataTransferNodeDataList dd) as [ddata| | |]; [|done..].
  unfold bind at 1, get. destruct (dataFrom m !! node); [|done].
  pose proof (sync_loop_to sync_del node ddata m) as Hs1. unfold bind at 1.
  destruct (sync_loop sync_del node ddata m) as [[] m1]; cbn in *; try done.
  pose proof (sync_loop_to sync_add node adata m1) as Hs2. unfold bind at 1.
  destruct (sync_loop sync_add node adata m1) as [[] m2]; cbn in *; congruence.
Qed.

Lemma FullFrom_to node data m : dataTo (FullFrom node data m).2 = dataTo m.
Proof.
  unfold FullFrom. destruct (data !! DefaultDataKey); [|done]. unfold bind, lift.
  by destruct (memNodeDataUnmarshall _).
Qed.

Lemma ProcessSyncWorker_to req m : dataTo (ProcessSyncWorker req m).2 = dataTo m.
Proof.
  unfold ProcessSyncWorker. destruct (SyncFull req) as [full|].
  - unfold bind, catch. pose proof (FullFrom_to (SyncNodeId req) full m) as Hs1.
    by destruct (FullFrom _ _ _) as [[] ?].
  - destruct (SyncAdd req), (SyncDel req); try done; unfold bind, catch;
      match goal with |- context [SyncFrom ?n ?o ?a ?d m] =>
        pose proof (SyncFrom_to n o a d m) as Hs1; by destruct (SyncFrom n o a d m) as [[] ?] end.
Qed.

Lemma Abandon_to node m : dataTo (Abandon node m).2 = dataTo m.
Proof. unfold Abandon, bind, get. by destruct (dataFrom m !! node). Qed.

Lemma FetchFullAndWatch_to c m node :
  is_Some (dataTo (FetchFullAndWatch c m).2 !! node) ->
  node = c \/ is_Some (dataTo m !! node).
Proof.
  unfold FetchFullAndWatch, bind, modify, get, lift, ret.
  destruct (decide (node = c)) as [->|Hne]; [by left|].
  destruct (dataTo m !! c); destruct (Marshal_node _); cbn; rewrite ?lookup_insert_ne by done; auto.
Qed.

Lemma FetchChanges_to c m node :
  is_Some (dataTo (FetchChangesForPeerNodeRequest c m).2 !! node) -> is_Some (dataTo m !! node).
Proof.
  unfold FetchChangesForPeerNodeRequest, marshal_pending, bind, catch, get, lift, ret, fail, modify.
  destruct (dataTo m !! c) as [p|] eqn:Ec; [|done].
  destruct (Marshal_list (Add p)); [|by auto..]. destruct (Marshal_list (Del p)); cbn; [|by auto..].
  destruct (decide (node = c)) as [->|Hne]; [by rewrite Ec|]. by rewrite lookup_insert_ne.
Qed.

(** A handler keeps the tracking when what it serves only watches its client. *)
Lemma guarded_tracked now failure r serve h :
  watches_tracked h ->
  (forall h, is_Some (ClientPeerMapping h !! from r) -> watches_tracked h ->
             watches_tracked (serve h).2) ->
  watches_tracked (guarded now failure r serve h).2.
Proof.
  intros Hw Hs.
  assert (Ht : watches_tracked (touched now r h)).
  { intros node Hn. cbn. destruct (decide (node = from r)) as [->|Hne];
      [rewrite lookup_insert_eq; by eexists|rewrite lookup_insert_ne by done; by apply Hw]. }
  destruct (decide (admitted failure h r)) as [Ha|Ha].
  - rewrite guarded_admitted by done. unfold bind, get. destruct (_ || _); [exact Ht|].
    apply Hs; [|exact Ht]. cbn. rewrite lookup_insert_eq. by eexists.
  - destruct (guarded_refused now failure r serve h) as (code & ct & E & _); [naive_solver|].
    rewrite E. cbn [snd]. by destruct (decide _).
Qed.

Lemma foldl_Unwatch_to l m node :
  dataTo (foldl (fun st n => (Unwatch n st).2) m l) !! node
  = if decide (node ∈ l) then None else dataTo m !! node.
Proof.
  revert m. induction l as [|c l IH]; intros m; [done|]. cbn [foldl]. rewrite IH. cbn.
  destruct (decide (node = c)) as [->|Hne].
  - rewrite lookup_delete_eq. rewrite (decide_True (P := c ∈ c :: l)) by set_solver.
    by destruct (decide _).
  - rewrite lookup_delete_ne by done. apply decide_ext. set_solver.
Qed.

Lemma foldl_delete_lookup {V} l (m : gmap string V) node :
  foldl (fun cm v => delete v cm) m l !! node = if decide (node ∈ l) then None else m !! node.
Proof.
  revert m. induction l as [|c l IH]; intros m; [done|]. cbn [foldl]. rewrite IH.
  destruct (decide (node = c)) as [->|Hne].
  - rewrite lookup_delete_eq. rewrite (decide_True (P := c ∈ c :: l)) by set_solver.
    by destruct (decide _).
  - rewrite lookup_delete_ne by done. apply decide_ext. set_solver.
Qed.

(** Not heard for twenty seconds. *)
Definition late (now : Z) (h : HaModule) (node : string) : Prop :=
  exists t, ClientPeerMapping h !! node = Some t /\ t < now - 20 * 1000.

(** A round of the health check, client by client. *)
Lemma CheckPeerHealth_lookup now h :
  exists h', CheckPeerHealth now h = (Ok tt, h')
    /\ forall node,
         (late now h node ->
            dataTo (Storage h') !! node = None /\ ClientPeerMapping h' !! node = None)
         /\ (~ late now h node -> dataTo (Storage h') !! node = dataTo (Storage h) !! node
                       /\ ClientPeerMapping h' !! node = ClientPeerMapping h !! node).
Proof.
  unfold CheckPeerHealth. unfold bind at 1, get. unfold bind at 1, on_storage.
  eexists. split; [reflexivity|]. intros node. cbn [Storage ClientPeerMapping with_clients with_storage].
  rewrite foldl_Unwatch_to, foldl_delete_lookup. set (rl := fst <$> _).
  assert (Hin : node ∈ rl <-> late now h node).
  { subst rl. unfold late. rewrite list_elem_of_fmap. split.
    - intros ([n t] & -> & [Ht Hr]%list_elem_of_filter). exists t. by rewrite <-elem_of_range.
    - intros (t & Hr & Ht). exists (node, t). split; [done|].
      apply list_elem_of_filter. by rewrite elem_of_range. }
  split; intros Hl.
  - by rewrite !decide_True by by apply Hin.
  - by rewrite !decide_False by by rewrite Hin.
Qed.

Lemma ha_step_tracked h h' : ha_step h h' -> watches_tracked h -> watches_tracked h'.
Proof.
  intros Hstep Hw. destruct Hstep.
  - by apply guarded_tracked.
  - apply guarded_tracked; [done|]. clear. intros h Hc Hw.
    unfold bind, catch, on_storage.
    pose proof (FetchFullAndWatch_to (from r) (Storage h)) as Ht.
    destruct (FetchFullAndWatch (from r) (Storage h)) as [[d|e|msg|] st]; cbn in *;
      [destruct (Marshal_data d)|..]; intros node Hn; cbn in *;
      destruct (Ht node Hn) as [->|?]; auto.
  - apply guarded_tracked; [done|]. clear. intros h Hc Hw.
    unfold bind, catch, on_storage.
    pose proof (FetchChanges_to (from r) (Storage h)) as Ht.
    destruct (FetchChangesForPeerNodeRequest (from r) (Storage h)) as [[[ad dl]|e|msg|] st]; cbn in *;
      [destruct (Marshal_changes ad dl)|..]; intros node Hn; cbn in *; auto.
  - destruct (CheckPeerHealth_lookup now h) as (h' & E & Hl). rewrite E. cbn [snd].
    intros node Hn. destruct (Hl node) as [Hl1 Hl2].
    destruct (ClientPeerMapping h !! node) as [t|] eqn:Et.
    + destruct (decide (t < now - 20 * 1000)) as [Hlt|Hge].
      * destruct Hl1 as [E1 _]; [by exists t|]. rewrite E1 in Hn. by destruct Hn.
      * destruct Hl2 as [_ E2]; [intros (t' & Et' & ?); rewrite Et in Et'; injection Et' as <-; lia|]. rewrite E2. by eexists.
    + destruct Hl2 as [E1 _]; [intros (t' & Et' & _); by rewrite Et in Et'|].
      rewrite E1 in Hn. apply Hw in Hn. rewrite Et in Hn. by destruct Hn.
  - rewrite on_storage_eq. intros node. cbn [Storage with_storage ClientPeerMapping]. rewrite ProcessSyncWorker_to. apply Hw.
  - rewrite on_storage_eq. intros node0. cbn [Storage with_storage ClientPeerMapping]. rewrite Abandon_to. apply Hw.
  - rewrite on_storage_eq. intros node. cbn. rewrite lookup_fmap, fmap_is_Some. apply Hw.
  - rewrite on_storage_eq. intros node. cbn. rewrite lookup_fmap, fmap_is_Some. apply Hw.
  - rewrite on_storage_eq. intros node. cbn. apply Hw.
Qed.
End Tracking.

(** ** Concrete JSON of the answers *)

Module ToyHa.
Definition enc_map (m : payload) : list (string * string) :=
  (fun kv => (kv.1, string_of kv.2)) <$> map_to_list m.
Definition dec_map (l : list (string * string)) : payload :=
  list_to_map ((fun kv => (kv.1, bytes_of kv.2)) <$> l).

(** A nil map is the option [None] of the encoded value. *)
#[export] Instance toy_ha : HaJson := {|
  Marshal_data d := Ok (toy_enc (Some (enc_map d)));
  Unmarshal_data bs :=
    match toy_dec bs with Ok o => Ok (dec_map <$> o) | _ => Fail (ExtError "malformed") end;
  Marshal_changes a d := Ok (toy_enc (Some (enc_map a), Some (enc_map d)));
  Unmarshal_changes bs :=
    match toy_dec bs with
    | Ok p => Ok (dec_map <$> p.1, dec_map <$> p.2)
    | _ => Fail (ExtError "malformed")
    end;
|}.

Lemma dec_enc_single k d : dec_map (enc_map {[k := d]}) = {[k := d]}.
Proof.
  unfold enc_map, dec_map. rewrite map_to_list_singleton.
  cbn [fmap list_fmap fst snd]. by rewrite bytes_of_string_of.
Qed.

#[local] Arguments enc_map : simpl never.
#[local] Arguments dec_map : simpl never.

#[export] Instance toy_ha_laws : HaJsonLaws toy_ha.
Proof.
  split.
  - intros d. eexists. split; [reflexivity|]. cbn. rewrite toy_dec_enc. cbn.
    do 2 f_equal. apply dec_enc_single.
  - intros a d. eexists. split; [reflexivity|]. cbn. rewrite toy_dec_enc. cbn.
    f_equal. f_equal; f_equal; apply dec_enc_single.
Qed.
End ToyHa.
Export ToyHa.

(** ** Properties *)

(** C24. Nothing leaves without the secret: a request with a wrong cluster name or
    secret, without a node id, or for increments from an unknown node gets an
    empty answer with status 400, 401 or 500 from all three endpoints, and the
    store is not changed.  (An admitted node's last-seen time is, even when the
    secret is wrong: the time is updated before the check.) *)
Theorem cluster_needs_secret `{!MapRange, !Json, !HaJson} now r h :
  forall failure handler,
    (failure, handler) ∈ [(false, httpClusterAuth now r); (false, httpClusterFull now r);
                          (true, httpClusterIncremental now r)] ->
    ~ (admitted failure h r /\ authorised h r) ->
    exists resp, handler h = (Ok resp, if decide (admitted failure h r) then touched now r h else h)
      /\ body resp = []
      /\ status resp ∈ [StatusBadRequest; StatusUnauthorized; StatusInternalServerError]
      /\ Storage (handler h).2 = Storage h.
Proof.
  intros failure handler Hin Hn.
  assert (Hg : exists serve, handler = guarded now failure r serve).
  { repeat (apply elem_of_cons in Hin as [[= -> ->]|Hin]; [by eexists|]).
    by apply elem_of_nil in Hin. }
  destruct Hg as [serve ->].
  destruct (guarded_refused now failure r serve h Hn) as (code & ct & E & Hc).
  exists (only_status code ct). rewrite E. split_and!; [done|done|done|]. cbn. by destruct (decide _).
Qed.

Definition server : HaModule :=
  mkHa "a" watched_pair.1 ∅ {["b" := 1000]} "cluster" "secret".
Definition client : HaModule := mkHa "b" watched_pair.2 {["a" := "http://a"]} ∅ "cluster" "secret".

Lemma cluster_needs_secret_witness :
  exists resp, httpClusterFull 5000 (mkRequest "evil" "cluster" "guess") server
      = (Ok resp, touched 5000 (mkRequest "evil" "cluster" "guess") server)
    /\ body resp = [] /\ status resp ∈ [StatusBadRequest; StatusUnauthorized; StatusInternalServerError]
    /\ Storage (httpClusterFull 5000 (mkRequest "evil" "cluster" "guess") server).2 = Storage server.
Proof.
  destruct (cluster_needs_secret 5000 (mkRequest "evil" "cluster" "guess") server false
    (httpClusterFull 5000 (mkRequest "evil" "cluster" "guess"))) as (resp & E & Hr);
    [set_solver|intros [_ [_ Hs]]; discriminate Hs|].
  exists resp. split; [exact E|exact Hr].
Defined.

(** C8. Synchronisation over HTTP: between two nodes of one cluster, in any state
    their stores can reach between two requests - answers lost or not - the
    answer of the full endpoint installs at the client exactly the current
    services of the server and the client's loop goes on; if no answer was lost
    since some earlier full request, so does the answer of the incremental
    endpoint for a client the server knows and watches and that has its data. *)
Theorem http_sync_converges `{!MapRange, !Json, !HaJson, !DnsNames, !UnicodeData}
    `{!JsonLaws _, !HaJsonLaws _} a addr url nested nested' now hA hB :
  reachable a (HaNodeId hB) nested nested' (Storage hA) (Storage hB) ->
  HaNodeId hB <> "" -> ClusterName hB = ClusterName hA -> ClusterSecret hB = ClusterSecret hA ->
  (innerUrlResolve addr (Storage hB)).1 = Ok url ->
  (exists resp hA' B', httpClusterFull now (client_request hB) hA = (Ok resp, hA')
     /\ (forall get_, get_ (url +:+ HttpFull) = Ok resp ->
          full_round addr a get_ (NextTrigger 0 0) (Storage hB) = (Ok (NextTrigger 0 0), B'))
     /\ dataFrom B' !! a = Some (node_of (currentServices (Storage hA))))
  /\ (kept_up a (HaNodeId hB) nested nested' (Storage hA) (Storage hB) ->
      is_Some (ClientPeerMapping hA !! HaNodeId hB) ->
      is_Some (dataTo (Storage hA) !! HaNodeId hB) -> is_Some (dataFrom (Storage hB) !! a) ->
      exists resp hA', httpClusterIncremental now (client_request hB) hA = (Ok resp, hA')
        /\ forall env q rc, a_incremental env (url +:+ HttpIncremental) = Ok resp -> q < a_rand env + 590 ->
           exists B', PeerSyncWorker addr a env (NextTrigger q rc) (Storage hB)
                      = (Ok (NextTrigger (q + 1) 0), B')
             /\ dataFrom B' !! a = Some (node_of (currentServices (Storage hA)))).
Proof.
  intros Hr Hb Hn Hsec Hurl. destruct (net_reachable_ok _ _ _ _ _ _ Hr) as [Hs _ _]. cbn in Hs.
  assert (Hau : authorised hA (client_request hB)) by by split. split.
  - destruct (httpClusterFull_ok now (client_request hB) hA Hb Hau Hs)
      as (data & resp & hA' & st' & E & _ & Ef & Hst & Hu).
    destruct (full_fetch_ok a (HaNodeId hB) (Storage hA) (Storage hB) Hs)
      as (A' & B' & Eff & _ & _ & _ & Hd).
    unfold full_fetch in Eff. cbn [from client_request] in Ef. rewrite Ef in Eff.
    destruct (FullFrom a {[DefaultDataKey := data]} (Storage hB)) as [r B2] eqn:EF.
    injection Eff as -> -> ->. exists resp, hA', B'. split_and!; [done| |done].
    intros get_ Hg. by eapply full_round_installs.
  - intros Hl%kept_up_linked Hc [p Hp] [nd Hnd].
    destruct (httpClusterIncremental_ok now (client_request hB) hA p)
      as (ab & db & resp & hA' & st' & E & _ & Ef & Hst & Hu); [by split|done|done|done|].
    exists resp, hA'. split; [done|]. intros env q rc Hresp Hq.
    destruct (incremental_fetch_ok a (HaNodeId hB) (Storage hA) (Storage hB) p nd Hs Hl Hp Hnd)
      as (A' & B' & Eff & _ & _ & _ & _ & Hd).
    unfold incremental_fetch in Eff. cbn [from client_request] in Ef. rewrite Ef in Eff.
    destruct (SyncFrom a a {[DefaultDataKey := ab]} {[DefaultDataKey := db]} (Storage hB))
      as [r B2] eqn:EF. injection Eff as -> -> ->. exists B'. split; [|done].
    by eapply incremental_installs.
Qed.

(** The server has deleted the service since the client's full request. *)
Definition late_server : HaModule :=
  mkHa "a" deleted_pair.1 ∅ {["b" := 1000]} "cluster" "secret".
Definition late_client : HaModule := mkHa "b" deleted_pair.2 {["a" := "http://a"]} ∅ "cluster" "secret".

Lemma http_sync_converges_witness :
  exists resp hA', httpClusterIncremental 5000 (client_request late_client) late_server = (Ok resp, hA')
    /\ exists B', PeerSyncWorker "http://a" "a"
         (mkAnswers (fun _ => Fail EOF) (fun _ => Fail EOF) (fun _ => Ok resp) 0) (NextTrigger 0 0)
         (Storage late_client) = (Ok (NextTrigger 1 0), B')
       /\ dataFrom B' !! "a" = Some (node_of ∅).
Proof.
  destruct (http_sync_converges "a" "http://a" "http://a" [] [] 5000 late_server late_client) as [_ Hinc];
    [apply kept_up_reachable, deleted_kept_up|done|done|done|vm_compute; reflexivity|].
  destruct (Hinc deleted_kept_up) as (resp & hA' & E & Hp);
    [vm_compute; by eexists|vm_compute; by eexists|vm_compute; by eexists|].
  exists resp, hA'. split; [exact E|].
  destruct (Hp (mkAnswers (fun _ => Fail EOF) (fun _ => Fail EOF) (fun _ => Ok resp) 0) 0 0) as (B' & Ew & Hd);
    [reflexivity|reflexivity|].
  exists B'. split; [exact Ew|]. rewrite Hd. vm_compute. reflexivity.
Defined.

(** C33. Watches are collected: in every state the module can reach by whole
    requests, health checks and the work of its peers, every peer with pending
    changes is also a client with a last-seen time, and a round of the health
    check removes the watch and the entry of exactly the clients not heard for
    twenty seconds - so the changes kept for a silent peer do not grow for
    ever.  (A request that is held up for twenty seconds between its two locks
    leaves a watch behind that no round removes: [watch_outlives_client].) *)
Theorem health_check_collects `{!MapRange, !Json, !HaJson, !DnsNames, !UnicodeData}
    node name secret peers nested now h :
  rtc ha_step (NewHaModule node name secret peers (NewMemStore nested)) h ->
  watches_tracked h
  /\ exists h', CheckPeerHealth now h = (Ok tt, h')
     /\ (forall n, is_Some (dataTo (Storage h') !! n) ->
           exists t, ClientPeerMapping h' !! n = Some t /\ now - 20 * 1000 <= t)
     /\ (forall n t, ClientPeerMapping h !! n = Some t -> t < now - 20 * 1000 ->
           ClientPeerMapping h' !! n = None /\ dataTo (Storage h') !! n = None)
     /\ (forall n t, ClientPeerMapping h !! n = Some t -> now - 20 * 1000 <= t ->
           ClientPeerMapping h' !! n = Some t
           /\ dataTo (Storage h') !! n = dataTo (Storage h) !! n).
Proof.
  intros Hr.
  assert (Hw : watches_tracked h).
  { assert (Hinit : watches_tracked (NewHaModule node name secret peers (NewMemStore nested))).
    { intros n Hn. cbn in Hn. rewrite lookup_empty in Hn. by destruct Hn. }
    induction Hr as [x|x y z Hstep _ IH]; [done|]. apply IH. by eapply ha_step_tracked. }
  split; [done|]. destruct (CheckPeerHealth_lookup now h) as (h' & E & Hl).
  exists h'. split; [done|]. split; [|split].
  - intros n Hn. destruct (Hl n) as [Hl1 Hl2]. destruct (ClientPeerMapping h !! n) as [t|] eqn:Et.
    + destruct (decide (t < now - 20 * 1000)) as [Hlt|Hge].
      * destruct Hl1 as [E1 _]; [by exists t|]. rewrite E1 in Hn. by destruct Hn.
      * exists t. destruct Hl2 as [_ E2]; [|rewrite E2; split; [done|lia]].
        intros (t' & Et' & ?). rewrite Et in Et'. injection Et' as <-. lia.
    + destruct Hl2 as [E1 _]; [intros (t' & Et' & _); by rewrite Et in Et'|].
      rewrite E1 in Hn. apply Hw in Hn. rewrite Et in Hn. by destruct Hn.
  - intros n t Et Hlt. destruct (Hl n) as [Hl1 _]. by destruct Hl1; [exists t|].
  - intros n t Et Hge. destruct (Hl n) as [_ Hl2].
    destruct Hl2 as [E1 E2]; [|by rewrite E1, E2].
    intros (t' & Et' & ?). rewrite Et in Et'. injection Et' as <-. lia.
Qed.

Lemma health_check_collects_witness :
  let h := (httpClusterFull 1000 (mkRequest "b" "cluster" "secret")
              (NewHaModule "a" "cluster" "secret" ∅ (NewMemStore []))).2 in
  dataTo (Storage h) !! "b" = Some (mkPending [] [])
  /\ exists h', CheckPeerHealth 30000 h = (Ok tt, h')
     /\ ClientPeerMapping h' !! "b" = None /\ dataTo (Storage h') !! "b" = None.
Proof.
  split; [vm_compute; reflexivity|].
  destruct (health_check_collects "a" "cluster" "secret" ∅ [] 30000
    (httpClusterFull 1000 (mkRequest "b" "cluster" "secret")
              (NewHaModule "a" "cluster" "secret" ∅ (NewMemStore []))).2) as [_ (h' & E & _ & Hlate & _)].
  - apply rtc_once. apply hs_full.
  - exists h'. split; [exact E|]. apply (Hlate "b" 1000); [vm_compute; reflexivity|reflexivity].
Defined.

(** The handlers take the lock of the client table and then the one of the store.
    A round of the health check that comes between them, late enough, forgets the
    client, and the watch that follows is of nobody. *)
Example watch_outlives_client :
  let h1 := (updateClientTime 1000 "b" false (NewHaModule "a" "cluster" "secret" ∅ (NewMemStore []))).2 in
  let h2 := (CheckPeerHealth 30000 h1).2 in
  let h3 := (on_storage (FetchFullAndWatch "b") h2).2 in
  ClientPeerMapping h3 !! "b" = None
  /\ forall now, dataTo (Storage (CheckPeerHealth now h3).2) !! "b" = Some (mkPending [] []).
Proof.
  intros h1 h2 h3. assert (Hc : ClientPeerMapping h3 !! "b" = None) by (vm_compute; reflexivity).
  split; [done|]. intros now. destruct (CheckPeerHealth_lookup now h3) as (h' & -> & Hl).
  destruct (Hl "b") as [_ [Hd _]]; [intros (t & Ht & _); by rewrite Hc in Ht|].
  cbn [snd]. rewrite Hd. vm_compute. reflexivity.
Qed.

Section Worker.
Context `{!MapRange, !Json, !HaJson, !DnsNames, !UnicodeData}.

Lemma FullFrom_outcome node data st :
  match FullFrom node data st with
  | (Ok _, st') => is_Some (dataFrom st' !! node)
  | (_, st') => dataFrom st' = dataFrom st
  end.
Proof.
  unfold FullFrom. destruct (data !! DefaultDataKey) as [d|]; [|done].
  unfold bind, lift. destruct (memNodeDataUnmarshall d) as [nd| | |]; [|done..].
  cbn. rewrite lookup_insert_eq. by eexists.
Qed.

(** A query leaves the store alone. *)
Lemma query_outcome {A} addr (k : string -> exec A) st :
  (let* u := innerUrlResolve addr in lift (k u)) st
  = (match (innerUrlResolve addr st).1 with Ok u => k u | Fail e => Fail e | Panic msg => Panic msg | NoFuel => NoFuel end, st).
Proof.
  unfold bind, lift. pose proof (innerUrlResolve_state addr st) as Hs.
  destruct (innerUrlResolve addr st) as [[] st1]; cbn in *; by subst st1.
Qed.

(** A round of a full answer: installed, refused, or left without a reply. *)
Lemma full_round_outcome addr peer get_ ok st ph st' :
  full_round addr peer get_ ok st = (Ok ph, st') ->
  (ph = ok /\ is_Some (dataFrom st' !! peer))
  \/ ((ph = MainLoop \/ ph = Waiting) /\ dataFrom st' = dataFrom st).
Proof.
  unfold full_round, queryFullDataSet. unfold bind at 1, catch. rewrite query_outcome.
  destruct (match (innerUrlResolve addr st).1 with Ok u => _ | _ => _ end) as [[data|]|e| |]; intros E.
  - unfold submit, ProcessSyncWorker, bind, catch in E. cbn in E.
    pose proof (FullFrom_outcome peer data st) as Ho.
    destruct (FullFrom peer data st) as [[| | |] st2]; cbn in *; unfold ret in *;
      simplify_eq; [by left|right; auto].
  - unfold submit, ProcessSyncWorker, bind, ret in E. cbn in E. simplify_eq. right. auto.
  - unfold ret in E. simplify_eq. right. auto.
  - done.
  - done.
Qed.

Lemma submit_phase req ok st ph st' :
  submit req ok st = (Ok ph, st') -> ph = ok \/ ph = MainLoop \/ ph = Waiting.
Proof.
  unfold submit, bind. destruct (ProcessSyncWorker req st) as [[[[]|]| | |] st2]; intros E;
    unfold ret in E; simplify_eq; auto.
Qed.
End Worker.

(** The loop over one peer: its counters stay in their bounds - at most ten
    failed increments in a row before it starts over, at most 609 increments
    between two full answers - and an iteration that starts over either installs
    the peer's services or leaves the store without any data of that peer. *)
Theorem PeerSyncWorker_phases `{!MapRange, !Json, !HaJson, !DnsNames, !UnicodeData} addr peer env ph st ph' st' :
  phase_ok ph -> 0 <= a_rand env < 20 ->
  PeerSyncWorker addr peer env ph st = (Ok ph', st') ->
  phase_ok ph'
  /\ (ph = MainLoop -> match ph' with
                       | NextTrigger q r => q = 0 /\ r = 0 /\ is_Some (dataFrom st' !! peer)
                       | _ => dataFrom st' !! peer = None
                       end).
Proof.
  intros Hph Hr E. destruct ph as [|q r|]; cbn [PeerSyncWorker] in E.
  - assert (Ea : exists st1, Abandon peer st = (Ok tt, st1) /\ dataFrom st1 !! peer = None).
    { pose proof (Abandon_from peer st) as Hab. unfold Abandon, bind, get in *.
      destruct (dataFrom st !! peer); by eexists. }
    destruct Ea as (st1 & Ea & Hn).
    rewrite (bind_ok _ _ _ _ _ (catch_ok _ _ _ _ Ea)) in E. unfold connectRemote in E.
    unfold bind at 1, catch in E. rewrite query_outcome in E.
    destruct (match (innerUrlResolve addr st1).1 with Ok u => _ | _ => _ end) as [[]| | |]; simplify_eq.
    + apply full_round_outcome in E as [[-> Hs]|[Hm Hd]]; [cbn; split_and!; try done; lia|].
      rewrite <-Hd in Hn. destruct Hm as [-> | ->]; cbn; by split_and!.
    + unfold ret in E. simplify_eq. cbn. by split_and!.
  - cbn in Hph. destruct (Z.ltb_spec q (a_rand env + 590)) as [Hlt|Hge].
    + unfold queryIncrementalData in E. unfold bind at 1, catch in E. rewrite query_outcome in E.
      destruct (match (innerUrlResolve addr st).1 with Ok u => _ | _ => _ end) as [[ad dl]|e| |]; simplify_eq.
      * apply submit_phase in E as [-> |[-> | ->]]; cbn; split_and!; try done; lia.
      * destruct (Z.gtb_spec (r + 1) 10); unfold ret in E; simplify_eq; cbn; split_and!; try done; lia.
    + apply full_round_outcome in E as [[-> _]|[[-> | ->] _]]; cbn; split_and!; try done; lia.
  - unfold ret in E. simplify_eq. by split_and!.
Qed.

Definition refused : Answers :=
  mkAnswers (fun _ => Ok (only_status 401 None)) (fun _ => Fail EOF) (fun _ => Fail EOF) 0.

Lemma PeerSyncWorker_phases_witness :
  exists st', PeerSyncWorker "http://a" "a" refused MainLoop (Storage client) = (Ok MainLoop, st')
    /\ dataFrom st' !! "a" = None.
Proof.
  destruct (PeerSyncWorker "http://a" "a" refused MainLoop (Storage client)) as [r st'] eqn:E.
  assert (r = Ok MainLoop) as -> by (apply (f_equal fst) in E; vm_compute in E; by rewrite <-E).
  exists st'. split; [done|].
  destruct (PeerSyncWorker_phases "http://a" "a" refused MainLoop (Storage client) MainLoop st') as (_ & H);
    [done|split; done|exact E|exact (H eq_refl)].
Defined.

(** C40. An answer without maps stops the loop: when the full endpoint's 200 answer
    decodes to a nil map (JSON [null]), or the incremental one to two, the
    worker takes neither branch and sends no reply; the loop waits for it in
    every later iteration, whatever the peer answers, and the store keeps what
    it has. *)
Theorem nil_answer_blocks_worker `{!MapRange, !Json, !HaJson, !DnsNames, !UnicodeData} addr url peer env st ph :
  (innerUrlResolve addr st).1 = Ok url ->
  (ph = MainLoop /\ auth_answer (a_auth env (url +:+ HttpAuth)) = Ok tt
     /\ full_answer (a_full env (url +:+ HttpFull)) = Ok None
   \/ exists q r, ph = NextTrigger q r /\ q < a_rand env + 590
        /\ incremental_answer (a_incremental env (url +:+ HttpIncremental)) = Ok (None, None)) ->
  exists st', PeerSyncWorker addr peer env ph st = (Ok Waiting, st')
    /\ forall envs : list Answers,
         foldl (fun r env => match r with
                             | (Ok ph, st) => PeerSyncWorker addr peer env ph st
                             | r => r
                             end) (Ok Waiting, st') envs = (Ok Waiting, st').
Proof.
  intros Hurl Hc0.
  assert (Hw : exists st', PeerSyncWorker addr peer env ph st = (Ok Waiting, st')).
  { destruct Hc0 as [(-> & Hc & Hq)|(q & r & -> & Hlt & Hq)]; cbn [PeerSyncWorker].
    - destruct (Abandon_resolves addr peer st url Hurl) as (st1 & Ea & Eu). exists st1.
      rewrite (bind_ok _ _ _ _ _ (catch_ok _ _ _ _ Ea)). unfold full_round, connectRemote, queryFullDataSet.
      unfold bind at 1, catch. rewrite query_outcome, Eu. cbn [fst]. rewrite Hc.
      unfold bind at 1, catch. by rewrite query_outcome, Eu; cbn [fst]; rewrite Hq.
    - exists st. apply Z.ltb_lt in Hlt as ->. unfold queryIncrementalData, bind at 1, catch.
      by rewrite query_outcome, Hurl, Hq. }
  destruct Hw as [st' E]. exists st'. split; [done|].
  intros envs. induction envs as [|env' envs IH]; [done|]. exact IH.
Qed.

Definition nil_full : Answers :=
  mkAnswers (fun _ => Ok (only_status 200 None))
    (fun _ => Ok (mkResponse 200 None (toy_enc (None : option (list (string * string)))))) (fun _ => Fail EOF) 0.

Lemma nil_answer_blocks_worker_witness :
  exists st', PeerSyncWorker "http://a" "a" nil_full MainLoop (Storage client) = (Ok Waiting, st').
Proof.
  destruct (nil_answer_blocks_worker "http://a" "http://a" "a" nil_full (Storage client) MainLoop) as (st' & E & _);
    [vm_compute; reflexivity|left; split_and!; [done|done|vm_compute; reflexivity]|].
  exists st'. exact E.
Defined.

(** A peer whose configured address is no URL stops the process, whatever the
    other nodes do: the address is parsed only when the worker makes its first
    request, and a failure there is a panic.  An address that parses never
    panics, as long as no nested store does, and resolving it changes nothing. *)
Theorem unparsable_peer_panics `{!MapRange, !Json, !HaJson, !DnsNames, !UnicodeData} addr peer env st :
  ((forall u, NetUrl.Parse addr <> Ok u) ->
   exists msg st', PeerSyncWorker addr peer env MainLoop st = (Panic msg, st'))
  /\ (forall u, NetUrl.Parse addr = Ok u ->
      Forall (fun f : DnsStorage => forall d t, (exists r, f d t = Ok r) \/ exists e, f d t = Fail e) (dnsStores st) ->
      exists url, innerUrlResolve addr st = (Ok url, st)).
Proof.
  split.
  - intros Hp. cbn [PeerSyncWorker]. destruct (Abandon_outcome peer st) as (st1 & Ea & _).
    rewrite (bind_ok _ _ _ _ _ (catch_ok _ _ _ _ Ea)).
    destruct (innerUrlResolve_unparsable addr st1 Hp) as (msg & Eu). exists msg, st1.
    unfold connectRemote, bind, catch. by rewrite Eu.
  - intros u Hu Hn. assert (Hr : exists x, catch (ResolveDomain (Fqdn (Hostname u)) DomainTypeA) st = (Ok x, st)).
    { unfold ResolveDomain, catch, bind, get, lift.
      destruct (resolve_nested_outcome (dnsStores st) (ToLower (Fqdn (Hostname u))) DomainTypeA Hn) as [[r ->]|[e ->]];
        repeat case_match; unfold ret in *; simplify_eq; by eexists. }
    destruct Hr as [x Ex]. unfold innerUrlResolve. rewrite Hu, (bind_ok _ _ _ _ _ Ex). destruct x; by eexists.
Qed.

Lemma unparsable_peer_panics_witness :
  exists msg st', PeerSyncWorker "http://a b" "a" nil_full MainLoop (Storage client) = (Panic msg, st').
Proof.
  apply (unparsable_peer_panics "http://a b" "a" nil_full (Storage client)). by vm_compute.
Defined.
