(* ===== verification/HttpEndpoint.v ===== *)
(** * The service registry endpoint (endpoint.http.go)

    Clients publish their services by heartbeat; a client not heard for ten
    seconds is dropped with everything it published.  [publishService] updates
    the store and the client table under two different locks, so in [ep_step]
    it is two steps with anything in between.  (A cleanup round holds the lock
    of the table and takes the store's for each deletion; a publish that comes
    between two deletions is like one before or after the round.) *)

From stdpp Require Import base list gmap strings relations.
From Stdlib Require Import ZArith Lia.
From S2P Require Import Prelude GoStr Bytes Toy MemStore MemSync Ha.
Local Open Scope Z_scope.
Local Open Scope go_scope.

(** ** Definitions *)

Record PublicClient := mkClient {
  LastUpdate : Z;
  Publishment : gmap string string;   (* service -> address *)
}.

Record HttpEndpoint := mkEndpoint {
  EpStorage : MemStore;
  EnableAuth : bool;
  AccessPassword : string;
  publicClients : gmap string PublicClient;
}.

Definition with_store st (e : HttpEndpoint) : HttpEndpoint :=
  mkEndpoint st (EnableAuth e) (AccessPassword e) (publicClients e).
Definition with_public cs (e : HttpEndpoint) : HttpEndpoint :=
  mkEndpoint (EpStorage e) (EnableAuth e) (AccessPassword e) cs.

(** What the handlers read of a request. *)
Record EpRequest := mkEpRequest {
  name : string;
  node : string;
  address : string;
  X_Access_Password : string;
}.

(** encoding/json at the type of the service list. *)
Class ItemsJson := { Marshal_items : list ServiceItem -> exec (list byte) }.

Definition NewHttpEndpoint (storage : MemStore) (enableAuth : bool) (accessPassword : string)
    : HttpEndpoint := mkEndpoint storage enableAuth accessPassword ∅.

Section Endpoint.
Context `{!MapRange, !Json, !ItemsJson, !DnsNames, !UnicodeData}.

Definition on_store {A} (m : M MemStore A) : M HttpEndpoint A :=
  fun e => let '(r, st) := m (EpStorage e) in (r, with_store st e).

(** The password check of both handlers. *)
Definition denied (e : HttpEndpoint) (r : EpRequest) : bool :=
  EnableAuth e && negb (String.eqb (X_Access_Password r) (AccessPassword e)).

Definition queryService (r : EpRequest) : M HttpEndpoint Response :=
  let* e := get in
  if denied e r then ret (only_status StatusUnauthorized None)
  else
    let* l := catch (on_store (GetServiceList (name r))) in
    match l with
    | inr _ => ret (only_status StatusInternalServerError (Some "application/json"))
    | inl items =>
        match Marshal_items items with
        | Ok data => ret (mkResponse StatusOK (Some "application/json") data)
        | Fail _ => ret (only_status StatusInternalServerError (Some "application/json"))
        | Panic msg => panic msg
        | NoFuel => nofuel
        end
    end.

(** The two critical sections of [publishService]: the store's, then the
    client table's. *)
Definition publish_store (r : EpRequest) : M HttpEndpoint unit :=
  on_store (PublishService (name r) (mkItem (address r) (node r))).

Definition publish_client (now : Z) (r : EpRequest) : M HttpEndpoint unit :=
  modify (fun e =>
    let p := default (mkClient now ∅) (publicClients e !! node r) in
    with_public (<[node r := mkClient now (<[name r := address r]> (Publishment p))]>
      (publicClients e)) e).

Definition publishService (now : Z) (r : EpRequest) : M HttpEndpoint Response :=
  let* e := get in
  if denied e r then ret (only_status StatusUnauthorized None)
  else
    let* x := catch (publish_store r) in
    match x with
    | inr _ => ret (only_status StatusInternalServerError (Some "application/json"))
    | inl _ =>
        let* _ := publish_client now r in
        ret (only_status StatusOK (Some "application/json"))
    end.

(** Delete what the client published, then the client. *)
Fixpoint delete_published (client : string) (l : list (string * string)) : M HttpEndpoint unit :=
  match l with
  | [] => ret tt
  | (serviceName, addr) :: l =>
      let* _ := catch (on_store (DeleteService serviceName (mkItem addr client))) in
      delete_published client l
  end.

Fixpoint drop_clients (rlist : list (string * PublicClient)) : M HttpEndpoint unit :=
  match rlist with
  | [] => ret tt
  | (vv, p) :: rlist =>
      let* _ := delete_published vv (range (Publishment p)) in
      let* _ := modify (fun e => with_public (delete vv (publicClients e)) e) in
      drop_clients rlist
  end.

(** One round of the cleanup. *)
Definition CheckPublishClients (now : Z) : M HttpEndpoint unit :=
  let barrierTime := now - 10 * 1000 in
  let* e := get in
  drop_clients (filter (fun kv => LastUpdate kv.2 < barrierTime) (range (publicClients e))).

(** *** Steps *)

(** Whole requests, cleanup rounds, and anything a peer sends. *)
Inductive whole_step : HttpEndpoint -> HttpEndpoint -> Prop :=
| es_publish now r e : whole_step e (publishService now r e).2
| es_query r e : whole_step e (queryService r e).2
| es_check now e : whole_step e (CheckPublishClients now e).2
| es_storage st e :
    currentServices st = currentServices (EpStorage e) -> whole_step e (with_store st e).

(** Requests that overlap: the list has the publish requests that have left the
    store's critical section and not yet entered the table's. *)
Inductive ep_step : HttpEndpoint * list EpRequest -> HttpEndpoint * list EpRequest -> Prop :=
| es_whole e e' fl : whole_step e e' -> ep_step (e, fl) (e', fl)
| es_store r e fl :
    denied e r = false -> ep_step (e, fl) ((publish_store r e).2, r :: fl)
| es_client now r e fl1 fl2 :
    ep_step (e, fl1 ++ r :: fl2) ((publish_client now r e).2, fl1 ++ fl2).

(** The store publishes exactly what the client table says. *)
Definition registered (e : HttpEndpoint) (s n a : string) : Prop :=
  exists c, publicClients e !! n = Some c /\ Publishment c !! s = Some a.

Definition in_step (e : HttpEndpoint) : Prop :=
  forall s n a, look (currentServices (EpStorage e)) s n = Some a <-> registered e s n a.

(** A publish of the service by the node is between its critical sections. *)
Definition publishing_of (fl : list EpRequest) (s n : string) : Prop :=
  exists r, r ∈ fl /\ name r = s /\ node r = n.

(** What the store publishes is in the client table, or on its way there. *)
Definition tracked (e : HttpEndpoint) (fl : list EpRequest) : Prop :=
  forall s n a, look (currentServices (EpStorage e)) s n = Some a ->
    (exists a', registered e s n a') \/ publishing_of fl s n.

(** The client has published the service and was not heard for ten seconds. *)
Definition expired (now : Z) (e : HttpEndpoint) (s n : string) : Prop :=
  exists c, publicClients e !! n = Some c /\ LastUpdate c < now - 10 * 1000 /\ is_Some (Publishment c !! s).
End Endpoint.

(** ** Lemmas *)

Section Lemmas.
Context `{!MapRange, !Json, !ItemsJson, !DnsNames, !UnicodeData}.

Lemma delete_published_ok client l e :
  exists st, delete_published client l e = (Ok tt, with_store st e)
    /\ (forall s n, look (currentServices st) s n
         = if decide (n = client /\ s ∈ l.*1) then None
           else look (currentServices (EpStorage e)) s n).
Proof.
  revert e. induction l as [|[s0 a0] l IH]; intros e.
  - exists (EpStorage e). split; [by destruct e|]. intros s n.
    rewrite decide_False; [done|]. by intros [_ Hs%elem_of_nil].
  - cbn [delete_published].
    set (st1 := (DeleteService s0 (mkItem a0 client) (EpStorage e)).2).
    assert (E : on_store (DeleteService s0 (mkItem a0 client)) e = (Ok tt, with_store st1 e)) by done.
    rewrite (bind_ok _ _ _ _ _ (catch_ok _ _ _ _ E)).
    destruct (IH (with_store st1 e)) as (st & E2 & Hl). exists st. rewrite E2. split; [done|].
    intros s n. rewrite Hl. cbn [EpStorage with_store]. subst st1.
    change (currentServices (DeleteService s0 (mkItem a0 client) (EpStorage e)).2)
      with (del2 s0 client (currentServices (EpStorage e))).
    rewrite look_del2. cbn [fmap list_fmap fst].
    destruct (decide (n = client /\ s ∈ l.*1)) as [[-> Hin]|Hn1].
    + rewrite decide_True by set_solver. done.
    + destruct (decide (s = s0 /\ n = client)) as [[-> ->]|Hn2].
      * rewrite decide_True by set_solver. done.
      * rewrite decide_False; [done|]. intros [-> [->|Hin]%elem_of_cons]; [by apply Hn2|].
        by apply Hn1.
Qed.

Definition in_list (s n : string) (rl : list (string * PublicClient)) : Prop :=
  Exists (fun kv => kv.1 = n /\ s ∈ (range (Publishment kv.2)).*1) rl.

#[local] Instance in_list_dec s n rl : Decision (in_list s n rl).
Proof. unfold in_list. apply _. Defined.

Lemma drop_clients_ok rl e :
  exists e', drop_clients rl e = (Ok tt, e')
    /\ (forall s n, look (currentServices (EpStorage e')) s n
          = if decide (in_list s n rl) then None else look (currentServices (EpStorage e)) s n)
    /\ (forall n, publicClients e' !! n
          = if decide (n ∈ rl.*1) then None else publicClients e !! n).
Proof.
  revert e. induction rl as [|[vv p] rl IH]; intros e.
  { exists e. split; [done|]. split; [|done]. intros s n. rewrite decide_False; [done|]. by intros ?%Exists_nil. }
  cbn [drop_clients]. destruct (delete_published_ok vv (range (Publishment p)) e) as (st & E & Hl).
  rewrite (bind_ok _ _ _ _ _ E). unfold bind at 1, modify.
  set (e1 := with_public (delete vv (publicClients (with_store st e))) (with_store st e)).
  destruct (IH e1) as (e' & E' & Hs' & Hc'). exists e'. split; [done|]. split.
  - intros s n. rewrite Hs'. subst e1. cbn [EpStorage with_public with_store]. rewrite Hl.
    destruct (decide (in_list s n rl)) as [Hr|Hr].
    { rewrite decide_True; [done|]. by apply Exists_cons_tl. }
    destruct (decide (n = vv /\ s ∈ (range (Publishment p)).*1)) as [[-> Hs]|Hn].
    + rewrite decide_True; [done|]. by apply Exists_cons_hd.
    + rewrite decide_False; [done|]. intros [[<- Hs]|?]%Exists_cons; [by apply Hn|done].
  - intros n. rewrite Hc'. subst e1. cbn [fst fmap list_fmap publicClients with_public with_store].
    destruct (decide (n ∈ rl.*1)) as [Hr1|Hr1].
    + by rewrite decide_True by set_solver.
    + destruct (decide (n = vv)) as [->|Hn].
      * rewrite lookup_delete_eq. by rewrite decide_True by set_solver.
      * rewrite lookup_delete_ne by done. by rewrite decide_False by set_solver.
Qed.

(** A cleanup round, in any state. *)
Lemma CheckPublishClients_effect now e :
  exists e', CheckPublishClients now e = (Ok tt, e')
    /\ (forall s n, (expired now e s n -> look (currentServices (EpStorage e')) s n = None)
         /\ (~ expired now e s n ->
              look (currentServices (EpStorage e')) s n = look (currentServices (EpStorage e)) s n))
    /\ forall n c, publicClients e' !! n = Some c <->
         publicClients e !! n = Some c /\ now - 10 * 1000 <= LastUpdate c.
Proof.
  unfold CheckPublishClients. unfold bind at 1, get. set (rl := filter _ _).
  assert (Hrl : forall n c, (n, c) ∈ rl <->
    publicClients e !! n = Some c /\ LastUpdate c < now - 10 * 1000).
  { intros n c. subst rl. rewrite list_elem_of_filter, elem_of_range. naive_solver. }
  destruct (drop_clients_ok rl e) as (e' & E & Hs & Hc). exists e'. split; [done|]. split.
  - assert (Hin : forall s n, in_list s n rl <-> expired now e s n).
    { intros s n. unfold in_list, expired. rewrite Exists_exists. split.
      - intros ([n' c] & [Hc1 Hc2]%Hrl & <- & ([s' a] & -> & Ha%elem_of_range)%list_elem_of_fmap).
        exists c. cbn in *. by eauto.
      - intros (c & Hc1 & Hc2 & a & Ha). exists (n, c). split; [by apply Hrl|]. split; [done|].
        apply list_elem_of_fmap. exists (s, a). by rewrite elem_of_range. }
    intros s n. rewrite Hs. split; intros Hx.
    + by rewrite decide_True by by apply Hin.
    + by rewrite decide_False by by rewrite Hin.
  - intros n c. rewrite Hc. destruct (decide (n ∈ rl.*1)) as [Hn|Hn].
    + apply list_elem_of_fmap in Hn as ([n' c'] & -> & [E1 Hlt]%Hrl). cbn.
      split; [done|]. intros [E2 Hge]. assert (c' = c) as -> by congruence. lia.
    + split; [|by intros [? _]]. intros Hn'. split; [done|].
      destruct (decide (LastUpdate c < now - 10 * 1000)); [|lia].
      exfalso. apply Hn, list_elem_of_fmap. exists (n, c). split; [done|]. by apply Hrl.
Qed.

Lemma expired_dec now e s n : Decision (expired now e s n).
Proof.
  unfold expired. destruct (publicClients e !! n) as [c|] eqn:E.
  - destruct (decide (LastUpdate c < now - 10 * 1000 /\ is_Some (Publishment c !! s))) as [Hx|Hx].
    + left. by exists c.
    + right. intros (c' & [= <-] & ?). by apply Hx.
  - right. by intros (c & ? & _).
Qed.

Lemma CheckPublishClients_ok now e :
  in_step e ->
  exists e', CheckPublishClients now e = (Ok tt, e') /\ in_step e'
    /\ forall n c, publicClients e' !! n = Some c <->
         publicClients e !! n = Some c /\ now - 10 * 1000 <= LastUpdate c.
Proof.
  intros Hin. destruct (CheckPublishClients_effect now e) as (e' & E & Hs & Hc).
  exists e'. split; [done|]. split; [|done]. intros s n a. destruct (Hs s n) as [Hy Hn].
  destruct (expired_dec now e s n) as [Hx|Hx].
  - rewrite (Hy Hx). split; [done|]. intros (c & [Hc1 Hge]%Hc & _).
    destruct Hx as (c' & Hc2 & Hlt & _). assert (c' = c) as -> by congruence. lia.
  - rewrite (Hn Hx), (Hin s n a). unfold registered. split.
    + intros (c & Hc1 & Ha). exists c. split; [|done]. apply Hc. split; [done|].
      destruct (decide (LastUpdate c < now - 10 * 1000)); [|lia]. destruct Hx. exists c. split_and!; [done|done|by eexists].
    + intros (c & [? _]%Hc & Ha). by exists c.
Qed.

Lemma publish_in_step now r e :
  in_step e ->
  let e1 := (publish_client now r ((publish_store r) e).2).2 in in_step e1.
Proof.
  intros Hin e1 s n a. subst e1. unfold registered. cbn.
  rewrite look_put2. destruct (decide (n = node r)) as [->|Hn].
  - rewrite lookup_insert_eq. destruct (decide (s = name r)) as [->|Hs].
    + rewrite decide_True by done. split.
      * intros [= <-]. eexists. split; [done|]. cbn. by rewrite lookup_insert_eq.
      * intros (c & [= <-] & Hc). cbn in Hc. by rewrite lookup_insert_eq in Hc.
    + rewrite decide_False by naive_solver. rewrite (Hin s (node r) a). unfold registered.
      split.
      * intros (c & Hc & Hcs). eexists. split; [done|]. cbn. rewrite Hc.
        by rewrite lookup_insert_ne by done.
      * intros (c & [= <-] & Hcs). cbn in Hcs. rewrite lookup_insert_ne in Hcs by done.
        destruct (publicClients e !! node r) as [c|]; [by exists c|]. cbn in Hcs.
        by rewrite lookup_empty in Hcs.
  - rewrite lookup_insert_ne, decide_False by naive_solver. apply Hin.
Qed.

Lemma publishService_eq now r e :
  publishService now r e
  = if denied e r then (Ok (only_status StatusUnauthorized None), e)
    else (Ok (only_status StatusOK (Some "application/json")),
          (publish_client now r ((publish_store r) e).2).2).
Proof. unfold publishService, bind at 1, get. by destruct (denied e r). Qed.

Lemma with_store_id e : with_store (EpStorage e) e = e.
Proof. by destruct e. Qed.

Lemma queryService_state r e : (queryService r e).2 = e.
Proof.
  unfold queryService, bind at 1, get. destruct (denied e r); [done|].
  unfold bind, catch, on_store, GetServiceList, gets. cbn.
  destruct (Marshal_items _); cbn; apply with_store_id.
Qed.

Lemma whole_step_in_step e e' : whole_step e e' -> in_step e -> in_step e'.
Proof.
  intros [now r x|r x|now x|st x Hst] Hin.
  - rewrite publishService_eq. destruct (denied x r); [done|]. by apply publish_in_step.
  - by rewrite queryService_state.
  - destruct (CheckPublishClients_ok now x Hin) as (e2 & E & Hin2 & _). by rewrite E.
  - intros s n a. cbn. rewrite Hst. apply Hin.
Qed.

(** *** Overlapping requests *)

(** A registered instance stays registered when another publish is recorded. *)
Lemma publish_client_registered now r e s n a :
  registered e s n a -> exists a', registered (publish_client now r e).2 s n a'.
Proof.
  intros (c & Hc & Ha). cbn. unfold registered. cbn [publicClients with_public].
  destruct (decide (n = node r)) as [->|Hn].
  - setoid_rewrite lookup_insert_eq. rewrite Hc. cbn [default from_option id].
    destruct (decide (s = name r)) as [->|Hs].
    + eexists _, _. split; [done|]. cbn. by rewrite lookup_insert_eq.
    + eexists _, _. split; [done|]. cbn. by rewrite lookup_insert_ne.
  - exists a, c. by rewrite lookup_insert_ne.
Qed.

Lemma publish_client_recorded now r e : registered (publish_client now r e).2 (name r) (node r) (address r).
Proof. eexists. cbn. rewrite lookup_insert_eq. split; [done|]. cbn. by rewrite lookup_insert_eq. Qed.

Lemma tracked_store r e fl : tracked e fl -> tracked (publish_store r e).2 (r :: fl).
Proof.
  intros Ht s n a Hl. change (look (put2 (name r) (node r) (address r) (currentServices (EpStorage e))) s n = Some a) in Hl.
  rewrite look_put2 in Hl. destruct (decide (s = name r /\ n = node r)) as [[-> ->]|Hn].
  - right. exists r. split; [set_solver|done].
  - destruct (Ht s n a Hl) as [(a' & Hr)|(r' & Hr & ?)]; [left; by exists a'|right]. exists r'. split; [set_solver|done].
Qed.

Lemma tracked_client now r e fl1 fl2 :
  tracked e (fl1 ++ r :: fl2) -> tracked (publish_client now r e).2 (fl1 ++ fl2).
Proof.
  intros Ht s n a Hl. destruct (Ht s n a Hl) as [(a' & Hr)|(r' & Hr & <- & <-)].
  - left. by eapply publish_client_registered.
  - apply elem_of_app in Hr as [Hr|[->|Hr]%elem_of_cons].
    + right. exists r'. split; [set_solver|done].
    + left. exists (address r). apply publish_client_recorded.
    + right. exists r'. split; [set_solver|done].
Qed.

Lemma tracked_check now e fl : tracked e fl -> tracked (CheckPublishClients now e).2 fl.
Proof.
  intros Ht. destruct (CheckPublishClients_effect now e) as (e' & E & Hs & Hc). rewrite E. cbn [snd].
  intros s n a Hl. destruct (Hs s n) as [Hy Hn].
  destruct (expired_dec now e s n) as [Hx|Hx]; [by rewrite (Hy Hx) in Hl|]. rewrite (Hn Hx) in Hl.
  destruct (Ht s n a Hl) as [(a' & c & Hc1 & Ha)|?]; [left|by right]. exists a', c. split; [|done]. apply Hc.
  split; [done|]. destruct (decide (LastUpdate c < now - 10 * 1000)); [|lia].
  destruct Hx. exists c. split_and!; [done|done|by eexists].
Qed.

(** Changes of the store that keep what this node publishes. *)
Lemma tracked_storage st e fl :
  currentServices st = currentServices (EpStorage e) -> tracked e fl -> tracked (with_store st e) fl.
Proof. intros Hst Ht s n a. cbn. rewrite Hst. apply Ht. Qed.

Lemma tracked_publish now r e fl : tracked e fl -> tracked (publishService now r e).2 fl.
Proof.
  intros Ht. rewrite publishService_eq. destruct (denied e r); [done|].
  apply (tracked_client now r _ [] fl), tracked_store, Ht.
Qed.

Lemma ep_step_tracked x y : ep_step x y -> tracked x.1 x.2 -> tracked y.1 y.2.
Proof.
  intros [e e' fl [now r x'|r x'|now x'|st x' Hst]|r e fl Hd|now r e fl1 fl2] Ht; cbn [fst snd] in *.
  - by apply tracked_publish.
  - by rewrite queryService_state.
  - by apply tracked_check.
  - by apply tracked_storage.
  - by apply tracked_store.
  - by apply tracked_client.
Qed.
End Lemmas.

(** ** Properties *)

#[export] Instance toy_items : ItemsJson := {|
  Marshal_items l := Ok (toy_enc ((fun i => (Addr i, NodeId i)) <$> l));
|}.

(** C10. The registry follows the heartbeats.  In every state reached by requests
    that overlap in any way - each publish in its two critical sections -,
    cleanup rounds and peer traffic, whatever the node publishes is recorded in
    the client table or belongs to a publish under way; so after a cleanup round
    it publishes only instances of clients heard within ten seconds or of
    publishes under way, and it keeps the instances of clients that were heard.
    When no publish is interrupted, the node publishes exactly what the table
    records, and after a round exactly the services of the clients heard within
    ten seconds.  (With interruptions a recorded instance may be missing:
    [publish_races_with_cleanup].) *)
Theorem registry_follows_heartbeats `{!MapRange, !Json, !ItemsJson, !DnsNames, !UnicodeData}
    nested auth password now e fl :
  rtc ep_step (NewHttpEndpoint (NewMemStore nested) auth password, []) (e, fl) ->
  tracked e fl
  /\ exists e', CheckPublishClients now e = (Ok tt, e')
     /\ (forall n c, publicClients e' !! n = Some c <->
           publicClients e !! n = Some c /\ now - 10 * 1000 <= LastUpdate c)
     /\ (forall s n a, look (currentServices (EpStorage e')) s n = Some a ->
           look (currentServices (EpStorage e)) s n = Some a
           /\ ((exists c, publicClients e !! n = Some c /\ now - 10 * 1000 <= LastUpdate c
                  /\ is_Some (Publishment c !! s)) \/ publishing_of fl s n))
     /\ (forall s n a, look (currentServices (EpStorage e)) s n = Some a ->
           (forall c, publicClients e !! n = Some c -> now - 10 * 1000 <= LastUpdate c) ->
           look (currentServices (EpStorage e')) s n = Some a)
     /\ (rtc whole_step (NewHttpEndpoint (NewMemStore nested) auth password) e ->
         in_step e
         /\ forall s n a, look (currentServices (EpStorage e')) s n = Some a <->
              exists c, publicClients e !! n = Some c /\ now - 10 * 1000 <= LastUpdate c
                /\ Publishment c !! s = Some a).
Proof.
  intros Hr.
  assert (Hinit : in_step (NewHttpEndpoint (NewMemStore nested) auth password)).
  { intros s n a. unfold registered, look. cbn [NewHttpEndpoint EpStorage NewMemStore currentServices publicClients].
    rewrite !lookup_empty. split; [done|]. by intros (c & Hc & _). }
  assert (Ht : tracked e fl).
  { assert (Hi : forall x y, rtc ep_step x y -> tracked x.1 x.2 -> tracked y.1 y.2)
      by (intros x y; induction 1 as [|x y z Hs _ IH]; [done|]; intros Hx; by apply IH, (ep_step_tracked _ _ Hs)).
    apply (Hi _ _ Hr). intros s n a Hl%Hinit. left. by exists a. }
  split; [done|]. destruct (CheckPublishClients_effect now e) as (e' & E & Hs & Hc).
  exists e'. split; [done|]. split; [done|]. split; [|split].
  - intros s n a Hl. destruct (Hs s n) as [Hy Hn].
    destruct (expired_dec now e s n) as [Hx|Hx]; [by rewrite (Hy Hx) in Hl|]. rewrite (Hn Hx) in Hl.
    split; [done|]. destruct (Ht s n a Hl) as [(a' & c & Hc1 & Ha)|?]; [left|by right].
    exists c. split; [done|]. split; [|by eexists]. destruct (decide (LastUpdate c < now - 10 * 1000)); [|lia].
    destruct Hx. exists c. split_and!; [done|done|by eexists].
  - intros s n a Hl Hold. destruct (Hs s n) as [_ ->]; [done|]. intros (c & Hc1 & Hlt & _).
    specialize (Hold c Hc1). lia.
  - intros Hw. assert (Hin : in_step e).
    { clear -Hw Hinit. induction Hw as [x|x y z Hstep _ IH]; [done|]. apply IH. by eapply whole_step_in_step. }
    split; [done|]. destruct (CheckPublishClients_ok now e Hin) as (e2 & E2 & Hin2 & _).
    rewrite E in E2. injection E2 as <-. intros s n a. rewrite (Hin2 s n a). unfold registered.
    setoid_rewrite Hc. naive_solver.
Qed.

Definition beat : EpRequest := mkEpRequest "web" "n1" "10.0.0.1:80" "".
Definition one_client : HttpEndpoint :=
  (publishService 1000 beat (NewHttpEndpoint (NewMemStore []) false "")).2.

(** A second publish is under way when the cleanup of the first client comes. *)
Definition beat2 : EpRequest := mkEpRequest "db" "n2" "10.0.0.2:80" "".
Definition overlapped : HttpEndpoint := (publish_store beat2 one_client).2.

Lemma registry_follows_heartbeats_witness :
  exists e', CheckPublishClients 20000 overlapped = (Ok tt, e')
    /\ look (currentServices (EpStorage e')) "web" "n1" = None
    /\ look (currentServices (EpStorage e')) "db" "n2" = Some "10.0.0.2:80".
Proof.
  destruct (registry_follows_heartbeats [] false "" 20000 overlapped [beat2]) as [_ (e' & E & _ & Hg & Hk & _)].
  - eapply rtc_l; [apply es_whole, (es_publish 1000 beat)|]. apply rtc_once. apply (es_store beat2). reflexivity.
  - exists e'. split; [exact E|]. split.
    + destruct (look (currentServices (EpStorage e')) "web" "n1") as [a|] eqn:El; [|done]. exfalso.
      apply Hg in El as [_ [(c & Hc & Hge & _)|(r & Hr & Hn & _)]].
      * vm_compute in Hc. injection Hc as <-. cbn in Hge. lia.
      * apply list_elem_of_singleton in Hr as ->. discriminate Hn.
    + apply Hk; [vm_compute; reflexivity|]. intros c Hc. vm_compute in Hc. discriminate Hc.
Defined.

(** Publishing is seen by the next query: with the right password (or no
    authentication) a publish answers 200 and a query for the service answers
    200 with a list that contains the instance; with a wrong password both
    answer 401 and change nothing. *)
Theorem publish_then_query `{!MapRange, !Json, !ItemsJson, !DnsNames, !UnicodeData} now r q e :
  (forall l, exists b, Marshal_items l = Ok b) -> name q = name r ->
  (denied e r = true -> publishService now r e = (Ok (only_status StatusUnauthorized None), e)
                        /\ (denied e q = true -> queryService q e
                              = (Ok (only_status StatusUnauthorized None), e)))
  /\ (denied e r = false -> denied e q = false ->
      exists e' l b, publishService now r e
          = (Ok (only_status StatusOK (Some "application/json")), e')
        /\ mkItem (address r) (node r) ∈ l /\ Marshal_items l = Ok b
        /\ queryService q e' = (Ok (mkResponse StatusOK (Some "application/json") b), e')).
Proof.
  intros Hm Hn. split.
  - intros Hd. split; [by rewrite publishService_eq, Hd|]. intros Hq.
    unfold queryService, bind, get. by rewrite Hq.
  - intros Hd Hq. set (e' := (publish_client now r ((publish_store r) e).2).2).
    assert (Hq' : denied e' q = false) by exact Hq.
    assert (Hs : services (EpStorage e') = put2 (name r) (node r) (address r) (services (EpStorage e)))
      by done.
    assert (El : exists l, GetServiceList (name q) (EpStorage e') = (Ok l, EpStorage e')
        /\ mkItem (address r) (node r) ∈ l).
    { unfold GetServiceList, gets. rewrite Hs, Hn. unfold put2. rewrite lookup_insert_eq.
      eexists. split; [reflexivity|]. apply list_elem_of_fmap. exists (node r, address r).
      rewrite elem_of_range, lookup_insert_eq. done. }
    destruct El as (l & El & Hin). destruct (Hm l) as [b Eb].
    exists e', l, b. split; [by rewrite publishService_eq, Hd|]. split; [done|]. split; [done|].
    unfold queryService. unfold bind at 1, get. rewrite Hq'.
    unfold bind, catch, on_store. rewrite El. cbn [fst snd]. rewrite Eb.
    unfold ret. by rewrite with_store_id.
Qed.

Lemma publish_then_query_witness :
  let e := NewHttpEndpoint (NewMemStore []) true "pw" in
  let r := mkEpRequest "web" "n1" "10.0.0.1:80" "pw" in
  exists e' l b, publishService 1000 r e = (Ok (only_status StatusOK (Some "application/json")), e')
    /\ mkItem "10.0.0.1:80" "n1" ∈ l /\ Marshal_items l = Ok b
    /\ queryService r e' = (Ok (mkResponse StatusOK (Some "application/json") b), e').
Proof.
  destruct (publish_then_query 1000 (mkEpRequest "web" "n1" "10.0.0.1:80" "pw")
    (mkEpRequest "web" "n1" "10.0.0.1:80" "pw") (NewHttpEndpoint (NewMemStore []) true "pw"))
    as [_ H]; [by eexists|done|]. exact (H eq_refl eq_refl).
Defined.

(** C39. The two locks of a publish are not one: if a cleanup round of an expired
    client runs between them, the heartbeat that keeps the client's address is
    answered 200 and recorded in the client table, while the service has been
    deleted from the store. *)
Theorem publish_races_with_cleanup `{!MapRange, !Json, !ItemsJson, !DnsNames, !UnicodeData}
    now r e c :
  in_step e -> publicClients e !! node r = Some c -> LastUpdate c < now - 10 * 1000 ->
  Publishment c !! name r = Some (address r) ->
  exists e3,
    (let* _ := publish_store r in let* _ := CheckPublishClients now in publish_client now r) e
      = (Ok tt, e3)
    /\ registered e3 (name r) (node r) (address r)
    /\ look (currentServices (EpStorage e3)) (name r) (node r) = None.
Proof.
  intros Hin Hc Hlt Hp. set (e1 := ((publish_store r) e).2).
  assert (E1 : publish_store r e = (Ok tt, e1)) by done.
  assert (Hin1 : in_step e1).
  { intros s n a. change (currentServices (EpStorage e1)) with
      (put2 (name r) (node r) (address r) (currentServices (EpStorage e))).
    rewrite look_put2. destruct (decide (s = name r /\ n = node r)) as [[-> ->]|Hne]; [|apply Hin].
    split.
    - intros [= <-]. by exists c.
    - intros (c' & Hc' & Ha). change (publicClients e1) with (publicClients e) in Hc'. congruence. }
  destruct (CheckPublishClients_ok now e1 Hin1) as (e2 & E2 & Hin2 & Hc2).
  assert (Hnone : publicClients e2 !! node r = None).
  { destruct (publicClients e2 !! node r) as [c'|] eqn:E'; [|done].
    apply Hc2 in E' as [Hx Hge]. change (publicClients e1) with (publicClients e) in Hx.
    assert (c' = c) as -> by congruence. lia. }
  eexists. rewrite (bind_ok _ _ _ _ _ E1), (bind_ok _ _ _ _ _ E2). split; [reflexivity|]. split.
  - eexists. cbn. rewrite lookup_insert_eq. split; [done|]. cbn. by rewrite lookup_insert_eq.
  - cbn. destruct (look (currentServices (EpStorage e2)) (name r) (node r)) as [a|] eqn:El; [|done].
    apply Hin2 in El as (c' & Hc' & _). congruence.
Qed.

Lemma publish_races_with_cleanup_witness :
  exists e3,
    (let* _ := publish_store beat in let* _ := CheckPublishClients 20000 in
     publish_client 20000 beat) one_client = (Ok tt, e3)
    /\ registered e3 "web" "n1" "10.0.0.1:80"
    /\ look (currentServices (EpStorage e3)) "web" "n1" = None.
Proof.
  apply (publish_races_with_cleanup 20000 beat one_client
    (mkClient 1000 {["web" := "10.0.0.1:80"]}));
    [|vm_compute; reflexivity|done|vm_compute; reflexivity].
  apply publish_in_step. intros s n a. unfold registered, look.
  cbn [NewHttpEndpoint EpStorage NewMemStore currentServices publicClients].
  rewrite !lookup_empty. split; [done|]. by intros (c & Hc & _).
Defined.
