(* ===== verification/NetIP.v ===== *)
(** * IP addresses (internal/dnscore/handlers.ptr.utils.go)

    [net.ParseIP] of the Go standard library, byte by byte, and the reverse
    names the source makes of an address. *)

From stdpp Require Import base list strings pretty.
From Stdlib Require Import ZArith Lia Ascii.
From S2P Require Import Prelude GoStr MemStore.
Local Open Scope Z_scope.
Local Open Scope go_scope.

(** ** [net.ParseIP] *)

(** The loop of [parseIPv4Fields]: [prev] is the byte before, [None] at the
    start; [fields] are the octets finished so far. *)
Fixpoint parseIPv4Fields (s : list Z) (prev : option Z) (val : Z) (digLen : nat)
    (fields : list Z) : option (list Z) :=
  match s with
  | [] => if (length fields <? 3)%nat then None else Some (fields ++ [val])
  | c :: s =>
      if (48 <=? c) && (c <=? 57) then
        if (digLen =? 1)%nat && (val =? 0) then None
        else
          let val := val * 10 + (c - 48) in
          if val >? 255 then None else parseIPv4Fields s (Some c) val (S digLen) fields
      else if c =? 46 then
        match prev, s with
        | None, _ => None
        | _, [] => None
        | Some p, _ =>
            if p =? 46 then None
            else if (length fields =? 3)%nat then None
            else parseIPv4Fields s (Some c) 0 0 (fields ++ [val])
        end
      else None
  end.

(** One hexadecimal group: its value, the number of digits and the rest;
    [None] when it is longer than four digits. *)
Fixpoint hex_group (s : list Z) (off : nat) (acc : Z) : option (Z * nat * list Z) :=
  match s with
  | [] => Some (acc, off, [])
  | c :: s' =>
      match hex_value c with
      | None => Some (acc, off, s)
      | Some d =>
          let acc := acc * 16 + d in
          if (3 <? off)%nat then None
          else if acc >? 65535 then None
          else hex_group s' (S off) acc
      end
  end.

(** The loop of [parseIPv6]: [ip] are the bytes parsed, [ellipsis] where the
    "::" was; at most eight groups fit. *)
Fixpoint parseIPv6_loop (fuel : nat) (s ip : list Z) (ellipsis : option nat)
    : option (list Z * list Z * option nat) :=
  match fuel with
  | O => Some (s, ip, ellipsis)
  | S fuel =>
      match hex_group s 0 0 with
      | None => None
      | Some (_, O, _) => None
      | Some (acc, _, rest) =>
          match rest with
          | [] => Some ([], ip ++ [acc / 256; acc mod 256], ellipsis)
          | c :: s1 =>
              if c =? 46 then
                if match ellipsis with None => negb (length ip =? 12)%nat | Some _ => false end
                then None
                else if (16 <? length ip + 4)%nat then None
                else
                  match parseIPv4Fields s None 0 0 [] with
                  | None => None
                  | Some v4 => Some ([], ip ++ v4, ellipsis)
                  end
              else if negb (c =? 58) then None
              else
                let ip := ip ++ [acc / 256; acc mod 256] in
                match s1 with
                | [] => None
                | c2 :: s2 =>
                    if c2 =? 58 then
                      match ellipsis with
                      | Some _ => None
                      | None =>
                          match s2 with
                          | [] => Some ([], ip, Some (length ip))
                          | _ => parseIPv6_loop fuel s2 ip (Some (length ip))
                          end
                      end
                    else parseIPv6_loop fuel s1 ip ellipsis
                end
          end
      end
  end.

Definition parseIPv6 (s : list Z) : option (list Z) :=
  let '(s, ellipsis) :=
    match s with
    | c1 :: c2 :: s' => if (c1 =? 58) && (c2 =? 58) then (s', Some 0%nat) else (s, None)
    | _ => (s, None)
    end in
  match ellipsis, s with
  | Some _, [] => Some (replicate 16 0)
  | _, _ =>
      match parseIPv6_loop 8 s [] ellipsis with
      | Some ([], ip, ellipsis) =>
          if (length ip <? 16)%nat then
            match ellipsis with
            | None => None
            | Some e => Some (take e ip ++ replicate (16 - length ip) 0 ++ drop e ip)
            end
          else match ellipsis with Some _ => None | None => Some ip end
      | _ => None
      end
  end.

(** [netip.ParseAddr]: the first dot, colon or percent sign decides; an address
    with a zone is not one for [net.ParseIP]. *)
Fixpoint scan_addr (s : list Z) : option Z :=
  match s with
  | [] => None
  | c :: s => if (c =? 46) || (c =? 58) || (c =? 37) then Some c else scan_addr s
  end.

Definition ParseIP (str : string) : option (list Z) :=
  let s := codes str in
  match scan_addr s with
  | None => None
  | Some c =>
      if c =? 46 then
        v4 ← parseIPv4Fields s None 0 0 []; Some (replicate 10 0 ++ [255; 255] ++ v4)
      else if c =? 58 then (if existsb (Z.eqb 37) s then None else parseIPv6 s)
      else None
  end.

(** [IP.To4] of a 16-byte address. *)
Definition To4 (ip : list Z) : option (list Z) :=
  if bool_decide (take 12 ip = replicate 10 0 ++ [255; 255]) then Some (drop 12 ip) else None.

(** ** The source's functions *)

Definition IsValidIPAddress (ipStr : string) : bool :=
  match ParseIP ipStr with Some _ => true | None => false end.

(** [hex.EncodeToString] of the bytes, and [%d] of one. *)
Definition EncodeToString (bs : list Z) : string :=
  foldr (fun b acc => hex_fix 2 b +:+ acc) EmptyString bs.

Definition fmt_d (z : Z) : string := pretty z.

Definition in_addr (a b c d : Z) : string :=
  fmt_d a +:+ "." +:+ fmt_d b +:+ "." +:+ fmt_d c +:+ "." +:+ fmt_d d.

Fixpoint with_dots (s : string) : string :=
  match s with
  | EmptyString => EmptyString
  | String a s => String a (String "." (with_dots s))
  end.

Definition reverse (s : string) : string := String.string_of_list_ascii (rev (String.list_ascii_of_string s)).

Section Names.
Context `{!DnsNames, !UnicodeData}.

Definition FromIPAddressToPtrFqdn (ipStr : string) : exec string :=
  match ParseIP ipStr with
  | None => Panic "not a valid IP address"
  | Some ip =>
      match To4 ip with
      | Some [a; b; c; d] => Ok (Fqdn (in_addr d c b a +:+ ".in-addr.arpa"))
      | Some _ => Panic "index out of range"
      | None => Ok (Fqdn (with_dots (reverse (EncodeToString ip)) +:+ "ip6.arpa"))
      end
  end.

(** The storage is any with a [PutDomain]. *)
Definition AddIpReverseDnsToStorage {S} (put : string -> string -> Z -> M S unit)
    (ipStr domain : string) : M S unit :=
  if negb (IsValidIPAddress ipStr) then fail (NewError ("invalid IP address:" +:+ ipStr))
  else
    let* rDomain := lift (FromIPAddressToPtrFqdn ipStr) in
    put rDomain (Fqdn (ToLower domain)) DomainTypePtr.
End Names.

(** ** The cases of handlers.ptr.utils_test.go *)

Example invalid_octet : IsValidIPAddress "999.0.111.0" = false.
Proof. reflexivity. Qed.
Example reverse_v4 :
  FromIPAddressToPtrFqdn "192.168.0.1" = Ok "1.0.168.192.in-addr.arpa."
  /\ FromIPAddressToPtrFqdn "8.8.8.8" = Ok "8.8.8.8.in-addr.arpa.".
Proof. vm_compute. done. Qed.
Example reverse_v6 :
  FromIPAddressToPtrFqdn "2002:7f00:1::" = Ok "0.0.0.0.0.0.0.0.0.0.0.0.0.0.0.0.0.0.0.0.1.0.0.0.0.0.f.7.2.0.0.2.ip6.arpa."
  /\ FromIPAddressToPtrFqdn "2002:7f00:0001:0000:0000:0000:0000:0000"
     = Ok "0.0.0.0.0.0.0.0.0.0.0.0.0.0.0.0.0.0.0.0.1.0.0.0.0.0.f.7.2.0.0.2.ip6.arpa.".
Proof. vm_compute. done. Qed.
Example parse_mixed : ParseIP "::ffff:1.2.3.4" = ParseIP "1.2.3.4" /\ ParseIP "1:2" = None
  /\ ParseIP "::1%eth0" = None /\ ParseIP "01.2.3.4" = None /\ ParseIP "1::2::3" = None.
Proof. vm_compute. done. Qed.

(** ** Lemmas *)

Lemma parseIPv4Fields_length s prev val dl fields r :
  parseIPv4Fields s prev val dl fields = Some r -> (length fields <= 3)%nat -> length r = 4%nat.
Proof.
  revert prev val dl fields. induction s as [|c s IH]; intros prev val dl fields; cbn [parseIPv4Fields].
  - destruct (Nat.ltb_spec (length fields) 3); [done|]. intros [= <-] ?. rewrite length_app. cbn. lia.
  - destruct ((48 <=? c) && (c <=? 57)).
    + destruct ((dl =? 1)%nat && (val =? 0)); [done|].
      destruct (val * 10 + (c - 48) >? 255); [done|]. apply IH.
    + destruct (c =? 46); [|done]. destruct prev as [p|]; [|done].
      destruct s as [|c' s']; [done|]. destruct (p =? 46); [done|].
      destruct (Nat.eqb_spec (length fields) 3); [done|]. intros E ?.
      eapply IH; [exact E|]. rewrite length_app. cbn. lia.
Qed.

Lemma parseIPv6_loop_length fuel s ip e s' ip' e' :
  parseIPv6_loop fuel s ip e = Some (s', ip', e') ->
  (length ip + 2 * fuel <= 16)%nat -> match e with Some k => (k <= length ip)%nat | None => True end ->
  (length ip' <= 16)%nat /\ match e' with Some k => (k <= length ip')%nat | None => True end.
Proof.
  revert s ip e. induction fuel as [|fuel IH]; intros s ip e; cbn [parseIPv6_loop].
  - intros [= <- <- <-] ? ?. split; [lia|done].
  - destruct (hex_group s 0 0) as [[[acc [|n]] rest]|]; [done| |done].
    assert (Hstep : forall s e, parseIPv6_loop fuel s (ip ++ [acc / 256; acc mod 256]) e = Some (s', ip', e') ->
      (length ip + 2 * S fuel <= 16)%nat ->
      match e with Some k => (k <= length ip + 2)%nat | None => True end ->
      (length ip' <= 16)%nat /\ match e' with Some k => (k <= length ip')%nat | None => True end).
    { intros s1 e1 E Hl He. apply (IH _ _ _ E); rewrite length_app; cbn [length]; [lia|]. by destruct e1. }
    intros E Hl He.
    assert (He2 : match e with Some k => (k <= length ip + 2)%nat | None => True end)
      by (destruct e; [lia|done]).
    destruct rest as [|c s1].
    { injection E as <- <- <-. rewrite length_app. cbn [length]. split; [lia|done]. }
    destruct (c =? 46).
    { destruct (match e with None => _ | Some _ => _ end); [done|].
      destruct (Nat.ltb_spec 16 (length ip + 4)); [done|].
      destruct (parseIPv4Fields s None 0 0 []) as [v4|] eqn:E4; [|done].
      apply parseIPv4Fields_length in E4; [|cbn; lia].
      injection E as <- <- <-. rewrite length_app, E4. split; [lia|]. destruct e; [lia|done]. }
    destruct (negb (c =? 58)); [done|]. destruct s1 as [|c2 s2]; [done|].
    destruct (c2 =? 58); [|by apply (Hstep (c2 :: s2) e)].
    destruct e as [k|]; [done|]. destruct s2 as [|c3 s3].
    + injection E as <- <- <-. rewrite length_app. cbn [length]. lia.
    + apply (Hstep (c3 :: s3) _ E Hl). rewrite length_app. cbn. lia.
Qed.

Lemma parseIPv6_length s r : parseIPv6 s = Some r -> length r = 16%nat.
Proof.
  unfold parseIPv6. set (p := match s with c1 :: c2 :: s' => _ | _ => _ end).
  assert (He : p.2 = None \/ p.2 = Some 0%nat).
  { subst p. destruct s as [|c1 [|c2 s']]; [by left..|]. destruct (_ && _); [by right|by left]. }
  destruct p as [s1 e]. cbn in He.
  assert (Hloop : forall s' ip e', parseIPv6_loop 8 s1 [] e = Some (s', ip, e') ->
    (if (length ip <? 16)%nat then
       match e' with
       | None => None
       | Some k => Some (take k ip ++ replicate (16 - length ip) 0 ++ drop k ip)
       end
     else match e' with Some _ => None | None => Some ip end) = Some r -> length r = 16%nat).
  { intros s' ip e' E. apply parseIPv6_loop_length in E as [Hl Hk];
      [|cbn; lia|by destruct He as [-> | ->]].
    destruct (Nat.ltb_spec (length ip) 16).
    - destruct e' as [k|]; [|done]. intros [= <-].
      rewrite !length_app, length_take, length_replicate, length_drop. lia.
    - destruct e'; [done|]. intros [= <-]. lia. }
  destruct e as [k|], s1 as [|c s1]; try (intros [= <-]; done);
    destruct (parseIPv6_loop 8 _ [] _) as [[[[|? ?] ip] e']|] eqn:E; try done; by eapply Hloop.
Qed.

Lemma ParseIP_length s r : ParseIP s = Some r -> length r = 16%nat.
Proof.
  unfold ParseIP. destruct (scan_addr (codes s)) as [c|]; [|done]. destruct (c =? 46).
  - destruct (parseIPv4Fields (codes s) None 0 0 []) as [v4|] eqn:E; [|done].
    apply parseIPv4Fields_length in E; [|cbn; lia].
    cbn [mbind option_bind]. intros [= <-]. cbn. by rewrite E.
  - destruct (c =? 58); [|done]. destruct (existsb _ _); [done|]. apply parseIPv6_length.
Qed.

Lemma codes_append s t : codes (s +:+ t) = codes s ++ codes t.
Proof. induction s as [|a s IH]; [done|]. rewrite append_cons. cbn. by rewrite IH. Qed.

(** One decimal octet, followed by anything. *)
Lemma parse_octet n rest prev fields :
  (n < 256)%nat ->
  exists p dl, parseIPv4Fields (codes (fmt_d (Z.of_nat n)) ++ rest) prev 0 0 fields
               = parseIPv4Fields rest (Some p) (Z.of_nat n) dl fields
            /\ (p =? 46) = false.
Proof.
  intros Hn. do 256 (destruct n as [|n]; [by eexists _, _|]). lia.
Qed.

Lemma scan_octet n rest :
  (n < 256)%nat -> scan_addr (codes (fmt_d (Z.of_nat n)) ++ 46 :: rest) = Some 46.
Proof. intros Hn. do 256 (destruct n as [|n]; [reflexivity|]). lia. Qed.

Lemma octet_nonempty n rest : (n < 256)%nat -> codes (fmt_d (Z.of_nat n)) ++ rest <> [].
Proof. intros Hn. do 256 (destruct n as [|n]; [done|]). lia. Qed.

(** A dot and the next octet. *)
Lemma parse_dot n p v dl fields rest :
  (n < 256)%nat -> (p =? 46) = false -> (length fields < 3)%nat ->
  parseIPv4Fields (46 :: codes (fmt_d (Z.of_nat n)) ++ rest) (Some p) v dl fields
  = parseIPv4Fields (codes (fmt_d (Z.of_nat n)) ++ rest) (Some 46) 0 0 (fields ++ [v]).
Proof.
  intros Hn Hp Hl. pose proof (octet_nonempty n rest Hn) as Hne.
  cbn [parseIPv4Fields]. change ((48 <=? 46) && (46 <=? 57)) with false. cbn [Z.eqb Pos.eqb].
  destruct (codes (fmt_d (Z.of_nat n)) ++ rest); [done|]. rewrite Hp.
  by destruct (Nat.eqb_spec (length fields) 3); [lia|].
Qed.

(** A dotted quad is parsed to its four octets. *)
Lemma ParseIP_quad a b c d :
  (a < 256)%nat -> (b < 256)%nat -> (c < 256)%nat -> (d < 256)%nat ->
  ParseIP (in_addr (Z.of_nat a) (Z.of_nat b) (Z.of_nat c) (Z.of_nat d))
  = Some (replicate 10 0 ++ [255; 255] ++ [Z.of_nat a; Z.of_nat b; Z.of_nat c; Z.of_nat d]).
Proof.
  intros Ha Hb Hc Hd. unfold ParseIP, in_addr. rewrite !codes_append.
  change (codes ".") with [46]. cbn [app]. rewrite scan_octet by done. cbn [Z.eqb Pos.eqb].
  rewrite <-(app_nil_r (codes (fmt_d (Z.of_nat d)))).
  destruct (parse_octet a (46 :: codes (fmt_d (Z.of_nat b)) ++ 46 :: codes (fmt_d (Z.of_nat c)) ++
    46 :: codes (fmt_d (Z.of_nat d)) ++ []) None [] Ha) as (p1 & d1 & -> & Hp1).
  rewrite parse_dot by (done || cbn; lia).
  destruct (parse_octet b (46 :: codes (fmt_d (Z.of_nat c)) ++ 46 :: codes (fmt_d (Z.of_nat d)) ++ [])
    (Some 46) [Z.of_nat a] Hb) as (p2 & d2 & E2 & Hp2).
  cbn [app]. rewrite E2, parse_dot by (done || cbn; lia).
  destruct (parse_octet c (46 :: codes (fmt_d (Z.of_nat d)) ++ []) (Some 46)
    [Z.of_nat a; Z.of_nat b] Hc) as (p3 & d3 & E3 & Hp3).
  cbn [app]. rewrite E3, parse_dot by (done || cbn; lia).
  destruct (parse_octet d [] (Some 46) [Z.of_nat a; Z.of_nat b; Z.of_nat c] Hd) as (p4 & d4 & E4 & _).
  cbn [app]. rewrite E4. done.
Qed.

(** A valid address has a reverse name. *)
Lemma FromIPAddressToPtrFqdn_valid `{!DnsNames} s :
  IsValidIPAddress s = true -> exists r, FromIPAddressToPtrFqdn s = Ok r.
Proof.
  unfold IsValidIPAddress. destruct (ParseIP s) as [ip|] eqn:E; [|done]. intros _.
  pose proof (ParseIP_length _ _ E) as Hl. unfold FromIPAddressToPtrFqdn. rewrite E.
  unfold To4. case_bool_decide; [|by eexists].
  do 12 (destruct ip as [|? ip]; [done|]). cbn [drop].
  do 5 (destruct ip as [|? ip]; try done). by eexists.
Qed.

(** ** Properties *)

(** Reverse names of IPv4 addresses: for any four octets, the name made of
    the dotted quad is the quad reversed under in-addr.arpa. *)
Theorem FromIPAddressToPtrFqdn_v4 `{!DnsNames, !UnicodeData} a b c d :
  (a < 256)%nat -> (b < 256)%nat -> (c < 256)%nat -> (d < 256)%nat ->
  FromIPAddressToPtrFqdn (in_addr (Z.of_nat a) (Z.of_nat b) (Z.of_nat c) (Z.of_nat d))
  = Ok (Fqdn (in_addr (Z.of_nat d) (Z.of_nat c) (Z.of_nat b) (Z.of_nat a) +:+ ".in-addr.arpa")).
Proof.
  intros Ha Hb Hc Hd. unfold FromIPAddressToPtrFqdn. by rewrite ParseIP_quad.
Qed.

Lemma FromIPAddressToPtrFqdn_v4_witness :
  FromIPAddressToPtrFqdn "192.168.0.1" = Ok "1.0.168.192.in-addr.arpa.".
Proof.
  assert (E : "192.168.0.1"
    = in_addr (Z.of_nat 192) (Z.of_nat 168) (Z.of_nat 0) (Z.of_nat 1)) by (vm_compute; reflexivity).
  rewrite E, (FromIPAddressToPtrFqdn_v4 192 168 0 1) by lia. vm_compute. reflexivity.
Defined.

(** The check and the conversion agree: [FromIPAddressToPtrFqdn] panics
    exactly on the strings [IsValidIPAddress] refuses, so the guarded
    [AddIpReverseDnsToStorage] never panics: it stores one record under the
    reverse name, or returns the error. *)
Theorem AddIpReverseDnsToStorage_total `{!DnsNames, !UnicodeData} {S}
    (put : string -> string -> Z -> M S unit) ipStr domain s :
  (IsValidIPAddress ipStr = false -> FromIPAddressToPtrFqdn ipStr = Panic "not a valid IP address"
     /\ AddIpReverseDnsToStorage put ipStr domain s
        = (Fail (NewError ("invalid IP address:" +:+ ipStr)), s))
  /\ (IsValidIPAddress ipStr = true -> exists rDomain, FromIPAddressToPtrFqdn ipStr = Ok rDomain
     /\ AddIpReverseDnsToStorage put ipStr domain s
        = put rDomain (Fqdn (ToLower domain)) DomainTypePtr s).
Proof.
  unfold AddIpReverseDnsToStorage, IsValidIPAddress.
  destruct (ParseIP ipStr) as [ip|] eqn:E; split; try done.
  - intros _. destruct (FromIPAddressToPtrFqdn_valid ipStr) as [r Hr];
      [unfold IsValidIPAddress; by rewrite E|]. exists r. split; [done|].
    cbn [negb]. unfold bind, lift. by rewrite Hr.
  - intros _. split; [|done]. unfold FromIPAddressToPtrFqdn. by rewrite E.
Qed.

(** A store of the records put, newest first. *)
Definition put_list (domain resolve : string) (t : Z) : M (list (string * string * Z)) unit :=
  modify (cons (domain, resolve, t)).

Lemma AddIpReverseDnsToStorage_total_witness :
  AddIpReverseDnsToStorage put_list "10.0.0.7" "DB.lan" []
    = (Ok tt, [("7.0.0.10.in-addr.arpa.", "db.lan.", DomainTypePtr)])
  /\ AddIpReverseDnsToStorage put_list "10.0.0" "db.lan" []
    = (Fail (NewError "invalid IP address:10.0.0"), []).
Proof.
  split.
  - destruct (AddIpReverseDnsToStorage_total put_list "10.0.0.7" "DB.lan" []) as [_ H].
    destruct (H ltac:(vm_compute; reflexivity)) as (r & Hr & ->).
    assert (E : r = "7.0.0.10.in-addr.arpa.").
    { assert (E : FromIPAddressToPtrFqdn "10.0.0.7" = Ok "7.0.0.10.in-addr.arpa.") by (vm_compute; reflexivity).
      rewrite E in Hr. by injection Hr. }
    rewrite E. vm_compute. reflexivity.
  - apply (AddIpReverseDnsToStorage_total put_list "10.0.0" "db.lan" []). vm_compute. reflexivity.
Defined.
