(* ===== verification/Dns.v ===== *)
(** * The DNS pipeline (internal/dnscore)

    Record handlers over a storage, the upstream with its enclosed domains, the
    message cache, and the endpoint that puts them together.  Messages are the
    fields of [dns.Msg] the source reads or writes; what github.com/miekg/dns
    does with them is the class [DnsLib]. *)

From stdpp Require Import base list gmap strings pretty.
From Stdlib Require Import ZArith Lia Ascii.
From S2P Require Import Prelude GoStr MemStore NetIP.
Local Open Scope Z_scope.
Local Open Scope go_scope.

(** ** Messages *)

Record RR_Header := mkHdr { HdrName : string; Rrtype : Z; HdrClass : Z; Ttl : Z }.

Inductive RR :=
| RR_A (Hdr : RR_Header) (ip : option (list Z))
| RR_AAAA (Hdr : RR_Header) (ip : option (list Z))
| RR_TXT (Hdr : RR_Header) (Txt : list string)
| RR_SRV (Hdr : RR_Header) (Priority Weight Port : Z) (Target : string)
| RR_PTR (Hdr : RR_Header) (Ptr : string)
| RR_other (Hdr : RR_Header).

Definition Header (rr : RR) : RR_Header :=
  match rr with
  | RR_A h _ | RR_AAAA h _ | RR_TXT h _ | RR_SRV h _ _ _ _ | RR_PTR h _ | RR_other h => h
  end.

Record Question := mkQuestion { Name : string; Qtype : Z }.

Record Msg := mkMsg {
  Opcode : Z;
  Rcode : Z;
  Questions : list Question;
  Answer : list RR;
}.

Definition with_answer (a : list RR) (m : Msg) : Msg := mkMsg (Opcode m) (Rcode m) (Questions m) a.

(** [new(dns.Msg)]. *)
Definition new_Msg : Msg := mkMsg 0 0 [] [].

Definition TypeA : Z := 1.
Definition TypePTR : Z := 12.
Definition TypeTXT : Z := 16.
Definition TypeAAAA : Z := 28.
Definition TypeSRV : Z := 33.
Definition ClassINET : Z := 1.
Definition OpcodeQuery : Z := 0.
Definition RcodeSuccess : Z := 0.
Definition RcodeFormatError : Z := 1.
Definition RcodeNameError : Z := 3.

Definition DefaultResponseTTL : Z := 3600.

(** ** The dns library *)

Class DnsLib := {
  SetReply : Msg -> Msg -> Msg;             (* reply.SetReply(request) *)
  SetRcode : Msg -> Msg -> Z -> Msg;
  SetRcodeFormatError : Msg -> Msg -> Msg;
  Exchange : Msg -> string -> exec Msg;     (* the answer of the upstream server *)
}.

Class DnsLibLaws (L : DnsLib) : Prop := {
  reply_rcode m r : Rcode (SetReply m r) = RcodeSuccess;
  reply_answer m r : Answer (SetReply m r) = Answer m;
  reply_question m r q qs : Questions r = q :: qs -> Questions (SetReply m r) = [q];
  rcode_rcode m r c : Rcode (SetRcode m r c) = c;
  rcode_answer m r c : Answer (SetRcode m r c) = Answer m;
  format_error m r : Rcode (SetRcodeFormatError m r) = RcodeFormatError;
}.

(** encoding/json at the type of SRV data: priority, weight, port, target. *)
Class SrvJson := { Unmarshal_srv : string -> exec (Z * Z * Z * string) }.

(** ** Handlers *)

Section Handlers.
Context `{!DnsLib, !DnsNames, !UnicodeData, !SrvJson}.
Context {S : Type}.

(** [m.Question[0]]. *)
Definition Question0 (m : Msg) : M S Question :=
  match Questions m with
  | [] => panic "index out of range"
  | q :: _ => ret q
  end.

(** [NotFoundUpstreamDns.HandleQuestion]. *)
Definition NotFound (RespondNXDomainForAAAA : bool) (m : Msg) : M S Msg :=
  let* q := Question0 m in
  let defaultRcode :=
    if (Qtype q =? TypeAAAA) && negb RespondNXDomainForAAAA then RcodeSuccess
    else RcodeNameError in
  ret (SetRcode new_Msg m defaultRcode).

Definition Handler : Type := Msg -> M S Msg.

(** [ParentRecordHandler.HandleQuestion]. *)
Definition Parent (parent : option Handler) : Handler := fun m =>
  match parent with
  | Some h => h m
  | None => NotFound false m
  end.

(** What the five handlers share: look the name up, go to the parent when it
    is not found, else answer with the record. *)
Definition answer_with (resolve : DnsStorage) (domainType : Z) (not_found : Handler)
    (record : string -> string -> M S RR) : Handler := fun m =>
  let* q := Question0 m in
  let domain := Name q in
  match resolve domain domainType with
  | Ok result =>
      let* rr := record domain result in
      let reply := SetReply new_Msg m in
      ret (with_answer (Answer reply ++ [rr]) reply)
  | Fail err => if decide (err = ErrStorageNotFound) then not_found m else fail err
  | Panic msg => panic msg
  | NoFuel => nofuel
  end.

Definition RecordAHandler (parent : option Handler) (resolve : DnsStorage) : Handler :=
  answer_with resolve DomainTypeA (Parent parent)
    (fun domain result => ret (RR_A (mkHdr domain TypeA ClassINET DefaultResponseTTL) (ParseIP result))).

Definition RecordAAAAHandler (parent : option Handler) (resolve : DnsStorage) : Handler :=
  answer_with resolve DomainTypeAAAA
    (fun m =>
       let* q := Question0 m in
       match resolve (Name q) DomainTypeA with
       | Ok _ => NotFound false m
       | Fail _ => Parent parent m
       | Panic msg => panic msg
       | NoFuel => nofuel
       end)
    (fun domain result =>
       ret (RR_AAAA (mkHdr domain TypeAAAA ClassINET DefaultResponseTTL) (ParseIP result))).

Definition RecordTxtHandler (parent : option Handler) (resolve : DnsStorage) : Handler :=
  answer_with resolve DomainTypeTxt (Parent parent)
    (fun domain result => ret (RR_TXT (mkHdr domain TypeTXT ClassINET DefaultResponseTTL) [result])).

Definition RecordPtrHandler (parent : option Handler) (resolve : DnsStorage) : Handler :=
  answer_with resolve DomainTypePtr (Parent parent)
    (fun domain result => ret (RR_PTR (mkHdr domain TypePTR ClassINET DefaultResponseTTL) result)).

Definition RecordSRVHandler (parent : option Handler) (resolve : DnsStorage) : Handler :=
  answer_with resolve DomainTypeSrv (Parent parent)
    (fun domain result =>
       let* d := lift (Unmarshal_srv result) in
       let '(priority, weight, port, target) := d in
       ret (RR_SRV (mkHdr domain TypeSRV ClassINET DefaultResponseTTL) priority weight port
              (Fqdn target))).

(** *** Upstream *)

Record UpstreamDns := mkUpstream {
  Servers : list string;
  Port : string;
  enclosureSuffixMap : gmap string (list string);
  enclosureDomainMap : gmap string (list string);
}.

(** [m[k] = append(m[k], v)]. *)
Definition append_at (k v : string) (m : gmap string (list string)) : gmap string (list string) :=
  <[k := default [] (m !! k) ++ [v]]> m.

(** A configured suffix is its type and its text. *)
Definition NewUpstreamDNSWithSingle (server : list string) (suffixes : list (string * string))
    : UpstreamDns :=
  mkUpstream server "53"
    (foldl (fun m v =>
       let suffix := if negb (HasPrefix v.2 ".") then "." +:+ v.2 else v.2 in
       append_at v.1 (Fqdn suffix) m) ∅ suffixes)
    (foldl (fun m v =>
       if negb (HasSuffix v.2 ".") then append_at v.1 (Fqdn v.2) m else m) ∅ suffixes).

Definition type_key (qtype : Z) : option string :=
  if qtype =? TypeA then Some "A"
  else if qtype =? TypeAAAA then Some "AAAA"
  else if qtype =? TypeSRV then Some "SRV"
  else if qtype =? TypeTXT then Some "TXT"
  else if qtype =? TypePTR then Some "PTR"
  else None.

(** The name ends in one of the listed suffixes. *)
Definition ends_in (m : gmap string (list string)) (key domain : string) : bool :=
  existsb (HasSuffix domain) (default [] (m !! key)).

Definition handleEnclosureDomains (u : UpstreamDns) (domain : string) (qtype : Z) (raw : Msg)
    : M S (option Msg) :=
  match type_key qtype with
  | None => ret None
  | Some key =>
      if ends_in (enclosureSuffixMap u) key domain then
        let* r := NotFound false raw in ret (Some r)
      else if ends_in (enclosureDomainMap u) key domain then
        let* r := NotFound false raw in ret (Some r)
      else ret None
  end.

(** [net.JoinHostPort]. *)
Definition JoinHostPort (host port : string) : string :=
  if existsb (Z.eqb 58) (codes host) then "[" +:+ host +:+ "]:" +:+ port
  else host +:+ ":" +:+ port.

Definition UpstreamHandle (u : UpstreamDns) : Handler := fun m =>
  let* q := Question0 m in
  let* res := handleEnclosureDomains u (ToLower (Name q)) (Qtype q) m in
  match res with
  | Some r => ret r
  | None =>
      match Servers u with
      | [] => panic "index out of range"
      | server :: _ => lift (Exchange m (JoinHostPort server (Port u)))
      end
  end.
End Handlers.

(** ** The cache *)

Record CacheEntry := mkEntryC { res : Msg; timeInSec : Z; ttl : Z }.

Definition MaxUint32 : Z := 2 ^ 32 - 1.

Section Endpoint.
Context `{!DnsLib, !DnsNames, !UnicodeData, !SrvJson}.

Notation Cache := (gmap string CacheEntry).

Definition checkHasValidTTL (m : Msg) : bool * Z :=
  let ttl := foldl (fun ttl an => if ttl >? Ttl (Header an) then Ttl (Header an) else ttl)
               MaxUint32 (Answer m) in
  let ttl := if ttl =? MaxUint32 then 0 else ttl in
  (ttl >? 0, ttl).

Definition cacheKey (m : Msg) : M Cache string :=
  let* q := Question0 m in
  ret (ToLower (Fqdn (Name q)) +:+ "::" +:+ pretty (Qtype q)).

(** [now] is [time.Now().Unix()]. *)
Definition CachePut (now : Z) (req r : Msg) : M Cache unit :=
  let '(hasTTL, ttl) := checkHasValidTTL r in
  if negb hasTTL then ret tt
  else
    let* key := cacheKey req in
    modify (fun c => <[key := mkEntryC r now ttl]> c).

Definition CacheGet (now : Z) (req : Msg) : M Cache (option Msg) :=
  let* key := cacheKey req in
  let* c := get in
  match c !! key with
  | None => ret None
  | Some r =>
      if now - timeInSec r >? ttl r then ret None else ret (Some (SetReply (res r) req))
  end.

(** One tick of the cleanup job. *)
Definition cleanup (now : Z) : M Cache unit :=
  modify (fun c => filter (fun kv => ~ (now - timeInSec kv.2 > ttl kv.2)) c).

(** ** The endpoint *)

Record DnsEndpoint := mkDns {
  Storage : DnsStorage;
  Upstream : option UpstreamDns;
}.

Definition NewDnsEndpoint (storage : DnsStorage) (upstreams : list string)
    (suffixes : list (string * string)) : DnsEndpoint :=
  mkDns storage
    (match upstreams with [] => None | _ => Some (NewUpstreamDNSWithSingle upstreams suffixes) end).

Definition HandlerMapping (d : DnsEndpoint) (qtype : Z) : option (Handler (S := Cache)) :=
  let parent := UpstreamHandle <$> Upstream d in
  if qtype =? TypeA then Some (RecordAHandler parent (Storage d))
  else if qtype =? TypeTXT then Some (RecordTxtHandler parent (Storage d))
  else if qtype =? TypeSRV then Some (RecordSRVHandler parent (Storage d))
  else if qtype =? TypePTR then Some (RecordPtrHandler parent (Storage d))
  else if qtype =? TypeAAAA then Some (RecordAAAAHandler parent (Storage d))
  else None.

(** A nil reply is [None]. *)
Definition ProcessDnsMsg (now : Z) (d : DnsEndpoint) (r : Msg) : M Cache (option Msg) :=
  if (Opcode r =? OpcodeQuery) && (1 <? length (Questions r))%nat
  then ret (Some (SetRcodeFormatError new_Msg r))
  else
    let* q := Question0 r in
    let* cached := CacheGet now r in
    match cached with
    | Some m => ret (Some m)
    | None =>
        match HandlerMapping d (Qtype q) with
        | None => let* m := NotFound false r in ret (Some m)
        | Some handler =>
            let* x := catch (handler r) in
            match x with
            | inl m => let* _ := CachePut now r m in ret (Some m)
            | inr err =>
                if decide (err = ErrDoNotRespondResult) then ret None
                else panic "dns request failed."
            end
        end
    end.

(** The server recovers from a panic and sends nothing. *)
Definition ServeDNS (now : Z) (d : DnsEndpoint) (r : Msg) : M Cache (option Msg) :=
  fun c =>
    match ProcessDnsMsg now d r c with
    | (Panic _, c') => (Ok None, c')
    | x => x
    end.
End Endpoint.

(** ** Specification *)

(** The record a stored value answers a question with. *)
Definition static_record `{!DnsNames, !SrvJson} (qtype : Z) (name result : string) : option RR :=
  if qtype =? TypeA then Some (RR_A (mkHdr name TypeA ClassINET DefaultResponseTTL) (ParseIP result))
  else if qtype =? TypeAAAA then
    Some (RR_AAAA (mkHdr name TypeAAAA ClassINET DefaultResponseTTL) (ParseIP result))
  else if qtype =? TypeTXT then Some (RR_TXT (mkHdr name TypeTXT ClassINET DefaultResponseTTL) [result])
  else if qtype =? TypePTR then Some (RR_PTR (mkHdr name TypePTR ClassINET DefaultResponseTTL) result)
  else if qtype =? TypeSRV then
    match Unmarshal_srv result with
    | Ok (p, w, port, t) =>
        Some (RR_SRV (mkHdr name TypeSRV ClassINET DefaultResponseTTL) p w port (Fqdn t))
    | _ => None
    end
  else None.

(** The storage's type for a question's. *)
Definition storage_type (qtype : Z) : Z :=
  if qtype =? TypeA then DomainTypeA
  else if qtype =? TypeAAAA then DomainTypeAAAA
  else if qtype =? TypeTXT then DomainTypeTxt
  else if qtype =? TypePTR then DomainTypePtr
  else DomainTypeSrv.

(** The configured suffixes that keep a name away from the upstream. *)
Definition encloses `{!DnsNames} (key domain : string) (v : string * string) : bool :=
  String.eqb v.1 key
  && (HasSuffix domain (Fqdn (if negb (HasPrefix v.2 ".") then "." +:+ v.2 else v.2))
      || (negb (HasSuffix v.2 ".") && HasSuffix domain (Fqdn v.2))).

(** ** Lemmas *)

Section Lemmas.
Context `{!DnsLib, !DnsNames, !UnicodeData, !SrvJson}.

Lemma ends_in_append k v m key d :
  ends_in (append_at k v m) key d = ends_in m key d || (String.eqb k key && HasSuffix d v).
Proof.
  unfold ends_in, append_at. destruct (String.eqb_spec k key) as [->|Hk].
  - rewrite lookup_insert_eq. cbn [default from_option id]. rewrite existsb_app. cbn.
    by rewrite orb_false_r.
  - rewrite lookup_insert_ne by done. by rewrite orb_false_r.
Qed.

Lemma ends_in_suffixes l m key d :
  ends_in (foldl (fun m v =>
    let suffix := if negb (HasPrefix v.2 ".") then "." +:+ v.2 else v.2 in
    append_at v.1 (Fqdn suffix) m) m l) key d
  = ends_in m key d
    || existsb (fun v : string * string => String.eqb v.1 key
         && HasSuffix d (Fqdn (if negb (HasPrefix v.2 ".") then "." +:+ v.2 else v.2))) l.
Proof.
  revert m. induction l as [|v l IH]; intros m; [by rewrite orb_false_r|].
  cbn [foldl existsb]. rewrite IH, ends_in_append. by rewrite orb_assoc.
Qed.

Lemma ends_in_domains l m key d :
  ends_in (foldl (fun m v => if negb (HasSuffix v.2 ".") then append_at v.1 (Fqdn v.2) m else m)
    m l) key d
  = ends_in m key d
    || existsb (fun v : string * string => String.eqb v.1 key
         && (negb (HasSuffix v.2 ".") && HasSuffix d (Fqdn v.2))) l.
Proof.
  revert m. induction l as [|v l IH]; intros m; [by rewrite orb_false_r|].
  cbn [foldl existsb]. rewrite IH. destruct (negb (HasSuffix v.2 ".")).
  - rewrite ends_in_append. by rewrite orb_assoc.
  - by rewrite andb_false_r.
Qed.

Lemma ends_in_empty key d : ends_in ∅ key d = false.
Proof. unfold ends_in. by rewrite lookup_empty. Qed.

Lemma existsb_orb {A} (f g : A -> bool) l :
  existsb f l || existsb g l = existsb (fun x => f x || g x) l.
Proof.
  induction l as [|x l IH]; [done|]. cbn. rewrite <-IH.
  destruct (f x), (g x), (existsb f l), (existsb g l); done.
Qed.

(** Which questions the configured suffixes keep. *)
Lemma enclosed_iff server suffixes key d :
  ends_in (enclosureSuffixMap (NewUpstreamDNSWithSingle server suffixes)) key d
    || ends_in (enclosureDomainMap (NewUpstreamDNSWithSingle server suffixes)) key d
  = existsb (encloses key d) suffixes.
Proof.
  cbn [enclosureSuffixMap enclosureDomainMap NewUpstreamDNSWithSingle].
  rewrite ends_in_suffixes, ends_in_domains, ends_in_empty. cbn [orb]. rewrite existsb_orb.
  induction suffixes as [|v l IH]; [done|]. cbn [existsb]. rewrite IH. f_equal.
  unfold encloses. by destruct (String.eqb v.1 key).
Qed.

(** The least TTL of the answers. *)
Lemma min_ttl_spec (l : list RR) acc :
  let t := foldl (fun ttl an => if ttl >? Ttl (Header an) then Ttl (Header an) else ttl) acc l in
  t <= acc /\ Forall (fun rr => t <= Ttl (Header rr)) l
  /\ (t = acc \/ Exists (fun rr => Ttl (Header rr) = t) l).
Proof.
  revert acc. induction l as [|rr l IH]; intros acc; cbn; [split_and!; [lia|constructor|by left]|].
  destruct (Z.gtb_spec acc (Ttl (Header rr))) as [Hgt|Hle].
  - destruct (IH (Ttl (Header rr))) as (Ht & Hf & He). split_and!; [lia|by constructor|].
    right. destruct He as [He|He]; [left; done|by right].
  - destruct (IH acc) as (Ht & Hf & He). split_and!; [lia|constructor; [lia|done]|].
    destruct He as [He|He]; [by left|right; by right].
Qed.

Lemma cacheKey_ok m q qs c :
  Questions m = q :: qs ->
  cacheKey m c = (Ok (ToLower (Fqdn (Name q)) +:+ "::" +:+ pretty (Qtype q)), c).
Proof. intros E. unfold cacheKey, Question0, bind. by rewrite E. Qed.
End Lemmas.

Section Static.
Context `{!DnsLib, !DnsNames, !UnicodeData, !SrvJson} `{!DnsLibLaws _}.

(** The reply made of one record. *)
Definition static_reply (r : Msg) (rr : RR) : Msg := with_answer [rr] (SetReply new_Msg r).

Lemma answer_with_found {S} (resolve : DnsStorage) dt nf rec r q qs result rr (s : S) :
  Questions r = q :: qs -> resolve (Name q) dt = Ok result -> rec (Name q) result s = (Ok rr, s) ->
  answer_with resolve dt nf rec r s = (Ok (static_reply r rr), s).
Proof.
  intros Hq Hres Hrec. unfold answer_with, Question0. rewrite Hq. unfold bind at 1, ret at 1.
  rewrite Hres. rewrite (bind_ok _ _ _ _ _ Hrec). unfold ret. by rewrite reply_answer.
Qed.

Lemma static_record_header qtype name result rr :
  static_record qtype name result = Some rr ->
  Ttl (Header rr) = DefaultResponseTTL /\ HdrName (Header rr) = name.
Proof. unfold static_record. intros E. repeat case_match; by simplify_eq. Qed.

Lemma handler_answers d r q result rr :
  Questions r = [q] -> Storage d (Name q) (storage_type (Qtype q)) = Ok result ->
  static_record (Qtype q) (Name q) result = Some rr ->
  exists h, HandlerMapping d (Qtype q) = Some h /\ forall s, h r s = (Ok (static_reply r rr), s).
Proof.
  intros Hq Hs Hrr. unfold HandlerMapping, static_record, storage_type in *.
  assert (Ht : Qtype q = TypeA \/ Qtype q = TypeAAAA \/ Qtype q = TypeTXT \/ Qtype q = TypePTR
               \/ Qtype q = TypeSRV).
  { destruct (Z.eqb_spec (Qtype q) TypeA), (Z.eqb_spec (Qtype q) TypeAAAA),
      (Z.eqb_spec (Qtype q) TypeTXT), (Z.eqb_spec (Qtype q) TypePTR),
      (Z.eqb_spec (Qtype q) TypeSRV); auto; done. }
  destruct Ht as [E|[E|[E|[E|E]]]]; rewrite E in *;
    cbn [Z.eqb Pos.eqb TypeA TypeAAAA TypeTXT TypePTR TypeSRV] in *;
    (eexists; split; [reflexivity|]; intros s;
     eapply answer_with_found; [exact Hq|exact Hs|]);
    try (unfold ret; congruence).
  unfold bind, lift. destruct (Unmarshal_srv result) as [[[[p w] port] t]| | |]; try done.
  unfold ret. congruence.
Qed.

(** A stored record that is not cached is answered and cached. *)
Lemma ServeDNS_static now d r q c result rr :
  Questions r = [q] -> c !! (ToLower (Fqdn (Name q)) +:+ "::" +:+ pretty (Qtype q)) = None ->
  Storage d (Name q) (storage_type (Qtype q)) = Ok result ->
  static_record (Qtype q) (Name q) result = Some rr ->
  ServeDNS now d r c
  = (Ok (Some (static_reply r rr)),
     <[ToLower (Fqdn (Name q)) +:+ "::" +:+ pretty (Qtype q)
         := mkEntryC (static_reply r rr) now DefaultResponseTTL]> c).
Proof.
  intros Hq Hc Hs Hrr. destruct (handler_answers d r q result rr Hq Hs Hrr) as (h & Hh & Hrun).
  assert (Hv : checkHasValidTTL (static_reply r rr) = (true, DefaultResponseTTL)).
  { unfold checkHasValidTTL. cbn [static_reply Answer with_answer foldl].
    by rewrite (proj1 (static_record_header _ _ _ _ Hrr)). }
  assert (Eg : CacheGet now r c = (Ok None, c)).
  { unfold CacheGet. rewrite (bind_ok _ _ _ _ _ (cacheKey_ok r q [] c Hq)).
    unfold bind, get. by rewrite Hc. }
  unfold ServeDNS, ProcessDnsMsg. rewrite Hq. cbn [length Nat.ltb Nat.leb]. rewrite andb_false_r.
  unfold Question0. rewrite Hq. unfold bind at 1, ret at 1.
  rewrite (bind_ok _ _ _ _ _ Eg), Hh, (bind_ok _ _ _ _ _ (catch_ok _ _ _ _ (Hrun c))).
  unfold CachePut. rewrite Hv. cbn [negb].
  unfold bind at 1. by rewrite (bind_ok _ _ _ _ _ (cacheKey_ok r q [] c Hq)).
Qed.
End Static.

(** ** Properties *)

(** C14. Static records are answered from the storage: for a single question of
    one of the five types that is not cached and that the storage resolves, the
    reply is a success with that question and exactly the one record of the
    stored value, whatever the upstream; it is cached for the record's TTL. *)
Theorem static_record_answered `{!DnsLib, !DnsNames, !UnicodeData, !SrvJson} `{!DnsLibLaws _}
    now d r q c result rr :
  Questions r = [q] -> c !! (ToLower (Fqdn (Name q)) +:+ "::" +:+ pretty (Qtype q)) = None ->
  Storage d (Name q) (storage_type (Qtype q)) = Ok result ->
  static_record (Qtype q) (Name q) result = Some rr ->
  exists m c', ServeDNS now d r c = (Ok (Some m), c')
    /\ Rcode m = RcodeSuccess /\ Questions m = [q] /\ Answer m = [rr]
    /\ Ttl (Header rr) = DefaultResponseTTL /\ HdrName (Header rr) = Name q
    /\ c' = <[ToLower (Fqdn (Name q)) +:+ "::" +:+ pretty (Qtype q)
               := mkEntryC m now DefaultResponseTTL]> c.
Proof.
  intros Hq Hc Hs Hrr. pose proof (ServeDNS_static now d r q c result rr Hq Hc Hs Hrr) as E.
  destruct (static_record_header _ _ _ _ Hrr) as [Ht1 Ht2].
  eexists _, _. split; [exact E|]. split_and!; try done.
  - apply reply_rcode.
  - by apply (reply_question _ _ q []).
Qed.

Module ToyDns.
#[export] Instance toy_dns : DnsLib := {|
  SetReply m r := mkMsg (Opcode r) RcodeSuccess (take 1 (Questions r)) (Answer m);
  SetRcode m r c := mkMsg (Opcode r) c (take 1 (Questions r)) (Answer m);
  SetRcodeFormatError m r := mkMsg OpcodeQuery RcodeFormatError (Questions m) (Answer m);
  Exchange m server :=
    Ok (mkMsg OpcodeQuery RcodeNameError (Questions m)
          [RR_other (mkHdr "alias.example." 5 ClassINET 60)]);
|}.
#[export] Instance toy_dns_laws : DnsLibLaws toy_dns.
Proof. split; try done. intros m r q qs E. cbn. by rewrite E. Qed.
#[export] Instance toy_srv : SrvJson := {| Unmarshal_srv s := Ok (1, 2, 80, s) |}.
End ToyDns.
Export ToyDns.

Definition lan : DnsEndpoint :=
  NewDnsEndpoint (fun name t => if bool_decide (name = "db.lan." /\ t = DomainTypeA)
                                then Ok "10.0.0.7" else Fail ErrStorageNotFound)
    ["192.0.2.1"] [("A", "lan")].
Definition ask (name : string) (qtype : Z) : Msg := mkMsg OpcodeQuery 0 [mkQuestion name qtype] [].

Lemma static_record_answered_witness :
  exists m c', ServeDNS 100 lan (ask "db.lan." TypeA) ∅ = (Ok (Some m), c')
    /\ Rcode m = RcodeSuccess
    /\ Answer m = [RR_A (mkHdr "db.lan." TypeA ClassINET 3600) (ParseIP "10.0.0.7")].
Proof.
  destruct (static_record_answered 100 lan (ask "db.lan." TypeA) (mkQuestion "db.lan." TypeA) ∅
    "10.0.0.7" (RR_A (mkHdr "db.lan." TypeA ClassINET 3600) (ParseIP "10.0.0.7")))
    as (m & c' & E & Hr & _ & Ha & _); [done|apply lookup_empty|reflexivity|reflexivity|].
  exists m, c'. exact (conj E (conj Hr Ha)).
Defined.

(** C20. The cache gives back what was put, for as long as the shortest TTL of the
    answers: a message with answers whose TTLs are neither zero nor the maximum
    is entered, and a later request for the same name (in any case) and type is
    answered from it - with those answers, whatever the storage and the upstream
    say by then, and always with the response code of success - until that TTL
    has passed; from then on it is not served, and a cleanup tick drops it. *)
Theorem cache_serves_until_ttl `{!DnsLib, !DnsNames, !UnicodeData, !SrvJson} `{!DnsLibLaws _}
    now now2 req req2 m q q2 c d :
  Questions req = [q] -> Questions req2 = [q2] ->
  ToLower (Fqdn (Name q2)) = ToLower (Fqdn (Name q)) -> Qtype q2 = Qtype q ->
  Answer m <> [] -> Forall (fun rr => 0 < Ttl (Header rr) < MaxUint32) (Answer m) ->
  exists t c', CachePut now req m c = (Ok tt, c')
    /\ Forall (fun rr => t <= Ttl (Header rr)) (Answer m)
    /\ Exists (fun rr => Ttl (Header rr) = t) (Answer m)
    /\ (now2 - now <= t ->
        exists m2, ServeDNS now2 d req2 c' = (Ok (Some m2), c')
          /\ Answer m2 = Answer m /\ Rcode m2 = RcodeSuccess /\ Questions m2 = [q2])
    /\ (t < now2 - now -> CacheGet now2 req2 c' = (Ok None, c')
        /\ (cleanup now2 c').2 !! (ToLower (Fqdn (Name q)) +:+ "::" +:+ pretty (Qtype q)) = None).
Proof.
  intros Hq Hq2 Hn Ht Hne Hall.
  set (t := foldl (fun ttl an => if ttl >? Ttl (Header an) then Ttl (Header an) else ttl)
              MaxUint32 (Answer m)).
  set (key := ToLower (Fqdn (Name q)) +:+ "::" +:+ pretty (Qtype q)).
  pose proof (min_ttl_spec (Answer m) MaxUint32) as (Hle & Hf & He). fold t in Hle, Hf, He.
  assert (Hex : Exists (fun rr => Ttl (Header rr) = t) (Answer m)).
  { destruct He as [He|He]; [|done]. destruct (Answer m) as [|rr l]; [done|].
    inversion Hall as [|? ? Hrr _]; inversion Hf as [|? ? Hrr2 _]; subst. lia. }
  assert (Hpos : 0 < t < MaxUint32).
  { apply Exists_exists in Hex as (rr & Hin & <-). rewrite Forall_forall in Hall. by apply Hall. }
  assert (Hv : checkHasValidTTL m = (true, t)).
  { unfold checkHasValidTTL. fold t. destruct (Z.eqb_spec t MaxUint32); [lia|].
    destruct (Z.gtb_spec t 0); [done|lia]. }
  assert (Hkey2 : forall c', cacheKey req2 c' = (Ok key, c')).
  { intros c'. rewrite (cacheKey_ok req2 q2 [] c' Hq2). subst key. by rewrite Hn, Ht. }
  exists t, (<[key := mkEntryC m now t]> c).
  assert (Hget : CacheGet now2 req2 (<[key := mkEntryC m now t]> c)
    = (Ok (if now2 - now >? t then None else Some (SetReply m req2)), <[key := mkEntryC m now t]> c)).
  { unfold CacheGet. rewrite (bind_ok _ _ _ _ _ (Hkey2 _)). unfold bind, get.
    rewrite lookup_insert_eq. cbn [timeInSec ttl res]. by destruct (_ >? _). }
  split_and!; [|done|done| |].
  - unfold CachePut. rewrite Hv. cbn [negb].
    by rewrite (bind_ok _ _ _ _ _ (cacheKey_ok req q [] c Hq)).
  - intros Hlt. exists (SetReply m req2).
    split; [|by rewrite reply_answer, reply_rcode, (reply_question _ _ q2 [])].
    destruct (Z.gtb_spec (now2 - now) t); [lia|].
    unfold ServeDNS, ProcessDnsMsg. rewrite Hq2. cbn [length Nat.ltb Nat.leb]. rewrite andb_false_r.
    unfold Question0. rewrite Hq2. unfold bind at 1, ret at 1.
    by rewrite (bind_ok _ _ _ _ _ Hget).
  - intros Hlt. rewrite Hget. destruct (Z.gtb_spec (now2 - now) t); [|lia]. split; [done|].
    cbn. apply map_lookup_filter_None. right. intros x Hx Hno.
    rewrite lookup_insert_eq in Hx. injection Hx as <-. cbn in Hno. lia.
Qed.

Lemma cache_serves_until_ttl_witness :
  let m := mkMsg OpcodeQuery RcodeNameError [mkQuestion "www.example." TypeA]
             [RR_other (mkHdr "www.example." 5 ClassINET 60)] in
  exists t c' m2, CachePut 100 (ask "www.example." TypeA) m ∅ = (Ok tt, c')
    /\ ServeDNS 130 lan (ask "WWW.example." TypeA) c' = (Ok (Some m2), c')
    /\ Rcode m2 = RcodeSuccess /\ t = 60.
Proof.
  destruct (cache_serves_until_ttl 100 130 (ask "www.example." TypeA) (ask "WWW.example." TypeA)
    (mkMsg OpcodeQuery RcodeNameError [mkQuestion "www.example." TypeA]
             [RR_other (mkHdr "www.example." 5 ClassINET 60)])
    (mkQuestion "www.example." TypeA) (mkQuestion "WWW.example." TypeA) ∅ lan)
    as (t & c' & E & _ & He & H & _); [done|done|reflexivity|done|done|repeat constructor; done|].
  assert (Et : t = 60) by (apply Exists_cons in He as [<-|He]; [done|by apply Exists_nil in He]).
  destruct H as (m2 & E2 & _ & Hr & _); [lia|].
  exists t, c', m2. exact (conj E (conj E2 (conj Hr Et))).
Defined.

(** C34. Which questions leave the node: an A, AAAA, SRV, TXT or PTR question that
    no storage answered is answered "not found" here exactly when some
    configured suffix of its type encloses the lower-cased name - the name ends
    in the dotted suffix, or ends in the text of the suffix itself when that has
    no final dot - and is sent to the first upstream server otherwise.  The
    second test needs no label boundary, so "lan" encloses "vlan." too. *)
Theorem enclosure_decides `{!DnsLib, !DnsNames, !UnicodeData, !SrvJson} {S}
    server rest suffixes m q qs key (s : S) :
  Questions m = q :: qs -> type_key (Qtype q) = Some key ->
  UpstreamHandle (NewUpstreamDNSWithSingle (server :: rest) suffixes) m s
  = if existsb (encloses key (ToLower (Name q))) suffixes then NotFound false m s
    else (Exchange m (JoinHostPort server "53"), s).
Proof.
  intros Hq Hk. unfold UpstreamHandle, Question0. rewrite Hq. unfold bind at 1, ret at 1.
  unfold handleEnclosureDomains. rewrite Hk, <-(enclosed_iff (server :: rest)).
  assert (Hn : forall s : S, exists r, NotFound false m s = (Ok r, s)).
  { intros s0. unfold NotFound, Question0. rewrite Hq. by eexists. }
  destruct (Hn s) as [r Hr].
  destruct (ends_in (enclosureSuffixMap _) key _); cbn [orb];
    [|destruct (ends_in (enclosureDomainMap _) key _)]; [| |done].
  - unfold bind at 1. rewrite (bind_ok _ _ _ _ _ Hr). by rewrite Hr.
  - unfold bind at 1. rewrite (bind_ok _ _ _ _ _ Hr). by rewrite Hr.
Qed.

(** The look-alike of the comment, and a name that does go upstream. *)
Lemma enclosure_decides_witness :
  (UpstreamHandle (NewUpstreamDNSWithSingle ["192.0.2.1"] [("A", "lan")]) (ask "vlan." TypeA) tt).1
    = Ok (SetRcode new_Msg (ask "vlan." TypeA) RcodeNameError)
  /\ UpstreamHandle (NewUpstreamDNSWithSingle ["192.0.2.1"] [("A", "lan")])
      (ask "www.example." TypeA) tt
    = (Exchange (ask "www.example." TypeA) "192.0.2.1:53", tt).
Proof.
  split.
  - rewrite (enclosure_decides "192.0.2.1" [] [("A", "lan")] (ask "vlan." TypeA)
      (mkQuestion "vlan." TypeA) [] "A" tt); [reflexivity|done|done].
  - rewrite (enclosure_decides "192.0.2.1" [] [("A", "lan")] (ask "www.example." TypeA)
      (mkQuestion "www.example." TypeA) [] "A" tt); [reflexivity|done|done].
Defined.

(** The sample configuration keeps 10.0.0.0/8 from the upstream; the names of
    110.0.0.0/8 (and 210.0.0.0/8) are kept with it. *)
Example enclosure_neighbour :
  existsb (encloses "PTR" "8.8.8.110.in-addr.arpa.") [("PTR", "10.in-addr.arpa")] = true
  /\ existsb (encloses "PTR" "8.8.8.11.in-addr.arpa.") [("PTR", "10.in-addr.arpa")] = false.
Proof. split; vm_compute; reflexivity. Qed.
