(* ===== verification/JsonPayload.v ===== *)
(** * encoding/json at the types of the program

    The encoder and the decoder of encoding/json at each type the source gives
    them - the services of a node and the pending changes ([storage.mem.go]),
    the payloads of the cluster endpoints ([core.ha.peertalk.go]), the list of
    a query ([endpoint.http.go]) and the SRV data ([handlers.srv.go]) - as
    instances of the interfaces the components are proved against. *)

From stdpp Require Import base list gmap strings sorting.
From Stdlib Require Import ZArith Lia Ascii.
From S2P Require Import Prelude GoStr Bytes Base64 JsonText MemStore Ha HttpEndpoint NetIP Dns.
Local Open Scope Z_scope.
Local Open Scope go_scope.

(** ** Decoders

    A decoder stores a value into a variable, given with what it holds.  A
    value of another kind is an error; [null] sets a map, pointer or slice to
    nil and leaves anything else as it is. *)

Definition decoder (A : Type) : Type := jvalue -> A -> exec A.

Definition mismatch {A} : exec A := Fail (ExtError "json: cannot unmarshal").

Definition dec_string : decoder string := fun v s =>
  match v with JStr s' => Ok s' | JNull => Ok s | _ => mismatch end.

(** [strconv.ParseUint] and the check of the width. *)
Definition digits_value (lit : list Z) : Z := foldl (fun n c => n * 10 + (c - 48)) 0 lit.

Definition dec_uint (w : Z) : decoder Z := fun v n =>
  match v with
  | JNum lit =>
      if forallb is_digit lit && (digits_value lit <? 2 ^ w) then Ok (digits_value lit) else mismatch
  | JNull => Ok n
  | _ => mismatch
  end.

(** [foldName], on the runes that matter to an ASCII name. *)
Definition fold_rune (r : Z) : Z :=
  if between 97 122 r then r - 32
  else if r =? 0x17f then 83
  else if r =? 0x212a then 75
  else r.

Definition fold_name (s : string) : list Z := fold_rune <$> runes s.

(** The field of a name: the exact one, else the first equal under folding. *)
Fixpoint find_field {A} (same : string -> bool) (fs : list (string * decoder A)) : option (decoder A) :=
  match fs with
  | [] => None
  | (n, d) :: fs => if same n then Some d else find_field same fs
  end.

Definition field_of {A} (fs : list (string * decoder A)) (k : string) : option (decoder A) :=
  match find_field (String.eqb k) fs with
  | Some d => Some d
  | None => find_field (fun n => bool_decide (fold_name k = fold_name n)) fs
  end.

(** The members are stored in order; an unknown one is skipped. *)
Definition dec_struct {A} (fs : list (string * decoder A)) : decoder A := fun v a =>
  match v with
  | JObj ms =>
      foldM (fun a kv => match field_of fs kv.1 with Some d => d kv.2 a | None => Ok a end) a ms
  | JNull => Ok a
  | _ => mismatch
  end.

(** An entry is decoded into a fresh zero value; a nil map is made first. *)
Definition dec_map {V} (zero : V) (dec : decoder V) : decoder (option (gmap string V)) := fun v m =>
  match v with
  | JObj ms =>
      let! m := foldM (fun m kv => let! x := dec kv.2 zero in Ok (<[kv.1 := x]> m)) (default ∅ m) ms in
      Ok (Some m)
  | JNull => Ok None
  | _ => mismatch
  end.

Definition dec_ptr {V} (zero : V) (dec : decoder V) : decoder (option V) := fun v p =>
  match v with
  | JNull => Ok None
  | _ => let! x := dec v (default zero p) in Ok (Some x)
  end.

(** Elements decoded into fresh zero values. *)
Definition dec_elems {V} (zero : V) (dec : decoder V) (vs : list jvalue) : exec (list V) :=
  foldM (fun l v => let! x := dec v zero in Ok (l ++ [x])) [] vs.

(** A [[]byte] is a base64 string, or an array of small numbers. *)
Definition dec_bytes : decoder (list byte) := fun v _ =>
  match v with
  | JStr s => StdDecode s
  | JArr vs => let! l := dec_elems 0 (dec_uint 8) vs in Ok (byte_of_Z <$> l)
  | JNull => Ok []
  | _ => mismatch
  end.

(** ** Encoders *)

Definition entry_le {V} (x y : string * V) : Prop := str_le x.1 y.1.

#[export] Instance entry_le_dec {V} (x y : string * V) : Decision (entry_le x y).
Proof. unfold entry_le. apply _. Defined.

(** The entries of a map in the order of their keys. *)
Definition key_sorted {V} (m : gmap string V) : list (string * V) :=
  merge_sort entry_le (map_to_list m).

Definition map_json {V} (f : V -> jvalue) (m : gmap string V) : jvalue :=
  JObj (map (fun kv => (kv.1, f kv.2)) (key_sorted m)).

Definition option_json {V} (f : V -> jvalue) (o : option V) : jvalue :=
  match o with Some x => f x | None => JNull end.

(** ** The types of the store *)

Definition addr_json (a : string) : jvalue := JObj [("Addr", JStr a)].
Definition addr_dec : decoder string := dec_struct [("Addr", dec_string)].

Definition node_json (n : memNodeData) : jvalue :=
  JObj [("ServiceMapping", option_json (map_json (option_json (map_json addr_json))) (ServiceMapping n))].

Definition node_dec : decoder memNodeData :=
  dec_struct [("ServiceMapping", fun v n =>
    let! m := dec_map None (dec_map EmptyString addr_dec) v (ServiceMapping n) in Ok (mkNode m))].

Definition transfer_json (t : dataTransferNodeData) : jvalue :=
  JObj [("ServiceName", JStr (ServiceName t)); ("NodeName", JStr (NodeName t)); ("Info", addr_json (Info t))].

Definition zero_transfer : dataTransferNodeData := mkTransfer EmptyString EmptyString EmptyString.

Definition transfer_dec : decoder dataTransferNodeData :=
  dec_struct
    [("ServiceName", fun v t =>
        let! s := dec_string v (ServiceName t) in Ok (mkTransfer s (NodeName t) (Info t)));
     ("NodeName", fun v t =>
        let! s := dec_string v (NodeName t) in Ok (mkTransfer (ServiceName t) s (Info t)));
     ("Info", fun v t =>
        let! s := addr_dec v (Info t) in Ok (mkTransfer (ServiceName t) (NodeName t) s))].

(** An empty list of changes is nil or not, which the store's state does not
    say: [nil] decides, and every theorem holds for both. *)
Definition list_json (nil : bool) (l : list dataTransferNodeData) : jvalue :=
  match l with
  | [] => if nil then JNull else JArr []
  | _ => JArr (map transfer_json l)
  end.

Definition list_dec (v : jvalue) : exec (list (option dataTransferNodeData)) :=
  match v with
  | JArr vs => dec_elems None (dec_ptr zero_transfer transfer_dec) vs
  | JNull => Ok []
  | _ => mismatch
  end.

Definition go_json (nil : bool) : Json := {|
  Marshal_node n := Ok (Marshal (node_json n));
  memNodeDataUnmarshall bs := let! v := Parse bs in node_dec v (mkNode None);
  Marshal_list l := Ok (Marshal (list_json nil l));
  dataTransferNodeDataList bs := let! v := Parse bs in list_dec v;
|}.

(** ** The types of the cluster endpoints *)

Definition bytes_json (bs : list byte) : jvalue := JStr (StdEncode bs).
Definition payload_json (d : payload) : jvalue := map_json bytes_json d.
Definition payload_dec : decoder (option payload) := dec_map [] dec_bytes.

Definition changes_json (a d : payload) : jvalue := JObj [("add", payload_json a); ("del", payload_json d)].
Definition changes_dec : decoder (option payload * option payload) :=
  dec_struct
    [("add", fun v p => let! a := payload_dec v p.1 in Ok (a, p.2));
     ("del", fun v p => let! d := payload_dec v p.2 in Ok (p.1, d))].

(** The full data is decoded into a map that was made. *)
Definition go_ha_json : HaJson := {|
  Marshal_data d := Ok (Marshal (payload_json d));
  Unmarshal_data bs := let! v := Parse bs in payload_dec v (Some ∅);
  Marshal_changes a d := Ok (Marshal (changes_json a d));
  Unmarshal_changes bs := let! v := Parse bs in changes_dec v (None, None);
|}.

(** ** The answer of a query, and SRV data *)

Definition item_json (i : ServiceItem) : jvalue :=
  JObj [("address", JStr (Addr i)); ("node_id", JStr (NodeId i))].

Definition go_items : ItemsJson := {|
  Marshal_items l := Ok (Marshal (JArr (map item_json l)));
|}.

Definition srv_dec : decoder (Z * Z * Z * string) :=
  dec_struct
    [("priority", fun v '(p, w, o, t) => let! p := dec_uint 16 v p in Ok (p, w, o, t));
     ("weight", fun v '(p, w, o, t) => let! w := dec_uint 16 v w in Ok (p, w, o, t));
     ("port", fun v '(p, w, o, t) => let! o := dec_uint 16 v o in Ok (p, w, o, t));
     ("target", fun v '(p, w, o, t) => let! t := dec_string v t in Ok (p, w, o, t))].

Definition go_srv : SrvJson := {|
  Unmarshal_srv s := let! v := Parse (bytes_of s) in srv_dec v (0, 0, 0, EmptyString);
|}.

(** ** Maps *)

Lemma foldl_insert {V} (l : list (string * V)) m :
  NoDup l.*1 -> l ≡ₚ map_to_list m -> foldl (fun m kv => <[kv.1 := kv.2]> m) ∅ l = m.
Proof.
  intros Hnd Hl. transitivity (list_to_map (M := gmap string V) (rev l)).
  { clear. induction l as [|[k x] l IH] using rev_ind; [done|].
    rewrite foldl_snoc, rev_unit. cbn. by rewrite IH. }
  rewrite <-(list_to_map_to_list m). apply list_to_map_proper.
  - by rewrite <-Permutation_rev.
  - by rewrite <-Permutation_rev.
Qed.

Lemma key_sorted_perm {V} (m : gmap string V) : key_sorted m ≡ₚ map_to_list m.
Proof. apply merge_sort_Permutation. Qed.

Lemma foldM_entries {V} (zero : V) (dec : decoder V) (f : V -> jvalue) l (m0 : gmap string V) :
  Forall (fun kv => utf8 kv.1 /\ dec (clean (f kv.2)) zero = Ok kv.2) l ->
  foldM (fun m kv => let! x := dec kv.2 zero in Ok (<[kv.1 := x]> m)) m0
    (map (fun kv => (to_utf8 kv.1, clean kv.2)) (map (fun kv => (kv.1, f kv.2)) l))
  = Ok (foldl (fun m kv => <[kv.1 := kv.2]> m) m0 l).
Proof.
  intros Hl. revert m0. induction Hl as [|[k x] l [Hk Hx] _ IH]; intros m0; [done|].
  cbn [map foldM foldl fst snd] in *. rewrite Hx. cbn [ebind]. rewrite IH. unfold to_utf8. by rewrite Hk.
Qed.

(** A map read back, entry by entry. *)
Lemma dec_map_json {V} (zero : V) (dec : decoder V) (f : V -> jvalue) (m : gmap string V) prev :
  map_Forall (fun k x => utf8 k /\ dec (clean (f x)) zero = Ok x) m -> default ∅ prev = ∅ ->
  dec_map zero dec (clean (map_json f m)) prev = Ok (Some m).
Proof.
  intros Hm Hp. unfold dec_map, map_json. cbn [clean]. rewrite Hp, foldM_entries.
  - cbn [ebind]. rewrite foldl_insert with (m := m); [done| |apply key_sorted_perm].
    rewrite key_sorted_perm. apply NoDup_fst_map_to_list.
  - rewrite key_sorted_perm. apply Forall_forall. intros [k x] Hk%elem_of_map_to_list. by apply Hm.
Qed.

(** The texts of maps: no numbers, one level more than their entries. *)
Lemma plain_map {V} (f : V -> jvalue) m :
  map_Forall (fun _ x => plain (f x) = true) m -> plain (map_json f m) = true.
Proof.
  intros Hm. unfold map_json. cbn [plain]. apply forallb_forall. intros kv Hkv.
  apply in_map_iff in Hkv as ([k x] & <- & Hx). cbn [snd]. apply list_elem_of_In in Hx.
  rewrite key_sorted_perm in Hx. apply elem_of_map_to_list in Hx. by apply (Hm k).
Qed.

Lemma list_max_bound l n : Forall (fun k => (k <= n)%nat) l -> (list_max l <= n)%nat.
Proof. unfold list_max. induction 1 as [|k l Hk _ IH]; cbn [foldr]; [lia|]. by apply Nat.max_lub. Qed.

Lemma depth_map {V} (f : V -> jvalue) m n :
  map_Forall (fun _ x => (depth (f x) <= n)%nat) m -> (depth (map_json f m) <= S n)%nat.
Proof.
  intros Hm. unfold map_json. cbn [depth]. apply le_n_S, list_max_bound. apply Forall_forall.
  intros d Hd. apply list_elem_of_In in Hd. apply in_map_iff in Hd as (kv & <- & Hkv).
  apply in_map_iff in Hkv as ([k x] & <- & Hx). cbn [snd]. apply list_elem_of_In in Hx.
  rewrite key_sorted_perm in Hx. apply elem_of_map_to_list in Hx. by apply (Hm k).
Qed.

(** One member of a struct. *)
Lemma dec_member {A} (fs : list (string * decoder A)) k v ms a d :
  to_utf8 k = k -> find_field (String.eqb k) fs = Some d ->
  dec_struct fs (clean (JObj ((k, v) :: ms))) a
  = let! a := d (clean v) a in dec_struct fs (clean (JObj ms)) a.
Proof.
  intros Hk Hd. cbn [clean map dec_struct foldM fst snd]. rewrite Hk. unfold field_of. by rewrite Hd.
Qed.

Lemma read_str s x : dec_string (clean (JStr s)) x = Ok (to_utf8 s).
Proof. done. Qed.

Ltac read_member := (erewrite dec_member; [|vm_compute; reflexivity|reflexivity]); cbv beta.

(** ** The types of the store *)

Lemma addr_read a s0 : utf8 a -> addr_dec (clean (addr_json a)) s0 = Ok a.
Proof. intros Ha. unfold addr_dec, addr_json. read_member. cbn [clean dec_string]. unfold to_utf8. by rewrite Ha. Qed.

Lemma node_read m : wf m -> node_dec (clean (node_json (node_of m))) (mkNode None) = Ok (node_of m).
Proof.
  intros Hm. unfold node_dec, node_json. read_member. cbn [option_json ServiceMapping node_of].
  rewrite dec_map_json; [done| |done].
  intros s o Ho. apply lookup_fmap_Some in Ho as (p & <- & Hp). destruct (Hm s p Hp) as (Hs & _ & Hn).
  split; [done|]. cbn [option_json]. apply dec_map_json; [|done].
  intros n a Ha. destruct (Hn n a Ha). split; [done|]. by apply addr_read.
Qed.

Lemma node_plain n : plain (node_json n) = true /\ (depth (node_json n) <= 4)%nat.
Proof.
  unfold node_json. split.
  - cbn [plain forallb snd]. rewrite andb_true_r. destruct (ServiceMapping n) as [m|]; [|done].
    apply plain_map. intros s [p|] _; [|done]. by apply plain_map.
  - cbn [depth map list_max foldr snd]. apply le_n_S. rewrite Nat.max_0_r.
    destruct (ServiceMapping n) as [m|]; cbn [option_json]; [|cbn; lia].
    apply depth_map. intros s [p|] _; cbn [option_json]; [|cbn; lia].
    apply depth_map. intros ???. cbn. lia.
Qed.

Lemma transfer_read t t0 : transfer_ok t -> transfer_dec (clean (transfer_json t)) t0 = Ok t.
Proof.
  destruct t as [s n a]. intros (Hs & Hn & Ha). cbn [ServiceName NodeName Info] in *.
  unfold transfer_dec, transfer_json. do 2 (read_member; rewrite read_str; cbn [ebind ServiceName NodeName Info]).
  read_member. rewrite addr_read by done. cbn [ebind ServiceName NodeName]. unfold to_utf8. by rewrite Hs, Hn.
Qed.

Lemma dec_elems_read {V W} (zero : V) (dec : decoder V) (f : W -> jvalue) (g : W -> V) l :
  Forall (fun x => dec (clean (f x)) zero = Ok (g x)) l ->
  dec_elems zero dec (map clean (map f l)) = Ok (g <$> l).
Proof.
  intros Hl. unfold dec_elems.
  assert (Hacc : forall acc, foldM (fun l v => let! x := dec v zero in Ok (l ++ [x])) acc (map clean (map f l))
    = Ok (acc ++ (g <$> l))); [|apply Hacc].
  induction Hl as [|x l Hx _ IH]; intros acc; cbn [map foldM fmap list_fmap]; [by rewrite app_nil_r|].
  rewrite Hx. cbn [ebind]. rewrite IH. by rewrite <-app_assoc.
Qed.

Lemma list_read b l : Forall transfer_ok l -> list_dec (clean (list_json b l)) = Ok (Some <$> l).
Proof.
  intros Hl. destruct l as [|t l]; [by destruct b|]. unfold list_json, list_dec. cbn [clean].
  apply dec_elems_read. eapply Forall_impl; [exact Hl|]. intros x Hx.
  change (dec_ptr zero_transfer transfer_dec (clean (transfer_json x)) None)
    with (let! y := transfer_dec (clean (transfer_json x)) zero_transfer in Ok (Some y)).
  by rewrite transfer_read.
Qed.

Lemma list_plain b l : plain (list_json b l) = true /\ (depth (list_json b l) <= 3)%nat.
Proof.
  destruct l as [|t l]; [destruct b; cbn; split; [done|lia|done|lia]|]. split.
  - unfold list_json. cbn [plain]. apply forallb_forall. intros v Hv.
    apply in_map_iff in Hv as (x & <- & _). done.
  - unfold list_json. cbn [depth]. apply le_n_S, list_max_bound. rewrite map_map.
    apply Forall_forall. intros d Hd. apply list_elem_of_In, in_map_iff in Hd as (x & <- & _). cbn. lia.
Qed.

Lemma read_bound v n : plain v = true /\ (depth v <= n)%nat -> (n <= 100)%nat -> Parse (Marshal v) = Ok (clean v).
Proof.
  intros [Hp Hd] Hn. apply Parse_Marshal; [done|]. unfold maxNestingDepth. lia.
Qed.

(** What a peer sends is what its peer installs, whichever way an empty list
    of changes is spelt. *)
Lemma go_json_laws b : JsonLaws (go_json b).
Proof.
  split.
  - intros m Hm. eexists. split; [reflexivity|]. cbn [memNodeDataUnmarshall go_json].
    rewrite (read_bound _ 4) by (apply node_plain || lia). by apply node_read.
  - intros l Hl. eexists. split; [reflexivity|]. cbn [dataTransferNodeDataList go_json].
    rewrite (read_bound _ 3) by (apply list_plain || lia). by apply list_read.
Qed.

(** ** The types of the cluster endpoints *)

Lemma StdEncode_utf8 bs : utf8 (StdEncode bs).
Proof.
  apply runes_str_ascii. unfold StdEncode. pose proof (StdCodes_printable bs) as Hp.
  induction Hp as [|c cs Hc _ IH]; [done|]. cbn [bytes_str is_ascii]. rewrite Z_of_ascii_small by lia.
  rewrite IH. lia.
Qed.

Lemma bytes_read bs x : dec_bytes (clean (bytes_json bs)) x = Ok bs.
Proof.
  unfold bytes_json. cbn [clean dec_bytes]. unfold to_utf8. rewrite StdEncode_utf8. apply StdDecode_encode.
Qed.

(** Payloads with well-formed keys survive. *)
Lemma payload_read d prev :
  map_Forall (fun k _ => utf8 k) d -> default ∅ prev = ∅ ->
  payload_dec (clean (payload_json d)) prev = Ok (Some d).
Proof.
  intros Hd Hp. apply dec_map_json; [|done]. intros k x Hk. split; [by eapply Hd|apply bytes_read].
Qed.

Lemma payload_plain d : plain (payload_json d) = true /\ (depth (payload_json d) <= 1)%nat.
Proof. split; [by apply plain_map|]. apply depth_map. intros ???. cbn. lia. Qed.

Lemma changes_plain a d : plain (changes_json a d) = true /\ (depth (changes_json a d) <= 2)%nat.
Proof.
  destruct (payload_plain a) as [Ha Ha'], (payload_plain d) as [Hd Hd']. unfold changes_json. split.
  - cbn [plain forallb snd]. by rewrite Ha, Hd.
  - cbn [depth map list_max foldr snd]. lia.
Qed.

Lemma changes_read a d :
  map_Forall (fun k _ => utf8 k) a -> map_Forall (fun k _ => utf8 k) d ->
  changes_dec (clean (changes_json a d)) (None, None) = Ok (Some a, Some d).
Proof.
  intros Ha Hd. unfold changes_dec, changes_json. read_member. cbn [fst].
  rewrite payload_read by done. cbn [ebind]. read_member. cbn [fst snd].
  rewrite payload_read by done. done.
Qed.

Lemma default_key_utf8 (d : list byte) : map_Forall (fun k _ => utf8 k) ({[DefaultDataKey := d]} : payload).
Proof. by apply map_Forall_singleton. Qed.

Lemma go_ha_laws : HaJsonLaws go_ha_json.
Proof.
  split.
  - intros d. eexists. split; [reflexivity|]. cbn [Unmarshal_data go_ha_json].
    rewrite (read_bound _ 1) by (apply payload_plain || lia). apply payload_read; [apply default_key_utf8|done].
  - intros a d. eexists. split; [reflexivity|]. cbn [Unmarshal_changes go_ha_json].
    rewrite (read_bound _ 2) by (apply changes_plain || lia). apply changes_read; apply default_key_utf8.
Qed.

(** ** What the decoder can produce *)

(** The call ends without panicking, and a value it returns is in [P]. *)
Definition good {A} (P : A -> Prop) (x : exec A) : Prop :=
  match x with Ok a => P a | Fail _ => True | _ => False end.

Lemma good_ebind {A B} (P : A -> Prop) (Q : B -> Prop) (m : exec A) (k : A -> exec B) :
  good P m -> (forall a, P a -> good Q (k a)) -> good Q (ebind m k).
Proof. intros Hm Hk. destruct m; cbn in *; auto. Qed.

Lemma good_foldM {A B} (P : A -> Prop) (Q : B -> Prop) (f : A -> B -> exec A) a l :
  P a -> Forall Q l -> (forall a b, P a -> Q b -> good P (f a b)) -> good P (foldM f a l).
Proof.
  intros Ha Hl Hf. revert a Ha. induction Hl as [|b l Hb _ IH]; intros a Ha; cbn [foldM]; [done|].
  apply (good_ebind P); auto.
Qed.

(** Every string of a parsed value is well-formed UTF-8. *)
Fixpoint texts (v : jvalue) : Prop :=
  match v with
  | JStr s => utf8 s
  | JArr vs => foldr (fun v P => texts v /\ P) True vs
  | JObj ms => foldr (fun kv P => utf8 kv.1 /\ texts kv.2 /\ P) True ms
  | _ => True
  end.

Lemma texts_arr vs : texts (JArr vs) <-> Forall texts vs.
Proof. induction vs as [|v vs IH]; cbn; [done|]. rewrite Forall_cons. cbn in IH. by rewrite IH. Qed.

Lemma texts_obj ms : texts (JObj ms) <-> Forall (fun kv => utf8 kv.1 /\ texts kv.2) ms.
Proof.
  induction ms as [|kv ms IH]; cbn; [done|]. rewrite Forall_cons. cbn in IH. rewrite IH. tauto.
Qed.

Lemma runes_str_valid rs : exists rs', Forall (fun r => valid_rune r = true) rs' /\ runes_str rs = runes_str rs'.
Proof.
  exists ((fun r => if valid_rune r then r else RuneError) <$> rs). split.
  - apply Forall_fmap, Forall_forall. intros r _. cbn. by destruct (valid_rune r) eqn:E.
  - induction rs as [|r rs IH]; [done|]. cbn [fmap list_fmap runes_str]. rewrite IH. f_equal. f_equal.
    unfold rune_bytes. destruct (valid_rune r) eqn:E; [by rewrite E|done].
Qed.

Lemma runes_str_utf8 rs : utf8 (runes_str rs).
Proof. destruct (runes_str_valid rs) as (rs' & Hv & ->). unfold utf8. by rewrite runes_runes_str. Qed.

Lemma parse_texts fuel : forall d rs,
  (forall p, parse_value fuel d rs = Ok p -> texts p.1)
  /\ (forall p, parse_elements fuel d rs = Ok p -> Forall texts p.1)
  /\ (forall p, parse_members fuel d rs = Ok p -> Forall (fun kv => utf8 kv.1 /\ texts kv.2) p.1).
Proof.
  induction fuel as [|fuel IH]; intros d rs; [done|]. split_and!; intros p.
  - cbn [parse_value]. destruct (skip_ws rs) as [|c rs']; [done|].
    destruct (c =? 34).
    { destruct (str_lit rs') as [[q r]|]; [|done]. intros [= <-]. apply runes_str_utf8. }
    destruct (c =? 91).
    { destruct (_ =? _)%nat; [done|]. destruct (skip_ws rs') as [|c2 rs2]; [done|].
      destruct (c2 =? 93); [by intros [= <-]|]. destruct (parse_elements _ _ _) as [q| | |] eqn:E; [|done..].
      intros [= <-]. apply texts_arr. by eapply IH. }
    destruct (c =? 123).
    { destruct (_ =? _)%nat; [done|]. destruct (skip_ws rs') as [|c2 rs2]; [done|].
      destruct (c2 =? 125); [by intros [= <-]|]. destruct (parse_members _ _ _) as [q| | |] eqn:E; [|done..].
      intros [= <-]. apply texts_obj. by eapply IH. }
    unfold keyword.
    repeat match goal with |- (if ?c then _ else _) = _ -> _ => destruct c end;
      try (destruct (after _ _); [by intros [= <-]|done]).
    destruct (number _) as [[lit r]|]; [by intros [= <-]|done].
  - cbn [parse_elements]. destruct (parse_value _ _ _) as [q| | |] eqn:E; [|done..]. cbn [ebind].
    assert (Hq : texts q.1) by by eapply IH.
    destruct (skip_ws q.2) as [|c rs2]; [done|]. destruct (c =? 44).
    + destruct (parse_elements _ _ _) as [q2| | |] eqn:E2; [|done..]. intros [= <-].
      constructor; [done|]. by eapply IH.
    + destruct (c =? 93); [|done]. intros [= <-]. by repeat constructor.
  - cbn [parse_members]. destruct (skip_ws rs) as [|c rs1]; [done|]. destruct (negb _); [done|].
    destruct (str_lit rs1) as [[k rs2]|]; [|done]. destruct (skip_ws rs2) as [|c3 rs3]; [done|].
    destruct (negb _); [done|]. destruct (parse_value _ _ _) as [q| | |] eqn:E; [|done..]. cbn [ebind].
    assert (Hq : texts q.1) by by eapply IH. pose proof (runes_str_utf8 k) as Hk.
    destruct (skip_ws q.2) as [|c5 rs5]; [done|]. destruct (c5 =? 44).
    + destruct (parse_members _ _ _) as [q2| | |] eqn:E2; [|done..]. intros [= <-].
      constructor; [done|]. by eapply IH.
    + destruct (c5 =? 125); [|done]. intros [= <-]. by repeat constructor.
Qed.

(** The parser does not panic either. *)
Lemma parse_no_panic fuel : forall d rs msg,
  parse_value fuel d rs <> Panic msg /\ parse_elements fuel d rs <> Panic msg
  /\ parse_members fuel d rs <> Panic msg.
Proof.
  induction fuel as [|fuel IH]; intros d rs msg; [done|].
  assert (IV : forall d rs, parse_value fuel d rs <> Panic msg) by (intros; apply IH).
  assert (IE : forall d rs, parse_elements fuel d rs <> Panic msg) by (intros; apply IH).
  assert (IM : forall d rs, parse_members fuel d rs <> Panic msg) by (intros; apply IH). clear IH.
  split_and!; cbn [parse_value parse_elements parse_members]; unfold keyword, ebind, syntax;
    repeat case_match; try done; naive_solver.
Qed.

Lemma good_Parse bs : good texts (Parse bs).
Proof.
  unfold Parse. set (rs := runes (string_of bs)). set (fuel := (2 * length rs + 2)%nat).
  destruct (parse_ends fuel 0 rs) as [He _]. specialize (He ltac:(lia)).
  destruct (parse_texts fuel 0 rs) as [Ht _].
  destruct (parse_value fuel 0 rs) as [p|e|msg|] eqn:E; cbn in *; try done.
  - destruct (skip_ws p.2); [by apply Ht|done].
  - by destruct (proj1 (parse_no_panic fuel 0 rs msg)).
Qed.

(** A decoder is good for [P] if a text and a value in [P] make a value in [P]. *)
Definition decodes {A} (P : A -> Prop) (dec : decoder A) : Prop :=
  forall v a, texts v -> P a -> good P (dec v a).

Lemma decodes_string : decodes utf8 dec_string.
Proof. by intros []. Qed.

Lemma digits_value_nonneg lit n : 0 <= n -> forallb is_digit lit = true ->
  0 <= foldl (fun n c => n * 10 + (c - 48)) n lit.
Proof.
  revert n. induction lit as [|c lit IH]; intros n Hn; cbn; [done|].
  rewrite andb_true_iff. intros [Hc Hl]. apply IH; [|done]. unfold is_digit, between in Hc. lia.
Qed.

Lemma decodes_uint w : decodes (fun z => 0 <= z < 2 ^ w) (dec_uint w).
Proof.
  intros [] a _ Ha; cbn; try done. destruct (forallb is_digit lit) eqn:E; cbn; [|done].
  destruct (Z.ltb_spec (digits_value lit) (2 ^ w)); cbn; [|done].
  split; [|done]. by apply digits_value_nonneg.
Qed.

Lemma find_field_in {A} same (fs : list (string * decoder A)) d :
  find_field same fs = Some d -> exists n, (n, d) ∈ fs.
Proof.
  induction fs as [|[n d'] fs IH]; cbn; [done|]. destruct (same n).
  - intros [= ->]. exists n. by left.
  - intros [m Hm]%IH. exists m. by right.
Qed.

Lemma field_of_in {A} (fs : list (string * decoder A)) k d : field_of fs k = Some d -> exists n, (n, d) ∈ fs.
Proof.
  unfold field_of. destruct (find_field (String.eqb k) fs) eqn:E.
  - intros [= <-]. by eapply find_field_in.
  - apply find_field_in.
Qed.

Lemma decodes_struct {A} (P : A -> Prop) fs : Forall (fun f => decodes P f.2) fs -> decodes P (dec_struct fs).
Proof.
  intros Hfs v a Hv Ha. destruct v as [| | | | |ms]; cbn; try done.
  apply texts_obj in Hv. eapply good_foldM; [done|exact Hv|]. intros b kv Hb [_ Hkv].
  destruct (field_of fs kv.1) as [d|] eqn:E; [|done]. apply field_of_in in E as [n Hn].
  rewrite Forall_forall in Hfs. by apply (Hfs _ Hn).
Qed.

Definition all_map {V} (P : V -> Prop) (m : option (gmap string V)) : Prop :=
  map_Forall (fun k x => utf8 k /\ P x) (default ∅ m).

Lemma decodes_map {V} (P : V -> Prop) zero dec : P zero -> decodes P dec -> decodes (all_map P) (dec_map zero dec).
Proof.
  intros Hz Hd v m Hv Hm. destruct v as [| | | | |ms]; cbn; try done.
  apply texts_obj in Hv. apply (good_ebind (fun m => map_Forall (fun k x => utf8 k /\ P x) m)); [|done].
  eapply good_foldM; [done|exact Hv|]. intros b [k w] Hb [Hk Hw]. cbn [fst snd] in *.
  apply (good_ebind P); [by apply Hd|]. intros x Hx. cbn. by apply map_Forall_insert_2.
Qed.

Lemma decodes_ptr {V} (P : V -> Prop) zero dec :
  P zero -> decodes P dec -> decodes (fun o => forall x, o = Some x -> P x) (dec_ptr zero dec).
Proof.
  intros Hz Hd v o Hv Ho.
  assert (Hp : good (fun o => forall x, o = Some x -> P x) (let! x := dec v (default zero o) in Ok (Some x))).
  { apply (good_ebind P); [|by intros x Hx y [= <-]]. apply Hd; [done|]. destruct o; [by apply Ho|done]. }
  by destruct v.
Qed.

Lemma good_elems {V} (P : V -> Prop) zero dec vs :
  P zero -> decodes P dec -> Forall texts vs -> good (Forall P) (dec_elems zero dec vs).
Proof.
  intros Hz Hd Hv. unfold dec_elems. eapply good_foldM; [constructor|exact Hv|].
  intros l v Hl Hx. apply (good_ebind P); [by apply Hd|]. intros x Px. cbn. apply Forall_app. auto.
Qed.

Lemma good_StdDecode s : good (fun _ => True) (StdDecode s).
Proof. unfold StdDecode, decode64. by repeat case_match. Qed.

Lemma decodes_bytes : decodes (fun _ => True) dec_bytes.
Proof.
  intros v a Hv _. destruct v; cbn [dec_bytes]; try done; [apply good_StdDecode|].
  apply texts_arr in Hv. apply (good_ebind (Forall (fun _ => True))); [|done].
  pose proof (good_elems (fun z => 0 <= z < 2 ^ 8) 0 (dec_uint 8) vs (conj (Z.le_refl 0) eq_refl) (decodes_uint 8) Hv) as Hg.
  destruct (dec_elems _ _ _); cbn in *; try done. by apply Forall_true.
Qed.

(** The well-typed values. *)
Definition node_typed (n : memNodeData) : Prop := all_map (all_map utf8) (ServiceMapping n).
Definition transfers_typed (l : list (option dataTransferNodeData)) : Prop :=
  Forall (fun o => forall t, o = Some t -> transfer_ok t) l.
Definition srv_typed (x : Z * Z * Z * string) : Prop :=
  let '(p, w, o, t) := x in
  0 <= p < 2 ^ 16 /\ 0 <= w < 2 ^ 16 /\ 0 <= o < 2 ^ 16 /\ utf8 t.

Lemma decodes_addr : decodes utf8 addr_dec.
Proof. apply decodes_struct. repeat constructor. apply decodes_string. Qed.

Lemma decodes_node : decodes node_typed node_dec.
Proof.
  apply decodes_struct. repeat constructor. intros v n Hv Hn. cbn [snd].
  apply (good_ebind (all_map (all_map utf8))); [|done]. apply decodes_map; [done| |done|done].
  apply decodes_map; [done|apply decodes_addr].
Qed.

Lemma decodes_transfer : decodes transfer_ok transfer_dec.
Proof.
  apply decodes_struct. repeat constructor; intros v [s n a] Hv (Hs & Hn & Ha);
    cbn [snd ServiceName NodeName Info] in *; apply (good_ebind utf8);
    first [by apply decodes_string|by apply decodes_addr|done].
Qed.

Lemma decodes_srv : decodes srv_typed srv_dec.
Proof.
  apply decodes_struct. repeat constructor; intros v [[[p w] o] t] Hv (Hp & Hw & Ho & Ht); cbn [snd].
  1-3: apply (good_ebind (fun z => 0 <= z < 2 ^ 16)); [by apply decodes_uint|done].
  apply (good_ebind utf8); [by apply decodes_string|done].
Qed.

Lemma payload_good v p : texts v -> good (fun _ => True) (payload_dec v p).
Proof.
  intros Hv. destruct v as [| | | | |ms]; try done. unfold payload_dec, dec_map.
  apply (good_ebind (fun _ => True)); [|done]. apply texts_obj in Hv.
  eapply good_foldM; [done|exact Hv|]. intros b [k w] _ [Hk Hw]. cbn [fst snd] in *.
  apply (good_ebind (fun _ => True)); [by apply decodes_bytes|done].
Qed.

(** ** Properties *)

(** C25. Whatever bytes arrive, decoding them ends with a well-typed value or
    an error, never a panic: of a peer's answers ([FullFrom], [SyncFrom], the
    client calls) every name, node and address is well-formed UTF-8 even if
    the text is not, and of SRV data priority, weight and port fit 16 bits. *)
Theorem decoded_well_typed b bytes s :
  good node_typed (@memNodeDataUnmarshall (go_json b) bytes)
  /\ good transfers_typed (@dataTransferNodeDataList (go_json b) bytes)
  /\ good (fun _ => True) (@Unmarshal_data go_ha_json bytes)
  /\ good (fun _ => True) (@Unmarshal_changes go_ha_json bytes)
  /\ good srv_typed (@Unmarshal_srv go_srv s).
Proof.
  split_and!; apply (good_ebind texts); try apply good_Parse; intros v Hv.
  - by apply decodes_node.
  - destruct v; cbn; try done; [by apply Forall_nil_2|]. apply texts_arr in Hv. apply good_elems; try done.
    apply decodes_ptr; [done|apply decodes_transfer].
  - by apply payload_good.
  - assert (Hg : good (fun _ => True) (changes_dec v (None, None))); [|done].
    apply (decodes_struct (fun _ => True)); [|done|done].
    repeat constructor; intros w [a d] Hw _; cbn [snd fst];
      (apply (good_ebind (fun _ => True)); [by apply payload_good|done]).
  - by apply decodes_srv.
Qed.

(** The data a payload holds under the store's key, decoded. *)
Definition under_key {A} (dec : list byte -> exec A) (p : option payload) : exec A :=
  match default ∅ p !! DefaultDataKey with
  | Some d => dec d
  | None => Fail (NewError "no data found")
  end.

(** C12. What goes over the wire comes back: the services a node holds, written
    by the store, wrapped by the endpoint and read by the peer, are the same
    services; so are the pending additions and removals, in order - base64,
    escapes, sorted keys and both spellings of an empty list included. *)
Theorem wire_roundtrip b m adds dels :
  wf m -> Forall transfer_ok adds -> Forall transfer_ok dels ->
  (exists d full, @Marshal_node (go_json b) (node_of m) = Ok d
    /\ @Marshal_data go_ha_json {[DefaultDataKey := d]} = Ok full
    /\ (let! p := @Unmarshal_data go_ha_json full in
        under_key (@memNodeDataUnmarshall (go_json b)) p) = Ok (node_of m))
  /\ (exists a d incr, @Marshal_list (go_json b) adds = Ok a /\ @Marshal_list (go_json b) dels = Ok d
    /\ @Marshal_changes go_ha_json {[DefaultDataKey := a]} {[DefaultDataKey := d]} = Ok incr
    /\ (let! p := @Unmarshal_changes go_ha_json incr in
        let! a := under_key (@dataTransferNodeDataList (go_json b)) p.1 in
        let! d := under_key (@dataTransferNodeDataList (go_json b)) p.2 in
        Ok (a, d)) = Ok (Some <$> adds, Some <$> dels)).
Proof.
  intros Hm Ha Hd. pose proof (go_json_laws b) as HJ. pose proof go_ha_laws as HH. split.
  - destruct (@json_node _ HJ m Hm) as (d & Ed & Rd). destruct (@ha_data _ HH d) as (full & Ef & Rf).
    exists d, full. split; [exact Ed|]. split; [exact Ef|]. rewrite Rf. cbn [ebind]. unfold under_key. cbn [default from_option id].
    rewrite lookup_singleton_eq. exact Rd.
  - destruct (@json_list _ HJ adds Ha) as (a & Ea & Ra). destruct (@json_list _ HJ dels Hd) as (d & Ed & Rd).
    destruct (@ha_changes _ HH a d) as (incr & Ei & Ri). exists a, d, incr. split; [exact Ea|]. split; [exact Ed|]. split; [exact Ei|].
    rewrite Ri. cbn [ebind fst snd]. unfold under_key. cbn [default from_option id].
    rewrite !lookup_singleton_eq, Ra. cbn [ebind]. rewrite Rd. reflexivity.
Qed.

Definition quoted_name : string := "a<b&" +:+ String (ascii_of_Z 34) "é".

Lemma wire_roundtrip_witness :
  let m : service_map := {["web" := {[quoted_name := "10.0.0.1:80"]}]} in
  exists d full, @Marshal_node (go_json true) (node_of m) = Ok d
    /\ @Marshal_data go_ha_json {[DefaultDataKey := d]} = Ok full
    /\ (let! p := @Unmarshal_data go_ha_json full in
        under_key (@memNodeDataUnmarshall (go_json true)) p) = Ok (node_of m).
Proof.
  intros m. apply (wire_roundtrip true m [] []); [|constructor|constructor].
  apply map_Forall_singleton. split_and!; [vm_compute; reflexivity|done|].
  apply map_Forall_singleton. split; vm_compute; reflexivity.
Defined.

(** The texts of encoding/json on small inputs. *)
Definition show (r : exec (list byte)) : list Z := match r with Ok b => codes (string_of b) | _ => [] end.
Definition dquote (s : string) : list Z := (fun c => if c =? 39 then 34 else c) <$> codes s.

Example node_text :
  show (@Marshal_node (go_json true) (node_of {["web" := {["n2" := "b"; "n1" := "<a>"]}]}))
  = dquote "{'ServiceMapping':{'web':{'n1':{'Addr':'\u003ca\u003e'},'n2':{'Addr':'b'}}}}".
Proof. vm_compute. reflexivity. Qed.

Example srv_texts :
  (fun s => @Unmarshal_srv go_srv (bytes_str (dquote s))) <$>
    [" { 'Priority': 10, 'weight':20 ,'PORT':8080, 'x':[1,-2.5e3,{}], 'target':'h\u00e9\n' } ";
     "{'priority':65536}"; "{'priority':01}"; "null"; "{'port':80.0}"; "{'target':'a','target':null}"]
  = [Ok (10, 20, 8080, "hé" +:+ String (ascii_of_Z 10) EmptyString); mismatch; syntax; Ok (0, 0, 0, "");
     mismatch; Ok (0, 0, 0, "a")].
Proof. vm_compute. reflexivity. Qed.
