(* ===== verification/Cluster.v ===== *)
(** * A running node, and two of them (core.go, main.go)

    The cluster module and the registry endpoint of a node work on one store.
    [Server] puts them together, [server_step] is everything that can happen to
    a node - client requests, cleanup rounds, requests of peers, anything a
    peer answers - and the theorems follow a service from the registry of one
    node to the answer of a query at another, over the texts of encoding/json. *)

From stdpp Require Import base list gmap strings relations.
From Stdlib Require Import ZArith Lia.
From S2P Require Import Prelude GoStr Bytes Toy JsonText MemStore MemSync Ha HttpEndpoint JsonPayload.
Local Open Scope Z_scope.
Local Open Scope go_scope.

(** ** Definitions *)

(** Both parts hold the same [Storage]; [publishing] are the publish requests
    between their two critical sections, as in [ep_step]. *)
Record Server := mkServer { ha : HaModule; http : HttpEndpoint; publishing : list EpRequest }.

(** The part of [main] that makes them: one store, given to both. *)
Definition start_server (nodeName clusterName clusterSecret : string) (nodes : gmap string string)
    (enableAuth : bool) (accessPassword : string) (storage : MemStore) : Server :=
  mkServer (NewHaModule nodeName clusterName clusterSecret nodes storage)
    (NewHttpEndpoint storage enableAuth accessPassword) [].

(** A call of one part is seen by the other through the store. *)
Definition on_ha {A} (m : M HaModule A) : M Server A :=
  fun n => let '(r, h) := m (ha n) in (r, mkServer h (with_store (Storage h) (http n)) (publishing n)).

Definition on_http {A} (m : M HttpEndpoint A) : M Server A :=
  fun n => let '(r, e) := m (http n) in (r, mkServer (with_storage (EpStorage e) (ha n)) e (publishing n)).

Definition with_publishing fl (n : Server) : Server := mkServer (ha n) (http n) fl.

(** A store with no services yet; it may have static domains. *)
Definition fresh (m : MemStore) : Prop :=
  services m = ∅ /\ currentServices m = ∅ /\ dataFrom m = ∅ /\ dataTo m = ∅.

Definition request_utf8 (r : EpRequest) : Prop := utf8 (name r) /\ utf8 (node r) /\ utf8 (address r).

(** JSON as the program gets it. *)
#[local] Remove Hints toy_json toy_json_laws toy_ha toy_ha_laws toy_items : typeclass_instances.
#[local] Existing Instance go_ha_json.
#[local] Existing Instance go_ha_laws.
#[local] Existing Instance go_items.

Section Server.
Context `{!MapRange, !DnsNames, !UnicodeData} (nil : bool).
#[local] Instance server_json : Json := go_json nil.
#[local] Instance server_json_laws : JsonLaws server_json := go_json_laws nil.

(** What can happen to a node; [env] is whatever its peers answer.  A publish is
    refused, or takes its two steps. *)
Inductive server_step : Server -> Server -> Prop :=
| vs_denied now r n : denied (http n) r = true -> server_step n (on_http (publishService now r) n).2
| vs_publish_store r n : denied (http n) r = false -> request_utf8 r ->
    server_step n (with_publishing (r :: publishing n) (on_http (publish_store r) n).2)
| vs_publish_client now r n fl1 fl2 : publishing n = fl1 ++ r :: fl2 ->
    server_step n (with_publishing (fl1 ++ fl2) (on_http (publish_client now r) n).2)
| vs_query r n : server_step n (on_http (queryService r) n).2
| vs_check now n : server_step n (on_http (CheckPublishClients now) n).2
| vs_auth now r n : server_step n (on_ha (httpClusterAuth now r) n).2
| vs_full now r n : server_step n (on_ha (httpClusterFull now r) n).2
| vs_incremental now r n : server_step n (on_ha (httpClusterIncremental now r) n).2
| vs_health now n : server_step n (on_ha (CheckPeerHealth now) n).2
| vs_peer addr peer env ph n : server_step n (on_ha (on_storage (PeerSyncWorker addr peer env ph)) n).2.

(** One turn of the worker of node [B] for the peer called [peer], from the top
    of its loop: the requests for the URLs of [addr] are served by node [A]. *)
Definition peer_round (now : Z) (addr peer : string) (A B : Server) : exec Phase * (Server * Server) :=
  let '(auth, A) := on_ha (httpClusterAuth now (client_request (ha B))) A in
  let '(full, A) := on_ha (httpClusterFull now (client_request (ha B))) A in
  let '(ph, B) := on_ha (on_storage (PeerSyncWorker addr peer
    (mkAnswers (fun _ => auth) (fun _ => full) (fun _ => Fail EOF) 0) MainLoop)) B in
  (ph, (A, B)).

(** What a node knows of an instance without the peer. *)
Definition elsewhere (B : Server) (peer s n a : string) : Prop :=
  look (currentServices (Storage (ha B))) s n = Some a
  \/ exists p nd, p <> peer /\ dataFrom (Storage (ha B)) !! p = Some nd
       /\ nlook (default ∅ (ServiceMapping nd)) s n = Some a.

(** *** The invariant *)

Definition clients_utf8 (cs : gmap string PublicClient) : Prop :=
  map_Forall (fun n c => utf8 n /\ map_Forall (fun s a => utf8 s /\ utf8 a) (Publishment c)) cs.

Record server_ok (n : Server) : Prop := {
  sv_shared : EpStorage (http n) = Storage (ha n);
  sv_source : source_ok (Storage (ha n));
  sv_clients : clients_utf8 (publicClients (http n));
  sv_flight : Forall request_utf8 (publishing n);
  sv_registry : tracked (http n) (publishing n);
}.

(** ** The store *)

(** Calls that change neither the current services nor what peers wait for. *)
Definition frame (c : service_map) (t : gmap string pendingData) (m : MemStore) : Prop :=
  currentServices m = c /\ dataTo m = t.

(** Calls that keep the current services. *)
Definition held (c : service_map) (m : MemStore) : Prop := source_ok m /\ currentServices m = c.

Lemma keeps_frame {A} c (m : M MemStore A) : (forall c t, keeps (frame c t) m) -> keeps (held c) m.
Proof.
  intros Hm s [Hs <-]. destruct (Hm _ _ s (conj eq_refl eq_refl)) as [Hc Ht]. split; [|done].
  apply (source_ok_same s); [done| |done]. intros d p. rewrite Ht. by left.
Qed.

(** Installing what a peer sent touches its data and the served services only. *)
Section Frame.
Context (F : MemStore -> Prop).
Hypothesis F_services : forall sv m, F m -> F (with_services sv m).
Hypothesis F_from : forall df m, F m -> F (with_from df m).

Lemma frame_build : keeps F buildMemData.
Proof. apply keeps_modify. intros m. apply F_services. Qed.

Lemma frame_loop step node l : keeps F (sync_loop step node l).
Proof.
  induction l as [|v l IH]; cbn [sync_loop]; [auto with go|]. apply keeps_bind; [auto with go|].
  intros m. destruct (dataFrom m !! node); [|auto with go]. apply keeps_bind; [auto with go|].
  intros mapping. apply keeps_bind; [|done]. apply keeps_modify. intros m'. apply F_from.
Qed.

Lemma frame_FullFrom node data : keeps F (FullFrom node data).
Proof.
  unfold FullFrom. destruct (data !! DefaultDataKey); [|auto with go]. apply keeps_bind; [auto with go|].
  intros d. apply keeps_bind; [|intros _; apply frame_build]. apply keeps_modify. intros m'. apply F_from.
Qed.

Lemma frame_SyncFrom node orig add del : keeps F (SyncFrom node orig add del).
Proof.
  unfold SyncFrom. destruct (add !! DefaultDataKey); [|auto with go]. apply keeps_bind; [auto with go|].
  intros ad. destruct (del !! DefaultDataKey); [|auto with go]. apply keeps_bind; [auto with go|].
  intros dd. apply keeps_bind; [auto with go|]. intros m. destruct (dataFrom m !! node); [|auto with go].
  do 2 (apply keeps_bind; [apply frame_loop|]; intros _). apply frame_build.
Qed.

Lemma frame_Abandon node : keeps F (Abandon node).
Proof.
  unfold Abandon. apply keeps_bind; [auto with go|]. intros m. destruct (dataFrom m !! node); [|auto with go].
  apply keeps_bind; [|intros _; apply frame_build]. apply keeps_modify. intros m'. apply F_from.
Qed.

Lemma frame_worker req : keeps F (ProcessSyncWorker req).
Proof.
  unfold ProcessSyncWorker. destruct (SyncFull req).
  - apply keeps_bind; [apply keeps_catch, frame_FullFrom|auto with go].
  - destruct (SyncAdd req), (SyncDel req); try (apply keeps_bind; [apply keeps_catch, frame_SyncFrom|]);
      auto with go.
Qed.

Lemma frame_submit req ok : keeps F (submit req ok).
Proof. unfold submit. apply keeps_bind; [apply frame_worker|]. intros [[]|]; auto with go. Qed.

Lemma frame_query {A} addr (k : string -> exec A) : keeps F (let* u := innerUrlResolve addr in lift (k u)).
Proof. intros m Hm. by rewrite query_outcome. Qed.

Lemma frame_full_round addr peer resp ok : keeps F (full_round addr peer resp ok).
Proof.
  unfold full_round. apply keeps_bind; [apply keeps_catch, frame_query|].
  intros []; [apply frame_submit|auto with go].
Qed.

Lemma frame_peer addr peer env ph : keeps F (PeerSyncWorker addr peer env ph).
Proof.
  destruct ph as [|q rc|]; cbn [PeerSyncWorker].
  - apply keeps_bind; [apply keeps_catch, frame_Abandon|]. intros []; [|auto with go].
    apply keeps_bind; [apply keeps_catch, frame_query|]. intros []; [apply frame_full_round|auto with go].
  - destruct (_ <? _); [|apply frame_full_round]. apply keeps_bind; [apply keeps_catch, frame_query|].
    intros [[add del]|]; [apply frame_submit|]. destruct (_ >? _); auto with go.
  - auto with go.
Qed.
End Frame.

Section Held.
Context (c : service_map).

Lemma held_fetch node {A} (m : M MemStore A) :
  (forall s, (m s).2 = (FetchFullAndWatch node s).2 \/ (m s).2 = (FetchChangesForPeerNodeRequest node s).2) ->
  keeps (held c) m.
Proof.
  intros Hm s [Hs <-]. destruct (other_fetch node s (m s).2 (Hm s)) as [Hc Ht]. split; [|done].
  apply (source_ok_same s); [done| |done]. intros d p. destruct Ht as [->| ->]; [by left|].
  destruct (decide (d = node)) as [->|Hne]; [rewrite lookup_insert_eq; intros [= <-]; by right|].
  rewrite lookup_insert_ne by done. by left.
Qed.

Lemma held_unwatch l m : held c m -> held c (foldl (fun st node => (Unwatch node st).2) m l).
Proof.
  revert m. induction l as [|d l IH]; intros m Hm; [done|]. apply IH. destruct Hm as [Hs <-]. split; [|done].
  apply (source_ok_same m); [done| |done]. intros e p. cbn. intros He. left.
  by apply lookup_delete_Some in He as [_ ?].
Qed.

(** *** The cluster module *)

Definition held_ha (h : HaModule) : Prop := held c (Storage h).

Lemma held_on_storage {A} (m : M MemStore A) : keeps (held c) m -> keeps held_ha (on_storage m).
Proof. intros Hm h Hh. unfold held_ha. rewrite on_storage_eq. by apply Hm. Qed.

Lemma held_guarded now failure r serve : keeps held_ha serve -> keeps held_ha (guarded now failure r serve).
Proof.
  intros Hs h Hh. destruct (decide (admitted failure h r)) as [Ha|Ha].
  - rewrite guarded_admitted by done. unfold bind, get. destruct (_ || _); [exact Hh|]. by apply Hs.
  - destruct (guarded_refused now failure r serve h) as (code & ct & E & _); [naive_solver|].
    rewrite E. cbn [snd]. by destruct (decide _).
Qed.

Lemma held_full now r : keeps held_ha (httpClusterFull now r).
Proof.
  apply held_guarded. apply keeps_bind.
  - apply keeps_catch, held_on_storage, (held_fetch (from r)). by left.
  - intros [d|]; [|auto with go]. destruct (Marshal_data d); auto with go.
Qed.

Lemma held_incremental now r : keeps held_ha (httpClusterIncremental now r).
Proof.
  apply held_guarded. apply keeps_bind.
  - apply keeps_catch, held_on_storage, (held_fetch (from r)). by right.
  - intros [[ad dl]|]; [|auto with go]. destruct (Marshal_changes ad dl); auto with go.
Qed.

Lemma held_health now : keeps held_ha (CheckPeerHealth now).
Proof.
  unfold CheckPeerHealth. apply keeps_bind; [auto with go|]. intros h.
  apply keeps_bind; [|intros _; by apply keeps_modify]. apply held_on_storage.
  intros m Hm. cbn [snd]. by apply held_unwatch.
Qed.
End Held.

(** *** The registry *)

(** The store serves well-formed data and the recorded names are well-formed. *)
Definition registry_ok (e : HttpEndpoint) : Prop :=
  source_ok (EpStorage e) /\ clients_utf8 (publicClients e).

Lemma registry_delete client l :
  utf8 client -> Forall (fun kv => utf8 kv.1 /\ utf8 kv.2) l -> keeps registry_ok (delete_published client l).
Proof.
  intros Hc. induction 1 as [|[s a] l [Hs Ha] _ IH]; cbn [delete_published]; [auto with go|].
  apply keeps_bind; [|done]. apply keeps_catch. intros e [He Hu]. cbn [fst snd] in *. split; [|done].
  by apply (source_ok_delete s (mkItem a client) (EpStorage e)).
Qed.

Lemma registry_drop l :
  Forall (fun kv => utf8 kv.1 /\ map_Forall (fun s a => utf8 s /\ utf8 a) (Publishment kv.2)) l ->
  keeps registry_ok (drop_clients l).
Proof.
  induction 1 as [|[n c] l [Hn Hc] _ IH]; cbn [drop_clients]; [auto with go|]. cbn [fst snd] in *.
  apply keeps_bind.
  - apply registry_delete; [done|]. apply Forall_forall. intros [s a] Hsa%elem_of_range. by apply Hc.
  - intros _. apply keeps_bind; [|done]. apply keeps_modify. intros e [He Hu]. split; [done|].
    by apply map_Forall_delete.
Qed.

Lemma registry_check now : keeps registry_ok (CheckPublishClients now).
Proof.
  intros e He. unfold CheckPublishClients, bind at 1, get. apply registry_drop; [|done].
  apply Forall_forall. intros [n c] [_ Hn%elem_of_range]%list_elem_of_filter. by apply (proj2 He).
Qed.

Lemma registry_publish_store r : request_utf8 r -> keeps registry_ok (publish_store r).
Proof.
  intros (Hs & Hn & Ha) e [He Hu]. split; [|done].
  by apply (source_ok_publish (name r) (mkItem (address r) (node r)) (EpStorage e)).
Qed.

Lemma registry_publish_client now r : request_utf8 r -> keeps registry_ok (publish_client now r).
Proof.
  intros (Hs & Hn & Ha) e [He Hu]. split; [done|].
  cbn. apply map_Forall_insert_2; [|done]. split; [done|]. cbn. apply map_Forall_insert_2; [done|].
  destruct (publicClients e !! node r) as [c|] eqn:E; [by apply (Hu _ _ E)|apply map_Forall_empty].
Qed.

(** ** The invariant is kept *)

Lemma server_ok_ha {A} (m : M HaModule A) n :
  (forall c, keeps (held_ha c) m) -> server_ok n -> server_ok (on_ha m n).2.
Proof.
  intros Hm [Hsh Hs Hc Hf Hr]. unfold on_ha. destruct (Hm _ (ha n) (conj Hs eq_refl)) as [Hs' Hcur].
  destruct (m (ha n)) as [r h]. cbn [fst snd] in *. split; cbn; try done.
  apply tracked_storage; [|done]. by rewrite Hcur, Hsh.
Qed.

Lemma server_ok_http {A} (m : M HttpEndpoint A) fl n :
  keeps registry_ok m -> Forall request_utf8 fl ->
  (tracked (http n) (publishing n) -> tracked (m (http n)).2 fl) ->
  server_ok n -> server_ok (with_publishing fl (on_http m n).2).
Proof.
  intros Hm Hfl Hi [Hsh Hs Hc Hf Hr]. unfold on_http.
  destruct (Hm (http n)) as [Hs' Hc']; [by rewrite <-Hsh in Hs|]. specialize (Hi Hr).
  destruct (m (http n)) as [r e]. cbn [fst snd] in *. by split.
Qed.

Lemma server_ok_http_same {A} (m : M HttpEndpoint A) n :
  keeps registry_ok m -> (forall fl, tracked (http n) fl -> tracked (m (http n)).2 fl) ->
  server_ok n -> server_ok (on_http m n).2.
Proof.
  intros Hm Hi Hn. pose proof (server_ok_http m (publishing n) n Hm (sv_flight _ Hn) (Hi _) Hn) as Hx.
  unfold on_http in *. by destruct (m (http n)).
Qed.

Lemma server_step_ok n n' : server_step n n' -> server_ok n -> server_ok n'.
Proof.
  intros [now r m Hd|r m Hd Hr|now r m fl1 fl2 Hp|r m|now m|now r m|now r m|now r m|now m|addr peer env ph m] Hok.
  - assert (E : on_http (publishService now r) m = on_http (ret (only_status StatusUnauthorized None)) m)
      by (unfold on_http; by rewrite publishService_eq, Hd).
    rewrite E. by apply server_ok_http_same; [auto with go|intros fl|].
  - apply server_ok_http; [by apply registry_publish_store| |apply tracked_store|done].
    constructor; [done|apply Hok].
  - pose proof (sv_flight _ Hok) as Hf. rewrite Hp in Hf. apply Forall_app in Hf as [Hf1 Hf2].
    apply Forall_cons in Hf2 as [Hr Hf2].
    apply server_ok_http; [by apply registry_publish_client|by apply Forall_app| |done].
    rewrite Hp. apply tracked_client.
  - apply server_ok_http_same; [|by intros fl; rewrite queryService_state|done].
    intros e He. by rewrite queryService_state.
  - apply server_ok_http_same; [apply registry_check|by intros fl; apply tracked_check|done].
  - apply server_ok_ha; [|done]. intros c. apply held_guarded. auto with go.
  - apply server_ok_ha; [|done]. intros c. apply held_full.
  - apply server_ok_ha; [|done]. intros c. apply held_incremental.
  - apply server_ok_ha; [|done]. intros c. apply held_health.
  - apply server_ok_ha; [|done]. intros c. apply held_on_storage, keeps_frame. intros ??. by apply frame_peer.
Qed.

(** A publish that nothing interrupts. *)
Lemma whole_publish now r n :
  denied (http n) r = false -> request_utf8 r -> rtc server_step n (on_http (publishService now r) n).2.
Proof.
  intros Hd Hr. eapply rtc_l; [by apply vs_publish_store|]. eapply rtc_l.
  { by apply (vs_publish_client now r _ [] (publishing n)). }
  unfold on_http. rewrite publishService_eq, Hd. apply rtc_refl.
Qed.

Lemma start_server_ok nodeName cn cs nodes auth pw storage :
  fresh storage -> server_ok (start_server nodeName cn cs nodes auth pw storage).
Proof.
  intros (_ & Hc & _ & Ht). split; cbn; [done| | |constructor|].
  - split; [rewrite Hc|rewrite Ht]; apply map_Forall_empty.
  - apply map_Forall_empty.
  - intros s n a. unfold look. cbn. by rewrite Hc, lookup_empty.
Qed.

Lemma reachable_ok nodeName cn cs nodes auth pw storage n :
  fresh storage -> rtc server_step (start_server nodeName cn cs nodes auth pw storage) n -> server_ok n.
Proof.
  intros Hf Hr. assert (Hs : server_ok (start_server nodeName cn cs nodes auth pw storage))
    by by apply start_server_ok.
  induction Hr as [|x y z Hxy _ IH]; [done|]. apply IH. by eapply server_step_ok.
Qed.

(** ** One round between two nodes *)

Lemma FullFrom_eq peer data nd m :
  memNodeDataUnmarshall data = Ok nd ->
  FullFrom peer {[DefaultDataKey := data]} m
  = (Ok tt, (buildMemData (with_from (<[peer := nd]> (dataFrom m)) m)).2).
Proof.
  intros E. unfold FullFrom. rewrite lookup_singleton_eq. unfold bind at 1, lift. by rewrite E.
Qed.

(** What the store of the client becomes. *)
Definition installed (peer : string) (m : service_map) (B : MemStore) : MemStore :=
  (buildMemData (with_from (<[peer := node_of m]> (dataFrom (Abandon peer B).2)) (Abandon peer B).2)).2.

Lemma Abandon_ok peer B : exists B', Abandon peer B = (Ok tt, B').
Proof. unfold Abandon, bind, get. destruct (dataFrom B !! peer); by eexists. Qed.

Lemma peer_round_ok now addr url peer A B :
  server_ok A -> HaNodeId (ha B) <> "" -> (innerUrlResolve addr (Storage (ha B))).1 = Ok url ->
  ClusterName (ha B) = ClusterName (ha A) -> ClusterSecret (ha B) = ClusterSecret (ha A) ->
  exists A', peer_round now addr peer A B
    = (Ok (NextTrigger 0 0),
       (A', mkServer (with_storage (installed peer (currentServices (Storage (ha A))) (Storage (ha B))) (ha B))
              (with_store (installed peer (currentServices (Storage (ha A))) (Storage (ha B))) (http B)) (publishing B))).
Proof.
  intros HA Hid Hurl Hn Hc. set (r := client_request (ha B)).
  assert (Hau : authorised (ha A) r) by by split.
  set (A1 := mkServer (touched now r (ha A)) (with_store (Storage (ha A)) (http A)) (publishing A)).
  assert (E1 : on_ha (httpClusterAuth now r) A = (Ok (only_status StatusOK (Some "application/json")), A1)).
  { unfold on_ha, httpClusterAuth. by rewrite guarded_authorised. }
  destruct (httpClusterFull_ok now r (ha A1) Hid Hau) as (data & resp & h' & st' & E2 & _ & Ef & Hst & Hu);
    [apply HA|].
  destruct (FetchFullAndWatch_ok (HaNodeId (ha B)) (Storage (ha A)) (sv_source _ HA)) as (d' & A' & Ef' & Ed & _).
  change (Storage (ha A1)) with (Storage (ha A)) in Ef. change (from r) with (HaNodeId (ha B)) in Ef.
  rewrite Ef in Ef'. assert (data = d') as ->.
  { assert (Ed' : ({[DefaultDataKey := data]} : payload) = {[DefaultDataKey := d']}) by congruence. apply (f_equal (lookup (M := gmap string (list byte)) DefaultDataKey)) in Ed'.
    rewrite !lookup_singleton_eq in Ed'. congruence. }
  assert (E2' : on_ha (httpClusterFull now r) A1 = (Ok resp, mkServer h' (with_store (Storage h') (http A1)) (publishing A1)))
    by (unfold on_ha; by rewrite E2).
  eexists. unfold peer_round. fold r. rewrite E1, E2'. unfold on_ha, on_storage.
  destruct (Abandon_resolves addr peer (Storage (ha B)) url Hurl) as (B1 & Eb & Eu).
  assert (Ep : PeerSyncWorker addr peer (mkAnswers (fun _ => Ok (only_status StatusOK (Some "application/json")))
    (fun _ => Ok resp) (fun _ => Fail EOF) 0) MainLoop (Storage (ha B))
    = (Ok (NextTrigger 0 0), installed peer (currentServices (Storage (ha A))) (Storage (ha B)))).
  { cbn [PeerSyncWorker]. rewrite (bind_ok _ _ _ _ _ (catch_ok _ _ _ _ Eb)). unfold connectRemote, bind at 1, catch.
    rewrite query_outcome, Eu.
    cbn [fst auth_answer a_auth status only_status StatusOK Z.eqb Pos.eqb negb a_full].
    eapply full_round_installs; [by rewrite Eu|done|done|done|]. unfold installed. rewrite Eb. cbn [snd]. by apply FullFrom_eq. }
  rewrite Ep. done.
Qed.

(** What the client then serves. *)
Lemma installed_served peer m B s n :
  (forall a, look m s n = Some a -> (forall a', elsewhere B peer s n a' -> a' = a) ->
     look (services (installed peer m (Storage (ha B)))) s n = Some a)
  /\ (look m s n = None -> (forall a', ~ elsewhere B peer s n a') ->
     look (services (installed peer m (Storage (ha B)))) s n = None).
Proof.
  set (B1 := (Abandon peer (Storage (ha B))).2).
  assert (Hcur : currentServices B1 = currentServices (Storage (ha B))).
  { by apply (frame_Abandon (fun m => currentServices m = currentServices (Storage (ha B))) ltac:(done) ltac:(done) peer). }
  assert (Hfrom : forall p, p <> peer -> dataFrom B1 !! p = dataFrom (Storage (ha B)) !! p).
  { intros p Hp. subst B1. unfold Abandon, bind, get.
    destruct (dataFrom (Storage (ha B)) !! peer); [|done]. cbn. by rewrite lookup_delete_ne. }
  unfold installed. fold B1. set (B2 := with_from _ B1). rewrite look_buildMemData.
  assert (Hheld : forall a, a ∈ held_by (range (dataFrom B2)) s n -> look m s n = Some a \/ elsewhere B peer s n a).
  { intros a (p & nd & Hp & Ha)%elem_of_held. cbn in Hp. destruct (decide (p = peer)) as [->|Hne].
    - rewrite lookup_insert_eq in Hp. injection Hp as <-. left. unfold node_of in Ha. cbn in Ha.
      by rewrite nlook_some in Ha.
    - rewrite lookup_insert_ne, Hfrom in Hp by done. right. right. by exists p, nd. }
  split.
  - intros a Ha Hel. assert (Hin : a ∈ held_by (range (dataFrom B2)) s n).
    { apply elem_of_held. exists peer, (node_of m). cbn. rewrite lookup_insert_eq. split; [done|].
      unfold node_of. cbn. by rewrite nlook_some. }
    destruct (last (held_by _ s n)) as [a'|] eqn:E; [|apply last_None in E; rewrite E in Hin; by apply elem_of_nil in Hin].
    f_equal. apply last_Some_elem_of, Hheld in E as [E|E]; [congruence|by apply Hel].
  - intros Hm Hel. destruct (last (held_by _ s n)) as [a'|] eqn:E.
    + apply last_Some_elem_of, Hheld in E as [E|E]; [congruence|by destruct (Hel a')].
    + change (currentServices B2) with (currentServices B1). rewrite Hcur.
      destruct (look (currentServices (Storage (ha B))) s n) as [a|] eqn:El; [|done].
      destruct (Hel a). by left.
Qed.

(** The list of a query, read back. *)
Lemma items_read l :
  Parse (Marshal (JArr (map item_json l))) = Ok (JArr (map clean (map item_json l))).
Proof.
  apply (read_bound (JArr (map item_json l)) 2); [|lia]. split.
  - cbn [plain]. apply forallb_forall. intros v (i & <- & _)%in_map_iff. done.
  - cbn [depth]. apply le_n_S, list_max_bound. rewrite map_map. apply Forall_forall.
    intros d Hdd%list_elem_of_In. apply in_map_iff in Hdd as (i & <- & _). cbn. lia.
Qed.

Lemma item_clean a k : utf8 a -> utf8 k -> clean (item_json (mkItem a k)) = item_json (mkItem a k).
Proof.
  intros Ha Hk. unfold item_json. cbn [clean map fst snd Addr NodeId]. unfold to_utf8. rewrite Ha, Hk. done.
Qed.

(** A query answers the served instances in JSON. *)
Lemma query_answers q n :
  EpStorage (http n) = Storage (ha n) -> denied (http n) q = false ->
  exists l, on_http (queryService q) n
      = (Ok (mkResponse StatusOK (Some "application/json") (Marshal (JArr (map item_json l)))), n)
    /\ forall k a, mkItem a k ∈ l <-> look (services (Storage (ha n))) (name q) k = Some a.
Proof.
  intros Hsh Hd. set (l := match services (Storage (ha n)) !! name q with
    | None => [] | Some li => (fun kv => mkItem kv.2 kv.1) <$> range li end).
  exists l. split.
  - unfold on_http, queryService. unfold bind at 1, get. rewrite Hd.
    unfold bind, catch, on_store, GetServiceList, gets. rewrite Hsh. fold l. cbn.
    rewrite <-Hsh, with_store_id, Hsh. destruct n as [[] ?]. done.
  - intros k a. subst l. unfold look. destruct (services (Storage (ha n)) !! name q) as [li|];
      cbn [mbind option_bind]; [|by split; [intros ?%elem_of_nil|]].
    rewrite list_elem_of_fmap, <-elem_of_range. split.
    + intros ([k' v] & [= -> ->] & Hin). done.
    + intros Hin. by exists (k, a).
Qed.

Lemma publish_eq now r n :
  denied (http n) r = false ->
  on_http (publishService now r) n
  = (Ok (only_status StatusOK (Some "application/json")),
     let e := (publish_client now r ((publish_store r) (http n)).2).2 in
     mkServer (with_storage (EpStorage e) (ha n)) e (publishing n)).
Proof. intros Hd. unfold on_http. by rewrite publishService_eq, Hd. Qed.

(** ** Properties *)

(** C3. A service published at one node is found at another: for any two nodes
    of a cluster, in any state their clients, peers and timers can bring them
    to, a heartbeat accepted by the first, followed by one turn of the second's
    worker for it, makes a query for the service at the second answer 200 with
    a JSON list that holds the instance - if the address of the first resolves
    at the second, and no other source of the second knows the instance under
    another address.  The texts are those of
    encoding/json, base64 included. *)
Theorem published_found_at_peer nameA nameB cn cs cn' cs' nodesA nodesB authA authB pwA pwB storeA storeB A B now t addr url peer r q :
  fresh storeA -> fresh storeB ->
  rtc server_step (start_server nameA cn cs nodesA authA pwA storeA) A ->
  rtc server_step (start_server nameB cn' cs' nodesB authB pwB storeB) B ->
  HaNodeId (ha B) <> "" ->
  ClusterName (ha B) = ClusterName (ha A) -> ClusterSecret (ha B) = ClusterSecret (ha A) ->
  (innerUrlResolve addr (Storage (ha B))).1 = Ok url ->
  request_utf8 r -> name q = name r ->
  denied (http A) r = false -> denied (http B) q = false ->
  (forall a, elsewhere B peer (name r) (node r) a -> a = address r) ->
  exists A1 A2 B' body vs,
    on_http (publishService now r) A
      = (Ok (only_status StatusOK (Some "application/json")), A1)
    /\ peer_round t addr peer A1 B = (Ok (NextTrigger 0 0), (A2, B'))
    /\ on_http (queryService q) B'
      = (Ok (mkResponse StatusOK (Some "application/json") body), B')
    /\ Parse body = Ok (JArr vs)
    /\ item_json (mkItem (address r) (node r)) ∈ vs.
Proof.
  intros HfA HfB HrA HrB Hid Hn Hc Hurl Hu Hq HdA HdB Hel.
  assert (HA1 : server_ok (on_http (publishService now r) A).2)
    by (apply (reachable_ok nameA cn cs nodesA authA pwA storeA); [done|]; etrans; [exact HrA|by apply whole_publish]).
  rewrite publish_eq in HA1 by done. set (A1 := mkServer _ _ _) in HA1. cbn [snd] in HA1.
  destruct (peer_round_ok t addr url peer A1 B HA1 Hid Hurl) as (A2 & E2); [done|done|].
  set (B' := mkServer _ _ _) in E2.
  destruct (query_answers q B') as (l & Eq & Hl); [done|done|].
  exists A1, A2, B', (Marshal (JArr (map item_json l))), (map clean (map item_json l)).
  split; [by apply publish_eq|]. split; [exact E2|]. split; [exact Eq|]. split; [apply items_read|].
  assert (Hin : mkItem (address r) (node r) ∈ l).
  { apply Hl. rewrite Hq. apply (installed_served peer _ B); [|done].
    change (look (put2 (name r) (node r) (address r) (currentServices (EpStorage (http A)))) (name r) (node r)
      = Some (address r)). by rewrite look_put2, decide_True. }
  rewrite map_map. apply list_elem_of_In, in_map_iff. exists (mkItem (address r) (node r)).
  split; [|by apply list_elem_of_In]. apply item_clean; apply Hu.
Qed.

(** C9. And it is gone when its client falls silent: after a cleanup round of
    the first node that finds no client heard within ten seconds publishing the
    service from the node, and no publish of it under way, one turn of the
    second's worker makes a query at the second answer a list without it - if the
    address of the first resolves at the second, and no other source of the
    second knows the instance. *)
Theorem silent_client_gone_at_peer nameA nameB cn cs cn' cs' nodesA nodesB authA authB pwA pwB
    storeA storeB A B now t addr url peer k q :
  fresh storeA -> fresh storeB ->
  rtc server_step (start_server nameA cn cs nodesA authA pwA storeA) A ->
  rtc server_step (start_server nameB cn' cs' nodesB authB pwB storeB) B ->
  HaNodeId (ha B) <> "" ->
  ClusterName (ha B) = ClusterName (ha A) -> ClusterSecret (ha B) = ClusterSecret (ha A) ->
  (innerUrlResolve addr (Storage (ha B))).1 = Ok url ->
  denied (http B) q = false ->
  (forall c, publicClients (http A) !! k = Some c -> is_Some (Publishment c !! name q) ->
     LastUpdate c < now - 10 * 1000) ->
  ~ publishing_of (publishing A) (name q) k ->
  (forall a, ~ elsewhere B peer (name q) k a) ->
  exists A1 A2 B' l,
    on_http (CheckPublishClients now) A = (Ok tt, A1)
    /\ peer_round t addr peer A1 B = (Ok (NextTrigger 0 0), (A2, B'))
    /\ on_http (queryService q) B'
      = (Ok (mkResponse StatusOK (Some "application/json") (Marshal (JArr (map item_json l)))), B')
    /\ k ∉ NodeId <$> l.
Proof.
  intros HfA HfB HrA HrB Hid Hn Hc Hurl Hd Hold Hno Hel.
  pose proof (reachable_ok _ _ _ _ _ _ _ _ HfA HrA) as HA.
  destruct (CheckPublishClients_effect now (http A)) as (e & Ee & Hs & _).
  assert (E1 : on_http (CheckPublishClients now) A = (Ok tt, mkServer (with_storage (EpStorage e) (ha A)) e (publishing A)))
    by (unfold on_http; by rewrite Ee).
  set (A1 := mkServer _ e _) in E1.
  assert (HA1 : server_ok A1) by (change A1 with (Ok (A := unit) tt, A1).2; rewrite <-E1;
    apply (server_step_ok A); [constructor|done]).
  destruct (peer_round_ok t addr url peer A1 B HA1 Hid Hurl) as (A2 & E2); [done|done|].
  set (B' := mkServer _ _ _) in E2.
  destruct (query_answers q B') as (l & Eq & Hl); [done|done|].
  exists A1, A2, B', l. split; [exact E1|]. split; [exact E2|]. split; [exact Eq|].
  intros ([a k'] & -> & Hk)%list_elem_of_fmap. apply Hl in Hk. cbn [NodeId] in *.
  assert (Hnone : look (services (Storage (ha B'))) (name q) k' = None); [|congruence].
  apply (installed_served peer _ B); [|exact Hel]. change (Storage (ha A1)) with (EpStorage e).
  destruct (look (currentServices (EpStorage e)) (name q) k') as [a'|] eqn:El; [|done].
  destruct (Hs (name q) k') as [Hy Hsame]. destruct (expired_dec now (http A) (name q) k') as [Hx|Hx];
    [by rewrite (Hy Hx) in El|]. rewrite (Hsame Hx) in El. exfalso.
  destruct (sv_registry _ HA _ _ _ El) as [(a2 & c & Hc1 & Hp)|]; [|done].
  apply Hx. exists c. split_and!; [done|by apply Hold; [|eexists]|by eexists].
Qed.
End Server.

(** Two nodes as the sample configuration has them. *)
Definition node_a : Server := start_server "node-a" "cluster" "s3cret" {["node-b" := "http://10.0.0.2"]} true "pw" (NewMemStore []).
Definition node_b : Server := start_server "node-b" "cluster" "s3cret" {["node-a" := "http://10.0.0.1"]} true "pw" (NewMemStore []).
Definition web_beat : EpRequest := mkEpRequest "web" "n<1>" "10.0.0.1:80" "pw".

Lemma elsewhere_nothing n cn cs nodes auth pw peer s k a :
  ~ elsewhere (start_server n cn cs nodes auth pw (NewMemStore [])) peer s k a.
Proof.
  intros [Hs|(p & nd & _ & Hp & _)].
  - unfold look in Hs. cbn in Hs. by rewrite lookup_empty in Hs.
  - cbn in Hp. by rewrite lookup_empty in Hp.
Qed.

Lemma published_found_at_peer_witness :
  exists A1 A2 B' body vs,
    on_http (publishService 1000 web_beat) node_a
      = (Ok (only_status StatusOK (Some "application/json")), A1)
    /\ peer_round true 1500 "http://10.0.0.1" "node-a" A1 node_b = (Ok (NextTrigger 0 0), (A2, B'))
    /\ on_http (queryService web_beat) B'
      = (Ok (mkResponse StatusOK (Some "application/json") body), B')
    /\ Parse body = Ok (JArr vs) /\ item_json (mkItem "10.0.0.1:80" "n<1>") ∈ vs.
Proof.
  apply (published_found_at_peer true "node-a" "node-b" "cluster" "s3cret" "cluster" "s3cret"
    {["node-b" := "http://10.0.0.2"]} {["node-a" := "http://10.0.0.1"]} true true "pw" "pw" (NewMemStore []) (NewMemStore [])
    node_a node_b 1000 1500 "http://10.0.0.1" "http://10.0.0.1" "node-a" web_beat web_beat).
  - done.
  - done.
  - apply rtc_refl.
  - apply rtc_refl.
  - done.
  - done.
  - done.
  - vm_compute. reflexivity.
  - split_and!; vm_compute; reflexivity.
  - done.
  - done.
  - done.
  - intros a Ha. by apply elsewhere_nothing in Ha.
Defined.

(** The first node after a heartbeat that is not repeated. *)
Definition node_a_beaten : Server := (on_http (publishService 1000 web_beat) node_a).2.

Lemma silent_client_gone_at_peer_witness :
  exists A1 A2 B' l,
    on_http (CheckPublishClients 20000) node_a_beaten = (Ok tt, A1)
    /\ peer_round true 20500 "http://10.0.0.1" "node-a" A1 node_b = (Ok (NextTrigger 0 0), (A2, B'))
    /\ on_http (queryService web_beat) B'
      = (Ok (mkResponse StatusOK (Some "application/json") (Marshal (JArr (map item_json l)))), B')
    /\ "n<1>" ∉ NodeId <$> l.
Proof.
  apply (silent_client_gone_at_peer true "node-a" "node-b" "cluster" "s3cret" "cluster" "s3cret"
    {["node-b" := "http://10.0.0.2"]} {["node-a" := "http://10.0.0.1"]} true true "pw" "pw" (NewMemStore []) (NewMemStore [])
    node_a_beaten node_b 20000 20500 "http://10.0.0.1" "http://10.0.0.1" "node-a" "n<1>" web_beat).
  - done.
  - done.
  - apply whole_publish; [reflexivity|split_and!; vm_compute; reflexivity].
  - apply rtc_refl.
  - done.
  - done.
  - done.
  - vm_compute. reflexivity.
  - done.
  - intros c Hc _. vm_compute in Hc. injection Hc as <-. done.
  - intros (r & Hr & _). by apply elem_of_nil in Hr.
  - intros a. apply elsewhere_nothing.
Defined.
