(* ===== verification/DnsDyn.v ===== *)
(** * DNS records from the configuration service (internal/dnsdyn)

    [DnsDynConfStore] replaces its five tables whenever the configuration
    changes, and is a nested storage of the DNS endpoint.  The configuration
    client and the TOML decoder, libraries, deliver_changes the decoded container. *)

From stdpp Require Import base list gmap strings.
From Stdlib Require Import ZArith Lia Ascii.
From S2P Require Import Prelude GoStr MemStore NetIP.
Local Open Scope Z_scope.
Local Open Scope go_scope.

(** ** Definitions *)

Notation table := (gmap string string).

Record ConfigureContainer := mkConf { cA : table; cTXT : table; cSRV : table; cPTR : table; cAAAA : table }.
Record ResolveContainer := mkRes { A : table; TXT : table; SRV : table; PTR : table; AAAA : table }.

Definition NewResolveContainer : ResolveContainer := mkRes ∅ ∅ ∅ ∅ ∅.

(** The state of the store.  Of the configuration client only the servers it
    was made for are kept. *)
Record DnsDynConfStore := mkDyn {
  serverLists : list string;
  dynClient : option (list string);
  container : ResolveContainer;
}.

Definition with_container rc (d : DnsDynConfStore) : DnsDynConfStore := mkDyn (serverLists d) (dynClient d) rc.

Definition NewDnsDynConfStore (serverList : list string) : DnsDynConfStore :=
  mkDyn serverList None NewResolveContainer.

(** What the calls of the configuration client return during one start, and
    the configurations it hands to [OnChange] before the start is over. *)
Record ClientRun := mkRun {
  run_Fill : option error;
  run_Register : option error;
  run_StartClient : option error;
  run_changes : list ConfigureContainer;
  run_WaitStartupConfigureLoaded : option error;
  run_StopClient : option (list string) -> option error;
}.

(** An [error] result. *)
Definition returned (err : option error) : exec unit :=
  match err with None => Ok tt | Some e => Fail e end.

Section Dyn.
Context `{!MapRange, !DnsNames, !UnicodeData}.

(** One of the four loops over plain names. *)
Definition fill (src : table) : table :=
  foldl (fun m kv => <[Fqdn (ToLower kv.1) := kv.2]> m) ∅ (range src).

(** The loop over reverse records; a key that is no IP address panics. *)
Fixpoint fill_ptr (l : list (string * string)) (m : table) : exec table :=
  match l with
  | [] => Ok m
  | (key, val) :: l =>
      match FromIPAddressToPtrFqdn key with
      | Ok domain => fill_ptr l (<[domain := Fqdn (ToLower val)]> m)
      | Fail e => Fail e
      | Panic msg => Panic msg
      | NoFuel => NoFuel
      end
  end.

Definition process (c : ConfigureContainer) : M DnsDynConfStore unit :=
  let a := fill (cA c) in
  let txt := fill (cTXT c) in
  let srv := fill (cSRV c) in
  let* ptr := lift (fill_ptr (range (cPTR c)) ∅) in
  let aaaa := fill (cAAAA c) in
  modify (with_container (mkRes a txt srv ptr aaaa)).

(** The error of [process] is logged; a panic is not recovered. *)
Definition onChange (c : ConfigureContainer) : M DnsDynConfStore unit :=
  let* _ := catch (process c) in ret tt.

Fixpoint deliver_changes (l : list ConfigureContainer) : M DnsDynConfStore unit :=
  match l with
  | [] => ret tt
  | c :: l => let* _ := onChange c in deliver_changes l
  end.

(** The deferred [StopClient], whose error is logged, and the return. *)
Definition stop_and_fail (run : ClientRun) (err : error) : M DnsDynConfStore unit :=
  let* d := get in
  let* _ := catch (lift (returned (run_StopClient run (Some (serverLists d))))) in
  fail err.

Definition Startup (run : ClientRun) : M DnsDynConfStore unit :=
  let* _ := lift (returned (run_Fill run)) in
  match run_Register run with
  | Some err => stop_and_fail run err
  | None =>
      let* _ := modify (fun d => mkDyn (serverLists d) (Some (serverLists d)) (container d)) in
      match run_StartClient run with
      | Some err => stop_and_fail run err
      | None =>
          let* _ := deliver_changes (run_changes run) in
          lift (returned (run_WaitStartupConfigureLoaded run))
      end
  end.

Definition Stop (run : ClientRun) : M DnsDynConfStore unit :=
  let* d := get in
  lift (returned (run_StopClient run (dynClient d))).

Definition table_of (rc : ResolveContainer) (domainType : Z) : table :=
  if domainType =? DomainTypeA then A rc
  else if domainType =? DomainTypeTxt then TXT rc
  else if domainType =? DomainTypeSrv then SRV rc
  else if domainType =? DomainTypePtr then PTR rc
  else if domainType =? DomainTypeAAAA then AAAA rc
  else ∅.

Definition ResolveDomain (domain : string) (domainType : Z) : M DnsDynConfStore string :=
  let domain := ToLower domain in
  let* d := get in
  match table_of (container d) domainType !! domain with
  | Some val => ret val
  | None => fail ErrStorageNotFound
  end.

Definition PutDomain (domain resolve : string) (domainType : Z) : M DnsDynConfStore unit :=
  panic "unsupported".
End Dyn.

(** ** Lemmas *)

Section Lemmas.
Context `{!MapRange, !DnsNames, !UnicodeData}.

(** What a loop of insertions leaves, for keys and values computed by [f]. *)
Lemma foldl_insert_some (f : string * string -> string * string) l (m : table) k v :
  foldl (fun m kv => <[(f kv).1 := (f kv).2]> m) m l !! k = Some v ->
  m !! k = Some v \/ exists kv, kv ∈ l /\ f kv = (k, v).
Proof.
  revert m. induction l as [|x l IH]; intros m; cbn [foldl]; [by left|]. intros E.
  destruct (IH _ E) as [E'|(kv & Hin & Hf)]; [|right; exists kv; set_solver].
  destruct (decide ((f x).1 = k)) as [Hk|Hk].
  - rewrite Hk, lookup_insert_eq in E'. injection E' as <-. right. exists x. split; [set_solver|].
    destruct (f x); cbn in *; congruence.
  - rewrite lookup_insert_ne in E' by done. by left.
Qed.

Lemma foldl_insert_none (f : string * string -> string * string) l (m : table) k :
  (foldl (fun m kv => <[(f kv).1 := (f kv).2]> m) m l !! k = None) ->
  m !! k = None /\ forall kv, kv ∈ l -> (f kv).1 <> k.
Proof.
  revert m. induction l as [|x l IH]; intros m; cbn [foldl].
  - intros E. split; [done|]. by intros kv ?%elem_of_nil.
  - intros E. apply IH in E as [E Hl].
    apply lookup_insert_None in E as [E Hx]. split; [done|].
    intros kv [->|Hin]%elem_of_cons; [done|by apply Hl].
Qed.

Lemma fill_lookup src k :
  match fill src !! k with
  | Some v => exists key, src !! key = Some v /\ Fqdn (ToLower key) = k
  | None => forall key v, src !! key = Some v -> Fqdn (ToLower key) <> k
  end.
Proof.
  unfold fill. set (f := fun kv : string * string => (Fqdn (ToLower kv.1), kv.2)).
  change (foldl _ ∅ (range src)) with
    (foldl (fun (m : table) kv => <[(f kv).1 := (f kv).2]> m) ∅ (range src)).
  destruct (foldl _ _ _ !! k) as [v|] eqn:E.
  - apply foldl_insert_some in E as [E|([key v'] & Hin & Hf)]; [by rewrite lookup_empty in E|].
    apply elem_of_range in Hin. subst f. cbn in Hf. exists key. split; congruence.
  - apply foldl_insert_none in E as [_ Hl]. intros key v Hs. apply (Hl (key, v)).
    by apply elem_of_range.
Qed.

(** Every key an address: the reverse loop computes the same kind of table. *)
Lemma fill_ptr_ok l m :
  Forall (fun kv => IsValidIPAddress kv.1 = true) l ->
  exists f, (forall kv, kv ∈ l -> FromIPAddressToPtrFqdn kv.1 = Ok (f kv).1
                                  /\ (f kv).2 = Fqdn (ToLower kv.2))
    /\ fill_ptr l m = Ok (foldl (fun m kv => <[(f kv).1 := (f kv).2]> m) m l).
Proof.
  set (f := fun kv : string * string =>
    (match FromIPAddressToPtrFqdn kv.1 with Ok d => d | _ => "" end, Fqdn (ToLower kv.2))).
  intros Hall. exists f.
  assert (Hf : forall kv, IsValidIPAddress kv.1 = true -> FromIPAddressToPtrFqdn kv.1 = Ok (f kv).1).
  { intros kv Hv. destruct (FromIPAddressToPtrFqdn_valid kv.1 Hv) as [r Hr]. subst f. cbn.
    by rewrite Hr. }
  split.
  - rewrite Forall_forall in Hall. intros kv Hin. split; [by apply Hf, Hall|done].
  - revert m. induction Hall as [|[key val] l Hv _ IH]; intros m; [done|].
    cbn [fill_ptr foldl]. rewrite (Hf (key, val) Hv : FromIPAddressToPtrFqdn key = _). apply IH.
Qed.

Lemma fill_ptr_panics l m :
  Exists (fun kv => IsValidIPAddress kv.1 = false) l ->
  fill_ptr l m = Panic "not a valid IP address".
Proof.
  revert m. induction l as [|[key val] l IH]; intros m Hex; [by apply Exists_nil in Hex|].
  cbn [fill_ptr]. destruct (IsValidIPAddress key) eqn:Hv.
  - destruct (FromIPAddressToPtrFqdn_valid key Hv) as [r ->]. apply IH.
    apply Exists_cons in Hex as [Hx|Hx]; [cbn in Hx; congruence|done].
  - unfold FromIPAddressToPtrFqdn, IsValidIPAddress in *. by destruct (ParseIP key).
Qed.

(** The configurations the store accepts, and what accepting one leaves. *)
Definition conf_ok (c : ConfigureContainer) : Prop :=
  map_Forall (fun key _ => IsValidIPAddress key = true) (cPTR c).

Lemma process_ok c s :
  conf_ok c ->
  exists ptr, process c s
    = (Ok tt, with_container (mkRes (fill (cA c)) (fill (cTXT c)) (fill (cSRV c)) ptr (fill (cAAAA c))) s).
Proof.
  intros Hc. destruct (fill_ptr_ok (range (cPTR c)) ∅) as (f & _ & E).
  { apply Forall_forall. intros [key val] Hin%elem_of_range. by apply (Hc key val). }
  eexists. unfold process, bind, lift. by rewrite E.
Qed.

Lemma process_bad c s : ~ conf_ok c -> process c s = (Panic "not a valid IP address", s).
Proof.
  intros Hn. unfold process, bind, lift. rewrite fill_ptr_panics; [done|].
  apply dec_stable. intros Hx. apply Hn. intros key val Hk.
  destruct (IsValidIPAddress key) eqn:Ev; [done|]. exfalso. apply Hx, Exists_exists.
  exists (key, val). split; [by apply elem_of_range|done].
Qed.

Lemma onChange_eq c s : onChange c s = process c s.
Proof.
  destruct (decide (conf_ok c)) as [Hc|Hc].
  - destruct (process_ok c s Hc) as (ptr & E). unfold onChange.
    by rewrite (bind_ok _ _ _ _ _ (catch_ok _ _ _ _ E)), E.
  - unfold onChange, catch, bind. by rewrite (process_bad c s Hc).
Qed.

Lemma deliver_changes_outcome l s :
  match (deliver_changes l s).1 with
  | Ok _ => Forall conf_ok l
  | r => r = Panic "not a valid IP address" /\ ~ Forall conf_ok l
  end.
Proof.
  revert s. induction l as [|c l IH]; intros s; cbn [deliver_changes]; [by constructor|].
  unfold bind. rewrite onChange_eq. destruct (decide (conf_ok c)) as [Hc|Hc].
  - destruct (process_ok c s Hc) as (ptr & ->). specialize (IH (with_container
      (mkRes (fill (cA c)) (fill (cTXT c)) (fill (cSRV c)) ptr (fill (cAAAA c))) s)).
    destruct (deliver_changes l _) as [[| | |] s']; cbn in *; [by constructor| | |];
      (destruct IH as [IH1 IH2]; split; [done|by intros [? ?]%Forall_cons]).
  - rewrite (process_bad c s Hc). cbn. split; [done|]. by intros [? ?]%Forall_cons.
Qed.

(** The runs of the client in which the start succeeds; the others return an
    error or, on a bad configuration, panic. *)
Definition run_ok (run : ClientRun) : Prop :=
  run_Fill run = None /\ run_Register run = None /\ run_StartClient run = None
  /\ Forall conf_ok (run_changes run) /\ run_WaitStartupConfigureLoaded run = None.

Lemma Startup_outcome run s :
  match (Startup run s).1 with
  | Ok _ => run_ok run
  | Fail _ => ~ run_ok run
  | Panic msg => msg = "not a valid IP address" /\ ~ run_ok run
  | NoFuel => False
  end.
Proof.
  assert (Hstop : forall err s, (stop_and_fail run err s).1 = Fail err).
  { intros err s'. unfold stop_and_fail, bind, get, catch, lift.
    by destruct (run_StopClient run (Some (serverLists s'))). }
  unfold Startup, run_ok. destruct (run_Fill run) as [err|]; [naive_solver|].
  unfold bind at 1, lift at 1. cbn [returned]. destruct (run_Register run) as [err|].
  { rewrite Hstop. naive_solver. }
  unfold bind at 1, modify. destruct (run_StartClient run) as [err|].
  { rewrite Hstop. naive_solver. }
  unfold bind, lift. pose proof (deliver_changes_outcome (run_changes run)
    (mkDyn (serverLists s) (Some (serverLists s)) (container s))) as Hd.
  destruct (deliver_changes _ _) as [[| | |] s']; cbn [fst] in *.
  - destruct (run_WaitStartupConfigureLoaded run); cbn; naive_solver.
  - naive_solver.
  - naive_solver.
  - naive_solver.
Qed.
End Lemmas.


(** ** Properties *)

(** The table a lookup of a plain type reads, in the configuration. *)
Definition conf_of (c : ConfigureContainer) (domainType : Z) : table :=
  if domainType =? DomainTypeA then cA c
  else if domainType =? DomainTypeTxt then cTXT c
  else if domainType =? DomainTypeSrv then cSRV c
  else cAAAA c.

(** C27. A change of the configuration is served as a whole or not at all: when
    every reverse key is an IP address, afterwards a lookup of a name finds a
    value exactly when some configured name is equal to it up to case and final
    dot, and then the value of such a name (reverse records: under the reverse
    name of the key); when some reverse key is not an address, [process]
    panics and the tables before it stay. *)
Theorem process_serves `{!MapRange, !DnsNames, !UnicodeData} c s :
  (map_Forall (fun key _ => IsValidIPAddress key = true) (cPTR c) ->
   exists s', process c s = (Ok tt, s')
     /\ (forall x t, t ∈ [DomainTypeA; DomainTypeTxt; DomainTypeSrv; DomainTypeAAAA] ->
          match (ResolveDomain x t s').1 with
          | Ok v => exists key, conf_of c t !! key = Some v /\ Fqdn (ToLower key) = ToLower x
          | r => r = Fail ErrStorageNotFound
                 /\ forall key v, conf_of c t !! key = Some v -> Fqdn (ToLower key) <> ToLower x
          end)
     /\ (forall x,
          match (ResolveDomain x DomainTypePtr s').1 with
          | Ok v => exists key val, cPTR c !! key = Some val /\ v = Fqdn (ToLower val)
                      /\ FromIPAddressToPtrFqdn key = Ok (ToLower x)
          | r => r = Fail ErrStorageNotFound
                 /\ forall key val, cPTR c !! key = Some val ->
                      FromIPAddressToPtrFqdn key <> Ok (ToLower x)
          end))
  /\ (~ map_Forall (fun key _ => IsValidIPAddress key = true) (cPTR c) ->
      process c s = (Panic "not a valid IP address", s)).
Proof.
  split.
  - intros Hall.
    destruct (fill_ptr_ok (range (cPTR c)) ∅) as (f & Hf & E).
    { apply Forall_forall. intros [key val] Hin%elem_of_range. by apply (Hall key val). }
    eexists. split; [unfold process; unfold bind, lift; rewrite E; reflexivity|]. split.
    + intros x t Ht. unfold ResolveDomain, bind, get. cbn [container with_container].
      assert (Htab : forall src, table_of (mkRes (fill (cA c)) (fill (cTXT c)) (fill (cSRV c))
          (foldl (fun m kv => <[(f kv).1 := (f kv).2]> m) ∅ (range (cPTR c))) (fill (cAAAA c))) t = fill src ->
        conf_of c t = src ->
        match (match table_of (mkRes (fill (cA c)) (fill (cTXT c)) (fill (cSRV c))
          (foldl (fun m kv => <[(f kv).1 := (f kv).2]> m) ∅ (range (cPTR c))) (fill (cAAAA c))) t
            !! ToLower x with Some val => Ok val | None => Fail ErrStorageNotFound end) with
        | Ok v => exists key, conf_of c t !! key = Some v /\ Fqdn (ToLower key) = ToLower x
        | r => r = Fail ErrStorageNotFound
               /\ forall key v, conf_of c t !! key = Some v -> Fqdn (ToLower key) <> ToLower x
        end).
      { intros src -> ->. pose proof (fill_lookup src (ToLower x)) as Hl.
        by destruct (fill src !! ToLower x). }
      specialize (Htab (conf_of c t)).
      match goal with |- context [(match ?o with Some _ => _ | None => _ end)] => destruct o eqn:Eo end;
        cbn; apply Htab; try done; unfold table_of, conf_of;
        repeat (apply elem_of_cons in Ht as [->|Ht]; [reflexivity|]); by apply elem_of_nil in Ht.
    + intros x. unfold ResolveDomain, bind, get. cbn [container with_container].
      change (table_of _ DomainTypePtr) with
        (foldl (fun (m : table) kv => <[(f kv).1 := (f kv).2]> m) ∅ (range (cPTR c))).
      destruct (foldl _ ∅ (range (cPTR c)) !! ToLower x) as [v|] eqn:El; cbn.
      * apply foldl_insert_some in El as [El|([key val] & Hin & Hk)]; [by rewrite lookup_empty in El|].
        destruct (Hf _ Hin) as [E1 E2]. apply elem_of_range in Hin. rewrite Hk in E1, E2.
        by exists key, val.
      * apply foldl_insert_none in El as [_ Hl]. split; [done|]. intros key val Hk E1.
        apply elem_of_range in Hk. destruct (Hf _ Hk) as [E2 _]. apply (Hl _ Hk).
        cbn in E2. rewrite E1 in E2. by injection E2 as <-.
  - apply process_bad.
Qed.

Definition conf1 : ConfigureContainer :=
  mkConf {["Db.Lan" := "10.0.0.7"]} ∅ ∅ {["10.0.0.7" := "DB.lan"]} ∅.

Lemma process_serves_witness :
  exists s', process conf1 (NewDnsDynConfStore []) = (Ok tt, s')
    /\ match (ResolveDomain "db.lan." DomainTypeA s').1 with
       | Ok v => exists key, cA conf1 !! key = Some v /\ Fqdn (ToLower key) = "db.lan."
       | _ => False
       end.
Proof.
  destruct (process_serves conf1 (NewDnsDynConfStore [])) as [H _].
  destruct H as (s' & E & H & _).
  - intros key v Hk. cbn [cPTR conf1] in Hk. apply lookup_singleton_Some in Hk as [<- <-]. vm_compute. reflexivity.
  - exists s'. split; [exact E|]. specialize (H "db.lan." DomainTypeA ltac:(constructor)).
    assert (Hr : (ResolveDomain "db.lan." DomainTypeA s').1 = Ok "10.0.0.7").
    { assert (Es : s' = (process conf1 (NewDnsDynConfStore [])).2) by (by rewrite E).
      rewrite Es. vm_compute. reflexivity. }
    rewrite Hr in H |- *. exact H.
Defined.
