(* ===== verification/HttpDns.v ===== *)
(** * DNS over HTTPS (internal/dnscore/service.httpdns.go)

    [dnsQuery]: a DNS message in the query string (base64, GET) or the body
    (POST) is answered through the DNS pipeline.  The wire format of messages,
    of the DNS library, is the class [DnsWire]. *)

From stdpp Require Import base list gmap strings.
From Stdlib Require Import ZArith Lia Ascii.
From S2P Require Import Prelude GoStr Bytes Base64 Toy MemStore NetIP Dns.
Local Open Scope Z_scope.
Local Open Scope go_scope.

(** ** The handler *)

Class DnsWire := {
  Unpack : list byte -> exec Msg;
  Pack : Msg -> list byte + error;
}.

(** [dns] is [r.FormValue], [DohBody] what [io.ReadAll] makes of the body. *)
Record DohRequest := mkDohRequest {
  Method : string;
  ContentType : string;
  Accept : string;
  dns : string;
  DohBody : exec (list byte);
}.

Record DohResponse := mkDohResponse {
  DohStatus : Z;
  headers : list (string * string);
  dbody : list byte;
}.

Fixpoint split_on (sep : ascii) (s : string) : list string :=
  match s with
  | EmptyString => [EmptyString]
  | String a s =>
      if Ascii.eqb a sep then EmptyString :: split_on sep s
      else match split_on sep s with
           | p :: ps => String a p :: ps
           | [] => [String a EmptyString]
           end
  end.

Definition dns_message : string := "application/dns-message".
Definition USER_AGENT : string := "DNS-over-HTTPS/1.0 NekoQ-Bootstrap".

(** Some candidate of the Accept header, without its parameters. *)
Definition accepts (accept : string) : bool :=
  existsb (fun responseCandidate =>
    String.eqb (default EmptyString (head (split_on ";" responseCandidate))) dns_message)
    (split_on "," accept).

Definition base_headers : list (string * string) :=
  [("Access-Control-Allow-Headers", "Content-Type");
   ("Access-Control-Allow-Methods", "GET, HEAD, OPTIONS, POST");
   ("Access-Control-Allow-Origin", "*");
   ("Access-Control-Max-Age", "3600");
   ("Server", USER_AGENT);
   ("X-Powered-By", USER_AGENT)].

Section DnsHttp.
Context `{!DnsLib, !DnsNames, !UnicodeData, !SrvJson, !DnsWire}.

Notation Cache := (gmap string CacheEntry).

Definition refuse (status : Z) : M Cache DohResponse := ret (mkDohResponse status base_headers []).

(** The bytes of the message, or the error of decoding them. *)
Definition reqBin (r : DohRequest) : exec (list byte) :=
  if String.eqb (Method r) "GET" then DecodeString (dns r)
  else if String.eqb (Method r) "POST" then DohBody r
  else Panic "unsupported http method".

Definition answer_headers (date : string) : list (string * string) :=
  base_headers ++ [("Content-Type", dns_message); ("Date", date); ("Last-Modified", date);
                   ("Vary", "Accept")].

(** [now] and [date] are the time in seconds and as an HTTP date. *)
Definition dnsQuery_body (now : Z) (date : string) (endpoint : DnsEndpoint) (r : DohRequest)
    : M Cache DohResponse :=
  if String.eqb (Method r) "OPTIONS"
  then ret (mkDohResponse 200 (base_headers ++ [("Content-Length", "0")]) [])
  else if negb (String.eqb (ContentType r) dns_message) then refuse 415
  else if negb (accepts (Accept r)) && negb (String.eqb (ContentType r) dns_message)
  then panic "Unknown response Content-Type"
  else
    let* bin := catch (lift (reqBin r)) in
    match bin with
    | inr _ => refuse 400
    | inl [] => refuse 400
    | inl bin =>
        let* msg := catch (lift (Unpack bin)) in
        match msg with
        | inr _ => refuse 400
        | inl msg =>
            let* reply := ProcessDnsMsg now endpoint msg in
            match reply with
            | None => ret (mkDohResponse 404 (answer_headers date) [])
            | Some reply =>
                match Pack reply with
                | inr _ => ret (mkDohResponse 500 (answer_headers date) [])
                | inl bin => ret (mkDohResponse 200 (answer_headers date) bin)
                end
            end
        end
    end.

(** The handler recovers from panics after the first headers were set; nothing
    was written then, so the server answers 200 without a body. *)
Definition dnsQuery (now : Z) (date : string) (endpoint : DnsEndpoint) (r : DohRequest)
    : M Cache DohResponse :=
  fun c =>
    match dnsQuery_body now date endpoint r c with
    | (Panic _, c') => (Ok (mkDohResponse 200 base_headers []), c')
    | x => x
    end.
End DnsHttp.

(** ** Lemmas *)

(** [m] returns no error (it may panic). *)
Definition no_fail {S A} (m : M S A) : Prop := forall s e, (m s).1 <> Fail e.

Lemma no_fail_bind {S A B} (m : M S A) (k : A -> M S B) :
  no_fail m -> (forall a, no_fail (k a)) -> no_fail (bind m k).
Proof.
  intros Hm Hk s e. specialize (Hm s). unfold bind. destruct (m s) as [[a|e'| |] s']; cbn in *.
  - apply Hk.
  - by destruct (Hm e').
  - done.
  - done.
Qed.

Lemma no_fail_catch {S A} (m : M S A) : no_fail (catch m).
Proof. intros s e. unfold catch. by destruct (m s) as [[]?]. Qed.

Section PipelineLemmas.
Context `{!DnsLib, !DnsNames, !UnicodeData, !SrvJson}.

Lemma Question0_no_fail {S} m : no_fail (S := S) (Question0 m).
Proof. intros s e. unfold Question0. by destruct (Questions m). Qed.

Lemma NotFound_no_fail {S} b m : no_fail (S := S) (NotFound b m).
Proof. apply no_fail_bind; [apply Question0_no_fail|]. by intros q s e. Qed.

Lemma CacheGet_no_fail now m : no_fail (CacheGet now m).
Proof.
  apply no_fail_bind; [apply no_fail_bind; [apply Question0_no_fail|by intros q s e]|].
  intros key s e. unfold bind, get. destruct (s !! key); [|done]. by case_match.
Qed.

Lemma CachePut_no_fail now m r : no_fail (CachePut now m r).
Proof.
  unfold CachePut. destruct (checkHasValidTTL r) as [has ttl]. destruct has; [|by intros s e].
  apply no_fail_bind; [apply no_fail_bind; [apply Question0_no_fail|by intros q s e]|].
  by intros key s e.
Qed.

Lemma ProcessDnsMsg_no_fail now d m : no_fail (ProcessDnsMsg now d m).
Proof.
  unfold ProcessDnsMsg. case_match; [by intros s e|].
  apply no_fail_bind; [apply Question0_no_fail|]. intros q.
  apply no_fail_bind; [apply CacheGet_no_fail|]. intros [r|]; [by intros s e|].
  destruct (HandlerMapping d (Qtype q)).
  - apply no_fail_bind; [apply no_fail_catch|]. intros [r|err].
    + apply no_fail_bind; [apply CachePut_no_fail|]. by intros u s e.
    + intros s e. by case_decide.
  - apply no_fail_bind; [apply NotFound_no_fail|]. by intros r s e.
Qed.
End PipelineLemmas.

(** ** Properties *)

(** A request that carries the message [raw] in one of the two ways. *)
Definition carries (raw : list byte) (r : DohRequest) : Prop :=
  ContentType r = dns_message
  /\ (Method r = "GET" /\ dns r = RawURLEncode raw \/ Method r = "POST" /\ DohBody r = Ok raw).

(** C22. A query over HTTPS is a query of the DNS pipeline: a message sent in the
    query string or in the body - the two ways are decoded to the same bytes -
    leaves the cache as the pipeline does, and its reply is returned as packed
    bytes with status 200; no reply is status 404, a reply that cannot be packed
    500, and a failure of the pipeline is answered 200 without a body. *)
Theorem dnsQuery_serves `{!DnsLib, !DnsNames, !UnicodeData, !SrvJson, !DnsWire}
    now date d raw msg r c :
  carries raw r -> raw <> [] -> Unpack raw = Ok msg -> (ProcessDnsMsg now d msg c).1 <> NoFuel ->
  exists resp, dnsQuery now date d r c = (Ok resp, (ProcessDnsMsg now d msg c).2)
    /\ match (ProcessDnsMsg now d msg c).1 with
       | Ok (Some reply) =>
           match Pack reply with
           | inl b => DohStatus resp = 200 /\ dbody resp = b
                      /\ ("Content-Type", dns_message) ∈ headers resp
           | inr _ => DohStatus resp = 500 /\ dbody resp = []
           end
       | Ok None => DohStatus resp = 404 /\ dbody resp = []
       | _ => DohStatus resp = 200 /\ dbody resp = [] /\ headers resp = base_headers
       end.
Proof.
  intros [Hct Hm] Hraw Hu Hf.
  assert (Hb : reqBin r = Ok raw).
  { unfold reqBin. destruct Hm as [[-> ->]|[-> ->]]; [apply DecodeString_encode|done]. }
  assert (Ho : String.eqb (Method r) "OPTIONS" = false) by (destruct Hm as [[-> _]|[-> _]]; done).
  unfold dnsQuery, dnsQuery_body. rewrite Ho, Hct, String.eqb_refl. cbn [negb]. rewrite andb_false_r.
  unfold bind, catch, lift. rewrite Hb. destruct raw as [|b0 raw]; [done|]. rewrite Hu.
  assert (Hnf : forall e, (ProcessDnsMsg now d msg c).1 <> Fail e) by (intros e; apply ProcessDnsMsg_no_fail).
  destruct (ProcessDnsMsg now d msg c) as [[[reply|]|e|p|] c']; cbn [fst snd] in *.
  - destruct (Pack reply); eexists; (split; [reflexivity|]); split_and!; try done.
    cbn. set_solver.
  - by eexists.
  - by destruct (Hnf e).
  - by eexists.
  - done.
Qed.

(** What is not a DNS message is refused without being asked: a wrong content
    type is answered 415, a body that cannot be read, decoded or unpacked, or is
    empty, 400 - with no body and the cache as it was. *)
Theorem dnsQuery_refuses `{!DnsLib, !DnsNames, !UnicodeData, !SrvJson, !DnsWire} now date d r c :
  Method r = "GET" \/ Method r = "POST" ->
  (ContentType r <> dns_message ->
   dnsQuery now date d r c = (Ok (mkDohResponse 415 base_headers []), c))
  /\ (ContentType r = dns_message ->
      (exists e, reqBin r = Fail e) \/ reqBin r = Ok []
      \/ (exists bin e, reqBin r = Ok bin /\ Unpack bin = Fail e) ->
      dnsQuery now date d r c = (Ok (mkDohResponse 400 base_headers []), c)).
Proof.
  intros Hm.
  assert (Ho : String.eqb (Method r) "OPTIONS" = false) by (destruct Hm as [->| ->]; done).
  unfold dnsQuery, dnsQuery_body. rewrite Ho. split.
  - intros Hct. by rewrite (proj2 (String.eqb_neq _ _) Hct).
  - intros Hct Hb. rewrite Hct, String.eqb_refl. cbn [negb]. rewrite andb_false_r.
    unfold bind, catch, lift. destruct Hb as [(e & ->)|[->|(bin & e & -> & Hu)]]; [done..|].
    destruct bin as [|b bin]; [done|]. by rewrite Hu.
Qed.

(** A wire format of one-question messages: type and name as text. *)
Module ToyWire.
#[export] Instance toy_wire : DnsWire := {|
  Unpack bs := match toy_dec (A := Z * string) bs with
               | Ok t => Ok (mkMsg OpcodeQuery 0 [mkQuestion t.2 t.1] [])
               | _ => Fail (ExtError "malformed")
               end;
  Pack m := inl (toy_enc (Rcode m));
|}.
End ToyWire.
Export ToyWire.

Definition raw_question : list byte := toy_enc (TypeA, "db.lan.").

Lemma dnsQuery_serves_witness :
  exists resp, dnsQuery 100 "Mon, 01 Jan 2024 00:00:00 GMT" lan
      (mkDohRequest "GET" dns_message "" (RawURLEncode raw_question) (Fail EOF)) ∅
    = (Ok resp, (ProcessDnsMsg 100 lan (ask "db.lan." TypeA) ∅).2)
    /\ DohStatus resp = 200 /\ dbody resp = toy_enc RcodeSuccess.
Proof.
  destruct (dnsQuery_serves 100 "Mon, 01 Jan 2024 00:00:00 GMT" lan raw_question (ask "db.lan." TypeA)
    (mkDohRequest "GET" dns_message "" (RawURLEncode raw_question) (Fail EOF)) ∅)
    as (resp & E & Hr).
  - split; [reflexivity|]. left. split; reflexivity.
  - vm_compute. discriminate.
  - vm_compute. reflexivity.
  - vm_compute. discriminate.
  - exists resp. split; [exact E|]. destruct resp as [st hs b]. vm_compute in Hr.
    destruct Hr as (-> & -> & _). vm_compute. split; reflexivity.
Defined.

Lemma dnsQuery_refuses_witness :
  dnsQuery 100 "Mon, 01 Jan 2024 00:00:00 GMT" lan (mkDohRequest "GET" dns_message "" "A" (Fail EOF)) ∅
  = (Ok (mkDohResponse 400 base_headers []), ∅).
Proof.
  apply (dnsQuery_refuses 100 "Mon, 01 Jan 2024 00:00:00 GMT" lan (mkDohRequest "GET" dns_message "" "A" (Fail EOF)) ∅).
  - left. reflexivity.
  - reflexivity.
  - left. eexists. vm_compute. reflexivity.
Defined.
