(* ===== verification/KvService.v ===== *)
(** * The key-value services (internal/service/respservice*.go, httpservice.go, client/http.go)

    Two protocols over a storage: RESP commands, dispatched by lower-cased name,
    and an HTTP resource per key, with its client.  What a handler writes to the
    connection is a value; the RESP parser and the HTTP transport are
    libraries. *)

From stdpp Require Import base list gmap strings pretty.
From Stdlib Require Import ZArith Lia Ascii.
From S2P Require Import Prelude GoStr Bytes SequenceId Storage MemStore Ha.
Local Open Scope Z_scope.
Local Open Scope go_scope.

(** ** RESP *)

(** What a [RespResult] writes (internal/iface/resp2.go); none of the results
    the source makes returns an error. *)
Inductive RespResult :=
| RespErrorResult (msg : string)
| RespNilResult
| RespValueResult (val : list byte)
| RespStringResult (msg : string)
| RespIntResult (i : Z).

Section Resp.
Context {S : Type} `{!UnicodeData}.

Definition RespCommandHandler : Type := list (list byte) -> M S RespResult.

Record Resp2Service := mkResp { commandMapping : gmap string RespCommandHandler }.

Definition AddCommandHandler (command : string) (h : RespCommandHandler) (r : Resp2Service)
    : Resp2Service :=
  mkResp (<[ToLower command := h]> (commandMapping r)).

Definition NewResp2Service : Resp2Service :=
  AddCommandHandler "PING" (fun _ => ret (RespStringResult "PONG")) (mkResp ∅).

(** [args] are all the words of the command, its name first. *)
Definition processCommand (r : Resp2Service) (args : list (list byte)) : M S RespResult :=
  match args with
  | [] => panic "index out of range"
  | a0 :: _ =>
      let c := ToLower (string_of a0) in
      match commandMapping r !! c with
      | None => ret (RespErrorResult ("Unknown Command:" +:+ c))
      | Some h =>
          let* x := catch (h args) in
          match x with
          | inr _ => ret (RespErrorResult "Failure")
          | inl result => ret result
          end
      end
  end.
End Resp.
Arguments Resp2Service : clear implicits.
Arguments RespCommandHandler : clear implicits.

(** *** The commands of a storage *)

Module RespKVHandler.
Section RespKV.
Context {D : Type} `{!KVStorageAdv D, !UnicodeData}.

Definition get (args : list (list byte)) : M D RespResult :=
  match args with
  | _ :: k :: _ =>
      let* x := catch (kv_Get k) in
      match x with
      | inr _ => ret (RespErrorResult "Get value failed.")
      | inl None => ret RespNilResult
      | inl (Some val) => ret (RespValueResult val)
      end
  | _ => ret (RespErrorResult "lack arguments")
  end.

Definition put (args : list (list byte)) : M D RespResult :=
  match args with
  | _ :: k :: v :: _ =>
      let* x := catch (kv_Put k v) in
      match x with
      | inr _ => ret (RespErrorResult "Put value failed")
      | inl _ => ret (RespStringResult "OK")
      end
  | _ => ret (RespErrorResult "lack arguments")
  end.

End RespKV.
End RespKVHandler.

Section Register.
Context {D : Type} `{!KVStorageAdv D, !UnicodeData}.

Definition RegisterKV (rs : Resp2Service D) : Resp2Service D :=
  AddCommandHandler "put" RespKVHandler.put (AddCommandHandler "get" RespKVHandler.get rs).
End Register.

(** ** HTTP *)

(** The handlers of "/services/kvstore/:key"; an error of the handler is status
    500 ([newHandle] of internal/httpserver/http.go). *)
Section Http.
Context {D : Type} `{!KVStorageAdv D}.

Definition StatusNotFound : Z := 404.

Definition StatusOnlyResult (status : Z) : Response := only_status status None.
Definition RawResult (raw : list byte) : Response :=
  mkResponse StatusOK (Some "application/octet-stream") raw.

Definition newHandle (h : M D Response) : M D Response :=
  let* x := catch h in
  match x with
  | inr _ => ret (StatusOnlyResult StatusInternalServerError)
  | inl r => ret r
  end.

Definition kvstore_get (param : string) : M D Response :=
  let key := TrimSpace param in
  if String.eqb key "" then ret (StatusOnlyResult StatusBadRequest)
  else
    let* r := kv_Get (bytes_of key) in
    match r with
    | None => ret (StatusOnlyResult StatusNotFound)
    | Some val => ret (RawResult val)
    end.

(** [body] is what [io.ReadAll] makes of the request's body.  A failing [Put]
    is only logged. *)
Definition kvstore_put (param : string) (body : exec (list byte)) : M D Response :=
  let key := TrimSpace param in
  if String.eqb key "" then ret (StatusOnlyResult StatusBadRequest)
  else
    let* dat := lift body in
    let* _ := catch (kv_Put (bytes_of key) dat) in
    ret (StatusOnlyResult StatusOK).
End Http.

(** ** The client *)

(** The HTTP client: a request (method, URL, body) is answered by a status and
    what [io.ReadAll] makes of the response's body. *)
Class HttpDo (S : Type) := {
  http_Do : string -> string -> list byte -> M S (Z * exec (list byte));
}.

Section Client.
Context {S : Type} `{!HttpDo S}.

Record HttpServiceClient := mkHttpClient { endpoints : list string }.

Definition NewHttpServiceClient (endpoint : string) : HttpServiceClient := mkHttpClient [endpoint].

Definition pickEndpoint (h : HttpServiceClient) : M S string :=
  match endpoints h with
  | [] => panic "index out of range"
  | e :: _ => ret e
  end.

Definition KvPut (h : HttpServiceClient) (key : string) (val : list byte) : M S unit :=
  let key := TrimSpace key in
  if String.eqb key "" then fail (NewError "key is empty")
  else
    let* e := pickEndpoint h in
    let* resp := http_Do "PUT" (e +:+ ("/services/kvstore/" +:+ key)) val in
    if resp.1 =? StatusOK then ret tt
    else fail (NewError ("put kv failed, status:" +:+ pretty resp.1)).

Definition KvGet (h : HttpServiceClient) (key : string) : M S (option (list byte)) :=
  let key := TrimSpace key in
  if String.eqb key "" then fail (NewError "key is empty")
  else
    let* e := pickEndpoint h in
    let* r := http_Do "GET" (e +:+ ("/services/kvstore/" +:+ key)) [] in
    if r.1 =? StatusNotFound then ret None
    else if r.1 =? StatusOK then let* dat := lift r.2 in ret (Some dat)
    else fail (NewError ("get kv failed, status:" +:+ pretty r.1)).
End Client.

(** ** Specification *)

(** The service over a storage, and what it means on the map it keeps. *)
Definition kv_service {D} `{!KVStorageAdv D, !UnicodeData} : Resp2Service D :=
  RegisterKV NewResp2Service.

Definition valid_key (k : list byte) : bool := validateKeyFormat (string_of k).

Definition resp_spec (name : string) (args : list (list byte)) (m : gmap string (list byte))
    : RespResult * gmap string (list byte) :=
  if String.eqb name "ping" then (RespStringResult "PONG", m)
  else if String.eqb name "get" then
    match args with
    | k :: _ =>
        if valid_key k then
          (match m !! string_of k with Some v => RespValueResult v | None => RespNilResult end, m)
        else (RespErrorResult "Get value failed.", m)
    | [] => (RespErrorResult "lack arguments", m)
    end
  else if String.eqb name "put" then
    match args with
    | k :: v :: _ =>
        if valid_key k then (RespStringResult "OK", <[string_of k := v]> m)
        else (RespErrorResult "Put value failed", m)
    | _ => (RespErrorResult "lack arguments", m)
    end
  else (RespErrorResult ("Unknown Command:" +:+ name), m).

(** A session: the commands one after the other. *)
Fixpoint session {D} `{!KVStorageAdv D, !UnicodeData} (cs : list (list (list byte)))
    : M D (list RespResult) :=
  match cs with
  | [] => ret []
  | c :: cs =>
      let* r := processCommand kv_service c in
      let* rs := session cs in
      ret (r :: rs)
  end.

Fixpoint session_spec `{!UnicodeData} (cs : list (list (list byte))) (m : gmap string (list byte))
    : list RespResult * gmap string (list byte) :=
  match cs with
  | [] => ([], m)
  | c :: cs =>
      let '(r, m1) := resp_spec (ToLower (string_of (default [] (head c)))) (tail c) m in
      let '(rs, m2) := session_spec cs m1 in
      (r :: rs, m2)
  end.

(** Every word of a command is non-empty. *)
Definition words_ok (c : list (list byte)) : Prop := c <> [] /\ Forall (fun w => w <> []) c.

(** ** Lemmas *)

Section RespLemmas.
Context {D : Type} `{KL : KVLaws D, U : UnicodeData}.

Lemma kv_service_lookup c :
  commandMapping (kv_service (D := D)) !! c
  = if String.eqb c "ping" then Some (fun _ => ret (RespStringResult "PONG"))
    else if String.eqb c "get" then Some RespKVHandler.get
    else if String.eqb c "put" then Some RespKVHandler.put
    else None.
Proof.
  unfold kv_service, RegisterKV, NewResp2Service, AddCommandHandler. cbn [commandMapping].
  change (ToLower "PING") with "ping". change (ToLower "get") with "get".
  change (ToLower "put") with "put".
  destruct (String.eqb_spec c "ping") as [->|H1]; [reflexivity|].
  destruct (String.eqb_spec c "get") as [->|H2]; [reflexivity|].
  destruct (String.eqb_spec c "put") as [->|H3]; [reflexivity|].
  by rewrite !lookup_insert_ne by congruence.
Qed.

Lemma get_spec w args d :
  kv_ok d -> Forall (fun w => w <> []) args ->
  exists d', RespKVHandler.get (w :: args) d = (Ok (resp_spec "get" args (kv_map d)).1, d')
    /\ kv_ok d' /\ kv_map d' = (resp_spec "get" args (kv_map d)).2.
Proof.
  intros Hok Hne. destruct args as [|k args]; [by exists d|].
  apply Forall_cons in Hne as [Hk _]. cbn [RespKVHandler.get resp_spec String.eqb Ascii.eqb Bool.eqb].
  unfold resp_spec, valid_key. cbn [String.eqb Ascii.eqb Bool.eqb].
  destruct (validateKeyFormat (string_of k)) eqn:Hv.
  - destruct (kv_Get_valid d k Hok Hk Hv) as (d' & E & Hok' & Hm). exists d'.
    unfold bind, catch. rewrite E. by destruct (kv_map d !! string_of k).
  - exists d. unfold bind, catch. by rewrite (kv_Get_invalid d k Hv).
Qed.

Lemma put_spec w args d :
  kv_ok d -> Forall (fun w => w <> []) args ->
  exists d', RespKVHandler.put (w :: args) d = (Ok (resp_spec "put" args (kv_map d)).1, d')
    /\ kv_ok d' /\ kv_map d' = (resp_spec "put" args (kv_map d)).2.
Proof.
  intros Hok Hne. destruct args as [|k [|v args]]; [by exists d|by exists d|].
  apply Forall_cons in Hne as [Hk _].
  unfold RespKVHandler.put, resp_spec, valid_key. cbn [String.eqb Ascii.eqb Bool.eqb].
  destruct (validateKeyFormat (string_of k)) eqn:Hv.
  - destruct (kv_Put_valid d k v Hok Hk Hv) as (d' & E & Hok' & Hm). exists d'.
    unfold bind, catch. by rewrite E.
  - exists d. unfold bind, catch. by rewrite (kv_Put_invalid d k v Hv).
Qed.

Lemma processCommand_spec c d :
  kv_ok d -> words_ok c ->
  exists d', let s := resp_spec (ToLower (string_of (default [] (head c)))) (tail c) (kv_map d) in
    processCommand kv_service c d = (Ok s.1, d') /\ kv_ok d' /\ kv_map d' = s.2.
Proof.
  intros Hok [Hc Hne]. destruct c as [|w args]; [done|].
  cbn [head tail]. change (default [] (Some w)) with w.
  apply Forall_cons in Hne as [_ Hne]. unfold processCommand. rewrite kv_service_lookup.
  generalize (ToLower (string_of w)) as c. intros c. unfold bind, catch.
  destruct (String.eqb_spec c "ping") as [->|H1]; [by exists d|].
  destruct (String.eqb_spec c "get") as [->|H2].
  { destruct (get_spec w args d Hok Hne) as (d' & -> & Hok' & Hm). by exists d'. }
  destruct (String.eqb_spec c "put") as [->|H3].
  { destruct (put_spec w args d Hok Hne) as (d' & -> & Hok' & Hm). by exists d'. }
  exists d. unfold resp_spec.
  rewrite (proj2 (String.eqb_neq _ _) H1), (proj2 (String.eqb_neq _ _) H2),
    (proj2 (String.eqb_neq _ _) H3). done.
Qed.
End RespLemmas.

(** ** Properties *)

(** C21. A RESP session refines a map: whatever commands of non-empty words arrive,
    the replies and the contents of the storage are those of the abstract
    map - names in any case, extra words ignored, refused keys and missing words
    answered with an error and without effect. *)
Theorem resp_session_refines {D} `{KL : KVLaws D, U : UnicodeData} cs (d : D) :
  kv_ok d -> Forall words_ok cs ->
  exists d', session cs d = (Ok (session_spec cs (kv_map d)).1, d')
    /\ kv_ok d' /\ kv_map d' = (session_spec cs (kv_map d)).2.
Proof.
  intros Hok Hcs. revert d Hok. induction Hcs as [|c cs Hc _ IH]; intros d Hok; [by exists d|].
  destruct (processCommand_spec c d Hok Hc) as (d1 & E & Hok1 & Hm1).
  cbn [session session_spec]. unfold bind at 1. rewrite E.
  destruct (resp_spec _ _ _) as [r m1]. cbn [fst snd] in *. subst m1.
  destruct (IH d1 Hok1) as (d2 & E2 & Hok2 & Hm2). exists d2.
  unfold bind. rewrite E2. by destruct (session_spec cs (kv_map d1)).
Qed.

Lemma resp_session_refines_witness :
  exists d', session [bytes_of <$> ["PUT"; "k1"; "v"]; bytes_of <$> ["Get"; "k1"];
                      bytes_of <$> ["get"; "k-1"]; bytes_of <$> ["del"; "k1"]] (mkDisk ∅)
    = (Ok [RespStringResult "OK"; RespValueResult (bytes_of "v");
           RespErrorResult "Get value failed."; RespErrorResult "Unknown Command:del"], d')
    /\ files d' = {["k1" := bytes_of "v"]}.
Proof.
  destruct (resp_session_refines
    [bytes_of <$> ["PUT"; "k1"; "v"]; bytes_of <$> ["Get"; "k1"];
     bytes_of <$> ["get"; "k-1"]; bytes_of <$> ["del"; "k1"]] (mkDisk ∅))
    as (d' & E & _ & Hm); [done|repeat constructor; done|].
  exists d'. split; [rewrite E; vm_compute; reflexivity|].
  etransitivity; [exact Hm|]. vm_compute. reflexivity.
Defined.

(** ** The client over the server *)

(** Keys that travel unchanged as a path segment: unreserved characters of a
    URI, without the dot. *)
Definition url_char (a : ascii) : bool :=
  key_rune (Z_of_ascii a) || (Z_of_ascii a =? 45) || (Z_of_ascii a =? 126).
Definition segment (key : string) : Prop :=
  key <> EmptyString /\ Forall (fun a => url_char a = true) (String.list_ascii_of_string key).

Definition kv_url (e key : string) : string := e +:+ ("/services/kvstore/" +:+ key).

(** The transport brings a request for such a key to the handler of its method,
    and the handler's response back. *)
Class KvTransport (D : Type) `{!KVStorageAdv D, !HttpDo D} (e : string) : Prop := {
  carries_put key val d : segment key ->
    http_Do "PUT" (kv_url e key) val d
    = (let* r := newHandle (kvstore_put key (Ok val)) in ret (status r, Ok (body r))) d;
  carries_get key d : segment key ->
    http_Do "GET" (kv_url e key) [] d
    = (let* r := newHandle (kvstore_get key) in ret (status r, Ok (body r))) d;
}.

(** A transport that takes the key off the URL. *)
Module ToyHttp.
Fixpoint after (pre s : string) : option string :=
  match pre, s with
  | EmptyString, s => Some s
  | String a pre, String b s => if Ascii.eqb a b then after pre s else None
  | String _ _, EmptyString => None
  end.

Definition toy_http {D} `{!KVStorageAdv D} (e : string) : HttpDo D := {|
  http_Do method url val :=
    match after (e +:+ "/services/kvstore/") url with
    | Some key =>
        let* r := newHandle (if String.eqb method "PUT" then kvstore_put key (Ok val)
                             else kvstore_get key) in
        ret (status r, Ok (body r))
    | None => ret (StatusNotFound, Ok [])
    end
|}.

Lemma after_app pre s : after pre (pre +:+ s) = Some s.
Proof. induction pre as [|a pre IH]; [done|]. rewrite append_cons. cbn. by rewrite Ascii.eqb_refl. Qed.

Lemma toy_transport {D} `{!KVStorageAdv D} e :
  @KvTransport D _ (toy_http e) e.
Proof.
  split; intros; cbn; unfold kv_url; rewrite <-append_assoc, after_app; done.
Qed.
End ToyHttp.

Lemma strip_any_none_char (P : ascii -> bool) sps l :
  Forall (fun sp => Exists (fun a => P a = false) sp) sps -> Forall (fun a => P a = true) l ->
  strip_any sps l = None.
Proof.
  intros Hs Hl. apply strip_any_none. intros sp r Hin ->.
  rewrite Forall_forall in Hs. apply Forall_app in Hl as [Hl _].
  destruct (proj1 (Exists_exists _ _) (Hs sp Hin)) as (a & Ha & HP).
  rewrite Forall_forall in Hl. rewrite (Hl a Ha) in HP. done.
Qed.

Lemma segment_trimmed key : segment key -> TrimSpace key = key.
Proof.
  intros [_ Hall]. apply TrimSpace_id. split.
  - apply (strip_any_none_char url_char); [|done].
    repeat (constructor; [apply Exists_cons; left; reflexivity|]). constructor.
  - apply (strip_any_none_char url_char); [|by apply Forall_rev].
    repeat (constructor; [apply Exists_cons; left; reflexivity|]). constructor.
Qed.

Section ClientLemmas.
Context {D : Type} `{KL : KVLaws D, HD : !HttpDo D} (e : string) `{!KvTransport D e}.

Lemma segment_bytes key : segment key -> bytes_of key <> [] /\ string_of (bytes_of key) = key.
Proof.
  intros [Hne _]. split; [|apply string_of_bytes_of]. intros E. apply Hne.
  by rewrite <-(string_of_bytes_of key), E.
Qed.

Lemma KvPut_over key0 val d :
  kv_ok d -> segment (TrimSpace key0) ->
  let key := TrimSpace key0 in
  exists d', KvPut (NewHttpServiceClient e) key0 val d = (Ok tt, d') /\ kv_ok d'
    /\ kv_map d' = if validateKeyFormat key then <[key := val]> (kv_map d) else kv_map d.
Proof.
  intros Hok Hseg key. destruct (segment_bytes _ Hseg) as [Hb Hs].
  unfold KvPut. fold key. fold key in Hseg, Hb, Hs.
  destruct (String.eqb_spec key "") as [E|_]; [by destruct Hseg|].
  cbn [pickEndpoint NewHttpServiceClient endpoints]. unfold bind at 1, ret at 1.
  unfold bind at 1. fold (kv_url e key). rewrite (carries_put key val d Hseg).
  unfold newHandle, kvstore_put. rewrite (segment_trimmed key Hseg).
  destruct (String.eqb_spec key "") as [E|_]; [by destruct Hseg|].
  destruct (validateKeyFormat key) eqn:Hv.
  - rewrite <-Hs in Hv. destruct (kv_Put_valid d (bytes_of key) val Hok Hb Hv) as (d' & E & Hok' & Hm).
    rewrite Hs in Hm. exists d'. split; [|done]. unfold bind, catch, lift. rewrite E. done.
  - rewrite <-Hs in Hv. exists d. split; [|done]. unfold bind, catch, lift.
    by rewrite (kv_Put_invalid d (bytes_of key) val Hv).
Qed.

Lemma KvGet_over key0 d :
  kv_ok d -> segment (TrimSpace key0) ->
  let key := TrimSpace key0 in
  exists d', KvGet (NewHttpServiceClient e) key0 d
      = (if validateKeyFormat key then Ok (kv_map d !! key)
         else Fail (NewError "get kv failed, status:500"), d')
    /\ kv_ok d' /\ kv_map d' = kv_map d.
Proof.
  intros Hok Hseg key. destruct (segment_bytes _ Hseg) as [Hb Hs].
  unfold KvGet. fold key. fold key in Hseg, Hb, Hs.
  destruct (String.eqb_spec key "") as [E|_]; [by destruct Hseg|].
  cbn [pickEndpoint NewHttpServiceClient endpoints]. unfold bind at 1, ret at 1.
  unfold bind at 1. fold (kv_url e key). rewrite (carries_get key d Hseg).
  unfold newHandle, kvstore_get. rewrite (segment_trimmed key Hseg).
  destruct (String.eqb_spec key "") as [E|_]; [by destruct Hseg|].
  destruct (validateKeyFormat key) eqn:Hv; rewrite <-Hs in Hv.
  - destruct (kv_Get_valid d (bytes_of key) Hok Hb Hv) as (d' & E & Hok' & Hm).
    exists d'. split; [|done]. unfold bind, catch, lift. rewrite E, Hs.
    by destruct (kv_map d !! key).
  - exists d. split; [|done]. unfold bind, catch, lift.
    by rewrite (kv_Get_invalid d (bytes_of key) Hv).
Qed.
End ClientLemmas.

(** C26. The client writes and reads the server's map: for keys that are path
    segments once trimmed, [KvPut] returns no error, and a later [KvGet] of a
    key gives exactly what the map has.  [KvPut] returns no error for a key the
    storage refuses either - the map is unchanged - and only [KvGet] of it fails. *)
Theorem client_reads_writes {D} `{KL : KVLaws D, HD : !HttpDo D} e `{!KvTransport D e}
    k1 k2 val (d : D) :
  kv_ok d -> segment (TrimSpace k1) -> segment (TrimSpace k2) ->
  let m1 := if validateKeyFormat (TrimSpace k1) then <[TrimSpace k1 := val]> (kv_map d)
            else kv_map d in
  exists d1 d2, KvPut (NewHttpServiceClient e) k1 val d = (Ok tt, d1) /\ kv_map d1 = m1
    /\ KvGet (NewHttpServiceClient e) k2 d1
       = (if validateKeyFormat (TrimSpace k2) then Ok (m1 !! TrimSpace k2)
          else Fail (NewError "get kv failed, status:500"), d2)
    /\ kv_ok d2 /\ kv_map d2 = m1.
Proof.
  intros Hok H1 H2 m1. destruct (KvPut_over e k1 val d Hok H1) as (d1 & E1 & Hok1 & Hm1).
  destruct (KvGet_over e k2 d1 Hok1 H2) as (d2 & E2 & Hok2 & Hm2).
  exists d1, d2. split; [done|]. split; [exact Hm1|]. rewrite Hm1 in E2, Hm2. done.
Qed.

#[local] Instance local_http : HttpDo MapDisk := ToyHttp.toy_http "http://127.0.0.1:8080".
#[local] Instance local_transport : KvTransport MapDisk "http://127.0.0.1:8080" :=
  ToyHttp.toy_transport "http://127.0.0.1:8080".

Lemma client_reads_writes_witness :
  let h := NewHttpServiceClient "http://127.0.0.1:8080" in
  exists d1 d2, KvPut h " k1 " (bytes_of "v") (mkDisk ∅) = (Ok tt, d1)
    /\ KvGet h "k1" d1 = (Ok (Some (bytes_of "v")), d2)
    /\ exists d3, KvPut h "k-1" (bytes_of "v") (mkDisk ∅) = (Ok tt, d3) /\ files d3 = ∅.
Proof.
  assert (H1 : TrimSpace " k1 " = "k1") by (vm_compute; reflexivity).
  assert (H2 : TrimSpace "k-1" = "k-1") by (vm_compute; reflexivity).
  assert (H3 : TrimSpace "k1" = "k1") by (vm_compute; reflexivity).
  destruct (client_reads_writes "http://127.0.0.1:8080" " k1 " "k1" (bytes_of "v") (mkDisk ∅))
    as (d1 & d2 & E1 & Hm1 & E2 & _);
    [done|rewrite H1; split; [done|repeat constructor; done]|rewrite H3; split; [done|repeat constructor; done]|].
  destruct (client_reads_writes "http://127.0.0.1:8080" "k-1" "k1" (bytes_of "v") (mkDisk ∅))
    as (d3 & _ & E3 & Hm3 & _);
    [done|rewrite H2; split; [done|repeat constructor; done]|rewrite H3; split; [done|repeat constructor; done]|].
  exists d1, d2. split; [exact E1|]. split.
  - rewrite E2, H1, H3. vm_compute. reflexivity.
  - exists d3. split; [exact E3|]. etransitivity; [exact Hm3|]. vm_compute. reflexivity.
Defined.
