(* ===== verification/Replication.v ===== *)
(** * Primary-standby replication (internal/replication)

    [SimplePrimaryStandby]: its role, the peers of the cluster and the standby
    nodes it ships to, the RESP commands it answers, and the client it calls the
    peers with.  A RESP reply reaches the client as a Go value of a dynamic
    type, which the client converts with unchecked type assertions. *)

From stdpp Require Import base list gmap strings relations.
From Stdlib Require Import ZArith Lia.
From S2P Require Import Prelude GoStr Bytes SequenceId Wal KvStore MemStore KvService.
Local Open Scope Z_scope.
Local Open Scope go_scope.

(** ** Data *)

Definition RolePrimary : Z := 1.
Definition RoleStandby : Z := 2.

(** A value of type [any], by its dynamic type. *)
Inductive any :=
| AnyNil
| AnyInt (i : Z)
| AnyInt64 (i : Z)
| AnyString (s : string)
| AnyBytes (b : list byte)
| AnyOther.

(** [client] tells whether the redis client is there. *)
Record Resp2Client := mkClient { addr : string; client : bool }.

Definition NewResp2Client (addr : string) : Resp2Client := mkClient addr false.

Record SimplePrimaryStandbyConfig := mkConfig {
  NodeName : string;
  ClusterNodeMap : gmap string string;   (* the address of each node *)
}.

(** The two peer maps are [None] while they are nil. *)
Record SimplePrimaryStandby := mkPS {
  config : SimplePrimaryStandbyConfig;
  role : Z;
  cluster_peers : option (gmap string Resp2Client);
  cluster_size : Z;
  readyNodeCount : Z;
  standby_peers : option (gmap string Resp2Client);
}.

Definition with_role r (s : SimplePrimaryStandby) : SimplePrimaryStandby :=
  mkPS (config s) r (cluster_peers s) (cluster_size s) (readyNodeCount s) (standby_peers s).
Definition with_cluster p n (s : SimplePrimaryStandby) : SimplePrimaryStandby :=
  mkPS (config s) (role s) p n (readyNodeCount s) (standby_peers s).
Definition with_standby p n (s : SimplePrimaryStandby) : SimplePrimaryStandby :=
  mkPS (config s) (role s) (cluster_peers s) (cluster_size s) n p.

(** ** The client *)

(** [res] is the result of [client.Do(CommandRole)]. *)
Definition client_role (res : exec any) : exec Z :=
  match res with
  | Ok (AnyInt r) =>
      if r =? 1 then Ok RolePrimary
      else if r =? 2 then Ok RoleStandby
      else Fail (NewError "unknown role")
  | Ok _ => Panic "interface conversion"
  | Fail e => Fail e
  | Panic msg => Panic msg
  | NoFuel => NoFuel
  end.

(** [res1] answers on the old connection, [res2] on the new one. *)
Definition doConnect (res1 res2 : exec any) : M Resp2Client Z :=
  let* r := get in
  let reconnect :=
    let* _ := modify (fun r => mkClient (addr r) true) in
    lift (client_role res2) in
  if client r then
    let* x := catch (lift (client_role res1)) in
    match x with
    | inr _ =>
        let* _ := modify (fun r => mkClient (addr r) false) in
        reconnect
    | inl role => ret role
    end
  else reconnect.

(** [res] is the result of [client.Do] with the marshalled position; a missing
    client, of the node or of redis, is a nil pointer. *)
Definition syncAndRegister `{!Cbor} (c : option Resp2Client) (seq : SequenceId) (res : exec any)
    : exec (list byte) :=
  match Marshal_seq seq with
  | Ok _ =>
      if default false (client <$> c) then
        match res with
        | Ok (AnyBytes b) => Ok b
        | Ok _ => Panic "interface conversion"
        | Fail e => Fail e
        | Panic msg => Panic msg
        | NoFuel => NoFuel
        end
      else Panic "nil pointer dereference"
  | Fail e => Fail e
  | Panic msg => Panic msg
  | NoFuel => NoFuel
  end.

(** The attempts left, and the last error. *)
Fixpoint walShip_loop (retry : nat) (res : list (exec any)) (rerr : exec unit) : exec unit :=
  match retry with
  | O => rerr
  | S retry =>
      match default (Fail (ExtError "closed")) (head res) with
      | Fail e => walShip_loop retry (tail res) (Fail e)
      | Ok (AnyString v) =>
          if String.eqb v "OK" then Ok tt else Fail (NewError ("wal ship got not OK:" +:+ v))
      | Ok _ => Panic "interface conversion"
      | Panic msg => Panic msg
      | NoFuel => NoFuel
      end
  end.

(** [res] are the results of the successive [Do]; there is no client before the
    first [doConnect]. *)
Definition walShip (c : Resp2Client) (res : list (exec any)) : exec unit :=
  if client c then walShip_loop 3 res (Ok tt) else Panic "nil pointer dereference".

(** ** Operations *)

Definition NewSimplePrimaryStandby (config : SimplePrimaryStandbyConfig) : SimplePrimaryStandby :=
  mkPS config RoleStandby None 0 0 None.

Definition Writable (s : SimplePrimaryStandby) : bool :=
  (role s =? RolePrimary) && (readyNodeCount s =? cluster_size s).

Definition Promote : M SimplePrimaryStandby unit := modify (with_role RolePrimary).

Section Operations.
Context `{!MapRange}.

(** The loop of [Initialize] over the configured nodes. *)
Fixpoint add_peers (l : list (string * string)) : M SimplePrimaryStandby unit :=
  match l with
  | [] => ret tt
  | (k, v) :: l =>
      let* s := get in
      if String.eqb k (NodeName (config s)) then add_peers l
      else
        let* _ := modify (fun s => with_cluster (cluster_peers s) (cluster_size s + 1) s) in
        match cluster_peers s with
        | None => panic "assignment to entry in nil map"
        | Some p =>
            let* _ := modify (fun s =>
              with_cluster (Some (<[k := NewResp2Client v]> p)) (cluster_size s) s) in
            add_peers l
        end
  end.

(** [doConnect] on the client of a node; a client that is not in the map is a
    nil pointer. *)
Definition peerAlive (node : string) (res1 res2 : exec any) : M SimplePrimaryStandby (bool * bool) :=
  let* s := get in
  match cluster_peers s ≫= fun p => p !! node with
  | None => panic "nil pointer dereference"
  | Some c =>
      let '(r, c') := doConnect res1 res2 c in
      let* _ := modify (fun s =>
        with_cluster ((fun p => <[node := c']> p) <$> cluster_peers s) (cluster_size s) s) in
      let* x := catch (lift r) in
      match x with
      | inr _ => ret (false, false)
      | inl r => ret (true, r =? RolePrimary)
      end
  end.

Definition readyNode (node : string) : M SimplePrimaryStandby unit :=
  let* s := get in
  match standby_peers s ≫= fun p => p !! node with
  | Some _ => ret tt
  | None =>
      match ClusterNodeMap (config s) !! node with
      | None => fail (NewError ("no node found:" +:+ node))
      | Some n =>
          match standby_peers s with
          | None => panic "assignment to entry in nil map"
          | Some p =>
              modify (with_standby (Some (<[node := NewResp2Client n]> p)) (readyNodeCount s + 1))
          end
      end
  end.

(** [answers node] are the results of the calls to [node]; a node that fails is
    dropped and ends the loop. *)
Fixpoint ship_loop (answers : string -> list (exec any)) (l : list (string * Resp2Client))
    : M SimplePrimaryStandby unit :=
  match l with
  | [] => ret tt
  | (node, v) :: l =>
      let* x := catch (lift (walShip v (answers node))) in
      match x with
      | inr e =>
          let* _ := modify (fun s =>
            with_standby (delete node <$> standby_peers s) (readyNodeCount s - 1) s) in
          fail e
      | inl _ => ship_loop answers l
      end
  end.

Definition Ship (answers : string -> list (exec any)) : M SimplePrimaryStandby unit :=
  let* s := get in
  ship_loop answers (range (default ∅ (standby_peers s))).
End Operations.

(** ** The node: a replicator over a store with state [T] *)

(** The functions of the configuration. *)
Record Suppliers (T : Type) := mkSuppliers {
  SequenceIdSupplier : M T SequenceId;
  SnapshotSupplier : SequenceId -> M T (list byte);
  ApplySnapshotAndIncrementalFunction : list byte -> M T unit;
  ApplyWalLog : list byte -> M T unit;
}.
Arguments mkSuppliers {T}.
Arguments SequenceIdSupplier {T}.
Arguments SnapshotSupplier {T}.
Arguments ApplySnapshotAndIncrementalFunction {T}.
Arguments ApplyWalLog {T}.

Section Node.
Context {T : Type} `{!MapRange, !Cbor, !UnicodeData} (f : Suppliers T).

Notation Node := (T * SimplePrimaryStandby)%type.

(** *** The standby side *)

Definition doSyncAndRegister (node : string) (res : exec any) : M Node unit :=
  let* st := get in
  let* curId := on_fst (SequenceIdSupplier f) in
  let c := cluster_peers st.2 ≫= fun p => p !! node in
  let* dat := lift (syncAndRegister c curId res) in
  on_fst (ApplySnapshotAndIncrementalFunction f dat).

(** One round of [peerWorker]; the value is [ready]. *)
Definition peerWorker (node : string) (ready : bool) (res1 res2 res3 : exec any) : M Node bool :=
  let* a := on_snd (peerAlive node res1 res2) in
  let '(connected, connPrimary) := a in
  if connected then
    if negb connPrimary then ret ready
    else if negb ready then
      let* x := catch (doSyncAndRegister node res3) in
      match x with
      | inr _ => ret ready
      | inl _ => ret true
      end
    else ret ready
  else ret false.

(** *** The commands *)

Definition cmd_role (args : list (list byte)) : M Node RespResult :=
  let* st := get in
  if role st.2 =? RolePrimary then ret (RespIntResult 1)
  else if role st.2 =? RoleStandby then ret (RespIntResult 2)
  else ret (RespErrorResult "Unknown role").

Definition walship (args : list (list byte)) : M Node RespResult :=
  match args with
  | _ :: a1 :: _ =>
      let* x := catch (on_fst (ApplyWalLog f a1)) in
      match x with
      | inr _ => ret (RespErrorResult "wal ship failed")
      | inl _ => ret (RespStringResult "OK")
      end
  | _ => panic "index out of range"
  end.

Definition syncAndReg (args : list (list byte)) : M Node RespResult :=
  match args with
  | _ :: a1 :: a2 :: _ =>
      let* s := catch (lift (Unmarshal_seq a2)) in
      match s with
      | inr _ => ret (RespErrorResult "sequence id invalid")
      | inl seq =>
          let* d := catch (on_fst (SnapshotSupplier f seq)) in
          match d with
          | inr _ => ret (RespErrorResult "snapshot failed")
          | inl dat =>
              let* x := catch (on_snd (readyNode (string_of a1))) in
              match x with
              | inr _ => ret (RespErrorResult "node could not be ready")
              | inl _ => ret (RespValueResult dat)
              end
          end
      end
  | _ => panic "index out of range"
  end.

Definition promote (args : list (list byte)) : M Node RespResult :=
  let* x := catch (on_snd Promote) in
  match x with
  | inr _ => ret (RespErrorResult "promote failed")
  | inl _ => ret (RespStringResult "OK")
  end.

Definition Register (reg : Resp2Service Node) : Resp2Service Node :=
  AddCommandHandler "REPLICATOR.PROMOTE" promote
    (AddCommandHandler "REPLICATOR.SHIP" walship
      (AddCommandHandler "REPLICATOR.SYNC_REG" syncAndReg
        (AddCommandHandler "REPLICATOR.ROLE" cmd_role reg))).

(** The commands are registered before the peers are added. *)
Definition Initialize : M (Resp2Service Node * Node) unit :=
  let* _ := on_fst (modify Register) in
  let* st := get in
  on_snd (on_snd (add_peers (range (ClusterNodeMap (config st.2.2))))).
End Node.

(** ** The node as a step relation *)

Section Steps.
Context {T : Type} `{!MapRange, !Cbor, !UnicodeData} (f : Suppliers T).

(** Initialization, rounds of the workers with any replies, commands from
    anywhere, shipping, and anything the store does. *)
Inductive rep_step : T * SimplePrimaryStandby -> T * SimplePrimaryStandby -> Prop :=
| rs_initialize reg n : rep_step n (Initialize f (reg, n)).2.2
| rs_worker node ready r1 r2 r3 n : rep_step n (peerWorker f node ready r1 r2 r3 n).2
| rs_role args n : rep_step n (cmd_role args n).2
| rs_walship args n : rep_step n (walship f args n).2
| rs_sync args n : rep_step n (syncAndReg f args n).2
| rs_promote args n : rep_step n (promote args n).2
| rs_ship answers t s : rep_step (t, s) (t, (Ship answers s).2)
| rs_store t t' s : rep_step (t, s) (t', s).

(** The peer maps are still nil. *)
Definition nil_peers (s : SimplePrimaryStandby) : Prop :=
  cluster_peers s = None /\ standby_peers s = None /\ readyNodeCount s = 0.
End Steps.

(** ** Lemmas *)

Section Lemmas.
Context {T : Type} `{!MapRange, !Cbor, !UnicodeData} (f : Suppliers T).

Lemma keeps_on_snd {A} (I : SimplePrimaryStandby -> Prop) (m : M SimplePrimaryStandby A) :
  keeps I m -> keeps (S := T * SimplePrimaryStandby) (fun n => I n.2) (on_snd m).
Proof. intros Hm [t s] Hs. specialize (Hm s Hs). unfold on_snd. cbn in *. by destruct (m s). Qed.

Lemma keeps_on_fst {A} (I : SimplePrimaryStandby -> Prop) (m : M T A) :
  keeps (S := T * SimplePrimaryStandby) (fun n => I n.2) (on_fst m).
Proof. intros [t s] Hs. unfold on_fst. cbn in *. by destruct (m t). Qed.

Lemma add_peers_nil l : keeps nil_peers (add_peers l).
Proof.
  intros s Hs. induction l as [|[k v] l IH]; [done|]. cbn. unfold bind, get. cbn.
  destruct (String.eqb k (NodeName (config s))); [exact IH|].
  destruct Hs as (Hc & Hp & Hr). by rewrite Hc.
Qed.

Lemma add_peers_new cfg l :
  (add_peers l (NewSimplePrimaryStandby cfg)).1
  = if decide (Forall (fun kv => kv.1 = NodeName cfg) l) then Ok tt
    else Panic "assignment to entry in nil map".
Proof.
  induction l as [|[k v] l IH]; [done|]. cbn. unfold bind, get. cbn.
  destruct (String.eqb_spec k (NodeName cfg)) as [->|Hk].
  - rewrite IH. destruct (decide _) as [Hl|Hl], (decide (Forall _ (_ :: _))) as [Hl'|Hl']; try done.
    + by destruct Hl'; constructor.
    + by apply Forall_cons in Hl' as [_ ?].
  - rewrite decide_False; [done|]. by intros [? _]%Forall_cons.
Qed.

Lemma peerAlive_nil node r1 r2 s :
  nil_peers s -> peerAlive node r1 r2 s = (Panic "nil pointer dereference", s).
Proof. intros (Hc & _). unfold peerAlive, bind, get. by rewrite Hc. Qed.

Lemma readyNode_nil node s :
  nil_peers s ->
  readyNode node s
  = (if decide (is_Some (ClusterNodeMap (config s) !! node))
     then Panic "assignment to entry in nil map"
     else Fail (NewError ("no node found:" +:+ node)), s).
Proof.
  intros (_ & Hp & _). unfold readyNode, bind, get. rewrite Hp. cbn.
  destruct (ClusterNodeMap (config s) !! node) as [n|]; [by rewrite decide_True by by eexists|].
  rewrite decide_False; [done|]. by intros [? ?].
Qed.

Lemma Ship_nil answers s : nil_peers s -> Ship answers s = (Ok tt, s).
Proof.
  intros (_ & Hp & _). unfold Ship, bind, get. rewrite Hp. cbn [default].
  assert (E : range (∅ : gmap string Resp2Client) = []); [|by rewrite E].
  destruct (range ∅) as [|[k v] l] eqn:E; [done|].
  assert (Hin : (k, v) ∈ range (∅ : gmap string Resp2Client)) by (rewrite E; left).
  apply elem_of_range in Hin. by rewrite lookup_empty in Hin.
Qed.

Lemma keeps_eq {S A} (I : S -> Prop) (m : M S A) :
  (forall s, I s -> (m s).2 = s) -> keeps I m.
Proof. intros Hm s Hs. by rewrite (Hm s Hs). Qed.

Lemma readyNode_keeps node : keeps nil_peers (readyNode node).
Proof. apply keeps_eq. intros s Hs. by rewrite readyNode_nil. Qed.

Lemma Promote_keeps : keeps nil_peers Promote.
Proof. by intros s (Hc & Hp & Hr). Qed.

Lemma rep_step_nil n n' : rep_step f n n' -> nil_peers n.2 -> nil_peers n'.2.
Proof.
  intros Hs Hn. destruct Hs.
  - pose proof (add_peers_nil (range (ClusterNodeMap (config n.2))) n.2 Hn) as Hk.
    unfold Initialize, bind, on_fst, on_snd, modify, get. cbn [fst snd].
    by destruct (add_peers _ n.2).
  - unfold peerWorker, bind, on_snd. rewrite peerAlive_nil by done. by destruct n.
  - unfold cmd_role, bind, get. by repeat destruct (_ =? _).
  - revert n Hn. change (keeps (fun n : T * SimplePrimaryStandby => nil_peers n.2) (walship f args)).
    destruct args as [|? [|a1 ?]]; try by intros ?.
    apply keeps_bind; [apply keeps_catch, keeps_on_fst|]. by intros [|] ?.
  - revert n Hn. change (keeps (fun n : T * SimplePrimaryStandby => nil_peers n.2) (syncAndReg f args)).
    destruct args as [|? [|a1 [|a2 ?]]]; try by intros ?.
    apply keeps_bind; [auto with go|]. intros [seq|]; [|by intros ?].
    apply keeps_bind; [apply keeps_catch, keeps_on_fst|]. intros [dat|]; [|by intros ?].
    apply keeps_bind; [apply keeps_catch, keeps_on_snd, readyNode_keeps|]. by intros [|] ?.
  - revert n Hn. change (keeps (fun n : T * SimplePrimaryStandby => nil_peers n.2) (promote args)).
    apply keeps_bind; [apply keeps_catch, keeps_on_snd, Promote_keeps|]. by intros [|] ?.
  - cbn [snd]. by rewrite Ship_nil.
  - done.
Qed.

Lemma reachable_nil cfg t0 t s :
  rtc (rep_step f) (t0, NewSimplePrimaryStandby cfg) (t, s) -> nil_peers s.
Proof.
  change (nil_peers s) with (nil_peers (t, s).2).
  apply (rtc_ind_r (fun n => nil_peers n.2)); [done|].
  intros n n' _ Hs IH. by apply (rep_step_nil n n').
Qed.
End Lemmas.

(** ** Properties *)

(** C23. The replicator never has a peer: the peer maps are nil when it is made,
    and no initialization, worker round, command, shipping or change of the
    store - in any order, with any replies - makes them.  So in every reachable
    state a worker's round panics, a known node that registers panics, [Ship]
    succeeds without calling anyone, and the node is writable exactly when it is
    primary and no peer was counted. *)
Theorem replication_inert {T} `{!MapRange, !Cbor, !UnicodeData} (f : Suppliers T) cfg t0 t s :
  rtc (rep_step f) (t0, NewSimplePrimaryStandby cfg) (t, s) ->
  (forall answers, Ship answers s = (Ok tt, s))
  /\ (forall node ready r1 r2 r3,
        peerWorker f node ready r1 r2 r3 (t, s) = (Panic "nil pointer dereference", (t, s)))
  /\ (forall node, is_Some (ClusterNodeMap (config s) !! node) ->
        readyNode node s = (Panic "assignment to entry in nil map", s))
  /\ (Writable s = true <-> role s = RolePrimary /\ cluster_size s = 0).
Proof.
  intros Hn%reachable_nil.
  split; [intros answers; by apply Ship_nil|]. split.
  - intros node ready r1 r2 r3. unfold peerWorker, bind, on_snd. cbn [fst snd].
    by rewrite peerAlive_nil.
  - split.
    + intros node Hnode. rewrite readyNode_nil by done. by rewrite decide_True.
    + destruct Hn as (_ & _ & Hc). unfold Writable. rewrite Hc, andb_true_iff, !Z.eqb_eq. naive_solver.
Qed.

(** A store without content. *)
Definition no_suppliers : Suppliers unit := mkSuppliers
  (ret EmptySequenceId) (fun _ => ret []) (fun _ => ret tt) (fun _ => ret tt).

Definition two_nodes : SimplePrimaryStandbyConfig :=
  mkConfig "n1" {["n1" := "10.0.0.1:6379"; "n2" := "10.0.0.2:6379"]}.

Definition started : unit * SimplePrimaryStandby :=
  (Initialize no_suppliers (NewResp2Service, (tt, NewSimplePrimaryStandby two_nodes))).2.2.

Lemma replication_inert_witness :
  let s := (promote [] started).2.2 in
  role s = RolePrimary /\ Ship (fun _ => [Fail EOF]) s = (Ok tt, s) /\ Writable s = false.
Proof.
  destruct (replication_inert no_suppliers two_nodes tt tt (promote [] started).2.2)
    as (H & _ & _ & Hw).
  - eapply rtc_l; [exact (rs_initialize no_suppliers NewResp2Service _)|].
    apply rtc_once. exact (rs_promote no_suppliers [] started).
  - split; [vm_compute; reflexivity|]. split; [apply H|].
    destruct (Writable _); [|reflexivity].
    destruct (proj1 Hw eq_refl) as [_ Hz]. vm_compute in Hz. discriminate Hz.
Defined.

(** A cluster cannot start: [Initialize] of a new replicator succeeds exactly
    when the configuration names no node but this one, and panics otherwise; in
    every case the four commands are registered. *)
Theorem Initialize_needs_single_node {T} `{!MapRange, !Cbor, !UnicodeData} (f : Suppliers T)
    cfg reg t :
  let r := Initialize f (reg, (t, NewSimplePrimaryStandby cfg)) in
  r.1 = (if decide (map_Forall (fun node _ => node = NodeName cfg) (ClusterNodeMap cfg))
         then Ok tt else Panic "assignment to entry in nil map")
  /\ (forall h command, (command, h) ∈ [("REPLICATOR.ROLE", cmd_role);
        ("REPLICATOR.SYNC_REG", syncAndReg f); ("REPLICATOR.SHIP", walship f);
        ("REPLICATOR.PROMOTE", promote)] ->
        commandMapping r.2.1 !! ToLower command = Some h).
Proof.
  intros r. split.
  - subst r. unfold Initialize, bind, on_fst, on_snd, modify, get. cbn [fst snd].
    pose proof (add_peers_new cfg (range (ClusterNodeMap cfg))) as E.
    change (config (NewSimplePrimaryStandby cfg)) with cfg.
    destruct (add_peers _ _) as [x s']. cbn [fst] in *. subst x.
    assert (Hiff : Forall (fun kv => kv.1 = NodeName cfg) (range (ClusterNodeMap cfg))
              <-> map_Forall (fun node _ => node = NodeName cfg) (ClusterNodeMap cfg)).
    { rewrite Forall_forall. split.
      - intros Hl k v Hk. by apply (Hl (k, v)), elem_of_range.
      - intros Hm [k v] Hk%elem_of_range. by apply (Hm k v). }
    destruct (decide (Forall _ _)) as [Hd|Hd], (decide (map_Forall _ _)) as [Hd'|Hd']; tauto.
  - intros h command Hin.
    assert (E : r.2.1 = Register f reg).
    { subst r. unfold Initialize, bind, on_fst, on_snd, modify, get. cbn [fst snd].
      by destruct (add_peers _ _). }
    rewrite E. unfold Register, AddCommandHandler. cbn [commandMapping].
    change (ToLower "REPLICATOR.ROLE") with "replicator.role".
    change (ToLower "REPLICATOR.SYNC_REG") with "replicator.sync_reg".
    change (ToLower "REPLICATOR.SHIP") with "replicator.ship".
    change (ToLower "REPLICATOR.PROMOTE") with "replicator.promote".
    repeat (apply elem_of_cons in Hin as [Hin|Hin]; [injection Hin as -> ->|]);
      [..|by apply elem_of_nil in Hin].
    + change (ToLower "REPLICATOR.ROLE") with "replicator.role".
      by rewrite 3 lookup_insert_ne, lookup_insert_eq by done.
    + change (ToLower "REPLICATOR.SYNC_REG") with "replicator.sync_reg".
      by rewrite 2 lookup_insert_ne, lookup_insert_eq by done.
    + change (ToLower "REPLICATOR.SHIP") with "replicator.ship".
      by rewrite lookup_insert_ne, lookup_insert_eq by done.
    + change (ToLower "REPLICATOR.PROMOTE") with "replicator.promote". by rewrite lookup_insert_eq.
Qed.

Lemma Initialize_needs_single_node_witness :
  (Initialize no_suppliers (NewResp2Service, (tt, NewSimplePrimaryStandby two_nodes))).1
  = Panic "assignment to entry in nil map"
  /\ commandMapping (Initialize no_suppliers
       (NewResp2Service, (tt, NewSimplePrimaryStandby two_nodes))).2.1 !! "replicator.role"
     = Some cmd_role.
Proof.
  destruct (Initialize_needs_single_node no_suppliers two_nodes NewResp2Service tt) as [E H].
  split; [rewrite E; vm_compute; reflexivity|]. apply (H cmd_role "REPLICATOR.ROLE"). left.
Defined.

(** The Go values github.com/redis/go-redis makes of RESP2 replies: integers are
    [int64], simple and bulk strings are [string]. *)
Definition redis_reply (res : exec any) : Prop :=
  match res with
  | Ok (AnyInt _) | Ok (AnyBytes _) => False
  | _ => True
  end.

(** The client cannot read the replies of the server it is written for: with
    the dynamic types go-redis gives to replies, asking a peer for its role
    never returns a role and synchronising never returns data - each returns
    the transport's error or panics on its type assertion, and it panics on the
    replies of [cmd_role]; shipping alone works. *)
Theorem client_rejects_replies `{!Cbor} c res1 res2 seq :
  redis_reply res1 -> redis_reply res2 ->
  (forall role, (doConnect res1 res2 c).1 <> Ok role)
  /\ (forall dat, syncAndRegister (Some c) seq res1 <> Ok dat)
  /\ (forall i, (doConnect res1 (Ok (AnyInt64 i)) (NewResp2Client (addr c))).1
                = Panic "interface conversion")
  /\ (client c = true -> walShip c [Fail EOF; Fail EOF; Ok (AnyString "OK")] = Ok tt).
Proof.
  intros Hr1 Hr2. split_and!.
  - intros r. unfold doConnect, bind, get, modify, catch, lift. destruct (client c); cbn.
    + destruct res1 as [[| | | | |]| | |]; cbn in *; try done;
        destruct res2 as [[| | | | |]| | |]; cbn in *; done.
    + destruct res2 as [[| | | | |]| | |]; cbn in *; done.
  - intros dat. unfold syncAndRegister. cbn. destruct (Marshal_seq seq); try done.
    destruct (client c); [|done]. by destruct res1 as [[| | | | |]| | |].
  - by intros i.
  - intros Hc. unfold walShip. by rewrite Hc.
Qed.

Lemma client_rejects_replies_witness :
  (doConnect (Fail EOF) (Ok (AnyInt64 1)) (NewResp2Client "10.0.0.2:6379")).1
  = Panic "interface conversion".
Proof.
  apply (client_rejects_replies (mkClient "10.0.0.2:6379" true) (Fail EOF) (Ok (AnyInt64 1))
    EmptySequenceId); exact I.
Defined.
