(* ===== verification/Spskv.v ===== *)
(** * The replicated store (internal/service/spskv.go)

    [SimplePrimaryStandbyKVStore]: a [KVStorageAdvImpl] whose writes are shipped
    by the replicator, and which supplies the replicator with snapshots.  The
    cbor encoding of its two messages is the class [SpsCbor]. *)

From stdpp Require Import base list gmap strings relations.
From Stdlib Require Import ZArith Lia.
From S2P Require Import Prelude GoStr Bytes Toy SequenceId WalPage Wal WalNames WalLog WalOpen WalReplay.
From S2P Require Import Storage KvStore MemStore KvService Replication.
Local Open Scope Z_scope.
Local Open Scope go_scope.

(** ** Definitions *)

(** The snapshot is a pointer. *)
Record SpskvSnapshotEntry := mkSnapshotEntry { S : option Snapshot; L : list KvStore.WalLog }.

Class SpsCbor := {
  Marshal_snapshot : SpskvSnapshotEntry -> exec (list byte);
  Unmarshal_snapshot : list byte -> exec SpskvSnapshotEntry;
  Marshal_log : KvStore.WalLog -> exec (list byte);
  Unmarshal_log : list byte -> exec KvStore.WalLog;
}.

(** The single-node store as the storage [RespKVHandler] takes. *)
#[export] Instance KVStorageAdvImpl_ops {KV} `{!KVStorageAdv KV, !Cbor} : KVStorageAdv (World * KV) := {|
  kv_Put := KvStore.Put;
  kv_Get := KvStore.Get;
  kv_Initialize := KvStore.Initialize;
  kv_LatestSnapshotData := KvStore.LatestSnapshotData;
|}.

Section Sps.
Context {KV : Type} `{!KVStorageAdv KV, !Cbor, !SpsCbor, !MapRange, !UnicodeData}.

Notation Store := (World * KV)%type.
Notation Node := (Store * SimplePrimaryStandby)%type.

Definition sequenceIdSupplier : M Store SequenceId := CurrentPosition.

Definition snapshotSupplier (seq : SequenceId) : M Store (list byte) :=
  let* snapshot := KvStore.LatestSnapshotData (Term seq) in
  let* logs := WalLogs (SnapshotSequenceId snapshot) in
  lift (Marshal_snapshot (mkSnapshotEntry (Some snapshot) logs)).

(** The entries go to the storage itself, not through the log. *)
Fixpoint put_entries (es : list (list byte * list byte)) : M Store unit :=
  match es with
  | [] => ret tt
  | (k, v) :: es => let* _ := on_snd (kv_Put k v) in put_entries es
  end.

Definition applySnapshotAndIncrementalFn (dat : list byte) : M Store unit :=
  let* v := lift (Unmarshal_snapshot dat) in
  match S v with
  | None => panic "nil pointer dereference"
  | Some snapshot =>
      let* _ := put_entries (Entries snapshot) in
      Replay (L v)
  end.

Definition applyWalLog (dat : list byte) : M Store unit :=
  let* walLog := lift (Unmarshal_log dat) in
  Replay [walLog].

Definition sps_suppliers : Suppliers Store :=
  mkSuppliers sequenceIdSupplier snapshotSupplier applySnapshotAndIncrementalFn applyWalLog.

(** The get and put commands, on the store of the node. *)
Definition of_store (h : RespCommandHandler Store) : RespCommandHandler Node :=
  fun args => on_fst (h args).

Definition NewSimplePrimaryStandbyKVStore (cfg : SimplePrimaryStandbyConfig) (kv : Store)
    : Resp2Service Node * Node :=
  (AddCommandHandler "put" (of_store RespKVHandler.put)
     (AddCommandHandler "get" (of_store RespKVHandler.get) NewResp2Service),
   (kv, NewSimplePrimaryStandby cfg)).

Definition Initialize : M (Resp2Service Node * Node) unit :=
  let* _ := on_snd (on_fst KvStore.Initialize) in
  Replication.Initialize sps_suppliers.

Definition Put (answers : string -> list (exec any)) (k v : list byte) : M Node unit :=
  let* _ := on_fst (KvStore.Put k v) in
  let* seq := on_fst (on_fst CurrentSequence) in
  let* dat := lift (Marshal_log (mkWalLog k v false seq)) in
  on_snd (Ship answers).

Definition Get (k : list byte) : M Node (option (list byte)) := on_fst (KvStore.Get k).
End Sps.

(** ** A concrete encoding *)

Module ToySps.
Definition log_of (l : KvStore.WalLog) := (string_of (LogK l), string_of (LogV l), LogD l, seq_triple (LogSequenceId l)).
Definition of_log (t : string * string * bool * (Z * Z * Z)) : KvStore.WalLog :=
  mkWalLog (bytes_of t.1.1.1) (bytes_of t.1.1.2) t.1.2 (mkSeq t.2.1.1 t.2.1.2 t.2.2).
Definition strings_of (e : list byte * list byte) := (string_of e.1, string_of e.2).
Definition of_strings (e : string * string) := (bytes_of e.1, bytes_of e.2).
Definition snapshot_of (s : Snapshot) := (seq_triple (SnapshotSequenceId s), strings_of <$> Entries s).
Definition of_snapshot (t : Z * Z * Z * list (string * string)) : Snapshot :=
  mkSnapshot (mkSeq t.1.1.1 t.1.1.2 t.1.2) (of_strings <$> t.2).

#[export] Instance toy_sps : SpsCbor := {|
  Marshal_snapshot v := Ok (toy_enc (snapshot_of <$> S v, log_of <$> L v));
  Unmarshal_snapshot bs :=
    match toy_dec (A := option (Z * Z * Z * list (string * string))
                        * list (string * string * bool * (Z * Z * Z))) bs with
    | Ok v => Ok (mkSnapshotEntry (of_snapshot <$> v.1) (of_log <$> v.2))
    | _ => Fail (ExtError "malformed")
    end;
  Marshal_log l := Ok (toy_enc (log_of l));
  Unmarshal_log bs :=
    match toy_dec (A := string * string * bool * (Z * Z * Z)) bs with
    | Ok l => Ok (of_log l)
    | _ => Fail (ExtError "malformed")
    end;
|}.
End ToySps.
Export ToySps.

(** ** Lemmas *)

Section SpsLemmas.
Context {KV : Type} `{!KVStorageAdv KV, !Cbor, !SpsCbor, !MapRange, !UnicodeData}.

Lemma bind_never {T A B} (m : M T A) (k : A -> M T B) :
  (forall a s b, (k a s).1 <> Ok b) -> forall s b, (bind m k s).1 <> Ok b.
Proof. intros Hk s b. unfold bind. destruct (m s) as [[a| | |] s']; [apply Hk|done..]. Qed.

Lemma snapshotSupplier_never seq (s : World * KV) dat : (snapshotSupplier seq s).1 <> Ok dat.
Proof. revert s dat. by apply bind_never. Qed.

Lemma applySnapshot_never dat (s : World * KV) u : (applySnapshotAndIncrementalFn dat s).1 <> Ok u.
Proof.
  revert s u. apply bind_never. intros v s u. destruct (S v); [|done].
  revert s u. by apply bind_never.
Qed.

Lemma applyWalLog_never dat (s : World * KV) u : (applyWalLog dat s).1 <> Ok u.
Proof. revert s u. by apply bind_never. Qed.

End SpsLemmas.

(** ** Properties *)

(** Replication of this store cannot take place: the log replay and the log
    reading it is built on panic, so a SYNC_REG command never answers with a
    snapshot, a SHIP command never answers "OK", and a standby that received a
    snapshot never finishes applying it. *)
Theorem replication_never_succeeds {KV} `{!KVStorageAdv KV, !Cbor, !SpsCbor, !MapRange, !UnicodeData}
    args (n : (World * KV) * SimplePrimaryStandby) :
  (forall dat, (syncAndReg sps_suppliers args n).1 <> Ok (RespValueResult dat))
  /\ (walship sps_suppliers args n).1 <> Ok (RespStringResult "OK")
  /\ (forall node res, (doSyncAndRegister sps_suppliers node res n).1 <> Ok tt).
Proof.
  split_and!.
  - intros dat. destruct args as [|? [|a1 [|a2 ?]]]; try done. cbn [syncAndReg].
    unfold bind at 1, catch at 1, lift. destruct (Unmarshal_seq a2) as [seq| | |]; try done.
    unfold bind at 1, catch at 1, on_fst at 1. cbn [SnapshotSupplier sps_suppliers].
    pose proof (snapshotSupplier_never seq n.1) as Hn.
    destruct (snapshotSupplier seq n.1) as [[d| | |] s']; cbn in *; naive_solver.
  - destruct args as [|? [|a1 ?]]; try done. cbn [walship].
    unfold bind at 1, catch at 1, on_fst at 1. cbn [ApplyWalLog sps_suppliers].
    pose proof (applyWalLog_never a1 n.1) as Hn.
    destruct (applyWalLog a1 n.1) as [[d| | |] s']; cbn in *; naive_solver.
  - intros node res. revert n. unfold doSyncAndRegister. intros n.
    generalize tt. revert n. apply bind_never. intros st. apply bind_never. intros curId.
    apply bind_never. intros dat [s ps] u. unfold on_fst. cbn [fst snd].
    cbn [ApplySnapshotAndIncrementalFunction sps_suppliers].
    pose proof (applySnapshot_never dat s) as Hn.
    destruct (applySnapshotAndIncrementalFn dat s) as [[d| | |] s']; cbn in *; naive_solver.
Qed.

(** C30. A write is local whatever the role: in every state of the replicator that
    can be reached - standby or primary, with or without ready standby nodes -
    [Put] succeeds, appends to this node's list of puts, and calls no other
    node; the design has writes on the primary only, blocked until enough
    standby nodes are ready. *)
Theorem Put_unreplicated {KV} `{KL : KVLaws KV} `{CL : CborLaws}
    `{!SpsCbor, !MapRange, !UnicodeData} cfg t0 (s : World * KV) ps L es k v answers :
  rtc (rep_step sps_suppliers) (t0, NewSimplePrimaryStandby cfg) (s, ps) ->
  store_inv s L es -> entry_fits (maxPageSize (wal s.1)) (mkEntry k v false) ->
  curCollection (wal s.1) + 2 ^ 16 < 2 ^ 63 ->
  (forall log, exists dat, Marshal_log log = Ok dat) ->
  exists s' L', Put answers k v (s, ps) = (Ok tt, (s', ps))
    /\ store_inv s' L' (es ++ [mkEntry k v false]).
Proof.
  intros Hr Hs He Hc Hm.
  assert (Hn : nil_peers ps) by exact (reachable_nil sps_suppliers cfg t0 s ps Hr).
  destruct s as [w d].
  destruct (Put_steps w d L es k v Hs He Hc)
    as (w1 & L' & dat & d1 & d2 & _ & _ & Ep & _ & _ & _ & _ & _ & Hs').
  exists (w1, d2), L'. split; [|done].
  unfold Put, bind, on_fst, on_snd, lift. cbn [fst snd]. rewrite Ep. cbn [fst snd].
  unfold CurrentSequence, gets. cbn [fst snd].
  destruct (Hm (mkWalLog k v false (curPosition (wal w1)))) as (b & ->).
  by rewrite Ship_nil.
Qed.

Definition sps_config : SimplePrimaryStandbyConfig := mkConfig "n1" {["n1" := "10.0.0.1:6379"]}.

Lemma Put_unreplicated_witness :
  let ps := NewSimplePrimaryStandby sps_config in
  role ps = RoleStandby
  /\ exists s' L', Put (fun _ => []) (bytes_of "a") (bytes_of "1") (big_store, ps) = (Ok tt, (s', ps))
     /\ store_inv s' L' [mkEntry (bytes_of "a") (bytes_of "1") false].
Proof.
  split; [reflexivity|].
  apply (Put_unreplicated sps_config big_store big_store (NewSimplePrimaryStandby sps_config) [] []
           (bytes_of "a") (bytes_of "1") (fun _ => [])).
  - apply rtc_refl.
  - exact big_store_inv.
  - apply big_fits; [exact user_key_a|vm_compute; reflexivity].
  - vm_compute. reflexivity.
  - intros log. eexists. reflexivity.
Defined.
