(* ===== verification/Main.v ===== *)
(** * Start of the DNS service (cmd/nekoq-bootstrap/main.go)

    The static rules of the configuration file are put into the store before the
    endpoint over it is made; a reverse rule that is no address stops the start. *)

From stdpp Require Import base list gmap strings pretty.
From Stdlib Require Import ZArith Lia.
From S2P Require Import Prelude GoStr MemStore NetIP Dns DnsDyn.
Local Open Scope Z_scope.
Local Open Scope go_scope.

(** ** Definitions *)

(** [config.Dns.StaticRules], the upstream servers and the enclosed domains
    (type and suffix). *)
Record Config := mkConfig {
  rulesA : table;
  rulesTXT : table;
  rulesSRV : table;
  rulesPTR : table;
  UpstreamDnsServers : list string;
  EnclosureDomains : list (string * string);
}.

Section Start.
Context `{!MapRange, !DnsNames, !UnicodeData}.

(** One of the three loops over plain rules. *)
Fixpoint put_rules (t : Z) (l : list (string * string)) : M MemStore unit :=
  match l with
  | [] => ret tt
  | (k, v) :: l => let* _ := MemStore.PutDomain k v t in put_rules t l
  end.

(** The loop over reverse rules: an error is a panic. *)
Fixpoint put_reverse (l : list (string * string)) : M MemStore unit :=
  match l with
  | [] => ret tt
  | (k, v) :: l =>
      let* x := catch (AddIpReverseDnsToStorage MemStore.PutDomain k v) in
      match x with
      | inr _ => panic "invalid IP address"
      | inl _ => put_reverse l
      end
  end.

Definition load_rules (config : Config) : M MemStore unit :=
  let* _ := put_rules DomainTypeA (range (rulesA config)) in
  let* _ := put_rules DomainTypeTxt (range (rulesTXT config)) in
  let* _ := put_rules DomainTypeSrv (range (rulesSRV config)) in
  put_reverse (range (rulesPTR config)).

(** The store as the endpoint asks it. *)
Definition storage_of (m : MemStore) : DnsStorage := fun domain t => (MemStore.ResolveDomain domain t m).1.

Definition start_dns (config : Config) : M MemStore DnsEndpoint :=
  let* _ := load_rules config in
  gets (fun m => NewDnsEndpoint (storage_of m) (UpstreamDnsServers config) (EnclosureDomains config)).
End Start.

(** ** Lemmas *)

(** What a sequence of puts [(name, value)] of one type leaves in a store: the
    table of the type is extended, the others and the nested stores stay. *)
Section Lemmas.
Context `{!MapRange, !DnsNames, !UnicodeData}.

Definition static (m : MemStore) (t : Z) (x : string) : option string :=
  staticDomainMapping m !! t ≫= fun sub => sub !! x.

Lemma ResolveDomain_static x t m :
  storage_of m x t = match static m t (ToLower x) with
                     | Some r => Ok r
                     | None => resolve_nested (dnsStores m) (ToLower x) t
                     end.
Proof.
  unfold storage_of, MemStore.ResolveDomain, static, bind, get, lift, ret.
  destruct (staticDomainMapping m !! t) as [sub|]; [|done]. cbn. by destruct (sub !! ToLower x).
Qed.

Definition put_all (t : Z) (l : list (string * string)) (m : MemStore) : MemStore :=
  foldl (fun m kv => (MemStore.PutDomain kv.1 kv.2 t m).2) m l.

Lemma put_rules_all t l m : put_rules t l m = (Ok tt, put_all t l m).
Proof. revert m. induction l as [|[k v] l IH]; intros m; [done|]. apply IH. Qed.

Lemma put_all_stores t l m : dnsStores (put_all t l m) = dnsStores m.
Proof. revert m. induction l as [|[k v] l IH]; intros m; [done|]. etransitivity; [apply IH|done]. Qed.

Lemma static_put k v t m t' x :
  static (MemStore.PutDomain k v t m).2 t' x
  = if decide (t' = t /\ x = Fqdn (ToLower k)) then Some v else static m t' x.
Proof.
  unfold static. cbn [staticDomainMapping with_static MemStore.PutDomain modify snd].
  case_decide as Hd.
  - destruct Hd as [-> ->]. rewrite lookup_insert_eq. cbn. by rewrite lookup_insert_eq.
  - destruct (decide (t' = t)) as [->|Ht]; [|by rewrite lookup_insert_ne].
    rewrite lookup_insert_eq. cbn. rewrite lookup_insert_ne by naive_solver.
    destruct (staticDomainMapping m !! t); cbn; [done|by rewrite lookup_empty].
Qed.

(** The last value put for a name. *)
Fixpoint last_put (x : string) (l : list (string * string)) : option string :=
  match l with
  | [] => None
  | (k, v) :: l =>
      match last_put x l with
      | Some r => Some r
      | None => if decide (Fqdn (ToLower k) = x) then Some v else None
      end
  end.

Lemma static_put_all t l m t' x :
  static (put_all t l m) t' x
  = match (if decide (t' = t) then last_put x l else None) with
    | Some v => Some v
    | None => static m t' x
    end.
Proof.
  revert m. induction l as [|[k v] l IH]; intros m; [by case_decide|].
  change (put_all t ((k, v) :: l) m) with (put_all t l (MemStore.PutDomain k v t m).2).
  rewrite IH, static_put. cbn [last_put]. repeat case_decide; try naive_solver.
  - by destruct (last_put x l).
  - destruct (last_put x l); naive_solver.
Qed.

Lemma last_put_spec x l :
  match last_put x l with
  | Some v => exists k, (k, v) ∈ l /\ Fqdn (ToLower k) = x
  | None => forall k v, (k, v) ∈ l -> Fqdn (ToLower k) <> x
  end.
Proof.
  induction l as [|[k v] l IH]; cbn [last_put]; [by intros k v ?%elem_of_nil|].
  destruct (last_put x l) as [r|].
  - destruct IH as (k' & Hin & Hk). exists k'. split; [by right|done].
  - case_decide as Hd; [exists k; split; [left|done]|].
    intros k' v' [[= -> ->]|Hin]%elem_of_cons; [done|by apply (IH k' v')].
Qed.
End Lemmas.

Section Load.
Context `{!MapRange, !DnsNames, !UnicodeData}.

(** Valid reverse rules are puts of the reverse names. *)
Lemma put_reverse_ok l m :
  Forall (fun kv => IsValidIPAddress kv.1 = true) l ->
  exists l', put_reverse l m = (Ok tt, put_all DomainTypePtr l' m)
    /\ Forall2 (fun kv kv' => FromIPAddressToPtrFqdn kv.1 = Ok kv'.1 /\ kv'.2 = Fqdn (ToLower kv.2)) l l'.
Proof.
  intros Hall. revert m. induction Hall as [|[k v] l Hv _ IH]; intros m; [by exists []|].
  destruct (FromIPAddressToPtrFqdn_valid k Hv) as [r Hr].
  destruct (IH (MemStore.PutDomain r (Fqdn (ToLower v)) DomainTypePtr m).2) as (l' & E & Hl).
  exists ((r, Fqdn (ToLower v)) :: l'). split; [|by constructor].
  cbn [put_reverse]. unfold AddIpReverseDnsToStorage. cbn [fst] in Hv. rewrite Hv. cbn [negb].
  unfold bind, catch, lift. rewrite Hr. exact E.
Qed.

Lemma put_reverse_panics l m :
  Exists (fun kv => IsValidIPAddress kv.1 = false) l ->
  exists m', put_reverse l m = (Panic "invalid IP address", m').
Proof.
  revert m. induction l as [|[k v] l IH]; intros m Hex; [by apply Exists_nil in Hex|].
  cbn [put_reverse]. unfold AddIpReverseDnsToStorage.
  destruct (IsValidIPAddress k) eqn:Hv.
  - destruct (FromIPAddressToPtrFqdn_valid k Hv) as [r Hr]. apply Exists_cons in Hex as [Hx|Hx];
      [cbn in Hx; congruence|].
    destruct (IH (MemStore.PutDomain r (Fqdn (ToLower v)) DomainTypePtr m).2 Hx) as (m' & E).
    exists m'. cbn [negb]. unfold bind, catch, lift. rewrite Hr. exact E.
  - eexists. reflexivity.
Qed.

(** The store the start leaves. *)
Definition loaded (config : Config) (ptr : list (string * string)) (m : MemStore) : MemStore :=
  put_all DomainTypePtr ptr (put_all DomainTypeSrv (range (rulesSRV config))
    (put_all DomainTypeTxt (range (rulesTXT config)) (put_all DomainTypeA (range (rulesA config)) m))).

Lemma load_rules_loaded config m :
  map_Forall (fun k _ => IsValidIPAddress k = true) (rulesPTR config) ->
  exists ptr, load_rules config m = (Ok tt, loaded config ptr m)
    /\ Forall2 (fun kv kv' => FromIPAddressToPtrFqdn kv.1 = Ok kv'.1 /\ kv'.2 = Fqdn (ToLower kv.2))
         (range (rulesPTR config)) ptr.
Proof.
  intros Hv. unfold load_rules, bind. rewrite !put_rules_all.
  destruct (put_reverse_ok (range (rulesPTR config))
    (put_all DomainTypeSrv (range (rulesSRV config))
      (put_all DomainTypeTxt (range (rulesTXT config)) (put_all DomainTypeA (range (rulesA config)) m))))
    as (ptr & E & Hl).
  { apply Forall_forall. intros [k v] Hk%elem_of_range. by apply (Hv k v). }
  exists ptr. split; [exact E|done].
Qed.

Lemma load_rules_fails config m :
  ~ map_Forall (fun k _ => IsValidIPAddress k = true) (rulesPTR config) ->
  exists m', load_rules config m = (Panic "invalid IP address", m').
Proof.
  intros Hn. unfold load_rules, bind. rewrite !put_rules_all. apply put_reverse_panics.
  apply dec_stable. intros Hx. apply Hn. intros k v Hk.
  destruct (IsValidIPAddress k) eqn:Ev; [done|]. exfalso. apply Hx, Exists_exists.
  exists (k, v). split; [by apply elem_of_range|done].
Qed.

(** The rules of the three plain types. *)
Definition rules_of (config : Config) (t : Z) : table :=
  if t =? DomainTypeA then rulesA config
  else if t =? DomainTypeTxt then rulesTXT config
  else if t =? DomainTypeSrv then rulesSRV config
  else ∅.

Lemma static_loaded config ptr nested t x :
  static (loaded config ptr (NewMemStore nested)) t x
  = if decide (t = DomainTypePtr) then last_put x ptr
    else last_put x (range (rules_of config t)).
Proof.
  unfold loaded. rewrite !static_put_all.
  assert (E : static (NewMemStore nested) t x = None) 
    by (unfold static; cbn [NewMemStore staticDomainMapping]; by rewrite lookup_empty).
  rewrite E. unfold rules_of.
  destruct (decide (t = DomainTypePtr)) as [->|Hp]; [by destruct (last_put x ptr)|].
  destruct (decide (t = DomainTypeSrv)) as [->|Hs]; [by destruct (last_put x _)|].
  destruct (decide (t = DomainTypeTxt)) as [->|Ht]; [by destruct (last_put x _)|].
  destruct (decide (t = DomainTypeA)) as [->|Ha]; [by destruct (last_put x _)|].
  rewrite !(proj2 (Z.eqb_neq _ _)) by done.
  assert (Er : range (∅ : table) = []); [|by rewrite Er].
  destruct (range ∅) as [|[k v] l] eqn:Er; [done|].
  assert (Hin : (k, v) ∈ range (∅ : table)) by (rewrite Er; left).
  apply elem_of_range in Hin. by rewrite lookup_empty in Hin.
Qed.

(** The rules of a plain type that the start leaves. *)
Lemma rule_found config ptr nested t x k v :
  t <> DomainTypePtr -> rules_of config t !! k = Some v -> Fqdn (ToLower k) = x ->
  (forall k' v', rules_of config t !! k' = Some v' -> Fqdn (ToLower k') = x -> k' = k) ->
  static (loaded config ptr (NewMemStore nested)) t x = Some v.
Proof.
  intros Ht Hk Hx Huniq. rewrite static_loaded, decide_False by done.
  pose proof (last_put_spec x (range (rules_of config t))) as Hl. destruct (last_put _ _) as [v'|].
  - destruct Hl as (k' & Hin%elem_of_range & Hk'). rewrite (Huniq k' v' Hin Hk') in Hin. congruence.
  - destruct (Hl k v); [by apply elem_of_range|done].
Qed.

Lemma no_rule config ptr nested t x :
  t <> DomainTypePtr -> (forall k v, rules_of config t !! k = Some v -> Fqdn (ToLower k) <> x) ->
  static (loaded config ptr (NewMemStore nested)) t x = None.
Proof.
  intros Ht Hn. rewrite static_loaded, decide_False by done.
  pose proof (last_put_spec x (range (rules_of config t))) as Hl. destruct (last_put _ _) as [v|]; [|done].
  destruct Hl as (k & Hin%elem_of_range & Hk). by destruct (Hn k v).
Qed.

Lemma loaded_stores config ptr m : dnsStores (loaded config ptr m) = dnsStores m.
Proof. unfold loaded. by rewrite !put_all_stores. Qed.
End Load.

(** ** Properties *)

(** The start loads the rules as they are configured: when every reverse rule
    is an address, afterwards a lookup of type A, TXT or SRV gives the value of
    a rule whose name is equal up to case and final dot when there is one, a
    reverse lookup the target of a rule whose address has that reverse name, and
    any other lookup is the nested stores' answer; with an invalid reverse rule
    the start panics. *)
Theorem load_rules_serves `{!MapRange, !DnsNames, !UnicodeData} config nested :
  (map_Forall (fun k _ => IsValidIPAddress k = true) (rulesPTR config) ->
   exists m, load_rules config (NewMemStore nested) = (Ok tt, m)
     /\ (forall x t, t <> DomainTypePtr ->
          (exists k v, rules_of config t !! k = Some v /\ Fqdn (ToLower k) = ToLower x
             /\ storage_of m x t = Ok v)
          \/ (forall k v, rules_of config t !! k = Some v -> Fqdn (ToLower k) <> ToLower x)
             /\ storage_of m x t = resolve_nested nested (ToLower x) t)
     /\ (forall x,
          (exists k v r, rulesPTR config !! k = Some v /\ FromIPAddressToPtrFqdn k = Ok r
             /\ Fqdn (ToLower r) = ToLower x
             /\ storage_of m x DomainTypePtr = Ok (Fqdn (ToLower v)))
          \/ (forall k v r, rulesPTR config !! k = Some v -> FromIPAddressToPtrFqdn k = Ok r ->
                Fqdn (ToLower r) <> ToLower x)
             /\ storage_of m x DomainTypePtr = resolve_nested nested (ToLower x) DomainTypePtr))
  /\ (~ map_Forall (fun k _ => IsValidIPAddress k = true) (rulesPTR config) ->
      (load_rules config (NewMemStore nested)).1 = Panic "invalid IP address").
Proof.
  split.
  - intros Hv. destruct (load_rules_loaded config (NewMemStore nested) Hv) as (ptr & E & Hp).
    eexists. split; [exact E|]. split.
    + intros x t Ht. rewrite ResolveDomain_static, static_loaded, loaded_stores, decide_False by done.
      pose proof (last_put_spec (ToLower x) (range (rules_of config t))) as Hl.
      destruct (last_put _ _) as [v|]; [left|right].
      * destruct Hl as (k & Hin%elem_of_range & Hk). eauto.
      * split; [|done]. intros k v Hin. apply (Hl k v). by apply elem_of_range.
    + intros x. rewrite ResolveDomain_static, static_loaded, loaded_stores, decide_True by done.
      pose proof (last_put_spec (ToLower x) ptr) as Hl.
      destruct (last_put _ _) as [v|]; [left|right].
      * destruct Hl as (r & Hin & Hr). destruct (Forall2_elem_r _ _ _ _ Hp Hin) as ([k w] & Hk & E1 & E2).
        apply elem_of_range in Hk. cbn in *. subst v. eauto 10.
      * split; [|done]. intros k v r Hk Hr. apply elem_of_range in Hk.
        destruct (Forall2_elem_l _ _ _ _ Hp Hk) as ([r' w] & Hin & E1 & E2). cbn in *.
        rewrite Hr in E1. injection E1 as ->. by apply (Hl r' w).
  - intros Hn. by destruct (load_rules_fails config (NewMemStore nested) Hn) as (m' & ->).
Qed.

Definition small_config : Config :=
  mkConfig {["Db.Lan" := "10.0.0.7"]} ∅ ∅ {["10.0.0.7" := "DB.lan"]} [] [].

Lemma load_rules_serves_witness :
  exists m, load_rules small_config (NewMemStore []) = (Ok tt, m)
    /\ storage_of m "db.lan." DomainTypeA = Ok "10.0.0.7".
Proof.
  destruct (load_rules_serves small_config []) as [H _]. destruct H as (m & E & Hp & _).
  - intros k v Hk. cbn [rulesPTR small_config] in Hk. apply lookup_singleton_Some in Hk as [<- <-].
    vm_compute. reflexivity.
  - exists m. split; [exact E|].
    destruct (Hp "db.lan." DomainTypeA ltac:(discriminate)) as [(k & v & Hk & _ & Hs)|[Hn _]].
    + cbn in Hk. apply lookup_singleton_Some in Hk as [<- <-]. exact Hs.
    + destruct (Hn "Db.Lan" "10.0.0.7"); [apply lookup_singleton_eq|vm_compute; reflexivity].
Defined.

(** From the configuration file to the wire: after the start, a question for
    the name of a plain rule - the only rule of that name - is answered with
    exactly the record of its value, if the value makes a record and nothing is
    cached for the question. *)
Theorem configured_record_answered `{!MapRange, !DnsLib, !DnsNames, !UnicodeData, !SrvJson}
    `{!DnsLibLaws _} config nested d m now q r c k v rr :
  start_dns config (NewMemStore nested) = (Ok d, m) ->
  storage_type (Qtype q) <> DomainTypePtr ->
  rules_of config (storage_type (Qtype q)) !! k = Some v -> Fqdn (ToLower k) = ToLower (Name q) ->
  (forall k' v', rules_of config (storage_type (Qtype q)) !! k' = Some v' ->
     Fqdn (ToLower k') = ToLower (Name q) -> k' = k) ->
  static_record (Qtype q) (Name q) v = Some rr ->
  Questions r = [q] -> c !! (ToLower (Fqdn (Name q)) +:+ "::" +:+ pretty (Qtype q)) = None ->
  exists reply c', ServeDNS now d r c = (Ok (Some reply), c')
    /\ Rcode reply = RcodeSuccess /\ Questions reply = [q] /\ Answer reply = [rr].
Proof.
  intros Hd Ht Hk Hx Huniq Hrr Hq Hc.
  assert (Hload : exists ptr, load_rules config (NewMemStore nested) = (Ok tt, loaded config ptr (NewMemStore nested))).
  { destruct (decide (map_Forall (fun k _ => IsValidIPAddress k = true) (rulesPTR config))) as [Hv|Hv].
    - destruct (load_rules_loaded config (NewMemStore nested) Hv) as (ptr & E & _). by exists ptr.
    - unfold start_dns, bind in Hd. destruct (load_rules_fails config (NewMemStore nested) Hv) as (m' & E).
      by rewrite E in Hd. }
  destruct Hload as (ptr & E). unfold start_dns, bind in Hd. rewrite E in Hd. injection Hd as <- <-.
  assert (Hs : storage_of (loaded config ptr (NewMemStore nested)) (Name q) (storage_type (Qtype q)) = Ok v)
    by (rewrite ResolveDomain_static; by rewrite (rule_found _ _ _ _ _ k v)).
  eexists _, _. split; [eapply ServeDNS_static; [exact Hq|exact Hc|exact Hs|exact Hrr]|].
  split_and!; [apply reply_rcode|by apply (reply_question _ _ q [])|done].
Qed.

Lemma configured_record_answered_witness :
  exists reply c', ServeDNS 100 (NewDnsEndpoint
        (storage_of (load_rules small_config (NewMemStore [])).2) [] []) (ask "DB.lan." TypeA) ∅
      = (Ok (Some reply), c')
    /\ Rcode reply = RcodeSuccess /\ Questions reply = [mkQuestion "DB.lan." TypeA]
    /\ Answer reply = [RR_A (mkHdr "DB.lan." TypeA ClassINET 3600) (ParseIP "10.0.0.7")].
Proof.
  apply (configured_record_answered small_config [] _ (load_rules small_config (NewMemStore [])).2 100
           (mkQuestion "DB.lan." TypeA) (ask "DB.lan." TypeA) ∅ "Db.Lan" "10.0.0.7").
  - assert (E : (load_rules small_config (NewMemStore [])).1 = Ok tt) by (vm_compute; reflexivity).
    unfold start_dns, bind. destruct (load_rules small_config (NewMemStore [])) as [x m].
    cbn [fst] in E. rewrite E. reflexivity.
  - discriminate.
  - apply lookup_singleton_eq.
  - vm_compute. reflexivity.
  - intros k' v' Hk _. change (({["Db.Lan" := "10.0.0.7"]} : table) !! k' = Some v') in Hk. apply lookup_singleton_Some in Hk as [<- _]. reflexivity.
  - reflexivity.
  - reflexivity.
  - apply lookup_empty.
Defined.
