(* ===== verification/Process.v ===== *)
(** * The process (cmd/nekoq-bootstrap/main.go)

    [main]: from the configuration file to the running parts - the store with
    the dynamic store nested in it, the cluster module, the DNS endpoint and the
    registry - and the goroutines it leaves.  [process_step] is what can happen
    afterwards.  The parts share the store, so what one of them writes the others
    see. *)

From stdpp Require Import base list gmap strings pretty relations.
From Stdlib Require Import ZArith Lia.
From S2P Require Import Prelude GoStr Bytes Base64 Toy JsonText NetUrl NetIP MemStore MemSync Ha HttpEndpoint JsonPayload Cluster Dns DnsDyn Main.
Local Open Scope Z_scope.
Local Open Scope go_scope.

#[local] Remove Hints toy_json toy_json_laws toy_ha toy_ha_laws toy_items toy_srv : typeclass_instances.
#[local] Existing Instance go_ha_json.
#[local] Existing Instance go_ha_laws.
#[local] Existing Instance go_items.
#[local] Existing Instance go_srv.

(** ** Definitions *)

(** [Config] as the file has it; the part of the DNS endpoint is [Main.Config]. *)
Record Bootstrap := mkBootstrap {
  storage_provider : string;
  cluster_name : string;
  cluster_secret : string;
  node_name : string;
  cluster_listener : string;
  cluster_nodes : table;
  dns_enable : bool;
  dns_listener : string;
  dns_http_listener : string;
  dns_part : Main.Config;
  dns_dyn : option (list string);
  http_listener : string;
  http_enable_auth : bool;
  http_access_password : string;
}.

(** The goroutines a process starts: their loops are the steps below. *)
Inductive Goroutine :=
| ProcessSyncWorker_
| PeerSyncWorker_ (peer node : string)
| CheckPeerHealth_
| ClusterListener (addr : string)
| DnsListener (net addr : string)
| DnsHttpListener (addr : string)
| CheckPublishClients_
| HttpListener (addr : string).

(** What the libraries answer while the process starts: for a listener, the error
    it ends with, or [None] if it serves. *)
Record Outside := mkOutside {
  gops_Listen : option error;
  DecodeFile : Bootstrap + error;
  config_client : ClientRun;
  http_ListenAndServe : string -> option error;            (* by address *)
  dns_ListenAndServe : string -> string -> option error;   (* by network and address *)
}.

(** The running parts.  [upstream] is [None] when DNS is off; the address of a
    listener is the host of its URL. *)
Record Process := mkProcess {
  server : Server;
  dynamic : option DnsDynConfStore;
  upstream : option (option UpstreamDns);
  cache : gmap string CacheEntry;
  goroutines : list Goroutine;
}.

(** [if err != nil { panic(err) }]. *)
Definition must {A} (x : exec A) : exec A :=
  match x with Fail e => Panic (error_text e) | _ => x end.

Section Process.
Context `{!MapRange, !DnsNames, !UnicodeData, !DnsLib} (nil : bool).
#[local] Instance process_json : Json := go_json nil.
#[local] Instance process_json_laws : JsonLaws process_json := go_json_laws nil.

(** The nested stores of the store: the dynamic one, as it is now. *)
Definition nested (dyn : option DnsDynConfStore) : list DnsStorage :=
  match dyn with
  | None => []
  | Some d => [fun domain t => (DnsDyn.ResolveDomain domain t d).1]
  end.

(** The listener of a URL: the host of the URL is the address. *)
Definition serve (o : Outside) (addr : string) : exec string :=
  let! u := must (Parse addr) in
  let! _ := must (returned (http_ListenAndServe o (bytes_str (NetUrl.Host u)))) in
  Ok (bytes_str (NetUrl.Host u)).

(** [HaModule.StartSync], which ends in the listener of [HttpEndpoint]. *)
Definition StartSync (o : Outside) (listen : string) (h : HaModule) : exec (list Goroutine) :=
  let peers := (fun kv => PeerSyncWorker_ kv.2 kv.1) <$> range (NodePeerMapping h) in
  let! addr := serve o listen in
  Ok (ProcessSyncWorker_ :: peers ++ [CheckPeerHealth_; ClusterListener addr]).

(** The part under [config.DnsDyn != nil]. *)
Definition start_dynamic (o : Outside) (config : Bootstrap) : exec (option DnsDynConfStore) :=
  match dns_dyn config with
  | None => Ok None
  | Some servers =>
      let '(r, store) := Startup (config_client o) (NewDnsDynConfStore servers) in
      let! _ := must r in Ok (Some store)
  end.

(** [dnscore.NewHttpDns]: the address it will listen at; GET and POST of
    /dns-query both go to [HttpDns.dnsQuery], over the endpoint. *)
Definition NewHttpDns (addr : string) : exec string :=
  let! u := Parse addr in Ok (bytes_str (NetUrl.Host u)).

(** The part under [config.Dns.Enable]: the store with the rules, the upstream
    and the goroutines. *)
Definition start_endpoints (o : Outside) (config : Bootstrap) (storage : MemStore)
    : exec (MemStore * option (option UpstreamDns) * list Goroutine) :=
  if dns_enable config then
    let '(r, storage) := start_dns (dns_part config) storage in
    let! endpoint := r in
    let! u := must (Parse (dns_listener config)) in
    let! http := must (NewHttpDns (dns_http_listener config)) in
    let net := bytes_str (Scheme u) in
    let addr := bytes_str (NetUrl.Host u) in
    let! _ := must (returned (dns_ListenAndServe o net addr)) in
    let! _ := must (returned (http_ListenAndServe o http)) in
    Ok (storage, Some (Upstream endpoint), [DnsListener net addr; DnsHttpListener http])
  else Ok (storage, None, []).

(** [main] with the decoded file, up to where every listener serves.  Each of them
    has a goroutine of its own: its panic ends the process, whether [main] has
    come to its end or not. *)
Definition start (o : Outside) (config : Bootstrap) : exec Process :=
  let! dyn := start_dynamic o config in
  let! storage :=
    if String.eqb (storage_provider config) "mem" then Ok (NewMemStore (nested dyn))
    else Panic "unknown storage provider" in
  let server storage :=
    start_server (node_name config) (cluster_name config) (cluster_secret config)
      (cluster_nodes config) (http_enable_auth config) (http_access_password config) storage in
  let! ha_routines := StartSync o (cluster_listener config) (ha (server storage)) in
  let! (storage, dns, dns_routines) := start_endpoints o config storage in
  let! addr := serve o (http_listener config) in
  Ok (mkProcess (server storage) dyn dns ∅
        (ha_routines ++ dns_routines
         ++ [CheckPublishClients_; HttpListener addr])).

Definition main (o : Outside) : exec Process :=
  let! _ := must (returned (gops_Listen o)) in
  let! config := must (match DecodeFile o with inl c => Ok c | inr e => Fail e end) in
  start o config.

(** *** What happens afterwards *)

(** The store, with the dynamic store as it is now. *)
Definition current (p : Process) : MemStore :=
  let m := Ha.Storage (ha (server p)) in
  mkStore (staticDomainMapping m) (services m) (currentServices m) (dataFrom m) (dataTo m) (nested (dynamic p)).

Definition endpoint (p : Process) : option DnsEndpoint := mkDns (storage_of (current p)) <$> upstream p.

Definition with_server s (p : Process) : Process := mkProcess s (dynamic p) (upstream p) (cache p) (goroutines p).
Definition with_dynamic d (p : Process) : Process := mkProcess (server p) (Some d) (upstream p) (cache p) (goroutines p).
Definition with_cache c (p : Process) : Process := mkProcess (server p) (dynamic p) (upstream p) c (goroutines p).

(** A step of the cluster module or the registry, a change of the dynamic
    records, a DNS request, a round of the cache's cleanup. *)
Inductive process_step : Process -> Process -> Prop :=
| ps_server s p : server_step nil (server p) s -> process_step p (with_server s p)
| ps_change c p d d' :
    dynamic p = Some d -> onChange c d = (Ok tt, d') -> process_step p (with_dynamic d' p)
| ps_query now r p d :
    endpoint p = Some d -> process_step p (with_cache (ServeDNS now d r (cache p)).2 p)
| ps_cleanup now p : process_step p (with_cache (cleanup now (cache p)).2 p).
End Process.

(** ** The start *)

Section Start.
Context `{!MapRange, !DnsNames, !UnicodeData}.

Definition host_of (addr host : string) : Prop :=
  exists u, Parse addr = Ok u /\ host = bytes_str (NetUrl.Host u).

(** The address parses and its listener serves. *)
Definition serves (o : Outside) (addr : string) : Prop :=
  exists host, host_of addr host /\ http_ListenAndServe o host = None.

Definition serves_dns (o : Outside) (addr : string) : Prop :=
  exists u, Parse addr = Ok u /\ dns_ListenAndServe o (bytes_str (Scheme u)) (bytes_str (NetUrl.Host u)) = None.

(** What the configuration and the libraries must be for the process to start. *)
Record ready (o : Outside) (config : Bootstrap) : Prop := {
  st_dynamic : dns_dyn config <> None -> run_ok (config_client o);
  st_provider : storage_provider config = "mem";
  st_cluster : serves o (cluster_listener config);
  st_dns : dns_enable config = true ->
    map_Forall (fun k _ => IsValidIPAddress k = true) (rulesPTR (dns_part config))
    /\ serves_dns o (dns_listener config) /\ serves o (dns_http_listener config);
  st_http : serves o (http_listener config);
}.

(** The goroutines of a configuration. *)
Definition configured (config : Bootstrap) (g : Goroutine) : Prop :=
  match g with
  | ProcessSyncWorker_ | CheckPeerHealth_ | CheckPublishClients_ => True
  | PeerSyncWorker_ peer node => cluster_nodes config !! node = Some peer /\ node <> node_name config
  | ClusterListener addr => host_of (cluster_listener config) addr
  | DnsListener net addr => dns_enable config = true
      /\ exists u, Parse (dns_listener config) = Ok u /\ net = bytes_str (Scheme u) /\ addr = bytes_str (NetUrl.Host u)
  | DnsHttpListener addr => dns_enable config = true /\ host_of (dns_http_listener config) addr
  | HttpListener addr => host_of (http_listener config) addr
  end.

Definition startable (o : Outside) (config : Bootstrap) : Prop :=
  gops_Listen o = None /\ DecodeFile o = inl config /\ ready o config.

(** A computation that panics exactly when [P] is false. *)
Definition panics_unless {A} (P : Prop) (x : exec A) : Prop :=
  match x with Ok _ => P | Panic _ => ~ P | _ => False end.

Lemma panics_bind {A B} P Q R (x : exec A) (k : A -> exec B) :
  panics_unless P x -> (forall a, x = Ok a -> panics_unless Q (k a)) -> (R <-> P /\ Q) ->
  panics_unless R (ebind x k).
Proof.
  intros Hx Hk HR. destruct x as [a| | |]; cbn in *; [|done| |done].
  - specialize (Hk a eq_refl). destruct (k a); cbn in *; tauto.
  - tauto.
Qed.

Lemma serve_panics o addr : panics_unless (serves o addr) (serve o addr).
Proof.
  pose proof (Parse_returns addr) as Hr. unfold serve, serves, host_of.
  destruct (Parse addr) as [u| | |]; cbn in *; [| |done..].
  - destruct (http_ListenAndServe o (bytes_str (NetUrl.Host u))) eqn:E; cbn; [|by eauto].
    intros (h & (u' & [= <-] & ->) & ?). congruence.
  - by intros (h & (u & [=] & _) & _).
Qed.

Lemma serve_ok o addr host : serve o addr = Ok host -> host_of addr host.
Proof.
  unfold serve, host_of. destruct (Parse addr) as [u| | |]; try done. cbn [must ebind].
  destruct (must _); try done. intros [= <-]. by exists u.
Qed.

Lemma host_of_inj addr h h' : host_of addr h -> host_of addr h' -> h = h'.
Proof. intros (u & E & ->) (u' & E' & ->). congruence. Qed.

Lemma start_dynamic_panics o config :
  panics_unless (dns_dyn config <> None -> run_ok (config_client o)) (start_dynamic o config).
Proof.
  unfold start_dynamic. destruct (dns_dyn config) as [servers|]; [|done].
  pose proof (Startup_outcome (config_client o) (NewDnsDynConfStore servers)) as Ho.
  destruct (Startup _ _) as [[[]|e|msg|] d]; cbn in *; [done| | |done].
  - intros Hr. by apply Ho, Hr.
  - intros Hr. by apply (proj2 Ho), Hr.
Qed.

Lemma start_dns_panics config m :
  panics_unless (map_Forall (fun k _ => IsValidIPAddress k = true) (rulesPTR config)) (start_dns config m).1.
Proof.
  unfold start_dns, bind.
  destruct (decide (map_Forall (fun k _ => IsValidIPAddress k = true) (rulesPTR config))) as [Hv|Hv].
  - by destruct (load_rules_loaded config m Hv) as (ptr & -> & _).
  - by destruct (load_rules_fails config m Hv) as (m' & ->).
Qed.

Lemma start_endpoints_panics o config m :
  panics_unless (dns_enable config = true ->
    map_Forall (fun k _ => IsValidIPAddress k = true) (rulesPTR (dns_part config))
    /\ serves_dns o (dns_listener config) /\ serves o (dns_http_listener config)) (start_endpoints o config m).
Proof.
  unfold start_endpoints. destruct (dns_enable config); [|done].
  pose proof (start_dns_panics (dns_part config) m) as Hs. destruct (start_dns _ _) as [r m'].
  eapply (panics_bind _ (serves_dns o (dns_listener config) /\ serves o (dns_http_listener config)));
    [exact Hs| |naive_solver].
  intros d _. unfold serves_dns, serves, host_of, NewHttpDns.
  pose proof (Parse_returns (dns_listener config)) as Hz1.
  pose proof (Parse_returns (dns_http_listener config)) as Hz2.
  destruct (Parse (dns_listener config)) as [u| | |]; cbn in *; [|naive_solver|done..].
  destruct (Parse (dns_http_listener config)) as [u2| | |]; cbn in *; [|naive_solver|done..].
  destruct (dns_ListenAndServe _ _ _) eqn:E1; cbn; [naive_solver|].
  destruct (http_ListenAndServe _ _) eqn:E2; cbn; naive_solver.
Qed.

(** What each part of the start leaves. *)
Lemma start_endpoints_ok o config m m' dns rs :
  start_endpoints o config m = Ok (m', dns, rs) ->
  (if dns_enable config
   then (exists ptr, m' = loaded (dns_part config) ptr m)
     /\ dns <> None
     /\ exists net a b, rs = [DnsListener net a; DnsHttpListener b]
          /\ configured config (DnsListener net a) /\ configured config (DnsHttpListener b)
   else m' = m /\ dns = None /\ rs = []).
Proof.
  unfold start_endpoints. destruct (dns_enable config) eqn:Ed; [|naive_solver].
  unfold start_dns, bind.
  destruct (decide (map_Forall (fun k _ => IsValidIPAddress k = true) (rulesPTR (dns_part config)))) as [Hv|Hv].
  - destruct (load_rules_loaded (dns_part config) m Hv) as (ptr & -> & _). cbn [gets ebind fst snd]. unfold NewHttpDns.
    cbn [configured]. unfold host_of.
    destruct (Parse (dns_listener config)) as [u| | |]; try done. cbn [must ebind].
    destruct (Parse (dns_http_listener config)) as [u2| | |]; try done. cbn [must ebind].
    do 2 (destruct (must _); try done; cbn [ebind]). intros [= <- <- <-].
    split; [by eexists|]. split; [done|]. do 3 eexists. split; [reflexivity|]. naive_solver.
  - by destruct (load_rules_fails (dns_part config) m Hv) as (m0 & ->).
Qed.

Lemma StartSync_ok o listen h l :
  StartSync o listen h = Ok l ->
  exists host, host_of listen host
    /\ l = ProcessSyncWorker_ :: ((fun kv => PeerSyncWorker_ kv.2 kv.1) <$> range (NodePeerMapping h))
    ++ [CheckPeerHealth_; ClusterListener host].
Proof.
  unfold StartSync. destruct (serve o listen) as [host| | |] eqn:E; try done. intros [= <-].
  exists host. split; [by eapply serve_ok|done].
Qed.

Lemma start_panics o config : panics_unless (ready o config) (start o config).
Proof.
  unfold start.
  eapply (panics_bind _ (storage_provider config = "mem" /\ serves o (cluster_listener config)
    /\ (dns_enable config = true -> map_Forall (fun k _ => IsValidIPAddress k = true) (rulesPTR (dns_part config))
        /\ serves_dns o (dns_listener config) /\ serves o (dns_http_listener config))
    /\ serves o (http_listener config))); [apply start_dynamic_panics| |].
  - intros dyn _. eapply (panics_bind (storage_provider config = "mem")); [by destruct (String.eqb_spec (storage_provider config) "mem")| |reflexivity].
    intros m _. eapply (panics_bind (serves o (cluster_listener config))); [| |reflexivity].
    { unfold StartSync. eapply (panics_bind _ True); [apply serve_panics|done|]. tauto. }
    intros l _. eapply panics_bind; [apply start_endpoints_panics| |reflexivity].
    intros [[m' dns] rs] _. eapply (panics_bind _ True); [apply serve_panics|done|]. tauto.
  - split; [intros []; tauto|]. intros (? & ? & ? & ? & ?). by split.
Qed.

Lemma main_panics o : panics_unless (exists config, startable o config) (main o).
Proof.
  unfold main, startable.
  eapply (panics_bind (gops_Listen o = None) (exists config, DecodeFile o = inl config /\ ready o config));
    [by destruct (gops_Listen o)|intros _ _|naive_solver].
  destruct (DecodeFile o) as [c|e]; [|by intros (c & [=] & _)]. cbn.
  pose proof (start_panics o c) as Hs. destruct (start o c); cbn in *; try done; naive_solver.
Qed.

(** The store after the start. *)
Definition started_store (config : Bootstrap) (dyn : option DnsDynConfStore) (m : MemStore) : Prop :=
  if dns_enable config then exists ptr, m = loaded (dns_part config) ptr (NewMemStore (nested dyn))
  else m = NewMemStore (nested dyn).

Lemma peers_NoDup (m : gmap string string) :
  NoDup ((fun kv => PeerSyncWorker_ kv.2 kv.1) <$> range m).
Proof.
  apply (NoDup_fmap_1 (fun g => match g with PeerSyncWorker_ _ n => n | _ => EmptyString end)).
  rewrite <-list_fmap_compose. apply range_NoDup.
Qed.

(** The goroutines of the DNS part. *)
Definition dns_routines (config : Bootstrap) (rs : list Goroutine) : Prop :=
  if dns_enable config
  then exists net a b, rs = [DnsListener net a; DnsHttpListener b]
    /\ configured config (DnsListener net a) /\ configured config (DnsHttpListener b)
  else rs = [].

Definition all_routines (config : Bootstrap) (host host' : string) (rs : list Goroutine) : list Goroutine :=
  ProcessSyncWorker_
    :: ((fun kv => PeerSyncWorker_ kv.2 kv.1) <$> range (delete (node_name config) (cluster_nodes config)))
    ++ CheckPeerHealth_ :: ClusterListener host :: rs ++ [CheckPublishClients_; HttpListener host'].

Lemma goroutines_configured config host host' rs g :
  host_of (cluster_listener config) host -> host_of (http_listener config) host' -> dns_routines config rs ->
  g ∈ all_routines config host host' rs <-> configured config g.
Proof.
  intros Hh Hh' Hrs. unfold all_routines. rewrite elem_of_cons, elem_of_app, !elem_of_cons, elem_of_app.
  rewrite list_elem_of_fmap.
  assert (Hpeer : forall peer node, (exists kv : string * string, PeerSyncWorker_ peer node = PeerSyncWorker_ kv.2 kv.1
      /\ kv ∈ range (delete (node_name config) (cluster_nodes config)))
    <-> configured config (PeerSyncWorker_ peer node)).
  { intros peer node. cbn. split.
    - intros ([k v] & [= -> ->] & Hkv%elem_of_range). by apply lookup_delete_Some in Hkv as [? ?].
    - intros [Hk Hn]. exists (node, peer). split; [done|]. apply elem_of_range. by rewrite lookup_delete_ne. }
  assert (Hd : forall g, g ∈ rs -> configured config g /\ match g with DnsListener _ _ | DnsHttpListener _ => True | _ => False end).
  { unfold dns_routines in Hrs. destruct (dns_enable config); [|subst rs; by intros ? ?%elem_of_nil].
    destruct Hrs as (net & a & b & -> & Hz1 & Hz2). intros g'. rewrite elem_of_cons, list_elem_of_singleton.
    by intros [->| ->]. }
  assert (Hd' : forall g, configured config g -> match g with DnsListener _ _ | DnsHttpListener _ => g ∈ rs | _ => True end).
  { unfold dns_routines in Hrs. intros [| | | |net' a'|b'| |]; try done; cbn [configured]; intros [Hen Hx];
      rewrite Hen in Hrs; destruct Hrs as (net & a & b & -> & [_ Hz1] & [_ Hz2]).
    - destruct Hx as (u & E & -> & ->), Hz1 as (u' & E' & -> & ->). rewrite E in E'. injection E' as <-. set_solver.
    - rewrite (host_of_inj _ _ _ Hx Hz2). set_solver. }
  specialize (Hd g). specialize (Hd' g). specialize (Hpeer).
  destruct g as [|peer node| |a|net a|a| |a]; cbn [configured] in *.
  - naive_solver.
  - rewrite <-(Hpeer peer node). cbn [configured]. set_solver.
  - naive_solver.
  - split; [|intros Hx; rewrite (host_of_inj _ _ _ Hx Hh); naive_solver].
    intros [[=]|[(? & [=] & _)|[[=]|[[= ->]|[Hin|Hin]]]]]; [done|by destruct Hd|set_solver].
  - split; [|tauto]. intros [[=]|[(? & [=] & _)|[[=]|[[=]|[Hin|Hin]]]]]; [by apply Hd|set_solver].
  - split; [|tauto]. intros [[=]|[(? & [=] & _)|[[=]|[[=]|[Hin|Hin]]]]]; [by apply Hd|set_solver].
  - set_solver.
  - split; [|intros Hx; rewrite (host_of_inj _ _ _ Hx Hh'); set_solver].
    intros [[=]|[(? & [=] & _)|[[=]|[[=]|[Hin|Hin]]]]]; [by destruct Hd|].
    apply elem_of_cons in Hin as [[=]|Hin]. apply list_elem_of_singleton in Hin as [= ->]. done.
Qed.

(** No goroutine is started twice. *)
Lemma goroutines_NoDup config host host' rs :
  NoDup ((fun kv => PeerSyncWorker_ kv.2 kv.1) <$> range (delete (node_name config) (cluster_nodes config))) ->
  dns_routines config rs -> NoDup (all_routines config host host' rs).
Proof.
  intros Hnd Hrs. assert (Hrs' : rs = [] \/ exists net a b, rs = [DnsListener net a; DnsHttpListener b]).
  { unfold dns_routines in Hrs. destruct (dns_enable config); [right|by left].
    destruct Hrs as (net & a & b & -> & _). by do 3 eexists. }
  unfold all_routines. set (peers := _ <$> _) in *.
  assert (Hp : forall g, g ∈ peers -> exists a n, g = PeerSyncWorker_ a n)
    by (intros g (kv & -> & _)%list_elem_of_fmap; by do 2 eexists).
  rewrite NoDup_cons, NoDup_app.
  assert (Htail : forall g, g ∈ CheckPeerHealth_ :: ClusterListener host :: rs
      ++ [CheckPublishClients_; HttpListener host'] -> g <> ProcessSyncWorker_ /\ forall a n, g <> PeerSyncWorker_ a n)
    by (intros g; destruct Hrs' as [->|(net & a & b & ->)]; set_solver).
  split_and!; [|done| |].
  - rewrite elem_of_app. intros [Hin|Hin]; [by destruct (Hp _ Hin) as (a & n & [=])|by apply Htail in Hin as [? _]].
  - intros g Hg Hin. destruct (Hp _ Hg) as (a & n & ->). exact (proj2 (Htail _ Hin) a n eq_refl).
  - destruct Hrs' as [->|(net & a & b & ->)]; cbn; repeat (apply NoDup_cons; split; [set_solver|]); apply NoDup_nil_2.
Qed.

Lemma start_ok o config p :
  start o config = Ok p ->
  exists m, started_store config (dynamic p) m
    /\ server p = start_server (node_name config) (cluster_name config) (cluster_secret config)
         (cluster_nodes config) (http_enable_auth config) (http_access_password config) m
    /\ (upstream p = None <-> dns_enable config = false) /\ (dynamic p = None <-> dns_dyn config = None) /\ cache p = ∅
    /\ NoDup (goroutines p) /\ (forall g, g ∈ goroutines p <-> configured config g).
Proof.
  unfold start. destruct (start_dynamic o config) as [dyn| | |] eqn:Edyn; try done. cbn [ebind].
  destruct (String.eqb _ _); [|done]. cbn [ebind]. set (srv := start_server _ _ _ _ _ _).
  destruct (StartSync _ _ _) as [l| | |] eqn:El; try done. cbn [ebind].
  apply StartSync_ok in El as (host & Hhost & ->).
  destruct (start_endpoints _ _ _) as [[[m dns] rs]| | |] eqn:Eep; try done. cbn [ebind].
  apply start_endpoints_ok in Eep.
  destruct (serve o (http_listener config)) as [host'| | |] eqn:Eh; try done. apply serve_ok in Eh.
  cbn [ebind]. intros [= <-].
  cbn [server dynamic upstream cache goroutines]. exists m.
  assert (Hd : dyn = None <-> dns_dyn config = None).
  { unfold start_dynamic in Edyn. destruct (dns_dyn config); [|naive_solver].
    destruct (Startup _ _) as [r d]. destruct (must r); naive_solver. }
  assert (Hm : started_store config dyn m /\ (dns = None <-> dns_enable config = false)).
  { unfold started_store. destruct (dns_enable config); [|by destruct Eep as (-> & -> & _)].
    destruct Eep as (? & ? & _). split; [done|]. by split. }
  assert (Hrs : dns_routines config rs).
  { unfold dns_routines. destruct (dns_enable config); [apply Eep|]. apply Eep. }
  split; [apply Hm|]. split; [exact eq_refl|]. split; [apply Hm|]. split; [exact Hd|]. split; [exact eq_refl|].
  match goal with |- context [NoDup ?l] => replace l with (all_routines config host host' rs)
    by (unfold all_routines; cbn [app]; by rewrite <-!app_assoc) end. split.
  - apply goroutines_NoDup; [apply peers_NoDup|done].
  - intros g. exact (goroutines_configured config host host' rs g Hhost Eh Hrs).
Qed.



End Start.

(** ** The steps *)

Section Steps.
Context `{!MapRange, !DnsNames, !UnicodeData, !DnsLib} (nil : bool).
#[local] Instance steps_json : Json := go_json nil.

(** The cluster module and the registry leave the static domains. *)
Definition domains (m : MemStore) : gmap Z (gmap string string) := staticDomainMapping m.

Section Domains.
Context (sd : gmap Z (gmap string string)).
Definition same_domains (m : MemStore) : Prop := domains m = sd.
Definition same_ha (h : HaModule) : Prop := same_domains (Ha.Storage h).
Definition same_ep (e : HttpEndpoint) : Prop := same_domains (EpStorage e).

Lemma same_modify f : (forall m, domains (f m) = domains m) -> keeps same_domains (modify f).
Proof. intros Hf m Hm. by etransitivity; [apply Hf|]. Qed.

Hint Resolve same_modify : go.

Lemma same_publish s i : keeps same_domains (PublishService s i).
Proof. unfold PublishService. auto with go. Qed.

Lemma same_delete s i : keeps same_domains (DeleteService s i).
Proof. unfold DeleteService. auto with go. Qed.

Lemma same_full n : keeps same_domains (FetchFullAndWatch n).
Proof.
  unfold FetchFullAndWatch. apply keeps_bind; [|auto with go]. apply same_modify. intros m. by case_match.
Qed.

Lemma same_changes n : keeps same_domains (FetchChangesForPeerNodeRequest n).
Proof.
  unfold FetchChangesForPeerNodeRequest, marshal_pending. apply keeps_bind; [auto with go|]. intros m.
  destruct (dataTo m !! n); [|auto with go].
  do 2 (apply keeps_bind; [apply keeps_bind; [auto with go|intros []; auto with go]|intros ?]). auto with go.
Qed.

Lemma same_on_storage {A} (m : M MemStore A) : keeps same_domains m -> keeps same_ha (on_storage m).
Proof. intros Hm h Hh. unfold same_ha. rewrite on_storage_eq. by apply Hm. Qed.

Lemma same_on_store {A} (m : M MemStore A) : keeps same_domains m -> keeps same_ep (on_store m).
Proof. intros Hm e He. unfold on_store. specialize (Hm _ He). by destruct (m (EpStorage e)). Qed.

Lemma same_guarded now f r serve : keeps same_ha serve -> keeps same_ha (guarded now f r serve).
Proof.
  intros Hs. unfold guarded. destruct (String.eqb _ _); [auto with go|]. apply keeps_bind.
  - apply keeps_catch. unfold updateClientTime. apply keeps_bind; [auto with go|]. intros h.
    destruct (ClientPeerMapping h !! from r); [by apply keeps_modify|]. destruct f; [auto with go|].
    by apply keeps_modify.
  - intros []; [|auto with go]. apply keeps_bind; [auto with go|]. intros h. by destruct (_ || _); auto with go.
Qed.

Lemma same_drop l : keeps same_ep (drop_clients l).
Proof.
  induction l as [|[n c] l IH]; cbn [drop_clients]; [auto with go|]. apply keeps_bind.
  - induction (range (Publishment c)) as [|[s a] p IHp]; cbn [delete_published]; [auto with go|].
    apply keeps_bind; [apply keeps_catch, same_on_store, same_delete|done].
  - intros _. apply keeps_bind; [by apply keeps_modify|done].
Qed.

Definition good (n : Server) : Prop := same_ep (http n) /\ same_ha (ha n).

Lemma good_ha {A} (m : M HaModule A) n : keeps same_ha m -> good n -> good (on_ha m n).2.
Proof. intros Hm [He Hh]. unfold on_ha. specialize (Hm _ Hh). destruct (m (ha n)) as [r h]. by split. Qed.

Lemma good_http {A} (m : M HttpEndpoint A) n : keeps same_ep m -> good n -> good (on_http m n).2.
Proof. intros Hm [He Hh]. unfold on_http. specialize (Hm _ He). destruct (m (http n)) as [r e]. by split. Qed.

Lemma server_step_good n n' : server_step nil n n' -> good n -> good n'.
Proof.
  intros [now r m _|r m _ _|now r m fl1 fl2 _|r m|now m|now r m|now r m|now r m|now m|addr peer env ph m].
  - apply good_http. intros e He. rewrite publishService_eq. destruct (denied e r); [done|].
    by apply (same_on_store _ (same_publish _ _)).
  - apply (good_http (publish_store r)). apply same_on_store, same_publish.
  - apply (good_http (publish_client now r)). by apply keeps_modify.
  - apply good_http. intros e He. by rewrite queryService_state.
  - apply good_http. unfold CheckPublishClients. apply keeps_bind; [auto with go|]. intros e. apply same_drop.
  - apply good_ha, same_guarded. auto with go.
  - apply good_ha, same_guarded. apply keeps_bind; [apply keeps_catch, same_on_storage, same_full|].
    intros [d|]; [|auto with go]. destruct (Marshal_data d); auto with go.
  - apply good_ha, same_guarded. apply keeps_bind; [apply keeps_catch, same_on_storage, same_changes|].
    intros [[ad dl]|]; [|auto with go]. destruct (Marshal_changes ad dl); auto with go.
  - apply good_ha. unfold CheckPeerHealth. apply keeps_bind; [auto with go|]. intros h.
    apply keeps_bind; [|intros _; by apply keeps_modify]. apply same_on_storage.
    intros st Hst. cbn [snd]. revert st Hst.
    induction (fst <$> filter _ _) as [|d l IH]; intros st Hst; [done|]. by apply IH.
  - by apply good_ha, same_on_storage, frame_peer.
Qed.
End Domains.

(** What the steps of a process keep: the parts share the store's static
    domains, and whether DNS and the dynamic store are there. *)
Lemma process_step_keeps p p' sd :
  process_step nil p p' -> good sd (server p) ->
  good sd (server p') /\ upstream p' = upstream p /\ (dynamic p' = None <-> dynamic p = None).
Proof.
  intros [s q Hs|c q d d' Hd _|now r q d _|now q] Hg; cbn [server upstream dynamic with_server with_dynamic with_cache];
    split; try done; [by eapply server_step_good|].
  rewrite Hd. naive_solver.
Qed.

Lemma process_reach_keeps p p' sd :
  rtc (process_step nil) p p' -> good sd (server p) ->
  good sd (server p') /\ upstream p' = upstream p /\ (dynamic p' = None <-> dynamic p = None).
Proof.
  intros Hr Hg. induction Hr as [p|p q p' Hs _ IH]; [done|].
  destruct (process_step_keeps _ _ _ Hs Hg) as (Hg' & Hu & Hd). destruct (IH Hg') as (? & Hu' & Hd').
  split_and!; [done|by rewrite Hu'|]. by rewrite Hd'.
Qed.

(** A lookup in the store of a reachable process: the static rules of the
    configuration, then the dynamic store. *)
Lemma reachable_lookup o config p0 p x t :
  start o config = Ok p0 -> dns_enable config = true -> rtc (process_step nil) p0 p ->
  (exists u, endpoint p = Some (mkDns (storage_of (current p)) u)) /\
  exists ptr, storage_of (current p) x t
    = match static (loaded (dns_part config) ptr (NewMemStore [])) t (ToLower x) with
      | Some v => Ok v
      | None => resolve_nested (nested (dynamic p)) (ToLower x) t
      end.
Proof.
  intros Hs Hdns Hr. destruct (start_ok _ _ _ Hs) as (m & Hm & Hsrv & Hup & _).
  unfold started_store in Hm. rewrite Hdns in Hm. destruct Hm as (ptr & ->).
  assert (Hg : good (domains (loaded (dns_part config) ptr (NewMemStore (nested (dynamic p0))))) (server p0))
    by (rewrite Hsrv; done).
  destruct (process_reach_keeps _ _ _ Hr Hg) as ([_ Hh] & Hu & _). split.
  - unfold endpoint. rewrite Hu. destruct (upstream p0) as [u|]; [by exists u|]. rewrite (proj1 Hup eq_refl) in Hdns. done.
  - exists ptr. rewrite ResolveDomain_static.
    assert (E : static (current p) t (ToLower x) = static (loaded (dns_part config) ptr (NewMemStore [])) t (ToLower x)).
    { transitivity (static (loaded (dns_part config) ptr (NewMemStore (nested (dynamic p0)))) t (ToLower x)).
      - unfold static. change (staticDomainMapping (current p)) with (domains (Ha.Storage (ha (server p)))).
        by rewrite Hh.
      - by rewrite !static_loaded. }
    by rewrite E.
Qed.
End Steps.

(** ** Properties *)


Section Answers.
Context `{!MapRange, !DnsNames, !UnicodeData, !DnsLib} (nil : bool).

Lemma main_start o config p :
  main o = Ok p -> DecodeFile o = inl config -> start o config = Ok p.
Proof. unfold main. intros Hm Hd. rewrite Hd in Hm. by destruct (must (returned (gops_Listen o))). Qed.

Lemma storage_type_cases qtype :
  storage_type qtype ∈ [DomainTypeA; DomainTypeTxt; DomainTypeSrv; DomainTypeAAAA] \/ storage_type qtype = DomainTypePtr.
Proof. unfold storage_type. repeat case_match; (by right) || (left; set_solver). Qed.

Lemma table_of_plain c ptr t :
  t ∈ [DomainTypeA; DomainTypeTxt; DomainTypeSrv; DomainTypeAAAA] ->
  table_of (mkRes (fill (cA c)) (fill (cTXT c)) (fill (cSRV c)) ptr (fill (cAAAA c))) t = fill (conf_of c t).
Proof. intros Ht. repeat (apply elem_of_cons in Ht as [->|Ht]; [reflexivity|]). by apply elem_of_nil in Ht. Qed.

(** A change that is accepted is what the dynamic store answers. *)
Lemma change_found `{!UnicodeLaws _} c d t x k v :
  conf_ok c -> t ∈ [DomainTypeA; DomainTypeTxt; DomainTypeSrv; DomainTypeAAAA] ->
  conf_of c t !! k = Some v -> Fqdn (ToLower k) = ToLower x ->
  (forall k' v', conf_of c t !! k' = Some v' -> Fqdn (ToLower k') = ToLower x -> k' = k) ->
  exists d', onChange c d = (Ok tt, d') /\ resolve_nested (nested (Some d')) (ToLower x) t = Ok v.
Proof.
  intros Hc Ht Hk Hx Huniq. destruct (process_ok c d Hc) as (ptr & E).
  eexists. split; [by rewrite onChange_eq|]. cbn [nested resolve_nested].
  unfold DnsDyn.ResolveDomain, bind, DnsDyn.onChange, get. cbn [container with_container].
  rewrite ToLower_idem, table_of_plain by done.
  pose proof (fill_lookup (conf_of c t) (ToLower x)) as Hl.
  destruct (fill (conf_of c t) !! ToLower x) as [v'|].
  - destruct Hl as (k' & Hk' & Hx'). rewrite (Huniq k' v' Hk' Hx') in Hk'. cbn. congruence.
  - by destruct (Hl k v).
Qed.
End Answers.

(** C5. Static rules win: in every state the running process can reach -
    through publications, peers, DNS requests and changes of the dynamic
    records - a question for the name of a plain rule of the configuration file,
    the only rule of that name, is answered with exactly the record of its value,
    if the value makes a record and nothing is cached for the question. *)
Theorem static_rule_answered `{!MapRange, !DnsNames, !UnicodeData, !DnsLib} `{!DnsLibLaws _}
    nil o config p0 p now q r k v rr :
  main o = Ok p0 -> DecodeFile o = inl config -> dns_enable config = true ->
  rtc (process_step nil) p0 p ->
  storage_type (Qtype q) <> DomainTypePtr ->
  rules_of (dns_part config) (storage_type (Qtype q)) !! k = Some v -> Fqdn (ToLower k) = ToLower (Name q) ->
  (forall k' v', rules_of (dns_part config) (storage_type (Qtype q)) !! k' = Some v' ->
     Fqdn (ToLower k') = ToLower (Name q) -> k' = k) ->
  static_record (Qtype q) (Name q) v = Some rr ->
  Questions r = [q] -> cache p !! (ToLower (Fqdn (Name q)) +:+ "::" +:+ pretty (Qtype q)) = None ->
  exists d reply c', endpoint p = Some d /\ ServeDNS now d r (cache p) = (Ok (Some reply), c')
    /\ Rcode reply = RcodeSuccess /\ Questions reply = [q] /\ Answer reply = [rr].
Proof.
  intros Hm Hf Hd Hr Ht Hk Hx Huniq Hrr Hq Hc.
  destruct (reachable_lookup nil o config p0 p (Name q) (storage_type (Qtype q)) (main_start _ _ _ Hm Hf) Hd Hr)
    as ((u & Hu) & ptr & Hs).
  rewrite (rule_found _ _ _ _ _ k v) in Hs by done.
  do 3 eexists. split; [exact Hu|]. split; [eapply ServeDNS_static; [exact Hq|exact Hc|exact Hs|exact Hrr]|].
  split_and!; [apply reply_rcode|by apply (reply_question _ _ q [])|done].
Qed.

(** C13. Dynamic records are live: in every state the running process can reach,
    a configuration with valid reverse records that arrives from the
    configuration service is accepted, and the next question for one of its
    names - the only one of that name, and no static rule of the type has it - is
    answered with exactly the record of its value, if the value makes a record
    and nothing is cached for the question. *)
Theorem dynamic_record_answered `{!MapRange, !DnsNames, !UnicodeData, !DnsLib} `{!DnsLibLaws _, !UnicodeLaws _}
    nil o config p0 p d c now q r k v rr :
  main o = Ok p0 -> DecodeFile o = inl config -> dns_enable config = true ->
  rtc (process_step nil) p0 p -> dynamic p = Some d -> conf_ok c ->
  storage_type (Qtype q) <> DomainTypePtr ->
  (forall k' v', rules_of (dns_part config) (storage_type (Qtype q)) !! k' = Some v' ->
     Fqdn (ToLower k') <> ToLower (Name q)) ->
  conf_of c (storage_type (Qtype q)) !! k = Some v -> Fqdn (ToLower k) = ToLower (Name q) ->
  (forall k' v', conf_of c (storage_type (Qtype q)) !! k' = Some v' ->
     Fqdn (ToLower k') = ToLower (Name q) -> k' = k) ->
  static_record (Qtype q) (Name q) v = Some rr ->
  Questions r = [q] -> cache p !! (ToLower (Fqdn (Name q)) +:+ "::" +:+ pretty (Qtype q)) = None ->
  exists d' e reply c', onChange c d = (Ok tt, d') /\ process_step nil p (with_dynamic d' p)
    /\ endpoint (with_dynamic d' p) = Some e /\ ServeDNS now e r (cache p) = (Ok (Some reply), c')
    /\ Rcode reply = RcodeSuccess /\ Questions reply = [q] /\ Answer reply = [rr].
Proof.
  intros Hm Hf Hd Hr Hdyn Hc Ht Hno Hk Hx Huniq Hrr Hq Hnc.
  destruct (storage_type_cases (Qtype q)) as [Htc|]; [|done].
  destruct (change_found c d _ (Name q) k v Hc Htc Hk Hx Huniq) as (d' & Ed & Eres).
  assert (Hstep : process_step nil p (with_dynamic d' p)) by by econstructor.
  destruct (reachable_lookup nil o config p0 (with_dynamic d' p) (Name q) (storage_type (Qtype q))
    (main_start _ _ _ Hm Hf) Hd (rtc_r _ _ _ Hr Hstep)) as ((u & Hu) & ptr & Hs).
  rewrite no_rule in Hs by done. cbn [dynamic with_dynamic] in Hs. rewrite Eres in Hs.
  do 4 eexists. split; [exact Ed|]. split; [exact Hstep|]. split; [exact Hu|].
  split; [eapply ServeDNS_static; [exact Hq|exact Hnc|exact Hs|exact Hrr]|].
  split_and!; [apply reply_rcode|by apply (reply_question _ _ q [])|done].
Qed.

(** C28. Peers are called where the store says they are: for an address made of a
    scheme, a host name, an optional port and an optional path of plain
    characters, [innerUrlResolve] puts the stored address of the host - itself of
    plain characters - in its place and keeps the rest; when the lookup fails the
    address is unchanged.  (Without a port the colon is still written.) *)
Theorem innerUrlResolve_address `{!DnsNames, !UnicodeData} a scheme host port path m :
  plain_address scheme host port path -> codes a = NetUrl.address scheme host port path ->
  match storage_of m (Fqdn (bytes_str host)) DomainTypeA with
  | Ok r => Forall (fun c => host_char c = true) (codes r) ->
      innerUrlResolve a m
      = (Ok (bytes_str (scheme ++ [58; 47; 47] ++ codes r ++ (58 :: drop 1 port) ++ path)), m)
  | Fail _ => innerUrlResolve a m = (Ok a, m)
  | _ => True
  end.
Proof.
  intros Hpl Ea. unfold innerUrlResolve. rewrite (Parse_plain _ _ _ _ _ Hpl Ea).
  destruct (Hostname_plain _ _ _ _ Hpl) as [Eh Ep]. rewrite Eh, Ep.
  unfold storage_of. assert (Hst : (MemStore.ResolveDomain (Fqdn (bytes_str host)) DomainTypeA m).2 = m).
  { unfold MemStore.ResolveDomain, bind, get, lift. by repeat case_match. }
  destruct (MemStore.ResolveDomain _ _ m) as [[r|e|msg|] m'] eqn:Er; cbn [fst snd] in *; subst m'; try done.
  - intros Hr. rewrite (bind_ok _ _ _ _ _ (catch_ok _ _ _ _ Er)). unfold ret. repeat f_equal.
    unfold URL_String. rewrite !codes_append. rewrite text_plain; [|done|by destruct (codes r)].
    assert (Hport : codes (bytes_str (drop 1 port)) = drop 1 port).
    { apply codes_bytes_str, Forall_drop. eapply Forall_impl; [exact (port_chars _ _ _ _ Hpl)|].
      intros c Hc. by apply port_char_bound. }
    rewrite Hport, escape_literal; [by rewrite <-!app_assoc|].
    apply (safe_literal _ marks), Forall_app. split; [|apply Forall_cons; split; [done|]].
    + apply (all_safe_weaken _ (58 :: marks)); [set_solver|]. eapply Forall_impl; [exact Hr|]. apply host_char_safe.
    + apply Forall_drop. eapply Forall_impl; [exact (port_chars _ _ _ _ Hpl)|]. apply port_char_safe.
  - rewrite (bind_ok _ _ _ _ _ (catch_fail _ _ _ _ Er)). unfold ret. repeat f_equal.
    by apply (URL_String_plain scheme host port path).
Qed.

(** ** The sample configuration (bootstrap.toml.example), but for its SRV rule *)

Definition sample_dns : Main.Config :=
  mkConfig {["node1.example.dns" := "127.0.0.1"]} {["node1.example.dns" := "Hello World"]} ∅
    {["8.8.8.8" := "demo1.example.com"]} ["192.168.1.111"]
    [("A", "exclude.example.com"); ("AAAA", "exclude.example.com"); ("PTR", "10.in-addr.arpa");
     ("PTR", "168.192.in-addr.arpa"); ("PTR", "d.f.ip6.arpa")].

Definition sample : Bootstrap :=
  mkBootstrap "mem" "example_cluster" "Pa$sw0rd" "node1.example.dns" "http://0.0.0.0:18081"
    {["node1.example.dns" := "http://node1.example.dns:18081"; "node2.example.dns" := "http://node2.example.dns:18081"]}
    true "udp://0.0.0.0:8053" "tcp://0.0.0.0:8153" sample_dns (Some ["http://127.0.0.1:8800"])
    "tcp://0.0.0.0:18080" true "Pa$sw0rd".

Definition quiet_run : ClientRun := mkRun None None None [conf1] None (fun _ => None).
Definition sample_outside : Outside := mkOutside None (inl sample) quiet_run (fun _ => None) (fun _ _ => None).

Lemma sample_serves addr host :
  host_of addr host -> serves sample_outside addr.
Proof. intros Hh. exists host. by split. Qed.

Lemma sample_hosts :
  host_of "http://0.0.0.0:18081" "0.0.0.0:18081" /\ host_of "tcp://0.0.0.0:8153" "0.0.0.0:8153"
  /\ host_of "tcp://0.0.0.0:18080" "0.0.0.0:18080".
Proof. split_and!; eexists; split; vm_compute; reflexivity. Qed.

Lemma sample_startable : startable sample_outside sample.
Proof.
  destruct sample_hosts as (P1 & P2 & P3). split; [reflexivity|]. split; [reflexivity|]. split.
  - intros _. unfold run_ok. split_and!; try reflexivity. apply Forall_singleton. intros k v Hk.
    cbn [cPTR conf1] in Hk. apply lookup_singleton_Some in Hk as [<- <-]. vm_compute. reflexivity.
  - reflexivity.
  - exact (sample_serves _ _ P1).
  - intros _. split; [|split; [|exact (sample_serves _ _ P2)]].
    + intros k v Hk. cbn [rulesPTR dns_part sample sample_dns] in Hk.
      apply lookup_singleton_Some in Hk as [<- <-]. vm_compute. reflexivity.
    + eexists. split; [vm_compute; reflexivity|reflexivity].
  - exact (sample_serves _ _ P3).
Qed.


(** The process it starts, and a state of it. *)
Definition sample_process : Process :=
  match main sample_outside with Ok p => p | _ => mkProcess node_a None None ∅ [] end.

Lemma sample_main : main sample_outside = Ok sample_process.
Proof.
  unfold sample_process. pose proof (main_panics sample_outside) as Hm.
  destruct (main sample_outside) as [p| | |]; [done|done| |done].
  destruct Hm. exists sample. apply sample_startable.
Qed.

Lemma sample_cache : cache sample_process = ∅.
Proof.
  destruct (start_ok sample_outside sample sample_process) as (m & _ & _ & _ & _ & E & _); [|exact E].
  apply (main_start sample_outside); [apply sample_main|reflexivity].
Qed.

Lemma static_rule_answered_witness :
  exists d reply c', endpoint sample_process = Some d
    /\ ServeDNS 100 d (ask "NODE1.example.dns." TypeA) (cache sample_process) = (Ok (Some reply), c')
    /\ Rcode reply = RcodeSuccess /\ Questions reply = [mkQuestion "NODE1.example.dns." TypeA]
    /\ Answer reply = [RR_A (mkHdr "NODE1.example.dns." TypeA ClassINET 3600) (ParseIP "127.0.0.1")].
Proof.
  apply (static_rule_answered true sample_outside sample sample_process sample_process 100
    (mkQuestion "NODE1.example.dns." TypeA) (ask "NODE1.example.dns." TypeA) "node1.example.dns" "127.0.0.1").
  - apply sample_main.
  - reflexivity.
  - reflexivity.
  - apply rtc_refl.
  - discriminate.
  - reflexivity.
  - vm_compute. reflexivity.
  - intros k' v' Hk _. change (({["node1.example.dns" := "127.0.0.1"]} : table) !! k' = Some v') in Hk.
    apply lookup_singleton_Some in Hk as [<- _]. reflexivity.
  - reflexivity.
  - reflexivity.
  - rewrite sample_cache. apply lookup_empty.
Defined.

(** The dynamic store of the process, and a change it gets. *)
Definition sample_dynamic : DnsDynConfStore :=
  default (NewDnsDynConfStore []) (dynamic sample_process).

Lemma sample_has_dynamic : dynamic sample_process = Some sample_dynamic.
Proof.
  unfold sample_dynamic. destruct (start_ok sample_outside sample sample_process) as (m & _ & _ & _ & Hd & _).
  { apply (main_start sample_outside); [apply sample_main|reflexivity]. }
  destruct (dynamic sample_process); [done|]. discriminate (proj1 Hd eq_refl).
Qed.

Lemma dynamic_record_answered_witness :
  exists d' e reply c', onChange conf1 sample_dynamic = (Ok tt, d')
    /\ process_step true sample_process (with_dynamic d' sample_process)
    /\ endpoint (with_dynamic d' sample_process) = Some e
    /\ ServeDNS 100 e (ask "db.LAN." TypeA) (cache sample_process) = (Ok (Some reply), c')
    /\ Rcode reply = RcodeSuccess /\ Questions reply = [mkQuestion "db.LAN." TypeA]
    /\ Answer reply = [RR_A (mkHdr "db.LAN." TypeA ClassINET 3600) (ParseIP "10.0.0.7")].
Proof.
  apply (dynamic_record_answered true sample_outside sample sample_process sample_process sample_dynamic conf1 100
    (mkQuestion "db.LAN." TypeA) (ask "db.LAN." TypeA) "Db.Lan" "10.0.0.7").
  - apply sample_main.
  - reflexivity.
  - reflexivity.
  - apply rtc_refl.
  - apply sample_has_dynamic.
  - intros k v Hk. cbn [cPTR conf1] in Hk. apply lookup_singleton_Some in Hk as [<- <-]. vm_compute. reflexivity.
  - discriminate.
  - intros k' v' Hk. change (({["node1.example.dns" := "127.0.0.1"]} : table) !! k' = Some v') in Hk.
    apply lookup_singleton_Some in Hk as [<- _]. vm_compute. discriminate.
  - apply lookup_singleton_eq.
  - vm_compute. reflexivity.
  - intros k' v' Hk _. change (({["Db.Lan" := "10.0.0.7"]} : table) !! k' = Some v') in Hk.
    apply lookup_singleton_Some in Hk as [<- _]. reflexivity.
  - reflexivity.
  - reflexivity.
  - rewrite sample_cache. apply lookup_empty.
Defined.

(** The peer of the sample, called at its static address. *)
Definition sample_store : MemStore := (load_rules sample_dns (NewMemStore [])).2.

Lemma innerUrlResolve_address_witness :
  innerUrlResolve "http://node1.example.dns:18081" sample_store = (Ok "http://127.0.0.1:18081", sample_store).
Proof.
  pose proof (innerUrlResolve_address "http://node1.example.dns:18081" (codes "http")
    (codes "node1.example.dns") (codes ":18081") [] sample_store) as H.
  assert (Es : storage_of sample_store (Fqdn (bytes_str (codes "node1.example.dns"))) DomainTypeA = Ok "127.0.0.1")
    by (vm_compute; reflexivity).
  rewrite Es in H. apply H.
  - split; [split; [discriminate|repeat constructor]|split; [discriminate|repeat constructor]|reflexivity|].
    split; [by left|constructor].
  - reflexivity.
  - repeat constructor.
Defined.
